(* ===== verification/_CoqProject ===== *)
-Q . S2P
Prelude.v
TxTypes.v
SenderQueue.v
Pool.v
PoolInv.v
PoolOps.v
PoolProps.v
PoolBuild.v
StateDb.v
Validator.v
Bytes.v
Text.v
Hex.v
Changes.v
Encoding.v
QmdbStore.v
QmdbState.v
Restart.v
StateRoot.v
Backend.v
Executor.v
Execute.v
Codec.v
Block.v
Commitment.v
Layers.v
QmdbLedger.v
Snapshots.v
Chain.v
Ledger.v
LedgerSteps.v
LedgerQmdb.v
NodeState.v
App.v
AppProps.v
Indexer.v
Reporters.v
Finality.v
Recovery.v
Divergence.v
Gossip.v
Consensus.v
Dkg.v
DkgParticipant.v
DkgCeremony.v
DkgRestart.v
DkgLive.v
Rpc.v
Filters.v
Float.v
Fees.v
Eth.v
EthProps.v
RateLimit.v
NetAddr.v
Json.v
Config.v
Transport.v
Genesis.v
Keygen.v
Cli.v
Devnet.v
DevnetStart.v
Loadgen.v
Limits.v
RpcServer.v
Subscription.v
Scratch.v
Archive.v
