(* ===== verification/Prelude.v ===== *)
(** * A verification of the kora node

    kora is a blockchain node: transactions enter over JSON-RPC or gossip into a
    pool, a simplex consensus engine asks the application for blocks and for
    verdicts on blocks, blocks are executed with REVM over a ledger of
    snapshots, finalized blocks are persisted to a QMDB store in three
    partitions, indexed for queries and acknowledged to the marshal, and a
    restarted node recovers from the archives of finalized blocks.  The keys of
    the validators come from a distributed key generation or, on a devnet, from
    a dealer.  A command line reads configuration, keys, peers and genesis from
    files and starts the node; a load generator drives it over JSON-RPC.

    The development is a shallow embedding: a function of the code is a
    function here, a struct a record, an enum an inductive type.  A [HashMap]
    is a [gmap], iterated in the order of [map_to_list]; a [Result] is
    [result], an operation that changes its receiver returns the new state;
    a panic is [None].  Integers are [Z]; where the width shows, the operation
    writes it out ([wrapping_add], [saturating_add], ...).  Locks are held for
    the length of a definition, so a definition is an atomic step; where the
    code releases a lock in between, the parts are separate definitions and a
    step relation interleaves them (LedgerSteps).  Clocks are arguments.  The
    file system is a map from paths to contents with a set of paths that cannot
    be written, threaded through the commands by a small monad (Json); the
    write of a validator's key can also be cut short.

    ** Which file models what (paths below src/crates, binaries below src/bin)

    - Prelude: integers, results, ordering and sorting, binary search, lists.
      Text, Hex, NetAddr and Json: what the code uses of the standard library's
      strings and socket addresses, of hexadecimal text and of serde values.
    - Transaction pool, node/txpool: TxTypes (config.rs, error.rs, and tx.rs and
      events.rs of node/domain), SenderQueue (ordering.rs), Pool (pool.rs);
      PoolInv, PoolOps, PoolProps and PoolBuild prove its properties;
      Validator (validator.rs).
    - State storage: StateDb (storage/traits), Changes (changes.rs of
      storage/qmdb, overlay.rs of storage/overlay), Encoding and Bytes
      (encoding.rs), QmdbStore (store.rs, batch.rs, traits.rs), QmdbState
      (storage/handlers), Restart (interrupted commits), StateRoot (root.rs),
      Backend (storage/backend), QmdbLedger (storage/qmdb-ledger).
    - Execution, node/executor: Executor (header rules, base fee), Execute
      (the execution loop, receipts, calls, gas estimation).
    - Blocks and codecs, node/domain: Codec, Block (block.rs), Commitment
      (commitment.rs).
    - Ledger, node/ledger: Layers and Chain (states as answers, trees of
      blocks), Snapshots (components/snapshot.rs of node/consensus), Ledger
      (lib.rs, live_state.rs), LedgerSteps (interleavings), LedgerQmdb (the
      QMDB ledger as its database).
    - Consensus: NodeState (state.rs of node/rpc), App and AppProps (app.rs of
      node/runner, execution.rs of node/consensus), Consensus (the generic
      components of node/consensus), Reporters and Finality (node/reporters),
      Indexer (storage/indexer).
    - Node: Recovery (commit_marker.rs and the recovery of runner.rs), Gossip
      (gossip and submission in runner.rs), Divergence (where verification,
      finalization and replay differ), Scratch (no_sync_storage.rs), Archive
      (archive.rs of network/marshal).
    - Key generation, node/dkg: Dkg (sessions and messages), DkgParticipant
      (the protocol), DkgCeremony (persistence, output, network envelopes,
      phases), DkgRestart and DkgLive.
    - JSON-RPC, node/rpc: Rpc (types, errors, providers), Filters (filters.rs),
      Float (doubles), Fees (gas oracle and fee history), Eth (the methods of
      eth.rs and txpool.rs), EthProps, RateLimit (the limiters of server.rs),
      Subscription (subscription.rs), RpcServer (config.rs and the start of
      server.rs).
    - Settings and network: Config (node/config), Transport (network/transport
      and network/transport-sim), Limits (what the pool admits and the proposer
      selects against the sizes of messages).
    - Commands: Genesis (bootstrap.rs of node/domain), Keygen (setup.rs and
      dkg_deal.rs of bin/keygen), Cli (cli.rs of bin/kora, scheme.rs and
      run_standalone of node/runner), Devnet and DevnetStart (their
      composition), Loadgen (bin/loadgen).

    ** What the theorems show

    - The pool keeps its invariant under every sequence of operations
      ([pool_reachable]); each operation has its exact effect
      ([pool_add_outcome], [mempool_prune_correct]); its events replay to its
      contents; blocks are built greedily ([mempool_build_greedy]); a sender's
      queue refines a map from nonces ([sq_run_refines]).
    - A commit to QMDB refines the update of an abstract state
      ([commit_refines]); what it keeps of the reads through an overlay, and
      what not where accounts are selfdestructed ([commit_transparent]); a
      commit interrupted between partitions is detected at the next start
      ([commit_crash_detected], [ledger_restart]); state roots and block
      digests bind what they digest, up to collisions of the hash.
    - The ledger refines a tree of blocks under every interleaving of
      execution, insertion and persistence ([ledger_refines]), persistence
      returns on every path ([persist_snapshot_outcome]).
    - Verification decides by execution ([verify_block_decides]) and accepts
      honest proposals ([honest_proposal_accepted]); acknowledged blocks are on
      disk where the ledger has a snapshot of the block or its parent, also
      over a database that a failed commit breaks ([acked_on_disk]); recovery replays the tail of the archive
      ([recovery_replays]); the index refines the map of retained blocks
      ([index_refines]).
    - A key generation among honest participants, a quorum of whom
      acknowledges the dealing in time, completes ([ceremony_completes]);
      participants keep what its sender sent, replace nothing and verify logs
      ([participant_reachable]), ignore other ceremonies ([replay_inert]);
      messages are read back ([message_roundtrip]).
    - The eth namespace bounds its cache of pending transactions and its
      filters report what they promise ([api_reachable],
      [pending_filter_exact], [log_filter_poll]); the fee history predicts the
      base fee the executor will require ([fee_history_predicts]).
    - Archives: what a successful sync leaves at risk
      ([checkpoint_sync_durable], [in_order_durability]); scratch blobs behave
      as files ([scratch_blob_is_file]).
    - A configuration that loads can be saved and loaded again
      ([config_saves_and_loads]); a validator's key is made once, and what a
      failed write of it leaves is refused ([validator_key_stable]); what the setup and the dealer write is what
      every validator, secondary peer and key generation of the network starts
      from ([devnet_setup], [devnet_validators_start],
      [devnet_secondary_start], [devnet_dkg_start]).
    - Both builders of the transport register the same channels
      ([provider_builds_transport]); simulated nodes are linked pairwise
      ([connect_all_links]); the RPC server's method table is always built
      ([rpc_start_serves]).
    - A load test counts each transaction once, submits no more at a time than
      its limit, and ends ([loadgen_accounting], [loadgen_ends]); its nonce
      queries are outside that limit ([requests_exceed_concurrency]).
    - A transaction is accepted exactly by the stated rules, and an error names
      a broken one ([validate_accepts]).
    - Some theorems state behaviour that the code's comments do not promise or
      contradict: [finalized_without_parent], [submitted_never_broadcast],
      [restart_times_out], [request_logs_once], [bounded_filter_fails],
      [one_client_exhausts_all], [in_order_durability],
      [pool_events_not_announced], [block_outgrows_message],
      [dialable_host_rejected], [send_to_one_endpoint],
      [single_addr_one_server], and the theorems of Divergence.

    ** Code outside the repository

    Third-party code is a class of operations; what is relied on is a class of
    laws or a hypothesis, and an instance shows that the laws can hold:
    [External] (keccak256, envelope decoding, signature recovery), [Revm] and
    [RevmLaws], [CwDb] and [CwLaws] (the databases of commonware-storage below
    [Partition]), [Codec] and
    [CodecLaws], [Sha256], [AlloyConsensus], [DkgLib] and [DkgLaws] (the
    joint-Feldman library, ed25519: a dealer that is closed with a quorum of
    acknowledgements gives a good log, a player that took part and has good logs
    of all dealers finishes), [Display] (text of addresses and hashes),
    [ArchiveOps] and [ArchiveLaws], [StorageOps], [AlloyText] and
    [GenesisText] (text of addresses and amounts), [JsonOrder], [TomlText] and
    [DocText] (objects of serde_json, integers of TOML, the bytes of a document), [KeySeed] (keys from seeds),
    [DealLib] and [SchemeLib] (dealt shares and the threshold scheme),
    [HostnameLib], [Discovery] and [SimNetwork] (the networks of commonware),
    [LoadgenKeys], [CodecSizes], [HttpText], [MethodTable] and [NetStack]
    (header syntax, jsonrpsee's table, the host's sockets).  Interfaces between the
    node's own parts are classes too: [StateDbRead], [LedgerDb] with
    [LedgerDbFailures] (how its commits fail; QMDB is an instance),
    [BlockExecutor], [BlockContextProvider], [MempoolOps], [StateProvider].

    ** Fuel and bounds

    - [bsearch_loop] has the length of the list as fuel, which halving does not
      use up.
    - The eviction loops of the pool have the count they decrease as fuel
      ([evict_loop_pending_le], [evict_loop_queued_le]).
    - Walks over snapshots have one step more than there are snapshots
      ([walk_fuel]); [changes_for_persist_total] shows that this suffices where
      parents precede children.
    - [fresh_id] tries as many identifiers as there are filters and one more,
      so that one of them is free.
    - Gas estimation halves its interval at most 25 times, as the code does.
    - Doubles are Stdlib's SpecFloat with 53 bits of precision.

    ** Not modelled

    - Logging, tracing, timing and the registration of metrics: no effect on
      the state.
    - The initialisers of the marshal, its resolvers and broadcast engines
      (network/marshal, apart from the archive), node/service, node/builder
      and node/simplex: they configure and connect commonware actors, whose
      code is not in the repository.
    - The node's start function beyond its parts above, its watchdog and
      monitor tasks: spawning and I/O.
    - The standalone JSON-RPC server of node/rpc and the authenticated
      transport of node/dkg, which nothing in the repository starts.
    - Signing and HTTP in the load generator, permission bits of key files, the
      logging utilities and the end-to-end harness. *)
From Stdlib Require Export ZArith Lia.
From stdpp Require Export sorting strings base gmap list_numbers option list.

#[export] Set Default Proof Using "Type".

Open Scope Z_scope.

(** ** Machine integers *)

(** Rust's fixed-width unsigned integers, and the 20- and 32-byte identifiers
    of alloy (ordered bytewise, that is, as big-endian integers), are
    integers; the width shows in the operations and in the range predicates. *)
Abbreviation u8 := Z (only parsing).
Abbreviation u16 := Z (only parsing).
Abbreviation u32 := Z (only parsing).
Abbreviation u64 := Z (only parsing).
Abbreviation u128 := Z (only parsing).
Abbreviation usize := Z (only parsing).
Abbreviation U256 := Z (only parsing).
Abbreviation B256 := Z (only parsing).
Abbreviation Address := Z (only parsing).
Abbreviation bytes := (list Z) (only parsing).

Definition pow2 (w : Z) : Z := 2 ^ w.
Definition u64_max : Z := 18446744073709551615.
Definition u128_max : Z := 340282366920938463463374607431768211455.
Definition u256_max : Z := 2 ^ 256 - 1.

(** [x] is a value of a [w]-bit unsigned integer. *)
Definition in_width (w x : Z) : Prop := 0 <= x < 2 ^ w.

(** Wrapping, saturating and checked arithmetic at a width given by its
    largest value. *)
Definition wrap (max x : Z) : Z := x `mod` (max + 1).
Definition wrapping_add (max a b : Z) : Z := wrap max (a + b).
Definition saturating_add (max a b : Z) : Z := Z.min max (a + b).
Definition saturating_sub (a b : Z) : Z := Z.max 0 (a - b).
Definition saturating_mul (max a b : Z) : Z := Z.min max (a * b).
Definition checked_div (a b : Z) : option Z :=
  if Z.eqb b 0 then None else Some (a `div` b).

(** The cast of an unsigned value to [i64]. *)
Definition as_i64 (x : Z) : Z := (x + 2 ^ 63) `mod` 2 ^ 64 - 2 ^ 63.

(** The length of a list as a [usize]. *)
Definition len {A} (l : list A) : Z := Z.of_nat (length l).

(** ** Fallible code *)

(** Rust's [Result]. *)
Inductive result (T E : Type) : Type :=
| Ok (x : T)
| Err (e : E).
Arguments Ok {T E} x.
Arguments Err {T E} e.

Definition is_ok {T E} (r : result T E) : bool :=
  match r with Ok _ => true | Err _ => false end.

Definition map_err {T E F} (f : E -> F) (r : result T E) : result T F :=
  match r with Ok x => Ok x | Err e => Err (f e) end.

Definition ok {T E} (r : result T E) : option T :=
  match r with Ok x => Some x | Err _ => None end.

(** [Option::is_some]. *)
Definition is_some {A} (o : option A) : bool :=
  match o with Some _ => true | None => false end.

Definition ok_or {T E} (o : option T) (e : E) : result T E :=
  match o with Some x => Ok x | None => Err e end.

Declare Scope kora_scope.
Delimit Scope kora_scope with kora.

(** Rust's [?] operator. *)
Notation "'let?' x ':=' c 'in' k" :=
  (match c with Ok x => k | Err e => Err e end)
  (at level 10, x pattern, c at level 100, k at level 200) : kora_scope.

Open Scope kora_scope.

(** ** Comparison of keys, minimum and stable sort *)

(** [Ordering::then_with]. *)
Definition then_with (c d : comparison) : comparison :=
  match c with Eq => d | _ => c end.

(** [Iterator::min_by]: the first of the least elements. *)
Definition min_by {A} (cmp : A -> A -> comparison) (l : list A) : option A :=
  match l with
  | [] => None
  | x :: l => Some (foldl (fun m y => match cmp m y with Gt => y | _ => m end) x l)
  end.

(** [slice::sort_by]: a stable sort. *)
Fixpoint sort_insert {A} (cmp : A -> A -> comparison) (x : A) (l : list A) : list A :=
  match l with
  | [] => [x]
  | y :: l' =>
      match cmp x y with
      | Gt => y :: sort_insert cmp x l'
      | _ => x :: y :: l'
      end
  end.

Fixpoint sort_by {A} (cmp : A -> A -> comparison) (l : list A) : list A :=
  match l with
  | [] => []
  | x :: l' => sort_insert cmp x (sort_by cmp l')
  end.

(** [Iterator::position]. *)
Fixpoint position {A} (p : A -> bool) (l : list A) : option nat :=
  match l with
  | [] => None
  | x :: l' => if p x then Some O else S <$> position p l'
  end.

(** [Vec::remove] at an index in range. *)
Definition vec_remove {A} (i : nat) (l : list A) : list A := take i l ++ drop (S i) l.

(** [Vec::insert] at an index at most the length. *)
Definition vec_insert {A} (i : nat) (x : A) (l : list A) : list A :=
  take i l ++ x :: drop i l.

(** [slice::binary_search_by] of the standard library: [f] compares an
    element with the key.  [inl i] is [Ok i], [inr i] is [Err i].  The loop
    halves [size] while it exceeds one, so the length is fuel enough. *)
Fixpoint bsearch_loop {A} (fuel : nat) (f : A -> comparison) (l : list A)
    (base size : nat) : nat :=
  match fuel with
  | O => base
  | S fuel =>
      if Nat.leb size 1 then base
      else
        let half := Nat.div2 size in
        let mid := (base + half)%nat in
        let base' :=
          match f <$> l !! mid with Some Gt => base | _ => mid end in
        bsearch_loop fuel f l base' (size - half)%nat
  end.

Definition binary_search_by {A} (f : A -> comparison) (l : list A) : nat + nat :=
  match l with
  | [] => inr O
  | _ =>
      let base := bsearch_loop (length l) f l O (length l) in
      match f <$> l !! base with
      | Some Eq => inl base
      | Some Lt => inr (S base)
      | _ => inr base
      end
  end.

(** The iteration of a [BTreeMap] with integer keys, in ascending order. *)
Definition btree {A} (m : gmap Z A) : list (Z * A) :=
  sort_by (fun a b => Z.compare a.1 b.1) (map_to_list m).

(** Sum of a list of integers. *)
Definition sum_Z (l : list Z) : Z := foldr Z.add 0 l.

(** ** Orders given by comparison functions *)

Definition cmp_on {A B} (f : A -> B) (cmp : B -> B -> comparison) (x y : A) : comparison :=
  cmp (f x) (f y).
Definition cmp_rev {A} (cmp : A -> A -> comparison) (x y : A) : comparison := cmp y x.
Definition cmp_lex {A} (c d : A -> A -> comparison) (x y : A) : comparison :=
  then_with (c x y) (d x y).
Definition cmp_le {A} (cmp : A -> A -> comparison) (x y : A) : Prop := cmp x y <> Gt.

(** A comparison function that is a total preorder. *)
Class CmpOrder {A} (cmp : A -> A -> comparison) : Prop := {
  cmp_opp : forall x y, cmp y x = CompOpp (cmp x y);
  cmp_trans : forall x y z, cmp_le cmp x y -> cmp_le cmp y z -> cmp_le cmp x z;
}.

Arguments cmp_opp {A} cmp {_} x y.
Arguments cmp_trans {A} cmp {_} x y z _ _.

#[export] Typeclasses Opaque cmp_on cmp_rev cmp_lex.
#[export] Hint Mode CmpOrder - ! : typeclass_instances.

(** ** Tactics *)

(** Splits the conditionals and matches of the code in the goal and in the
    hypotheses, keeping the equations. *)
Ltac case_code :=
  repeat match goal with
  | H : context [match ?x with _ => _ end] |- _ => destruct x eqn:?
  | |- context [match ?x with _ => _ end] => destruct x eqn:?
  end.

(** Turns boolean tests into the propositions they decide. *)
Ltac bool_props :=
  repeat match goal with
  | H : _ && _ = true |- _ => apply andb_true_iff in H as [? ?]
  | H : _ || _ = false |- _ => apply orb_false_iff in H as [? ?]
  | H : negb _ = true |- _ => apply negb_true_iff in H
  | H : negb _ = false |- _ => apply negb_false_iff in H
  | H : Z.eqb _ _ = true |- _ => apply Z.eqb_eq in H
  | H : Z.eqb _ _ = false |- _ => apply Z.eqb_neq in H
  | H : Z.ltb _ _ = true |- _ => apply Z.ltb_lt in H
  | H : Z.ltb _ _ = false |- _ => apply Z.ltb_ge in H
  | H : Z.leb _ _ = true |- _ => apply Z.leb_le in H
  | H : Z.leb _ _ = false |- _ => apply Z.leb_gt in H
  | H : bool_decide _ = true |- _ => apply bool_decide_eq_true in H
  | H : bool_decide _ = false |- _ => apply bool_decide_eq_false in H
  end.

Create HintDb kora.
Create Rewrite HintDb kora.

(** ** Lemmas: comparisons *)

#[export] Instance Z_compare_order : CmpOrder Z.compare.
Proof.
  split.
  - intros x y. apply Z.compare_antisym.
  - unfold cmp_le. intros x y z H1 H2. change (x <= z). etrans; [exact H1|exact H2].
Qed.

#[export] Instance cmp_on_order {A B} (f : A -> B) cmp `{!CmpOrder cmp} :
  CmpOrder (cmp_on f cmp).
Proof.
  split; unfold cmp_on.
  - intros x y. apply (cmp_opp cmp).
  - intros x y z. apply (cmp_trans cmp (f x) (f y) (f z)).
Qed.

#[export] Instance cmp_rev_order {A} (cmp : A -> A -> comparison) `{!CmpOrder cmp} :
  CmpOrder (cmp_rev cmp).
Proof.
  split; unfold cmp_rev.
  - intros x y. apply (cmp_opp cmp).
  - unfold cmp_le. intros x y z H1 H2. by apply (cmp_trans cmp z y x).
Qed.

Lemma cmp_le_opp {A} (cmp : A -> A -> comparison) `{!CmpOrder cmp} x y :
  cmp_le cmp x y <-> cmp y x <> Lt.
Proof.
  unfold cmp_le. rewrite (cmp_opp cmp x y). destruct (cmp x y); simpl; intuition congruence.
Qed.

Lemma cmp_lt_le_trans {A} (cmp : A -> A -> comparison) `{!CmpOrder cmp} x y z :
  cmp x y = Lt -> cmp_le cmp y z -> cmp x z = Lt.
Proof.
  intros H1 H2.
  destruct (cmp x z) eqn:E; [|done|].
  - assert (cmp_le cmp z x) as H3 by (unfold cmp_le; rewrite (cmp_opp cmp x z), E; done).
    destruct (cmp_trans cmp _ _ _ H2 H3). by rewrite (cmp_opp cmp x y), H1.
  - destruct (cmp_trans cmp x y z); [by unfold cmp_le; rewrite H1|done|done].
Qed.

Lemma cmp_le_lt_trans {A} (cmp : A -> A -> comparison) `{!CmpOrder cmp} x y z :
  cmp_le cmp x y -> cmp y z = Lt -> cmp x z = Lt.
Proof.
  intros H1 H2.
  destruct (cmp x z) eqn:E; [|done|].
  - assert (cmp_le cmp z x) as H3 by (unfold cmp_le; rewrite (cmp_opp cmp x z), E; done).
    destruct (cmp_trans cmp _ _ _ H3 H1). by rewrite (cmp_opp cmp y z), H2.
  - destruct (cmp_trans cmp x y z); [done|by unfold cmp_le; rewrite H2|done].
Qed.

#[export] Instance cmp_lex_order {A} (c d : A -> A -> comparison)
  `{!CmpOrder c} `{!CmpOrder d} : CmpOrder (cmp_lex c d).
Proof.
  split; unfold cmp_lex.
  - intros x y. rewrite (cmp_opp c x y), (cmp_opp d x y).
    by destruct (c x y), (d x y).
  - unfold cmp_le. intros x y z H1 H2.
    destruct (c x y) eqn:E1; simpl in H1; [| |done].
    + destruct (c y z) eqn:E2; simpl in H2; [| |done].
      * assert (c x z = Eq) as ->; [|by apply (cmp_trans d x y z)].
        assert (cmp_le c x z) as H0 by (apply (cmp_trans c x y z); unfold cmp_le; congruence).
        assert (cmp_le c z x) as H.
        { apply (cmp_trans c z y x); unfold cmp_le;
            [rewrite (cmp_opp c y z), E2|rewrite (cmp_opp c x y), E1]; done. }
        unfold cmp_le in *. rewrite (cmp_opp c x z) in H. by destruct (c x z).
      * rewrite (cmp_le_lt_trans c x y z); [done|unfold cmp_le; congruence|done].
    + rewrite (cmp_lt_le_trans c x y z); [done|done|].
      unfold cmp_le. by destruct (c y z).
Qed.

(** ** Lemmas: minimum *)

Lemma min_by_fold_spec {A} (cmp : A -> A -> comparison) `{!CmpOrder cmp} l m :
  let r := foldl (fun m y => match cmp m y with Gt => y | _ => m end) m l in
  (r = m \/ r ∈ l) /\ cmp_le cmp r m /\ Forall (cmp_le cmp r) l.
Proof.
  revert m. induction l as [|y l IH]; intros m; simpl.
  { split_and!; [by left| |by constructor].
    unfold cmp_le. pose proof (cmp_opp cmp m m). by destruct (cmp m m). }
  destruct (IH (match cmp m y with Gt => y | _ => m end)) as (Hin & Hle & Hall).
  set (r := foldl _ _ l) in *. clearbody r.
  assert (cmp_le cmp (match cmp m y with Gt => y | _ => m end) m
    /\ cmp_le cmp (match cmp m y with Gt => y | _ => m end) y) as [Hm Hy].
  { destruct (cmp m y) eqn:E; split; apply cmp_le_opp; try (rewrite E; done);
      try (pose proof (cmp_opp cmp m m) as Ho; by destruct (cmp m m));
      try (rewrite (cmp_opp cmp m y), E; done).
    pose proof (cmp_opp cmp y y) as Ho. by destruct (cmp y y). }
  split_and!.
  - destruct Hin as [->|?]; [|right; by right].
    destruct (cmp m y); [by left|by left|right; by left].
  - by eapply (cmp_trans cmp).
  - constructor; [by eapply (cmp_trans cmp)|done].
Qed.

Lemma min_by_elem {A} (cmp : A -> A -> comparison) `{!CmpOrder cmp} l x :
  min_by cmp l = Some x -> x ∈ l.
Proof.
  destruct l as [|y l]; simpl; [done|]. intros [= <-].
  destruct (min_by_fold_spec cmp l y) as ([->|H] & _); set_solver.
Qed.

Lemma min_by_le {A} (cmp : A -> A -> comparison) `{!CmpOrder cmp} l x y :
  min_by cmp l = Some x -> y ∈ l -> cmp_le cmp x y.
Proof.
  destruct l as [|z l]; simpl; [done|]. intros [= <-] Hy.
  destruct (min_by_fold_spec cmp l z) as (_ & Hz & Hall).
  apply elem_of_cons in Hy as [->|Hy]; [exact Hz|].
  eapply Forall_forall in Hall; [exact Hall|done].
Qed.

Lemma min_by_None {A} (cmp : A -> A -> comparison) l : min_by cmp l = None <-> l = [].
Proof. by destruct l. Qed.

(** The choice of [min_by] does not depend on the order in which the elements
    are visited when the comparison separates them. *)
Lemma min_by_perm {A} (cmp : A -> A -> comparison) `{!CmpOrder cmp} l l' :
  (forall x y, x ∈ l -> y ∈ l -> cmp x y = Eq -> x = y) ->
  l ≡ₚ l' -> min_by cmp l = min_by cmp l'.
Proof.
  intros Hinj Hp.
  destruct (min_by cmp l) as [x|] eqn:E1, (min_by cmp l') as [y|] eqn:E2.
  - f_equal. pose proof (min_by_elem _ _ _ E1) as Hx.
    pose proof (min_by_elem _ _ _ E2) as Hy. rewrite <- Hp in Hy.
    apply Hinj; [done|done|].
    pose proof (min_by_le _ _ _ y E1 Hy) as H1.
    assert (x ∈ l') as Hx' by (by rewrite <- Hp).
    pose proof (min_by_le _ _ _ x E2 Hx') as H2.
    unfold cmp_le in *. rewrite (cmp_opp cmp x y) in H2. by destruct (cmp x y).
  - apply min_by_None in E2 as ->. symmetry in Hp.
    apply Permutation_nil_l in Hp as <-. done.
  - apply min_by_None in E1 as ->. apply Permutation_nil_l in Hp as <-. done.
  - done.
Qed.

(** ** Lemmas: stable sort *)

Lemma sort_insert_perm {A} (cmp : A -> A -> comparison) x l :
  sort_insert cmp x l ≡ₚ x :: l.
Proof.
  induction l as [|y l IH]; simpl; [done|].
  destruct (cmp x y); [done|done|]. rewrite IH. apply Permutation_swap.
Qed.

Lemma sort_by_perm {A} (cmp : A -> A -> comparison) l : sort_by cmp l ≡ₚ l.
Proof.
  induction l as [|x l IH]; simpl; [done|]. by rewrite sort_insert_perm, IH.
Qed.

Lemma sort_by_sorted {A} (cmp : A -> A -> comparison) `{!CmpOrder cmp} l :
  StronglySorted (cmp_le cmp) (sort_by cmp l).
Proof.
  induction l as [|x l IH]; simpl; [constructor|].
  induction IH as [|y l' Hs IHs Hall]; simpl; [repeat constructor|].
  destruct (cmp x y) eqn:E.
  1, 2: assert (cmp_le cmp x y) as Hxy by (unfold cmp_le; congruence);
    constructor; [by constructor|constructor; [done|]];
    eapply Forall_impl; [exact Hall|]; intros z Hz; by eapply (cmp_trans cmp).
  constructor; [done|]. rewrite sort_insert_perm. constructor; [|done].
  apply (cmp_le_opp cmp). by rewrite E.
Qed.

(** The sorted order is unique when the comparison separates the elements. *)
Lemma sort_by_perm_eq {A} (cmp : A -> A -> comparison) `{!CmpOrder cmp} l l' :
  (forall x y, x ∈ l -> y ∈ l -> cmp x y = Eq -> x = y) ->
  l ≡ₚ l' -> sort_by cmp l = sort_by cmp l'.
Proof.
  intros Hinj Hp. apply (StronglySorted_unique_strong (cmp_le cmp)).
  - intros x y Hx Hy H1 H2. rewrite sort_by_perm in Hx. rewrite sort_by_perm, <- Hp in Hy. apply Hinj; [done|done|].
    unfold cmp_le in *. rewrite (cmp_opp cmp x y) in H2. by destruct (cmp x y).
  - by apply sort_by_sorted.
  - by apply sort_by_sorted.
  - by rewrite !sort_by_perm.
Qed.

(** ** Lemmas: positions, removal and insertion *)

Lemma position_Some {A} (p : A -> bool) l i :
  position p l = Some i <->
  (exists x, l !! i = Some x /\ p x = true)
  /\ forall j y, (j < i)%nat -> l !! j = Some y -> p y = false.
Proof.
  revert i. induction l as [|x l IH]; intros i; simpl.
  { split; [done|]. intros [(y & Hy & _) _]. by rewrite lookup_nil in Hy. }
  destruct (p x) eqn:E.
  - split.
    + intros [= <-]. split; [by exists x|]. intros j y Hj. lia.
    + intros [_ H]. destruct i as [|i]; [done|].
      specialize (H O x ltac:(lia) eq_refl). congruence.
  - destruct i as [|i]; simpl.
    + split; [by destruct (position p l)|]. intros [(y & [= <-] & Hy) _]. congruence.
    + transitivity (position p l = Some i).
      { destruct (position p l); simpl; naive_solver. }
      rewrite IH. split; intros [H1 H2]; (split; [exact H1|]).
      * intros [|j] y Hj Hy; simpl in Hy; [congruence|]. apply (H2 j); [lia|done].
      * intros j y Hj Hy. apply (H2 (S j)); [lia|done].
Qed.

Lemma position_None {A} (p : A -> bool) l :
  position p l = None <-> Forall (fun x => p x = false) l.
Proof.
  induction l as [|x l IH]; simpl; [by split|].
  rewrite Forall_cons, <- IH. destruct (p x), (position p l); simpl; naive_solver.
Qed.

Lemma take_drop_cons {A} (l : list A) i x :
  l !! i = Some x -> l = take i l ++ x :: drop (S i) l.
Proof. intros H. by rewrite take_drop_middle. Qed.

Lemma vec_remove_perm {A} (l : list A) i x :
  l !! i = Some x -> l ≡ₚ x :: vec_remove i l.
Proof.
  intros H. unfold vec_remove. rewrite (take_drop_cons l i x H) at 1.
  by rewrite Permutation_middle.
Qed.

Lemma vec_insert_perm {A} (l : list A) i x : vec_insert i x l ≡ₚ x :: l.
Proof.
  unfold vec_insert. rewrite <- Permutation_middle, take_drop. done.
Qed.

(** ** Lemmas: binary search *)

(** [l] is strictly sorted with respect to the key that [f] compares with. *)
Definition bsearch_sorted {A} (f : A -> comparison) (l : list A) : Prop :=
  forall i j a b, (i < j)%nat -> l !! i = Some a -> l !! j = Some b ->
  f a <> Lt -> f b = Gt.

Lemma bsearch_loop_spec {A} (f : A -> comparison) (l : list A) :
  bsearch_sorted f l ->
  forall fuel base size,
  (size <= fuel)%nat -> (1 <= size)%nat -> (base + size <= length l)%nat ->
  (base = O \/ exists a, l !! base = Some a /\ f a <> Gt) ->
  (forall j b, (base + size <= j)%nat -> l !! j = Some b -> f b = Gt) ->
  let r := bsearch_loop fuel f l base size in
  (r < length l)%nat
  /\ (r = O \/ exists a, l !! r = Some a /\ f a <> Gt)
  /\ (forall j b, (r < j)%nat -> l !! j = Some b -> f b = Gt).
Proof.
  intros Hsort. induction fuel as [|fuel IH]; intros base size Hf Hs Hb Hlo Hhi; [lia|].
  simpl. destruct (Nat.leb_spec size 1) as [H1|H1].
  { split_and!; [lia|done|]. intros j b Hj. apply Hhi. lia. }
  assert (0 < Nat.div2 size /\ 2 * Nat.div2 size <= size)%nat as Hd.
  { pose proof (Nat.div2_odd size) as Ho. revert Ho.
    generalize (Nat.div2 size). intros h. destruct (Nat.odd size); simpl; lia. }
  generalize dependent (Nat.div2 size). intros half Hd.
  destruct (l !! (base + half)%nat) as [m|] eqn:Em;
    [|apply lookup_ge_None in Em; lia].
  simpl. destruct (f m) eqn:Ef; apply IH; try lia; try done.
  1, 3: right; exists m; rewrite Ef; done.
  1, 2: intros j b Hj; apply Hhi; lia.
  intros j b Hj Hjb. destruct (decide (j = (base + half)%nat)) as [->|Hne].
  - rewrite Em in Hjb. injection Hjb as <-. done.
  - apply (Hsort (base + half)%nat j m b); [lia|done|done|congruence].
Qed.

(** On a strictly sorted slice the search finds the element with the key, or
    the only position where it can be inserted. *)
Lemma binary_search_by_spec {A} (f : A -> comparison) (l : list A) :
  bsearch_sorted f l ->
  match binary_search_by f l with
  | inl i => exists x, l !! i = Some x /\ f x = Eq
  | inr i => (i <= length l)%nat
      /\ (forall j x, (j < i)%nat -> l !! j = Some x -> f x = Lt)
      /\ (forall j x, (i <= j)%nat -> l !! j = Some x -> f x = Gt)
  end.
Proof.
  intros Hsort. destruct l as [|x0 l0] eqn:El.
  { simpl. split_and!; [lia| |]; intros j x _; by rewrite lookup_nil. }
  rewrite <- El in *.
  replace (binary_search_by f l) with
    (let base := bsearch_loop (length l) f l O (length l) in
     match f <$> l !! base with
     | Some Eq => inl base | Some Lt => inr (S base) | _ => inr base end)
    by (subst l; reflexivity).
  cbv zeta.
  destruct (bsearch_loop_spec f l Hsort (length l) O (length l)) as (Hr & Hlo & Hhi);
    [lia|by subst l; simpl; lia|lia|by left| |].
  { intros j b Hj Hb. apply lookup_lt_Some in Hb. lia. }
  set (r := bsearch_loop _ _ _ _ _) in *. clearbody r.
  destruct (l !! r) as [a|] eqn:Ea; [|apply lookup_ge_None in Ea; lia].
  assert (forall j x, (j < r)%nat -> l !! j = Some x -> f a <> Gt -> f x = Lt) as Hlt.
  { intros j x Hj Hx Ha. destruct (f x) eqn:Efx; [|done|];
      destruct Ha; apply (Hsort j r x a); congruence || done. }
  simpl. destruct (f a) eqn:Efa; [by exists a| |].
  - split_and!; [lia| |].
    + intros j x Hj Hx. destruct (decide (j = r)) as [->|Hne]; [congruence|].
      apply (Hlt j); [lia|done|done].
    + intros j x Hj. apply Hhi. lia.
  - destruct Hlo as [->|(b & Hb & Hg)]; [|congruence]. split_and!; [lia|lia|].
    intros j x Hj Hx. destruct (decide (j = O)) as [->|Hne]; [congruence|].
    apply (Hhi j); [lia|done].
Qed.

(** ** Lemmas: ordered maps *)

Lemma btree_perm {A} (m : gmap Z A) : btree m ≡ₚ map_to_list m.
Proof. apply sort_by_perm. Qed.

Lemma elem_of_btree {A} (m : gmap Z A) k v : (k, v) ∈ btree m <-> m !! k = Some v.
Proof. by rewrite btree_perm, elem_of_map_to_list. Qed.

Lemma btree_NoDup_fst {A} (m : gmap Z A) : NoDup (btree m).*1.
Proof. rewrite btree_perm. apply NoDup_fst_map_to_list. Qed.

Lemma btree_to_map {A} (m : gmap Z A) : list_to_map (btree m) = m.
Proof.
  rewrite <- (list_to_map_to_list m) at 2.
  apply list_to_map_proper; [apply btree_NoDup_fst|apply btree_perm].
Qed.

Lemma btree_inj {A} (m m' : gmap Z A) : btree m = btree m' -> m = m'.
Proof. intros H. by rewrite <- (btree_to_map m), H, btree_to_map. Qed.

Lemma btree_length {A} (m : gmap Z A) : length (btree m) = size m.
Proof. by rewrite btree_perm, length_map_to_list. Qed.

#[export] Instance fst_cmp_order {A} : CmpOrder (fun a b : Z * A => Z.compare a.1 b.1).
Proof. apply (cmp_on_order fst Z.compare). Qed.

(** The keys of the iteration are strictly ascending. *)
Lemma btree_sorted {A} (m : gmap Z A) : StronglySorted (fun a b => a.1 < b.1) (btree m).
Proof.
  pose proof (sort_by_sorted (fun a b : Z * A => Z.compare a.1 b.1) (map_to_list m)) as Hs.
  pose proof (btree_NoDup_fst m) as Hnd. unfold btree in *.
  induction Hs as [|x l Hs IH Hall]; [constructor|].
  rewrite fmap_cons in Hnd. apply NoDup_cons in Hnd as [Hni Hnd]. constructor; [by apply IH|].
  apply Forall_forall. intros y Hy. eapply Forall_forall in Hall; [|exact Hy].
  assert (x.1 <= y.1) by exact Hall.
  assert (x.1 <> y.1); [|lia]. intros He. apply Hni. rewrite He. by apply list_elem_of_fmap_2.
Qed.

(** A loop that updates the entry of each key of another map visits every key
    once, so it acts key by key. *)
Lemma foldl_keyed_lookup {A B} (f : gmap Z A -> Z * B -> gmap Z A)
    (g : option A -> B -> option A) (l : list (Z * B)) (m : gmap Z A) k :
  (forall m k v, f m (k, v) !! k = g (m !! k) v) ->
  (forall m k v j, j <> k -> f m (k, v) !! j = m !! j) ->
  NoDup l.*1 ->
  foldl f m l !! k =
    match (list_to_map l : gmap Z B) !! k with
    | Some v => g (m !! k) v
    | None => m !! k
    end.
Proof.
  intros Hg Hf. revert m. induction l as [|[j v] l IH]; intros m Hnd; simpl.
  { by rewrite lookup_empty. }
  rewrite fmap_cons in Hnd. apply NoDup_cons in Hnd as [Hni Hnd].
  rewrite IH by done. destruct (decide (k = j)) as [->|Hne].
  - rewrite lookup_insert_eq, Hg.
    by rewrite (not_elem_of_list_to_map_1 l j Hni).
  - rewrite lookup_insert_ne by done. rewrite Hf by done. done.
Qed.

(** ** Lemmas: filters *)

Lemma Forall_filter_sub {A} (P Q : A -> Prop) `{!forall x, Decision (P x)} l :
  Forall Q l -> Forall Q (filter P l).
Proof.
  rewrite !Forall_forall. intros HQ x [_ Hx]%list_elem_of_filter. by apply HQ.
Qed.

Lemma list_filter_all {A} (P : A -> Prop) `{!forall x, Decision (P x)} l :
  Forall P l -> filter P l = l.
Proof.
  induction 1 as [|x l Hx _ IH]; [done|]. by rewrite filter_cons, decide_True, IH.
Qed.

Lemma list_filter_none {A} (P : A -> Prop) `{!forall x, Decision (P x)} l :
  Forall (fun x => ~ P x) l -> filter P l = [].
Proof.
  induction 1 as [|x l Hx _ IH]; [done|]. by rewrite filter_cons, decide_False, IH.
Qed.

(** ** Lemmas: sums and lengths *)

Lemma sum_Z_cons x l : sum_Z (x :: l) = x + sum_Z l.
Proof. done. Qed.

Lemma sum_Z_app l k : sum_Z (l ++ k) = sum_Z l + sum_Z k.
Proof. unfold sum_Z. induction l as [|x l IH]; simpl; lia. Qed.

#[export] Instance sum_Z_perm : Proper ((≡ₚ) ==> (=)) sum_Z.
Proof. intros l k H. unfold sum_Z. induction H; simpl; lia. Qed.

Lemma sum_Z_nonneg l : Forall (fun x => 0 <= x) l -> 0 <= sum_Z l.
Proof. unfold sum_Z. induction 1; simpl; lia. Qed.

Lemma elem_le_sum x l : Forall (fun y => 0 <= y) l -> x ∈ l -> x <= sum_Z l.
Proof.
  intros Hl. induction Hl as [|y l Hy Hl IH]; [set_solver|].
  rewrite sum_Z_cons. pose proof (sum_Z_nonneg l Hl).
  intros [->|Hx]%elem_of_cons; [lia|]. specialize (IH Hx). lia.
Qed.

Lemma len_nonneg {A} (l : list A) : 0 <= len l.
Proof. unfold len. lia. Qed.

Lemma len_app {A} (l k : list A) : len (l ++ k) = len l + len k.
Proof. unfold len. rewrite length_app. lia. Qed.

Lemma len_cons {A} (x : A) l : len (x :: l) = len l + 1.
Proof. unfold len. simpl length. lia. Qed.

Lemma len_nil {A} : len (@nil A) = 0.
Proof. done. Qed.

#[export] Hint Rewrite @len_app @len_cons @len_nil sum_Z_app sum_Z_cons : kora.
#[export] Hint Resolve len_nonneg : kora.
