(* ===== verification/TxTypes.v ===== *)
(** Transactions, pool configuration, pool errors and mempool events: the data
    shared by the transaction pool, the validator and the executor
    (crates/node/txpool/src/config.rs and error.rs,
    crates/node/domain/src/tx.rs and events.rs), and the interface to the
    third-party code they call (keccak256, the EIP-2718 and commonware codecs,
    signature recovery). *)
From S2P Require Import Prelude.

(** ** Transaction envelopes

    The five kinds of envelope the code matches on, with the fields it reads. *)

Record AccessListItem := mkAccessListItem {
  al_address : Address;
  al_storage_keys : list B256;
}.

Record Signature := mkSignature { sig_r : U256; sig_s : U256; sig_v : bool }.

Record TxLegacy := mkTxLegacy {
  leg_chain_id : option u64; leg_nonce : u64; leg_gas_price : u128;
  leg_gas_limit : u64; leg_to : option Address; leg_value : U256; leg_input : bytes;
}.

Record TxEip2930 := mkTxEip2930 {
  e2930_chain_id : u64; e2930_nonce : u64; e2930_gas_price : u128;
  e2930_gas_limit : u64; e2930_to : option Address; e2930_value : U256;
  e2930_access_list : list AccessListItem; e2930_input : bytes;
}.

Record TxEip1559 := mkTxEip1559 {
  e1559_chain_id : u64; e1559_nonce : u64; e1559_gas_limit : u64;
  e1559_max_fee_per_gas : u128; e1559_max_priority_fee_per_gas : u128;
  e1559_to : option Address; e1559_value : U256;
  e1559_access_list : list AccessListItem; e1559_input : bytes;
}.

Record TxEip4844 := mkTxEip4844 {
  e4844_chain_id : u64; e4844_nonce : u64; e4844_gas_limit : u64;
  e4844_max_fee_per_gas : u128; e4844_max_priority_fee_per_gas : u128;
  e4844_to : Address; e4844_value : U256;
  e4844_access_list : list AccessListItem; e4844_input : bytes;
  e4844_max_fee_per_blob_gas : u128; e4844_blob_versioned_hashes : list B256;
}.

Record SignedAuthorization := mkSignedAuthorization {
  sa_chain_id : U256; sa_address : Address; sa_nonce : u64; sa_signature : Signature;
}.

Record TxEip7702 := mkTxEip7702 {
  e7702_chain_id : u64; e7702_nonce : u64; e7702_gas_limit : u64;
  e7702_max_fee_per_gas : u128; e7702_max_priority_fee_per_gas : u128;
  e7702_to : Address; e7702_value : U256;
  e7702_access_list : list AccessListItem; e7702_input : bytes;
  e7702_authorization_list : list SignedAuthorization;
}.

Inductive TxEnvelope : Type :=
| Legacy (tx : TxLegacy) (sg : Signature)
| Eip2930 (tx : TxEip2930) (sg : Signature)
| Eip1559 (tx : TxEip1559) (sg : Signature)
| Eip4844 (tx : TxEip4844) (sg : Signature)
| Eip7702 (tx : TxEip7702) (sg : Signature).

#[export] Instance AccessListItem_eq_dec : EqDecision AccessListItem.
Proof. solve_decision. Defined.
#[export] Instance Signature_eq_dec : EqDecision Signature.
Proof. solve_decision. Defined.
#[export] Instance TxLegacy_eq_dec : EqDecision TxLegacy.
Proof. solve_decision. Defined.
#[export] Instance TxEip2930_eq_dec : EqDecision TxEip2930.
Proof. solve_decision. Defined.
#[export] Instance TxEip1559_eq_dec : EqDecision TxEip1559.
Proof. solve_decision. Defined.
#[export] Instance TxEip4844_eq_dec : EqDecision TxEip4844.
Proof. solve_decision. Defined.
#[export] Instance SignedAuthorization_eq_dec : EqDecision SignedAuthorization.
Proof. solve_decision. Defined.
#[export] Instance TxEip7702_eq_dec : EqDecision TxEip7702.
Proof. solve_decision. Defined.
#[export] Instance TxEnvelope_eq_dec : EqDecision TxEnvelope.
Proof. solve_decision. Defined.

(** The accessors of alloy's [Transaction] trait that the code uses. *)
Definition env_chain_id (e : TxEnvelope) : option u64 :=
  match e with
  | Legacy tx _ => leg_chain_id tx
  | Eip2930 tx _ => Some (e2930_chain_id tx)
  | Eip1559 tx _ => Some (e1559_chain_id tx)
  | Eip4844 tx _ => Some (e4844_chain_id tx)
  | Eip7702 tx _ => Some (e7702_chain_id tx)
  end.

Definition env_nonce (e : TxEnvelope) : u64 :=
  match e with
  | Legacy tx _ => leg_nonce tx
  | Eip2930 tx _ => e2930_nonce tx
  | Eip1559 tx _ => e1559_nonce tx
  | Eip4844 tx _ => e4844_nonce tx
  | Eip7702 tx _ => e7702_nonce tx
  end.

Definition env_gas_limit (e : TxEnvelope) : u64 :=
  match e with
  | Legacy tx _ => leg_gas_limit tx
  | Eip2930 tx _ => e2930_gas_limit tx
  | Eip1559 tx _ => e1559_gas_limit tx
  | Eip4844 tx _ => e4844_gas_limit tx
  | Eip7702 tx _ => e7702_gas_limit tx
  end.

Definition env_to (e : TxEnvelope) : option Address :=
  match e with
  | Legacy tx _ => leg_to tx
  | Eip2930 tx _ => e2930_to tx
  | Eip1559 tx _ => e1559_to tx
  | Eip4844 tx _ => Some (e4844_to tx)
  | Eip7702 tx _ => Some (e7702_to tx)
  end.

Definition env_value (e : TxEnvelope) : U256 :=
  match e with
  | Legacy tx _ => leg_value tx
  | Eip2930 tx _ => e2930_value tx
  | Eip1559 tx _ => e1559_value tx
  | Eip4844 tx _ => e4844_value tx
  | Eip7702 tx _ => e7702_value tx
  end.

Definition env_input (e : TxEnvelope) : bytes :=
  match e with
  | Legacy tx _ => leg_input tx
  | Eip2930 tx _ => e2930_input tx
  | Eip1559 tx _ => e1559_input tx
  | Eip4844 tx _ => e4844_input tx
  | Eip7702 tx _ => e7702_input tx
  end.

(** The fee field by which transactions are ordered; the validator, the
    mempool conversion and the executor repeat this match. *)
Definition effective_gas_price (e : TxEnvelope) : u128 :=
  match e with
  | Legacy tx _ => leg_gas_price tx
  | Eip2930 tx _ => e2930_gas_price tx
  | Eip1559 tx _ => e1559_max_fee_per_gas tx
  | Eip4844 tx _ => e4844_max_fee_per_gas tx
  | Eip7702 tx _ => e7702_max_fee_per_gas tx
  end.

(** ** Raw transactions *)

Record Tx := mkTx { tx_bytes : bytes }.

(** ** Third-party code

    [keccak256] and [rlp_hash] hash; [encode_2718]/[decode_2718] are alloy's
    envelope codec; [codec_bytes] is commonware's encoding of a byte slice;
    [recover_address] is the k256 recovery of the signer of an envelope
    ([None] when the signature is rejected). *)
Class External := {
  keccak256 : bytes -> B256;
  rlp_encode : TxEnvelope -> bytes;
  encode_2718 : TxEnvelope -> bytes;
  decode_2718 : bytes -> result TxEnvelope string;
  codec_bytes : bytes -> bytes;
  recover_address : TxEnvelope -> option Address;
}.

Section tx_id.
Context `{EXT : !External}.

(** [Tx::id]. *)
Definition tx_id (tx : Tx) : B256 := keccak256 (codec_bytes (tx_bytes tx)).

End tx_id.

(** ** Pool configuration *)

Record PoolConfig := mkPoolConfig {
  max_pending_txs : usize;
  max_queued_txs : usize;
  max_txs_per_sender : usize;
  max_tx_size : usize;
  min_gas_price : u128;
  replacement_bump_percent : u8;
  pending_ttl_secs : u64;
  queued_ttl_secs : u64;
}.

Definition PoolConfig_default : PoolConfig := {|
  max_pending_txs := 4096;
  max_queued_txs := 1024;
  max_txs_per_sender := 256;
  max_tx_size := 128 * 1024;
  min_gas_price := 1000000000;
  replacement_bump_percent := 10;
  pending_ttl_secs := 30 * 60;
  queued_ttl_secs := 60 * 60;
|}.

Definition PoolConfig_new : PoolConfig := {|
  max_pending_txs := 4096;
  max_queued_txs := 1024;
  max_txs_per_sender := 256;
  max_tx_size := 128 * 1024;
  min_gas_price := 1000000000;
  replacement_bump_percent := 10;
  pending_ttl_secs := 30 * 60;
  queued_ttl_secs := 60 * 60;
|}.

(** ** Pool errors *)

Inductive TxPoolError : Type :=
| PoolFull
| SenderFull (sender : Address)
| TxTooLarge (size max : usize)
| GasPriceTooLow (price min : u128)
| NonceTooLow (got expected : u64)
| NonceGap (got expected : u64)
| InsufficientBalance (need have : U256)
| InvalidChainId (got expected : u64)
| InvalidSignature
| DecodeError (msg : string)
| IntrinsicGasTooLow (limit intrinsic : u64)
| AlreadyExists
| NonceAlreadyInPool (sender : Address) (nonce : u64)
| StateError (msg : string)
| ReplacementUnderpriced.

(** ** Mempool events *)

Inductive MempoolEvent : Type :=
| TxAdded (hash : B256) (from : Address) (to : option Address) (value gas_price : U256)
    (nonce : u64)
| TxIncluded (hash : B256) (block_number : u64) (block_hash : B256)
| TxEvicted (hash : B256) (reason : string).
