(* ===== verification/SenderQueue.v ===== *)
(** Transaction ordering and the per-sender nonce queue
    (crates/node/txpool/src/ordering.rs).

    A [SenderQueue] keeps the executable transactions ([pending], consecutive
    nonces from [next_nonce]) apart from the ones behind a nonce gap
    ([queued], sorted by nonce).  The invariant [sq_wf] says so; the abstract
    view of a queue is the map [sq_txs] from nonces to transactions, which
    with [next_nonce] determines the queue, and each operation is shown to
    implement its reading on that map. *)
From S2P Require Import Prelude TxTypes.

(** ** Definitions *)

Record OrderedTransaction := mkOT {
  ot_hash : B256;
  ot_sender : Address;
  ot_nonce : u64;
  ot_price : u128;
  ot_timestamp : u64;
  ot_envelope : TxEnvelope;
}.

#[export] Instance OrderedTransaction_eq_dec : EqDecision OrderedTransaction.
Proof. solve_decision. Defined.

Definition effective_tip (tx : OrderedTransaction) (base_fee : option u128) : u128 :=
  match base_fee with
  | None => ot_price tx
  | Some base => saturating_sub (ot_price tx) base
  end.

(** [Ord::cmp]: higher price first, then older, then smaller hash. *)
Definition ot_cmp (self other : OrderedTransaction) : comparison :=
  then_with (Z.compare (ot_price other) (ot_price self))
    (then_with (Z.compare (ot_timestamp self) (ot_timestamp other))
       (Z.compare (ot_hash self) (ot_hash other))).

Record SenderQueue := mkSQ {
  sq_sender : Address;
  sq_next_nonce : u64;
  sq_pending : list OrderedTransaction;
  sq_queued : list OrderedTransaction;
}.

Definition sq_new (sender : Address) (initial_nonce : u64) : SenderQueue :=
  mkSQ sender initial_nonce [] [].

Definition next_pending_nonce (q : SenderQueue) : u64 :=
  saturating_add u64_max (sq_next_nonce q) (len (sq_pending q)).

(** The loop of [promote_queued]: the head of [queued] moves to the end of
    [pending] as long as its nonce is the next one. *)
Fixpoint promote_loop (next_nonce : u64) (pending queued : list OrderedTransaction)
    : list OrderedTransaction * list OrderedTransaction :=
  match queued with
  | [] => (pending, [])
  | first :: rest =>
      if ot_nonce first =? saturating_add u64_max next_nonce (len pending)
      then promote_loop next_nonce (pending ++ [first]) rest
      else (pending, queued)
  end.

Definition promote_queued (q : SenderQueue) : SenderQueue :=
  let '(p, r) := promote_loop (sq_next_nonce q) (sq_pending q) (sq_queued q) in
  mkSQ (sq_sender q) (sq_next_nonce q) p r.

(** [SenderQueue::insert]: the new queue and the displaced transaction. *)
Definition sq_insert (q : SenderQueue) (tx : OrderedTransaction)
    : SenderQueue * option OrderedTransaction :=
  if ot_nonce tx <? sq_next_nonce q then (q, Some tx)
  else if ot_nonce tx =? next_pending_nonce q then
    (promote_queued
       (mkSQ (sq_sender q) (sq_next_nonce q) (sq_pending q ++ [tx]) (sq_queued q)), None)
  else if next_pending_nonce q <? ot_nonce tx then
    match binary_search_by (fun x => Z.compare (ot_nonce x) (ot_nonce tx)) (sq_queued q) with
    | inl pos =>
        match sq_queued q !! pos with
        | Some existing =>
            if ot_price existing <? ot_price tx
            then (mkSQ (sq_sender q) (sq_next_nonce q) (sq_pending q)
                    (<[pos := tx]> (sq_queued q)), Some existing)
            else (q, Some tx)
        | None => (q, Some tx)
        end
    | inr pos =>
        (mkSQ (sq_sender q) (sq_next_nonce q) (sq_pending q)
           (vec_insert pos tx (sq_queued q)), None)
    end
  else
    let idx := Z.to_nat (ot_nonce tx - sq_next_nonce q) in
    match sq_pending q !! idx with
    | Some existing =>
        if ot_price existing <? ot_price tx
        then (mkSQ (sq_sender q) (sq_next_nonce q) (<[idx := tx]> (sq_pending q))
                (sq_queued q), Some existing)
        else (q, Some tx)
    | None => (q, Some tx)
    end.

(** [SenderQueue::remove_by_hash]: the tail behind a removed pending
    transaction moves to [queued]. *)
Definition sq_remove_by_hash (q : SenderQueue) (hash : B256)
    : SenderQueue * option OrderedTransaction :=
  match position (fun tx => ot_hash tx =? hash) (sq_pending q) with
  | Some idx =>
      let removed := sq_pending q !! idx in
      let rest := vec_remove idx (sq_pending q) in
      let moved := drop idx rest in
      (mkSQ (sq_sender q) (sq_next_nonce q) (take idx rest)
         (sort_by (cmp_on ot_nonce Z.compare) (sq_queued q ++ moved)), removed)
  | None =>
      match position (fun tx => ot_hash tx =? hash) (sq_queued q) with
      | Some idx =>
          (mkSQ (sq_sender q) (sq_next_nonce q) (sq_pending q)
             (vec_remove idx (sq_queued q)), sq_queued q !! idx)
      | None => (q, None)
      end
  end.

(** [SenderQueue::remove_confirmed]. *)
Definition sq_remove_confirmed (q : SenderQueue) (confirmed_nonce : u64) : SenderQueue :=
  let keep := fun tx : OrderedTransaction => confirmed_nonce < ot_nonce tx in
  promote_queued
    (mkSQ (sq_sender q)
       (if sq_next_nonce q <=? confirmed_nonce
        then saturating_add u64_max confirmed_nonce 1 else sq_next_nonce q)
       (filter keep (sq_pending q)) (filter keep (sq_queued q))).

Definition sq_pending_count (q : SenderQueue) : usize := len (sq_pending q).
Definition sq_queued_count (q : SenderQueue) : usize := len (sq_queued q).
Definition sq_total_count (q : SenderQueue) : usize :=
  len (sq_pending q) + len (sq_queued q).
Definition sq_is_empty (q : SenderQueue) : bool :=
  match sq_pending q, sq_queued q with [], [] => true | _, _ => false end.

(** ** Invariant and abstract view *)

(** All transactions of the queue, in nonce order. *)
Definition sq_all (q : SenderQueue) : list OrderedTransaction :=
  sq_pending q ++ sq_queued q.

(** The invariant up to promotion: the head of [queued] may be executable. *)
Record sq_prewf (q : SenderQueue) : Prop := {
  wf_next : 0 <= sq_next_nonce q <= u64_max;
  wf_pending : forall (i : nat) tx, sq_pending q !! i = Some tx ->
    ot_nonce tx = sq_next_nonce q + Z.of_nat i;
  wf_sorted : StronglySorted (fun a b => ot_nonce a < ot_nonce b) (sq_queued q);
  wf_above : Forall (fun tx => sq_next_nonce q + len (sq_pending q) <= ot_nonce tx)
    (sq_queued q);
  wf_nonce : Forall (fun tx => ot_nonce tx < u64_max) (sq_all q);
  wf_sender : Forall (fun tx => ot_sender tx = sq_sender q) (sq_all q);
}.

(** The invariant: moreover [queued] starts behind a gap. *)
Record sq_wf (q : SenderQueue) : Prop := {
  wf_pre : sq_prewf q;
  wf_gap : Forall (fun tx => sq_next_nonce q + len (sq_pending q) < ot_nonce tx)
    (sq_queued q);
}.

Definition by_nonce (l : list OrderedTransaction) : gmap Z OrderedTransaction :=
  list_to_map ((fun tx => (ot_nonce tx, tx)) <$> l).

(** The abstract view of a queue: its transactions by nonce. *)
Definition sq_txs (q : SenderQueue) : gmap Z OrderedTransaction := by_nonce (sq_all q).

(** What [insert] promises on the abstract view: a stale nonce is handed back,
    a taken nonce goes to the strictly better price, a free one is filled. *)
Definition abs_insert (next_nonce : Z) (m : gmap Z OrderedTransaction)
    (tx : OrderedTransaction)
    : gmap Z OrderedTransaction * option OrderedTransaction :=
  if ot_nonce tx <? next_nonce then (m, Some tx)
  else match m !! ot_nonce tx with
       | Some old =>
           if ot_price old <? ot_price tx
           then (<[ot_nonce tx := tx]> m, Some old) else (m, Some tx)
       | None => (<[ot_nonce tx := tx]> m, None)
       end.

(** ** The order on transactions *)

#[export] Instance ot_cmp_order : CmpOrder ot_cmp.
Proof.
  change ot_cmp with
    (cmp_lex (cmp_rev (cmp_on ot_price Z.compare))
       (cmp_lex (cmp_on ot_timestamp Z.compare) (cmp_on ot_hash Z.compare))).
  apply _.
Qed.

(** Transactions that compare equal have the same hash. *)
Lemma ot_cmp_Eq a b : ot_cmp a b = Eq -> ot_hash a = ot_hash b.
Proof.
  unfold ot_cmp, then_with.
  destruct (Z.compare (ot_price b) (ot_price a)); [|done|done].
  destruct (Z.compare (ot_timestamp a) (ot_timestamp b)); [|done|done].
  apply Z.compare_eq.
Qed.

(** ** Lists keyed by nonce *)

Definition nonce_lt (a b : OrderedTransaction) : Prop := ot_nonce a < ot_nonce b.

Lemma sorted_nonces_NoDup l :
  StronglySorted nonce_lt l -> NoDup (ot_nonce <$> l).
Proof.
  induction 1 as [|x l Hs IH Hall]; simpl; constructor; [|done].
  rewrite list_elem_of_fmap. intros (y & Heq & Hy).
  eapply Forall_forall in Hall; [|exact Hy]. unfold nonce_lt in Hall. lia.
Qed.

Lemma by_nonce_lookup l n tx :
  NoDup (ot_nonce <$> l) ->
  by_nonce l !! n = Some tx <-> tx ∈ l /\ ot_nonce tx = n.
Proof.
  intros Hnd. unfold by_nonce.
  rewrite <- elem_of_list_to_map by (by rewrite <- list_fmap_compose).
  rewrite list_elem_of_fmap. naive_solver.
Qed.

Lemma by_nonce_None l n :
  by_nonce l !! n = None <-> Forall (fun tx => ot_nonce tx <> n) l.
Proof.
  unfold by_nonce. rewrite <- not_elem_of_list_to_map, <- list_fmap_compose.
  rewrite list_elem_of_fmap, Forall_forall. naive_solver.
Qed.

Lemma by_nonce_perm l l' :
  NoDup (ot_nonce <$> l) -> l ≡ₚ l' -> by_nonce l = by_nonce l'.
Proof.
  intros Hnd Hp. unfold by_nonce. apply list_to_map_proper.
  - by rewrite <- list_fmap_compose.
  - by rewrite Hp.
Qed.

Lemma by_nonce_cons tx l : by_nonce (tx :: l) = <[ot_nonce tx := tx]> (by_nonce l).
Proof. done. Qed.

Lemma by_nonce_delete tx l :
  NoDup (ot_nonce <$> tx :: l) -> delete (ot_nonce tx) (by_nonce (tx :: l)) = by_nonce l.
Proof.
  intros Hnd. rewrite by_nonce_cons, delete_insert_eq.
  apply delete_id. apply by_nonce_None. apply Forall_forall. intros y Hy Heq.
  apply NoDup_cons in Hnd as [Hni _]. destruct Hni. rewrite <- Heq.
  by apply list_elem_of_fmap_2.
Qed.

Lemma by_nonce_filter (P : Z -> Prop) `{!forall n, Decision (P n)} l :
  by_nonce (filter (fun tx => P (ot_nonce tx)) l)
  = filter (fun kv => P kv.1) (by_nonce l).
Proof.
  induction l as [|tx l IH]; [by unfold by_nonce; simpl; rewrite map_filter_empty|].
  rewrite filter_cons. destruct (decide (P (ot_nonce tx))) as [HP|HP].
  - rewrite !by_nonce_cons, map_filter_insert_True by done. by rewrite IH.
  - rewrite by_nonce_cons, IH, map_filter_insert_False by done.
    symmetry. apply map_eq. intros i. apply option_eq. intros y.
    rewrite !map_lookup_filter_Some, lookup_delete_Some. naive_solver.
Qed.

(** ** Consequences of the invariant *)

(** [l] holds consecutive nonces from [n]. *)
Definition consecutive (n : Z) (l : list OrderedTransaction) : Prop :=
  forall (i : nat) tx, l !! i = Some tx -> ot_nonce tx = n + Z.of_nat i.

Lemma consecutive_cons n x l :
  consecutive n (x :: l) <-> ot_nonce x = n /\ consecutive (n + 1) l.
Proof.
  split.
  - intros H. split; [specialize (H O x eq_refl); lia|].
    intros i tx Hi. specialize (H (S i) tx Hi). lia.
  - intros [H1 H2] [|i] tx Hi; simpl in Hi; [injection Hi as <-; lia|].
    specialize (H2 i tx Hi). lia.
Qed.

Lemma consecutive_app n l r :
  consecutive n (l ++ r) <-> consecutive n l /\ consecutive (n + len l) r.
Proof.
  revert n. induction l as [|x l IH]; intros n; simpl.
  - rewrite len_nil, Z.add_0_r. split; [|by intros []].
    intros H. split; [|done]. intros i tx. by rewrite lookup_nil.
  - rewrite !consecutive_cons, IH, len_cons.
    replace (n + 1 + len l) with (n + (len l + 1)) by lia. tauto.
Qed.

Lemma consecutive_elem n l tx :
  consecutive n l -> tx ∈ l -> n <= ot_nonce tx < n + len l.
Proof.
  intros H [i Hi]%list_elem_of_lookup. specialize (H i tx Hi).
  apply lookup_lt_Some in Hi. unfold len. lia.
Qed.

Lemma consecutive_sorted n l r :
  consecutive n l -> StronglySorted nonce_lt r ->
  Forall (fun tx => n + len l <= ot_nonce tx) r -> StronglySorted nonce_lt (l ++ r).
Proof.
  revert n. induction l as [|x l IH]; intros n Hc Hs Ha; [done|].
  apply consecutive_cons in Hc as [Hx Hc]. rewrite len_cons in Ha.
  simpl. constructor.
  - apply (IH (n + 1)); [done|done|]. eapply Forall_impl; [exact Ha|]. simpl. lia.
  - apply Forall_app. split; apply Forall_forall; intros y Hy; unfold nonce_lt.
    + pose proof (consecutive_elem _ _ _ Hc Hy). lia.
    + eapply Forall_forall in Ha; [|exact Hy]. pose proof (len_nonneg l). lia.
Qed.

Lemma sq_prewf_sorted q : sq_prewf q -> StronglySorted nonce_lt (sq_all q).
Proof. intros []. by eapply consecutive_sorted. Qed.

Lemma sq_prewf_NoDup q : sq_prewf q -> NoDup (ot_nonce <$> sq_all q).
Proof. intros H. by apply sorted_nonces_NoDup, sq_prewf_sorted. Qed.

Lemma sq_prewf_ge q tx : sq_prewf q -> tx ∈ sq_all q -> sq_next_nonce q <= ot_nonce tx.
Proof.
  intros [Hn Hp Hs Ha _ _]. unfold sq_all. rewrite elem_of_app. intros [H|H].
  - pose proof (consecutive_elem _ _ _ Hp H). lia.
  - eapply Forall_forall in Ha; [|exact H]. pose proof (len_nonneg (sq_pending q)). lia.
Qed.

(** Under the invariant the saturating sum of the code is the exact one. *)
Lemma next_pending_nonce_exact q :
  sq_prewf q -> next_pending_nonce q = sq_next_nonce q + len (sq_pending q)
    /\ next_pending_nonce q <= u64_max.
Proof.
  intros [Hn Hp _ _ Hm _]. unfold next_pending_nonce, saturating_add.
  enough (sq_next_nonce q + len (sq_pending q) <= u64_max) by lia.
  destruct (last (sq_pending q)) as [tx|] eqn:El.
  - rewrite last_lookup in El. specialize (Hp _ _ El).
    assert (tx ∈ sq_all q) as Hin.
    { unfold sq_all. apply elem_of_app. left. apply list_elem_of_lookup. eauto. }
    eapply Forall_forall in Hm; [|exact Hin]. apply lookup_lt_Some in El.
    unfold len in *. simpl in Hm. lia.
  - apply last_None in El. rewrite El, len_nil. lia.
Qed.

Lemma sq_txs_lookup q n tx :
  sq_prewf q -> sq_txs q !! n = Some tx <-> tx ∈ sq_all q /\ ot_nonce tx = n.
Proof. intros H. by apply by_nonce_lookup, sq_prewf_NoDup. Qed.

(** Promotion turns the invariant up to promotion into the invariant, and
    moves no transaction out of nonce order. *)
Lemma promote_loop_spec s n p r :
  sq_prewf (mkSQ s n p r) ->
  let '(p', r') := promote_loop n p r in
  sq_wf (mkSQ s n p' r') /\ p' ++ r' = p ++ r.
Proof.
  revert p. induction r as [|x r IH]; intros p Hwf; simpl.
  { split; [|done]. split; [done|]. constructor. }
  pose proof (next_pending_nonce_exact _ Hwf) as [He _].
  unfold next_pending_nonce in He. simpl in He. rewrite He.
  destruct (Z.eqb_spec (ot_nonce x) (n + len p)) as [Heq|Hne].
  - specialize (IH (p ++ [x])). destruct (promote_loop n (p ++ [x]) r) as [p' r'].
    destruct IH as [Hwf' Happ]; [|split; [done|]; by rewrite Happ, <- app_assoc].
    destruct Hwf as [Hn Hp Hs Ha Hm Hse]; simpl in *. unfold sq_all in *. simpl in *.
    apply StronglySorted_inv in Hs as [Hs Hx].
    split; unfold sq_all; simpl; rewrite <- ?app_assoc; try done.
    + apply consecutive_app. split; [done|]. apply consecutive_cons.
      split; [done|]. intros i tx. by rewrite lookup_nil.
    + eapply Forall_impl; [exact Hx|]. simpl. rewrite len_app, len_cons, len_nil. lia.
  - split; [|done]. split; [done|]. simpl.
    destruct Hwf as [_ _ Hs Ha _ _]; simpl in *. apply StronglySorted_inv in Hs as [_ Hx].
    apply Forall_cons in Ha as [Ha _]. constructor; [lia|].
    eapply Forall_impl; [exact Hx|]. simpl. lia.
Qed.

Lemma promote_queued_spec q :
  sq_prewf q ->
  sq_wf (promote_queued q) /\ sq_all (promote_queued q) = sq_all q
  /\ sq_next_nonce (promote_queued q) = sq_next_nonce q
  /\ sq_sender (promote_queued q) = sq_sender q.
Proof.
  destruct q as [s n p r]. intros H. unfold promote_queued. simpl.
  pose proof (promote_loop_spec s n p r H) as Hp.
  destruct (promote_loop n p r) as [p' r']. by destruct Hp.
Qed.

(** ** Insertion *)

Lemma sq_wf_all_perm q l' :
  sq_prewf q -> sq_all q ≡ₚ l' -> sq_txs q = by_nonce l'.
Proof. intros H Hp. apply by_nonce_perm; [by apply sq_prewf_NoDup|done]. Qed.

(** Replacing the transaction of a nonce keeps the invariant. *)
Lemma sq_replace_pending q i old tx :
  sq_wf q -> sq_pending q !! i = Some old -> ot_nonce tx = ot_nonce old ->
  ot_sender tx = sq_sender q ->
  let q' := mkSQ (sq_sender q) (sq_next_nonce q) (<[i := tx]> (sq_pending q)) (sq_queued q) in
  sq_wf q' /\ sq_txs q' = <[ot_nonce tx := tx]> (sq_txs q).
Proof.
  intros [Hpre Hgap] Hi Hn Hs q'.
  assert (exists l, sq_all q ≡ₚ old :: l /\ sq_all q' ≡ₚ tx :: l) as (l & Hl & Hl').
  { exists (vec_remove i (sq_pending q) ++ sq_queued q). unfold sq_all, q'; simpl. split.
    - by rewrite (vec_remove_perm _ _ _ Hi) at 1.
    - rewrite insert_take_drop by (by eapply lookup_lt_Some). unfold vec_remove.
      by rewrite <- Permutation_middle. }
  assert (len (<[i := tx]> (sq_pending q)) = len (sq_pending q)) as Hlen.
  { unfold len. by rewrite length_insert. }
  assert (sq_wf q') as Hwf'.
  { destruct Hpre as [Hnx Hp Hst Ha Hm Hse]. split; [split|]; try done.
    - intros j y Hj. simpl in Hj. destruct (decide (i = j)) as [->|Hne].
      + rewrite list_lookup_insert_eq in Hj by (by eapply lookup_lt_Some).
        injection Hj as <-. rewrite Hn. by apply Hp.
      + rewrite list_lookup_insert_ne in Hj by done. by apply Hp.
    - simpl. by rewrite Hlen.
    - rewrite Hl' . rewrite Hl in Hm. apply Forall_cons in Hm as [? ?].
      constructor; [lia|done].
    - rewrite Hl'. rewrite Hl in Hse. apply Forall_cons in Hse as [? ?]. by constructor.
    - simpl. by rewrite Hlen. }
  split; [done|].
  rewrite (sq_wf_all_perm q' _ (wf_pre _ Hwf') Hl').
  rewrite (sq_wf_all_perm q _ Hpre Hl), !by_nonce_cons, Hn.
  by rewrite insert_insert_eq.
Qed.

Lemma sq_replace_queued q i old tx :
  sq_wf q -> sq_queued q !! i = Some old -> ot_nonce tx = ot_nonce old ->
  ot_sender tx = sq_sender q ->
  let q' := mkSQ (sq_sender q) (sq_next_nonce q) (sq_pending q) (<[i := tx]> (sq_queued q)) in
  sq_wf q' /\ sq_txs q' = <[ot_nonce tx := tx]> (sq_txs q).
Proof.
  intros [Hpre Hgap] Hi Hn Hs q'.
  pose proof (take_drop_cons _ _ _ Hi) as Hsplit.
  assert (<[i := tx]> (sq_queued q) = take i (sq_queued q) ++ tx :: drop (S i) (sq_queued q))
    as Hins by (apply insert_take_drop; by eapply lookup_lt_Some).
  set (a := take i (sq_queued q)) in *. set (b := drop (S i) (sq_queued q)) in *.
  assert (sq_all q ≡ₚ old :: (sq_pending q ++ a ++ b)
    /\ sq_all q' ≡ₚ tx :: (sq_pending q ++ a ++ b)) as [Hl Hl'].
  { unfold sq_all, q'; simpl. rewrite Hins, Hsplit at 1.
    split; by rewrite <- !Permutation_middle. }
  assert (sq_wf q') as Hwf'.
  { destruct Hpre as [Hnx Hp Hst Ha Hm Hse].
    rewrite Hsplit in Hst, Ha, Hgap.
    split; [split|]; unfold q'; simpl; try done.
    - rewrite Hins. clear -Hst Hn. induction a as [|y a IH]; simpl in *.
      + apply StronglySorted_inv in Hst as [Hst Hall]. constructor; [done|].
        eapply Forall_impl; [exact Hall|]. simpl. lia.
      + apply StronglySorted_inv in Hst as [Hst Hall]. constructor; [by apply IH|].
        rewrite Forall_app, Forall_cons in *. naive_solver lia.
    - rewrite Hins. rewrite Forall_app, Forall_cons in *. naive_solver lia.
    - fold q'. rewrite Hl'. rewrite Hl in Hm. apply Forall_cons in Hm as [? ?].
      constructor; [lia|done].
    - fold q'. rewrite Hl'. rewrite Hl in Hse. apply Forall_cons in Hse as [? ?].
      by constructor.
    - rewrite Hins. rewrite Forall_app, Forall_cons in *. naive_solver lia. }
  split; [done|].
  rewrite (sq_wf_all_perm q' _ (wf_pre _ Hwf') Hl').
  rewrite (sq_wf_all_perm q _ Hpre Hl), !by_nonce_cons, Hn.
  by rewrite insert_insert_eq.
Qed.

(** Appending the next nonce to [pending] and promoting. *)
Lemma sq_push_pending q tx :
  sq_wf q -> ot_nonce tx = sq_next_nonce q + len (sq_pending q) ->
  ot_nonce tx < u64_max -> ot_sender tx = sq_sender q ->
  let q' := promote_queued
    (mkSQ (sq_sender q) (sq_next_nonce q) (sq_pending q ++ [tx]) (sq_queued q)) in
  sq_wf q' /\ sq_next_nonce q' = sq_next_nonce q /\ sq_sender q' = sq_sender q
  /\ sq_txs q' = <[ot_nonce tx := tx]> (sq_txs q).
Proof.
  intros [[Hnx Hp Hst Ha Hm Hse] Hgap] Hn Hmax Hs. cbv zeta.
  set (q0 := mkSQ _ _ (sq_pending q ++ [tx]) _).
  assert (sq_all q0 ≡ₚ tx :: sq_all q) as Hperm.
  { unfold sq_all, q0; simpl. rewrite <- app_assoc; simpl.
    by rewrite <- Permutation_middle. }
  assert (sq_prewf q0) as Hpre0.
  { split; try done.
    - apply consecutive_app. split; [done|]. apply consecutive_cons.
      split; [done|]. intros i y. by rewrite lookup_nil.
    - simpl. eapply Forall_impl; [exact Hgap|]. simpl.
      rewrite len_app, len_cons, len_nil. lia.
    - rewrite Hperm. by constructor.
    - rewrite Hperm. by constructor. }
  destruct (promote_queued_spec q0 Hpre0) as (Hwf & Hall & Hnn & Hss).
  split_and!; [done|done|done|].
  rewrite (sq_wf_all_perm _ (tx :: sq_all q) (wf_pre _ Hwf)); [done|].
  by rewrite Hall.
Qed.

Lemma queued_bsearch_sorted q n :
  sq_wf q -> bsearch_sorted (fun x => Z.compare (ot_nonce x) n) (sq_queued q).
Proof.
  intros [[_ _ Hst _ _ _] _] i j a b Hij Hia Hjb Ha.
  assert (ot_nonce a < ot_nonce b) as Hlt.
  { eapply (StronglySorted_app_1_elem_of (fun a b => ot_nonce a < ot_nonce b)
      (take j (sq_queued q)) (drop j (sq_queued q))).
    - by rewrite take_drop.
    - apply list_elem_of_lookup. exists i. by rewrite lookup_take_lt.
    - apply list_elem_of_lookup. exists O. by rewrite lookup_drop, Nat.add_0_r. }
  apply Z.compare_gt_iff. rewrite Z.compare_lt_iff in Ha. lia.
Qed.

(** Filling a nonce behind the gap at the position the search found. *)
Lemma sq_insert_queued q i tx :
  sq_wf q -> (i <= length (sq_queued q))%nat ->
  (forall j x, (j < i)%nat -> sq_queued q !! j = Some x -> ot_nonce x < ot_nonce tx) ->
  (forall j x, (i <= j)%nat -> sq_queued q !! j = Some x -> ot_nonce tx < ot_nonce x) ->
  sq_next_nonce q + len (sq_pending q) < ot_nonce tx ->
  ot_nonce tx < u64_max -> ot_sender tx = sq_sender q ->
  let q' := mkSQ (sq_sender q) (sq_next_nonce q) (sq_pending q)
              (vec_insert i tx (sq_queued q)) in
  sq_wf q' /\ sq_txs q' = <[ot_nonce tx := tx]> (sq_txs q).
Proof.
  intros [[Hnx Hp Hst Ha Hm Hse] Hgap] Hi Hlo Hhi Hn Hmax Hs q'.
  assert (sq_all q' ≡ₚ tx :: sq_all q) as Hperm.
  { unfold sq_all, q'; simpl. rewrite vec_insert_perm. by rewrite <- Permutation_middle. }
  assert (sq_wf q') as Hwf'.
  { split; [split|]; unfold q'; simpl; try done.
    - unfold vec_insert.
      rewrite <- (take_drop i (sq_queued q)) in Hst.
      assert (forall x, x ∈ take i (sq_queued q) -> ot_nonce x < ot_nonce tx) as Hlo'.
      { intros x [j Hj]%list_elem_of_lookup. apply lookup_take_Some in Hj as [Hj ?].
        by eapply Hlo. }
      assert (Forall (fun x => ot_nonce tx < ot_nonce x) (drop i (sq_queued q))) as Hhi'.
      { apply Forall_forall. intros x [j Hj]%list_elem_of_lookup.
        rewrite lookup_drop in Hj. eapply Hhi; [|exact Hj]. lia. }
      clear -Hst Hlo' Hhi'. induction (take i (sq_queued q)) as [|y a IH]; simpl in *.
      + by constructor.
      + apply StronglySorted_inv in Hst as [Hst Hall]. constructor.
        * apply IH; [done|]. intros x Hx. apply Hlo'. by right.
        * rewrite Forall_app, Forall_cons in *. split_and!; [apply Hall| |apply Hall].
          apply Hlo'. by left.
    - rewrite vec_insert_perm. constructor; [lia|done].
    - fold q'. rewrite Hperm. by constructor.
    - fold q'. rewrite Hperm. by constructor.
    - rewrite vec_insert_perm. by constructor. }
  split; [done|]. by rewrite (sq_wf_all_perm q' _ (wf_pre _ Hwf') Hperm).
Qed.

(** A nonce of [sq_txs] is found where the code looks for it. *)
Lemma sq_txs_pending q i old :
  sq_wf q -> sq_pending q !! i = Some old ->
  sq_txs q !! (sq_next_nonce q + Z.of_nat i) = Some old.
Proof.
  intros [Hpre _] Hi. apply sq_txs_lookup; [done|]. split.
  - unfold sq_all. apply elem_of_app. left. apply list_elem_of_lookup. eauto.
  - by apply (wf_pending _ Hpre).
Qed.

Lemma sq_txs_queued q i old :
  sq_wf q -> sq_queued q !! i = Some old -> sq_txs q !! ot_nonce old = Some old.
Proof.
  intros [Hpre _] Hi. apply sq_txs_lookup; [done|]. split; [|done].
  unfold sq_all. apply elem_of_app. right. apply list_elem_of_lookup. eauto.
Qed.

Lemma sq_txs_gap q n :
  sq_wf q -> n = sq_next_nonce q + len (sq_pending q) -> sq_txs q !! n = None.
Proof.
  intros [Hpre Hgap] ->. apply by_nonce_None. unfold sq_all.
  apply Forall_app. split; apply Forall_forall; intros x Hx.
  - pose proof (consecutive_elem _ _ _ (wf_pending _ Hpre) Hx). lia.
  - eapply Forall_forall in Hgap; [|exact Hx]. simpl in Hgap. lia.
Qed.

Lemma sq_txs_beyond q n :
  sq_wf q -> sq_next_nonce q + len (sq_pending q) < n ->
  Forall (fun x => ot_nonce x <> n) (sq_queued q) -> sq_txs q !! n = None.
Proof.
  intros [Hpre Hgap] Hn Hq. apply by_nonce_None. unfold sq_all.
  apply Forall_app. split; [|done]. apply Forall_forall. intros x Hx.
  pose proof (consecutive_elem _ _ _ (wf_pending _ Hpre) Hx). lia.
Qed.

(** The replacement rule shared by the two occupied branches of [insert]. *)
Lemma abs_insert_taken q tx old :
  sq_next_nonce q <= ot_nonce tx -> sq_txs q !! ot_nonce tx = Some old ->
  abs_insert (sq_next_nonce q) (sq_txs q) tx =
    if ot_price old <? ot_price tx
    then (<[ot_nonce tx := tx]> (sq_txs q), Some old) else (sq_txs q, Some tx).
Proof.
  intros Hn Hl. unfold abs_insert.
  rewrite (proj2 (Z.ltb_ge _ _) Hn), Hl. done.
Qed.

Lemma abs_insert_free q tx :
  sq_next_nonce q <= ot_nonce tx -> sq_txs q !! ot_nonce tx = None ->
  abs_insert (sq_next_nonce q) (sq_txs q) tx = (<[ot_nonce tx := tx]> (sq_txs q), None).
Proof.
  intros Hn Hl. unfold abs_insert.
  rewrite (proj2 (Z.ltb_ge _ _) Hn), Hl. done.
Qed.

Definition sq_refines (q q' : SenderQueue) (m : gmap Z OrderedTransaction) : Prop :=
  sq_wf q' /\ sq_next_nonce q' = sq_next_nonce q /\ sq_sender q' = sq_sender q
  /\ sq_txs q' = m.

Lemma sq_insert_spec q tx :
  sq_wf q -> ot_nonce tx < u64_max -> ot_sender tx = sq_sender q ->
  let r := abs_insert (sq_next_nonce q) (sq_txs q) tx in
  sq_refines q (sq_insert q tx).1 r.1 /\ (sq_insert q tx).2 = r.2.
Proof.
  intros Hwf Hmax Hs. pose proof (wf_pre _ Hwf) as Hpre.
  destruct (next_pending_nonce_exact q Hpre) as [He Hle]. cbv zeta.
  unfold sq_insert, sq_refines.
  destruct (Z.ltb_spec (ot_nonce tx) (sq_next_nonce q)) as [Hlt|Hge].
  { unfold abs_insert. rewrite (proj2 (Z.ltb_lt _ _) Hlt). done. }
  rewrite He.
  destruct (Z.eqb_spec (ot_nonce tx) (sq_next_nonce q + len (sq_pending q))) as [Heq|Hne].
  { rewrite abs_insert_free by (done || by apply sq_txs_gap).
    split; [|done]. by apply sq_push_pending. }
  destruct (Z.ltb_spec (sq_next_nonce q + len (sq_pending q)) (ot_nonce tx)) as [Hgt|Hin].
  - pose proof (binary_search_by_spec _ _ (queued_bsearch_sorted q (ot_nonce tx) Hwf)) as Hb.
    destruct (binary_search_by _ _) as [pos|pos].
    + destruct Hb as (old & Hold & Hc%Z.compare_eq). rewrite Hold.
      rewrite (abs_insert_taken q tx old Hge)
        by (rewrite <- Hc; by eapply sq_txs_queued).
      destruct (ot_price old <? ot_price tx); [|done].
      destruct (sq_replace_queued q pos old tx) as [? ?]; done.
    + destruct Hb as (Hpos & Hlo & Hhi).
      assert (forall j x, (j < pos)%nat -> sq_queued q !! j = Some x ->
        ot_nonce x < ot_nonce tx) as Hlo'
        by (intros j x Hj Hx; by apply Z.compare_lt_iff, (Hlo j x)).
      assert (forall j x, (pos <= j)%nat -> sq_queued q !! j = Some x ->
        ot_nonce tx < ot_nonce x) as Hhi'
        by (intros j x Hj Hx; by apply Z.compare_gt_iff, (Hhi j x)).
      rewrite abs_insert_free; [|done|apply sq_txs_beyond; [done|done|]].
      * destruct (sq_insert_queued q pos tx) as [? ?]; done.
      * apply Forall_forall. intros x [j Hj]%list_elem_of_lookup Hx.
        destruct (decide (j < pos)%nat) as [Hjp|Hjp].
        -- pose proof (Hlo' j x Hjp Hj). lia.
        -- pose proof (Hhi' j x ltac:(lia) Hj). lia.
  - destruct (lookup_lt_is_Some_2 (sq_pending q) (Z.to_nat (ot_nonce tx - sq_next_nonce q)))
      as [old Hold]; [unfold len in *; lia|].
    rewrite Hold. pose proof (wf_pending _ Hpre _ _ Hold) as Hon.
    rewrite Z2Nat.id in Hon by lia.
    rewrite (abs_insert_taken q tx old Hge).
    2:{ rewrite <- (sq_txs_pending q _ _ Hwf Hold). f_equal. lia. }
    destruct (ot_price old <? ot_price tx); [|done].
    destruct (sq_replace_pending q _ old tx Hwf Hold) as [? ?]; [lia|done|done].
Qed.

(** ** Removal *)

(** The nonces above [c] of a consecutive run are a consecutive run. *)
Lemma filter_consecutive_suffix n l c :
  consecutive n l -> n <= c + 1 ->
  consecutive (c + 1) (filter (fun tx => c < ot_nonce tx) l).
Proof.
  revert n. induction l as [|x l IH]; intros n Hc Hn.
  { intros i tx. rewrite filter_nil, lookup_nil. done. }
  pose proof Hc as Hc0. apply consecutive_cons in Hc as [Hx Hc]. rewrite filter_cons.
  destruct (decide (c < ot_nonce x)) as [Hd|Hd].
  - assert (ot_nonce x = c + 1) as Hxc by lia.
    assert (filter (fun tx => c < ot_nonce tx) l = l) as ->.
    { clear IH Hc0. assert (c < n + 1) as Hlt by lia. clear -Hc Hlt.
      revert n Hc Hlt. induction l as [|y l IH]; intros n Hc Hlt; [done|].
      apply consecutive_cons in Hc as [Hy Hc].
      rewrite filter_cons, decide_True by lia. f_equal. apply (IH (n + 1)); [done|lia]. }
    apply consecutive_cons. split; [done|]. by rewrite <- Hxc, Hx.
  - apply (IH (n + 1)); [done|lia].
Qed.

Lemma filter_sorted (P : OrderedTransaction -> Prop) `{!forall x, Decision (P x)} l :
  StronglySorted nonce_lt l -> StronglySorted nonce_lt (filter P l).
Proof.
  induction 1 as [|x l Hs IH Hall]; [constructor|]. rewrite filter_cons.
  destruct (decide (P x)); [|done]. constructor; [done|].
  apply Forall_forall. intros y [_ Hy]%list_elem_of_filter.
  by eapply Forall_forall in Hall.
Qed.

Lemma filter_consecutive_len n l c :
  consecutive n l -> n <= c + 1 ->
  c + 1 + len (filter (fun tx => c < ot_nonce tx) l) <= Z.max (c + 1) (n + len l).
Proof.
  intros Hc Hn. pose proof (filter_consecutive_suffix n l c Hc Hn) as Hf.
  set (f := filter _ l) in *. destruct (last f) as [y|] eqn:El.
  - rewrite last_lookup in El. pose proof (Hf _ _ El) as Hy.
    assert (y ∈ l) as Hin.
    { eapply (list_elem_of_filter _ l y). apply list_elem_of_lookup. eauto. }
    pose proof (consecutive_elem _ _ _ Hc Hin). apply lookup_lt_Some in El.
    unfold len in *. lia.
  - apply last_None in El. rewrite El, len_nil. lia.
Qed.

Lemma sq_all_filter (P : OrderedTransaction -> Prop) `{!forall x, Decision (P x)} q n :
  sq_all (mkSQ (sq_sender q) n (filter P (sq_pending q)) (filter P (sq_queued q)))
  = filter P (sq_all q).
Proof. unfold sq_all; simpl. by rewrite filter_app. Qed.

(** Dropping the confirmed nonces keeps the invariant up to promotion. *)
Lemma sq_confirmed_prewf q c :
  sq_wf q -> 0 <= c <= u64_max ->
  let n := if sq_next_nonce q <=? c then saturating_add u64_max c 1 else sq_next_nonce q in
  sq_prewf (mkSQ (sq_sender q) n (filter (fun tx => c < ot_nonce tx) (sq_pending q))
              (filter (fun tx => c < ot_nonce tx) (sq_queued q))).
Proof.
  intros [[Hn Hp Hs Ha Hm Hse] Hgap] Hc n.
  assert (forall (l : list OrderedTransaction) P, Forall P (sq_all q) ->
    Forall P (sq_all (mkSQ (sq_sender q) n (filter (fun tx => c < ot_nonce tx) (sq_pending q))
      (filter (fun tx => c < ot_nonce tx) (sq_queued q))))) as Hall.
  { intros _ P HP. rewrite sq_all_filter. by apply Forall_filter_sub. }
  assert (sq_next_nonce q <= c ->
    forall tx, tx ∈ sq_all q -> c < ot_nonce tx -> n = c + 1) as Hn'.
  { intros Hle tx Htx Hlt. eapply Forall_forall in Hm; [|exact Htx]. simpl in Hm.
    unfold n. rewrite (proj2 (Z.leb_le _ _) Hle). unfold saturating_add. lia. }
  split; simpl; [| |by apply filter_sorted| |by apply (Hall [])|by apply (Hall [])].
  - unfold n, saturating_add. destruct (Z.leb_spec (sq_next_nonce q) c); lia.
  - intros i tx Hi. destruct (Z.le_gt_cases (sq_next_nonce q) c) as [Hle|Hgt].
    + pose proof (filter_consecutive_suffix _ _ c Hp ltac:(lia) i tx Hi) as Heq.
      apply list_elem_of_lookup_2, list_elem_of_filter in Hi as [Hlt Hi].
      rewrite (Hn' Hle tx); [done|unfold sq_all; set_solver|done].
    + unfold n. rewrite (proj2 (Z.leb_gt _ _) Hgt).
      apply Hp. rewrite list_filter_all in Hi; [done|].
      apply Forall_forall. intros y Hy. pose proof (consecutive_elem _ _ _ Hp Hy). lia.
  - apply Forall_forall. intros tx [Hlt Htx]%list_elem_of_filter.
    eapply Forall_forall in Ha; [|exact Htx]. simpl in Ha.
    destruct (Z.le_gt_cases (sq_next_nonce q) c) as [Hle|Hgt].
    + rewrite (Hn' Hle tx); [|unfold sq_all; set_solver|done].
      pose proof (filter_consecutive_len _ _ c Hp ltac:(lia)). lia.
    + unfold n. rewrite (proj2 (Z.leb_gt _ _) Hgt).
      rewrite list_filter_all; [done|].
      apply Forall_forall. intros y Hy. pose proof (consecutive_elem _ _ _ Hp Hy). lia.
Qed.

Lemma sq_remove_confirmed_spec q c :
  sq_wf q -> 0 <= c <= u64_max ->
  sq_wf (sq_remove_confirmed q c)
  /\ sq_sender (sq_remove_confirmed q c) = sq_sender q
  /\ sq_next_nonce (sq_remove_confirmed q c) = Z.max (sq_next_nonce q) (Z.min u64_max (c + 1))
  /\ sq_txs (sq_remove_confirmed q c) = filter (fun kv => c < kv.1) (sq_txs q).
Proof.
  intros Hwf Hc. pose proof (sq_confirmed_prewf q c Hwf Hc) as Hpre. cbv zeta in Hpre.
  destruct (promote_queued_spec _ Hpre) as (Hwf' & Hall & Hn & Hs).
  unfold sq_remove_confirmed. cbv zeta. split_and!; [done|done| |].
  - rewrite Hn. simpl. pose proof (wf_next _ (wf_pre _ Hwf)). unfold saturating_add.
    destruct (Z.leb_spec (sq_next_nonce q) c); lia.
  - unfold sq_txs. rewrite Hall, sq_all_filter.
    apply (by_nonce_filter (fun n => c < n)).
Qed.

(** Removing from the middle of [pending]: what stays and what is moved. *)
Lemma vec_remove_split {A} (l : list A) i x :
  l !! i = Some x ->
  take i (vec_remove i l) = take i l /\ drop i (vec_remove i l) = drop (S i) l.
Proof.
  intros Hi%lookup_lt_Some. unfold vec_remove.
  rewrite take_app_le, take_take, drop_app_ge by (rewrite ?length_take; lia).
  rewrite length_take, Nat.min_id. rewrite Nat.min_l by lia.
  by rewrite Nat.sub_diag, drop_0.
Qed.

(** A list sorted by nonce without repetition is strictly sorted. *)
Lemma sort_nonces_strict l :
  NoDup (ot_nonce <$> l) ->
  StronglySorted nonce_lt (sort_by (cmp_on ot_nonce Z.compare) l).
Proof.
  intros Hnd. rewrite <- (sort_by_perm (cmp_on ot_nonce Z.compare) l) in Hnd.
  pose proof (sort_by_sorted (cmp_on ot_nonce Z.compare) l) as Hs.
  induction Hs as [|x l' Hs IH Hall]; [constructor|].
  apply NoDup_cons in Hnd as [Hni Hnd]. constructor; [by apply IH|].
  apply Forall_forall. intros y Hy. eapply Forall_forall in Hall; [|exact Hy].
  assert (ot_nonce x <= ot_nonce y) as Hle by exact Hall.
  assert (ot_nonce x <> ot_nonce y) as Hne.
  { intros Heq. apply Hni. rewrite Heq. by apply list_elem_of_fmap_2. }
  unfold nonce_lt. lia.
Qed.

Lemma sq_drop_pending q i tx :
  sq_wf q -> sq_pending q !! i = Some tx ->
  let q' := mkSQ (sq_sender q) (sq_next_nonce q) (take i (sq_pending q))
    (sort_by (cmp_on ot_nonce Z.compare) (sq_queued q ++ drop (S i) (sq_pending q))) in
  sq_wf q' /\ sq_all q ≡ₚ tx :: sq_all q'.
Proof.
  intros [Hpre Hgap] Hi q'.
  assert (sq_all q ≡ₚ tx :: sq_all q') as Hperm.
  { unfold sq_all, q'; simpl. rewrite sort_by_perm.
    rewrite (take_drop_cons _ _ _ Hi) at 1. rewrite <- app_assoc; simpl.
    rewrite <- Permutation_middle. by rewrite (Permutation_app_comm (drop _ _)). }
  split; [|done].
  pose proof (sq_prewf_NoDup q Hpre) as Hnd. rewrite Hperm, fmap_cons in Hnd.
  apply NoDup_cons in Hnd as [_ Hnd].
  change (sq_all q') with (take i (sq_pending q) ++ sq_queued q') in Hnd.
  unfold q' in Hnd; cbn [sq_queued] in Hnd.
  rewrite fmap_app, sort_by_perm in Hnd. apply NoDup_app in Hnd as (_ & _ & Hnd).
  destruct Hpre as [Hn Hp Hs Ha Hm Hse].
  assert (len (take i (sq_pending q)) = Z.of_nat i) as Hlen.
  { unfold len. apply lookup_lt_Some in Hi. rewrite length_take. lia. }
  assert (Forall (fun x => sq_next_nonce q + Z.of_nat i < ot_nonce x)
    (sq_queued q ++ drop (S i) (sq_pending q))) as Hgap'.
  { apply Forall_app. split.
    - eapply Forall_impl; [exact Hgap|]. simpl. intros x Hx.
      apply lookup_lt_Some in Hi. unfold len in Hx. lia.
    - apply Forall_forall. intros x [j Hj]%list_elem_of_lookup.
      rewrite lookup_drop in Hj. apply Hp in Hj. lia. }
  rewrite Hperm, Forall_cons in Hm, Hse.
  split; [split|]; unfold q'; simpl; rewrite ?Hlen, ?sort_by_perm.
  all: try tauto.
  - intros j x Hj. apply lookup_take_Some in Hj as [Hj _]. by apply Hp.
  - by apply sort_nonces_strict.
  - eapply Forall_impl; [exact Hgap'|]. simpl. lia.
Qed.

Lemma sq_drop_queued q i tx :
  sq_wf q -> sq_queued q !! i = Some tx ->
  let q' := mkSQ (sq_sender q) (sq_next_nonce q) (sq_pending q)
    (vec_remove i (sq_queued q)) in
  sq_wf q' /\ sq_all q ≡ₚ tx :: sq_all q'.
Proof.
  intros [[Hn Hp Hs Ha Hm Hse] Hgap] Hi q'.
  assert (sq_all q ≡ₚ tx :: sq_all q') as Hperm.
  { unfold sq_all, q'; simpl. rewrite (vec_remove_perm _ _ _ Hi) at 1.
    by rewrite <- Permutation_middle. }
  split; [|done]. rewrite Hperm, Forall_cons in Hm, Hse.
  assert (forall P, Forall P (sq_queued q) -> Forall P (vec_remove i (sq_queued q))) as Hsub.
  { intros P. rewrite (vec_remove_perm _ _ _ Hi) at 1. by intros [_ ?]%Forall_cons. }
  split; [split|]; unfold q'; simpl; try tauto; try by apply Hsub.
  unfold vec_remove. rewrite (take_drop_cons _ _ _ Hi) in Hs.
  apply StronglySorted_app in Hs as (H1 & H2 & H3%StronglySorted_inv).
  apply StronglySorted_app. split_and!; [|done|tauto].
  intros x y Hx Hy. apply H1; [done|]. by right.
Qed.

(** [remove_by_hash] hands back the transaction it removed, and keeps the rest. *)
Lemma sq_remove_by_hash_spec q h :
  sq_wf q ->
  let q' := (sq_remove_by_hash q h).1 in
  match (sq_remove_by_hash q h).2 with
  | Some tx => ot_hash tx = h /\ sq_all q ≡ₚ tx :: sq_all q' /\ sq_wf q'
      /\ sq_next_nonce q' = sq_next_nonce q /\ sq_sender q' = sq_sender q
      /\ sq_txs q' = delete (ot_nonce tx) (sq_txs q)
  | None => q' = q /\ Forall (fun tx => ot_hash tx <> h) (sq_all q)
  end.
Proof.
  intros Hwf. cbv zeta.
  assert (forall q' tx, sq_all q ≡ₚ tx :: sq_all q' -> 
    sq_txs q' = delete (ot_nonce tx) (sq_txs q)) as Hdel.
  { intros q' tx Hp. rewrite (sq_wf_all_perm q _ (wf_pre _ Hwf) Hp).
    rewrite by_nonce_delete; [done|]. rewrite <- Hp. apply sq_prewf_NoDup, Hwf. }
  unfold sq_remove_by_hash.
  destruct (position _ (sq_pending q)) as [i|] eqn:Ep.
  { apply position_Some in Ep as [(tx & Hi & Hh%Z.eqb_eq) _]. simpl. rewrite Hi.
    destruct (vec_remove_split _ _ _ Hi) as [-> ->].
    destruct (sq_drop_pending q i tx Hwf Hi) as [? ?]. auto 10. }
  destruct (position _ (sq_queued q)) as [i|] eqn:Eq.
  { apply position_Some in Eq as [(tx & Hi & Hh%Z.eqb_eq) _]. simpl. rewrite Hi.
    destruct (sq_drop_queued q i tx Hwf Hi) as [? ?]. auto 10. }
  simpl. split; [done|]. apply position_None in Ep, Eq.
  apply Forall_app. split; (eapply Forall_impl; [eassumption|]); simpl; intros x; apply Z.eqb_neq.
Qed.

(** ** Canonicity *)

Lemma sorted_perm_eq (l l' : list OrderedTransaction) :
  StronglySorted nonce_lt l -> StronglySorted nonce_lt l' -> l ≡ₚ l' -> l = l'.
Proof.
  intros Hl Hl' Hp. apply (StronglySorted_unique_strong nonce_lt); try done.
  unfold nonce_lt. intros x y _ _ H1 H2. lia.
Qed.

(** The split of a sorted list into the consecutive run and the rest. *)
Lemma gap_split_unique n p r p' r' :
  consecutive n p -> Forall (fun tx => n + len p < ot_nonce tx) r ->
  consecutive n p' -> Forall (fun tx => n + len p' < ot_nonce tx) r' ->
  p ++ r = p' ++ r' -> p = p' /\ r = r'.
Proof.
  revert n p'. induction p as [|x p IH]; intros n [|x' p'] Hc Hr Hc' Hr' Heq; simpl in *.
  - done.
  - subst r. apply consecutive_cons in Hc' as [Hx' _]. apply Forall_cons in Hr as [Hr _].
    rewrite len_nil in Hr. lia.
  - subst r'. apply consecutive_cons in Hc as [Hx _]. apply Forall_cons in Hr' as [Hr' _].
    rewrite len_nil in Hr'. lia.
  - injection Heq as -> Heq. rewrite len_cons in Hr, Hr'.
    apply consecutive_cons in Hc as [_ Hc], Hc' as [_ Hc'].
    destruct (IH (n + 1) p') as [-> ->]; try done.
    + eapply Forall_impl; [exact Hr|]. simpl. lia.
    + eapply Forall_impl; [exact Hr'|]. simpl. lia.
Qed.

Lemma sq_txs_all_perm q q' :
  sq_prewf q -> sq_prewf q' -> sq_txs q = sq_txs q' -> sq_all q ≡ₚ sq_all q'.
Proof.
  intros H H' Heq.
  apply NoDup_Permutation.
  - eapply NoDup_fmap_1. by apply sq_prewf_NoDup.
  - eapply NoDup_fmap_1. by apply sq_prewf_NoDup.
  - intros tx. transitivity (sq_txs q !! ot_nonce tx = Some tx).
    + rewrite sq_txs_lookup by done. naive_solver.
    + rewrite Heq, sq_txs_lookup by done. naive_solver.
Qed.

Lemma sq_canonical_aux q q' :
  sq_wf q -> sq_wf q' -> sq_sender q = sq_sender q' ->
  sq_next_nonce q = sq_next_nonce q' -> sq_txs q = sq_txs q' -> q = q'.
Proof.
  intros [H Hg] [H' Hg'] Hs Hn Ht.
  assert (sq_all q = sq_all q') as Hall.
  { apply sorted_perm_eq; [by apply sq_prewf_sorted..|]. by apply sq_txs_all_perm. }
  destruct q as [s n p r], q' as [s' n' p' r']; simpl in *; subst s' n'.
  destruct (gap_split_unique n p r p' r') as [-> ->]; try done.
  - exact (wf_pending _ H).
  - exact (wf_pending _ H').
Qed.

Lemma sq_new_wf s n : 0 <= n <= u64_max -> sq_wf (sq_new s n).
Proof.
  intros Hn. split; [split|]; simpl; try constructor; try done; try lia.
Qed.

(** ** Sequences of operations *)

Inductive sq_op : Type :=
| OpInsert (tx : OrderedTransaction)
| OpRemove (h : B256)
| OpConfirm (c : u64).

Definition sq_step (q : SenderQueue) (o : sq_op) : SenderQueue :=
  match o with
  | OpInsert tx => (sq_insert q tx).1
  | OpRemove h => (sq_remove_by_hash q h).1
  | OpConfirm c => sq_remove_confirmed q c
  end.

(** The same operations on the abstract view: the next nonce and a map. *)
Definition abs_step (st : Z * gmap Z OrderedTransaction) (o : sq_op)
    : Z * gmap Z OrderedTransaction :=
  let '(n, m) := st in
  match o with
  | OpInsert tx => (n, (abs_insert n m tx).1)
  | OpRemove h => (n, filter (fun kv => ot_hash kv.2 <> h) m)
  | OpConfirm c => (Z.max n (Z.min u64_max (c + 1)), filter (fun kv => c < kv.1) m)
  end.

(** The operations the pool issues on the queue of [sender], its transactions
    taken from [univ]. *)
Definition sq_op_ok (sender : Address) (univ : list OrderedTransaction) (o : sq_op) : Prop :=
  match o with
  | OpInsert tx => ot_nonce tx < u64_max /\ ot_sender tx = sender /\ tx ∈ univ
  | OpRemove _ => True
  | OpConfirm c => 0 <= c <= u64_max
  end.

(** A hash names one transaction. *)
Definition hash_injective (univ : list OrderedTransaction) : Prop :=
  forall a b, a ∈ univ -> b ∈ univ -> ot_hash a = ot_hash b -> a = b.

Definition sq_abs (q : SenderQueue) : Z * gmap Z OrderedTransaction :=
  (sq_next_nonce q, sq_txs q).

Lemma abs_insert_elem n m tx k x :
  (abs_insert n m tx).1 !! k = Some x -> x = tx \/ m !! k = Some x.
Proof.
  unfold abs_insert. destruct (_ <? _); [by right|].
  destruct (m !! ot_nonce tx) as [old|]; [destruct (_ <? _)|]; simpl;
    try (by right); rewrite lookup_insert_Some; naive_solver.
Qed.

Lemma abs_remove_delete q h tx :
  sq_wf q -> hash_injective (sq_all q) -> tx ∈ sq_all q -> ot_hash tx = h ->
  delete (ot_nonce tx) (sq_txs q) = filter (fun kv => ot_hash kv.2 <> h) (sq_txs q).
Proof.
  intros Hwf Hinj Hin Hh. apply map_eq. intros k. apply option_eq. intros x.
  rewrite lookup_delete_Some, map_lookup_filter_Some. simpl.
  split; intros [H1 H2]; (split; [|]); try done.
  - intros Hx. apply H1. apply sq_txs_lookup in H2 as [H2 <-]; [|apply Hwf].
    f_equal. apply Hinj; [done|done|]. congruence.
  - intros <-. apply sq_txs_lookup in H1 as [H1 Heq]; [|apply Hwf].
    apply H2. rewrite <- Hh. f_equal. 
    eapply (inj Some). rewrite <- (proj2 (sq_txs_lookup q _ x (wf_pre _ Hwf)) (conj H1 Heq)).
    by apply sq_txs_lookup; [apply Hwf|].
Qed.

Lemma sq_step_refines sender univ q o :
  hash_injective univ -> sq_op_ok sender univ o ->
  sq_wf q -> sq_sender q = sender -> Forall (fun tx => tx ∈ univ) (sq_all q) ->
  sq_wf (sq_step q o) /\ sq_sender (sq_step q o) = sender
  /\ Forall (fun tx => tx ∈ univ) (sq_all (sq_step q o))
  /\ sq_abs (sq_step q o) = abs_step (sq_abs q) o.
Proof.
  intros Hinj Hok Hwf Hs Hu.
  assert (forall q', sq_wf q' ->
    (forall k x, sq_txs q' !! k = Some x -> x ∈ univ) ->
    Forall (fun tx => tx ∈ univ) (sq_all q')) as Hback.
  { intros q' Hwf' H. apply Forall_forall. intros x Hx. apply (H (ot_nonce x)).
    by apply sq_txs_lookup; [apply Hwf'|]. }
  assert (forall k x, sq_txs q !! k = Some x -> x ∈ univ) as Hu'.
  { intros k x [Hx _]%sq_txs_lookup; [|apply Hwf]. by eapply Forall_forall in Hu. }
  destruct o as [tx|h|c]; simpl in Hok |- *; unfold sq_abs; simpl.
  - destruct Hok as (Hmax & Htx & Hin).
    destruct (sq_insert_spec q tx Hwf Hmax) as [(Hw & Hn & Hse & Ht) _]; [congruence|].
    rewrite Hn, Ht. split_and!; [done|congruence| |done].
    apply Hback; [done|]. rewrite Ht. intros k x [->|Hx]%abs_insert_elem; eauto.
  - pose proof (sq_remove_by_hash_spec q h Hwf) as Hr. cbv zeta in Hr.
    destruct ((sq_remove_by_hash q h).2) as [tx|].
    + destruct Hr as (Hh & Hp & Hw & Hn & Hse & Ht). rewrite Hn, Ht.
      rewrite Hp, Forall_cons in Hu. destruct Hu as [Htx Hu].
      split_and!; [done|congruence|done|]. f_equal.
      apply abs_remove_delete; [done| |rewrite Hp; by left|done].
      intros a b Ha Hb. apply Hinj; eapply Hu'; apply sq_txs_lookup;
        try apply Hwf; eauto.
    + destruct Hr as [-> Hne]. split_and!; [done|done|done|]. f_equal.
      symmetry. apply map_filter_id. intros k x [Hx _]%sq_txs_lookup; [|apply Hwf].
      by eapply Forall_forall in Hne.
  - destruct (sq_remove_confirmed_spec q c Hwf Hok) as (Hw & Hse & Hn & Ht).
    rewrite Hn, Ht. split_and!; [done|congruence| |done].
    apply Hback; [done|]. rewrite Ht. intros k x [Hx _]%map_lookup_filter_Some. eauto.
Qed.

Lemma sq_steps_refine sender univ ops q :
  hash_injective univ -> Forall (sq_op_ok sender univ) ops ->
  sq_wf q -> sq_sender q = sender -> Forall (fun tx => tx ∈ univ) (sq_all q) ->
  sq_wf (foldl sq_step q ops) /\ sq_sender (foldl sq_step q ops) = sender
  /\ sq_abs (foldl sq_step q ops) = foldl abs_step (sq_abs q) ops.
Proof.
  intros Hinj Hok. revert q.
  induction Hok as [|o ops Ho _ IH]; intros q Hwf Hs Hu; cbn [foldl]; [done|].
  destruct (sq_step_refines sender univ q o) as (Hw & Hse & Hu' & Ha); [done..|].
  rewrite <- Ha. by apply IH.
Qed.

(** ** Properties *)

(** C4: a queue is an implementation of a map from nonces to transactions.
    Any sequence of [insert], [remove_by_hash] and [remove_confirmed] from
    [SenderQueue::new] keeps the invariant and has exactly the effect of the
    corresponding map operations: a free nonce is filled, a taken one goes to
    the strictly higher price, a hash or the nonces up to a confirmed one are
    dropped, and the next nonce advances past the confirmed one. *)
Theorem sq_run_refines sender n univ ops :
  0 <= n <= u64_max -> hash_injective univ -> Forall (sq_op_ok sender univ) ops ->
  let q := foldl sq_step (sq_new sender n) ops in
  sq_wf q /\ sq_sender q = sender
  /\ sq_abs q = foldl abs_step (n, ∅) ops.
Proof.
  intros Hn Hinj Hok. apply (sq_steps_refine sender univ); [done|done|by apply sq_new_wf|done|].
  constructor.
Qed.

(** ** Witnesses *)

Definition demo_env : TxEnvelope :=
  Legacy (mkTxLegacy (Some 1) 0 7 21000 None 0 []) (mkSignature 1 1 false).
Definition demo_tx (hash nonce price ts : Z) : OrderedTransaction :=
  mkOT hash 42 nonce price ts demo_env.

Definition demo_ops : list sq_op :=
  [OpInsert (demo_tx 10 5 7 0); OpInsert (demo_tx 12 7 7 1); OpInsert (demo_tx 11 6 9 2);
   OpInsert (demo_tx 13 6 10 3); OpRemove 13; OpConfirm 5].

Lemma sq_run_refines_witness :
  sq_wf (foldl sq_step (sq_new 42 5) demo_ops)
  /\ sq_pending (foldl sq_step (sq_new 42 5) demo_ops) = []
  /\ sq_next_nonce (foldl sq_step (sq_new 42 5) demo_ops) = 6.
Proof.
  split; [|vm_compute; done].
  apply (sq_run_refines 42 5
    [demo_tx 10 5 7 0; demo_tx 12 7 7 1; demo_tx 11 6 9 2; demo_tx 13 6 10 3]).
  - vm_compute. split; discriminate.
  - intros a b Ha Hb. set_unfold in Ha; set_unfold in Hb.
    naive_solver (vm_compute; congruence).
  - unfold demo_ops. repeat (apply Forall_cons; split); try apply Forall_nil_2; simpl;
      split_and?; (set_solver || done || lia).
Defined.
