(* ===== verification/Pool.v ===== *)
(** The transaction pool (crates/node/txpool/src/pool.rs): its indices and
    every operation that reads or changes them.

    The [HashMap]s are finite maps; where the code iterates over one it
    visits [map_to_list].  An operation under the write lock is a function on
    [PoolInner]; an operation of [TransactionPool] also returns the events it
    broadcasts (appended to [tp_events]) and the gauges it sets
    ([tp_metrics]).  The wall clock is the argument [now]. *)
From S2P Require Import Prelude TxTypes SenderQueue.

Record PoolInner := mkPoolInner {
  by_hash : gmap B256 OrderedTransaction;
  by_id : gmap B256 B256;
  by_sender : gmap Address SenderQueue;
  pending_count : usize;
  queued_count : usize;
}.

Definition PoolInner_new : PoolInner := mkPoolInner ∅ ∅ ∅ 0 0.

(** [HashMap::values]. *)
Definition queues (m : gmap Address SenderQueue) : list SenderQueue :=
  (map_to_list m).*2.

Definition update_counts (inner : PoolInner) : PoolInner :=
  mkPoolInner (by_hash inner) (by_id inner) (by_sender inner)
    (sum_Z (sq_pending_count <$> queues (by_sender inner)))
    (sum_Z (sq_queued_count <$> queues (by_sender inner))).

Inductive InsertionTarget : Type := Pending | Queued | Replacement.

Definition existing_nonce_tx (queue : SenderQueue) (nonce : u64) : option OrderedTransaction :=
  snd <$> list_find (fun tx => ot_nonce tx = nonce) (sq_pending queue ++ sq_queued queue).

(** The sum of [next_nonce] and the pending length is the unchecked one of a
    release build. *)
Definition insertion_target (queue : option SenderQueue) (tx : OrderedTransaction)
    : InsertionTarget :=
  match queue with
  | None => Pending
  | Some queue =>
      match existing_nonce_tx queue (ot_nonce tx) with
      | Some _ => Replacement
      | None =>
          if ot_nonce tx =? wrapping_add u64_max (sq_next_nonce queue) (len (sq_pending queue))
          then Pending else Queued
      end
  end.

(** The gauges of the pool among the application metrics. *)
Record PoolMetrics := mkPoolMetrics {
  txpool_size : Z;
  txpool_pending : Z;
  txpool_queued : Z;
  txpool_rejected : gmap string Z;
}.

Record TransactionPool := mkPool {
  tp_inner : PoolInner;
  tp_config : PoolConfig;
  tp_events : option (list MempoolEvent);
  tp_metrics : option PoolMetrics;
}.

Definition pool_new (config : PoolConfig) : TransactionPool :=
  mkPool PoolInner_new config None None.
Definition pool_new_with_events (config : PoolConfig) : TransactionPool :=
  mkPool PoolInner_new config (Some []) None.
Definition set_metrics (p : TransactionPool) (m : PoolMetrics) : TransactionPool :=
  mkPool (tp_inner p) (tp_config p) (tp_events p) (Some m).

Definition sync_metrics (p : TransactionPool) : TransactionPool :=
  mkPool (tp_inner p) (tp_config p) (tp_events p)
    ((fun m => mkPoolMetrics (as_i64 (Z.of_nat (size (by_hash (tp_inner p)))))
        (as_i64 (pending_count (tp_inner p))) (as_i64 (queued_count (tp_inner p)))
        (txpool_rejected m)) <$> tp_metrics p).

Definition record_rejection (p : TransactionPool) (reason : string) : TransactionPool :=
  mkPool (tp_inner p) (tp_config p) (tp_events p)
    ((fun m => mkPoolMetrics (txpool_size m) (txpool_pending m) (txpool_queued m)
        (<[reason := default 0 (txpool_rejected m !! reason) + 1]> (txpool_rejected m)))
     <$> tp_metrics p).

(** Sending on the broadcast channel, when there is one. *)
Definition send_events (p : TransactionPool) (evs : list MempoolEvent) : TransactionPool :=
  mkPool (tp_inner p) (tp_config p) ((fun l => l ++ evs) <$> tp_events p) (tp_metrics p).

Definition with_inner (p : TransactionPool) (inner : PoolInner) : TransactionPool :=
  mkPool inner (tp_config p) (tp_events p) (tp_metrics p).

Definition tx_added_event (tx : OrderedTransaction) : MempoolEvent :=
  TxAdded (ot_hash tx) (ot_sender tx) (env_to (ot_envelope tx)) (env_value (ot_envelope tx))
    (ot_price tx) (ot_nonce tx).

(** All transactions of one of the two kinds, over the sender queues. *)
Definition all_pending (inner : PoolInner) : list OrderedTransaction :=
  q ← queues (by_sender inner); sq_pending q.
Definition all_queued (inner : PoolInner) : list OrderedTransaction :=
  q ← queues (by_sender inner); sq_queued q.

Definition min_pending_price (inner : PoolInner) : option u128 :=
  min_by Z.compare (ot_price <$> all_pending inner).
Definition min_queued_price (inner : PoolInner) : option u128 :=
  min_by Z.compare (ot_price <$> all_queued inner).

Definition reject_underpriced_when_full (config : PoolConfig) (inner : PoolInner)
    (tx : OrderedTransaction) (target : InsertionTarget) : result unit TxPoolError :=
  match target with
  | Pending =>
      if max_pending_txs config =? 0 then Err PoolFull
      else if max_pending_txs config <=? pending_count inner then
        match min_pending_price inner with
        | Some min_price => if ot_price tx <=? min_price then Err PoolFull else Ok tt
        | None => Ok tt
        end
      else Ok tt
  | Queued =>
      if max_queued_txs config =? 0 then Err PoolFull
      else if max_queued_txs config <=? queued_count inner then
        match min_queued_price inner with
        | Some min_price => if ot_price tx <=? min_price then Err PoolFull else Ok tt
        | None => Ok tt
        end
      else Ok tt
  | Replacement => Ok tt
  end.

(** The eviction key [(price, Reverse(timestamp), hash)]. *)
Definition evict_cmp : OrderedTransaction -> OrderedTransaction -> comparison :=
  cmp_lex (cmp_on ot_price Z.compare)
    (cmp_lex (cmp_rev (cmp_on ot_timestamp Z.compare)) (cmp_on ot_hash Z.compare)).

(** [rejection_reason]. *)
Definition rejection_reason (e : TxPoolError) : string :=
  match e with
  | PoolFull => "pool_full"
  | SenderFull _ => "sender_full"
  | TxTooLarge _ _ => "tx_too_large"
  | GasPriceTooLow _ _ => "gas_price_too_low"
  | NonceTooLow _ _ => "nonce_too_low"
  | NonceGap _ _ => "nonce_gap"
  | InsufficientBalance _ _ => "insufficient_balance"
  | InvalidChainId _ _ => "invalid_chain_id"
  | InvalidSignature => "invalid_signature"
  | DecodeError _ => "decode_error"
  | IntrinsicGasTooLow _ _ => "intrinsic_gas_too_low"
  | AlreadyExists => "already_exists"
  | NonceAlreadyInPool _ _ => "nonce_already_in_pool"
  | StateError _ => "state_error"
  | ReplacementUnderpriced => "replacement_underpriced"
  end.

Section pool.
Context `{EXT : !External}.

Definition ordered_to_tx (tx : OrderedTransaction) : Tx :=
  mkTx (encode_2718 (ot_envelope tx)).

Definition ordered_tx_id (tx : OrderedTransaction) : B256 := tx_id (ordered_to_tx tx).

(** The change of [by_sender] in [PoolInner::remove_by_hash]. *)
Definition sender_remove (m : gmap Address SenderQueue) (sender : Address) (hash : B256)
    : gmap Address SenderQueue :=
  match m !! sender with
  | Some queue =>
      let queue' := (sq_remove_by_hash queue hash).1 in
      if sq_is_empty queue' then delete sender m else <[sender := queue']> m
  | None => m
  end.

Definition inner_remove_by_hash (inner : PoolInner) (hash : B256)
    : PoolInner * option OrderedTransaction :=
  match by_hash inner !! hash with
  | None => (inner, None)
  | Some tx =>
      (mkPoolInner (delete hash (by_hash inner)) (delete (ordered_tx_id tx) (by_id inner))
         (sender_remove (by_sender inner) (ot_sender tx) hash)
         (pending_count inner) (queued_count inner), Some tx)
  end.

Definition evict_lowest_pending (inner : PoolInner) : PoolInner * option OrderedTransaction :=
  match min_by evict_cmp (all_pending inner) with
  | None => (inner, None)
  | Some tx =>
      let '(inner', removed) := inner_remove_by_hash inner (ot_hash tx) in
      (update_counts inner', removed)
  end.

Definition evict_lowest_queued (inner : PoolInner) : PoolInner * option OrderedTransaction :=
  match min_by evict_cmp (all_queued inner) with
  | None => (inner, None)
  | Some tx =>
      let '(inner', removed) := inner_remove_by_hash inner (ot_hash tx) in
      (update_counts inner', removed)
  end.

(** The two eviction loops of [add]: the evicted transactions, in order.  An
    iteration lowers the count that drives the loop, so the count itself is
    fuel enough ([evict_loop_pending_le] and [evict_loop_queued_le]). *)
Fixpoint evict_loop_pending (fuel : nat) (max : usize) (inner : PoolInner)
    : PoolInner * list OrderedTransaction :=
  match fuel with
  | O => (inner, [])
  | S fuel =>
      if max <? pending_count inner then
        match evict_lowest_pending inner with
        | (inner', Some evicted) =>
            let '(inner'', l) := evict_loop_pending fuel max inner' in
            (inner'', evicted :: l)
        | (inner', None) => (inner', [])
        end
      else (inner, [])
  end.

Fixpoint evict_loop_queued (fuel : nat) (max : usize) (inner : PoolInner)
    : PoolInner * list OrderedTransaction :=
  match fuel with
  | O => (inner, [])
  | S fuel =>
      if max <? queued_count inner then
        match evict_lowest_queued inner with
        | (inner', Some evicted) =>
            let '(inner'', l) := evict_loop_queued fuel max inner' in
            (inner'', evicted :: l)
        | (inner', None) => (inner', [])
        end
      else (inner, [])
  end.

(** The guards of [add] before anything is changed. *)
Definition add_guard (config : PoolConfig) (inner : PoolInner) (tx : OrderedTransaction)
    : result unit TxPoolError :=
  if bool_decide (is_Some (by_hash inner !! ot_hash tx))
     || bool_decide (is_Some (by_id inner !! ordered_tx_id tx))
  then Err AlreadyExists
  else
    let target := insertion_target (by_sender inner !! ot_sender tx) tx in
    let? _ :=
      match by_sender inner !! ot_sender tx with
      | Some queue =>
          if ot_nonce tx <? sq_next_nonce queue
          then Err (NonceTooLow (ot_nonce tx) (sq_next_nonce queue))
          else match target with
               | Replacement => Ok tt
               | _ => if max_txs_per_sender config <=? sq_total_count queue
                      then Err (SenderFull (ot_sender tx)) else Ok tt
               end
      | None => Ok tt
      end in
    reject_underpriced_when_full config inner tx target.

(** The insertion proper: the new indices, and the hash that was replaced.
    On [ReplacementUnderpriced] the indices are those after
    [by_sender.entry(..).or_insert_with(..)] and [queue.insert]. *)
Definition add_insert (inner : PoolInner) (tx : OrderedTransaction)
    : PoolInner * result (option B256) TxPoolError :=
  let queue := default (sq_new (ot_sender tx) (ot_nonce tx))
                 (by_sender inner !! ot_sender tx) in
  let '(queue', displaced) := sq_insert queue tx in
  let inner1 := mkPoolInner (by_hash inner) (by_id inner)
                  (<[ot_sender tx := queue']> (by_sender inner))
                  (pending_count inner) (queued_count inner) in
  let finish := fun inner2 =>
    update_counts
      (mkPoolInner (<[ot_hash tx := tx]> (by_hash inner2))
         (<[ordered_tx_id tx := ot_hash tx]> (by_id inner2)) (by_sender inner2)
         (pending_count inner2) (queued_count inner2)) in
  match displaced with
  | Some replaced =>
      if ot_hash replaced =? ot_hash tx then (inner1, Err ReplacementUnderpriced)
      else (finish (inner_remove_by_hash inner1 (ot_hash replaced)).1,
            Ok (Some (ot_hash replaced)))
  | None => (finish inner1, Ok None)
  end.

(** The eviction of [add]. *)
Definition add_evict (config : PoolConfig) (inner : PoolInner)
    : PoolInner * list OrderedTransaction :=
  let '(inner1, ev1) :=
    evict_loop_pending (Z.to_nat (pending_count inner)) (max_pending_txs config) inner in
  let '(inner2, ev2) :=
    evict_loop_queued (Z.to_nat (queued_count inner1)) (max_queued_txs config) inner1 in
  (inner2, ev1 ++ ev2).

(** The events [add] broadcasts. *)
Definition add_events (tx : OrderedTransaction) (replaced_hash : option B256)
    (evicted : list OrderedTransaction) (inserted_evicted : bool) : list MempoolEvent :=
  match replaced_hash with Some h => [TxEvicted h "replaced"] | None => [] end
  ++ (if inserted_evicted then [] else [tx_added_event tx])
  ++ ((fun e => TxEvicted (ot_hash e) "evicted") <$> evicted).

(** [TransactionPool::add]. *)
Definition pool_add (p : TransactionPool) (tx : OrderedTransaction)
    : TransactionPool * result unit TxPoolError :=
  let config := tp_config p in
  match add_guard config (tp_inner p) tx with
  | Err e => (p, Err e)
  | Ok _ =>
      match add_insert (tp_inner p) tx with
      | (inner1, Err e) => (with_inner p inner1, Err e)
      | (inner1, Ok replaced_hash) =>
          let '(inner2, evicted) := add_evict config inner1 in
          let inserted_evicted :=
            existsb (fun e => ot_hash e =? ot_hash tx) evicted in
          (sync_metrics
             (send_events (with_inner p inner2)
                (add_events tx replaced_hash evicted inserted_evicted)),
           if inserted_evicted then Err PoolFull else Ok tt)
      end
  end.

(** [TransactionPool::pending]. *)
Definition pool_pending (p : TransactionPool) (max_txs : usize) : list OrderedTransaction :=
  take (Z.to_nat max_txs) (sort_by ot_cmp (all_pending (tp_inner p))).

Definition pending_for_sender (p : TransactionPool) (sender : Address)
    : list OrderedTransaction :=
  default [] (sq_pending <$> by_sender (tp_inner p) !! sender).

Definition next_nonce (p : TransactionPool) (sender : Address) : option u64 :=
  next_pending_nonce <$> by_sender (tp_inner p) !! sender.

Definition pool_get (p : TransactionPool) (hash : B256) : option OrderedTransaction :=
  by_hash (tp_inner p) !! hash.

Definition remove_with_reason (p : TransactionPool) (hash : B256) (reason : string)
    : TransactionPool * option OrderedTransaction :=
  match inner_remove_by_hash (tp_inner p) hash with
  | (_, None) => (p, None)
  | (inner, Some tx) =>
      (sync_metrics
         (send_events (with_inner p (update_counts inner)) [TxEvicted hash reason]), Some tx)
  end.

Definition pool_remove (p : TransactionPool) (hash : B256)
    : TransactionPool * option OrderedTransaction :=
  remove_with_reason p hash "removed".

Definition remove_hashes (inner : PoolInner) (hashes : list B256) : PoolInner :=
  foldl (fun inner hash => (inner_remove_by_hash inner hash).1) inner hashes.

(** The hashes a confirmed nonce retires from a queue. *)
Definition confirmed_hashes (queue : SenderQueue) (confirmed_nonce : u64) : list B256 :=
  ot_hash <$> filter (fun tx => ot_nonce tx <= confirmed_nonce)
                (sq_pending queue ++ sq_queued queue).

Definition with_senders (inner : PoolInner) (m : gmap Address SenderQueue) : PoolInner :=
  mkPoolInner (by_hash inner) (by_id inner) m (pending_count inner) (queued_count inner).

(** [TransactionPool::remove_confirmed], under the lock. *)
Definition inner_remove_confirmed (inner : PoolInner) (sender : Address)
    (confirmed_nonce : u64) : PoolInner :=
  let hashes_to_remove :=
    default [] ((fun queue => confirmed_hashes queue confirmed_nonce)
                <$> by_sender inner !! sender) in
  let inner1 := remove_hashes inner hashes_to_remove in
  let inner2 :=
    match by_sender inner1 !! sender with
    | Some queue =>
        let queue' := sq_remove_confirmed queue confirmed_nonce in
        with_senders inner1
          (if sq_is_empty queue' then delete sender (by_sender inner1)
           else <[sender := queue']> (by_sender inner1))
    | None => inner1
    end in
  update_counts inner2.

Definition pool_remove_confirmed (p : TransactionPool) (sender : Address)
    (confirmed_nonce : u64) : TransactionPool :=
  sync_metrics (with_inner p (inner_remove_confirmed (tp_inner p) sender confirmed_nonce)).

Definition pool_pending_count (p : TransactionPool) : usize := pending_count (tp_inner p).
Definition pool_queued_count (p : TransactionPool) : usize := queued_count (tp_inner p).
Definition pool_len (p : TransactionPool) : usize := Z.of_nat (size (by_hash (tp_inner p))).
Definition pool_is_empty (p : TransactionPool) : bool :=
  bool_decide (by_hash (tp_inner p) = ∅).
Definition senders (p : TransactionPool) : list Address :=
  (map_to_list (by_sender (tp_inner p))).*1.
Definition contains (p : TransactionPool) (hash : B256) : bool :=
  bool_decide (is_Some (by_hash (tp_inner p) !! hash)).

Definition has_nonce (p : TransactionPool) (sender : Address) (nonce : u64) : bool :=
  match by_sender (tp_inner p) !! sender with
  | None => false
  | Some queue =>
      existsb (fun tx => ot_nonce tx =? nonce) (sq_pending queue ++ sq_queued queue)
  end.

Definition snapshot (p : TransactionPool)
    : gmap Address (list OrderedTransaction * list OrderedTransaction) :=
  (fun queue => (sq_pending queue, sq_queued queue)) <$> by_sender (tp_inner p).

(** The hashes [cleanup] finds expired. *)
Definition expired_hashes (config : PoolConfig) (now : u64) (inner : PoolInner) : list B256 :=
  queue ← queues (by_sender inner);
  (ot_hash <$> filter (fun tx => pending_ttl_secs config < saturating_sub now (ot_timestamp tx))
                 (sq_pending queue))
  ++ (ot_hash <$> filter (fun tx => queued_ttl_secs config < saturating_sub now (ot_timestamp tx))
                    (sq_queued queue)).

(** The removal loop of [cleanup]: it counts the hashes that were present. *)
Definition cleanup_loop (inner : PoolInner) (hashes : list B256) : PoolInner * usize :=
  foldl (fun '(inner, removed) hash =>
           match inner_remove_by_hash inner hash with
           | (inner', Some _) => (inner', removed + 1)
           | (inner', None) => (inner', removed)
           end) (inner, 0) hashes.

Definition cleanup (p : TransactionPool) (now : u64) : TransactionPool * usize :=
  let '(inner, removed) :=
    cleanup_loop (tp_inner p) (expired_hashes (tp_config p) now (tp_inner p)) in
  let p' := with_inner p (update_counts inner) in
  (if 0 <? removed then sync_metrics p' else p', removed).

Definition clear (p : TransactionPool) : TransactionPool :=
  sync_metrics (with_inner p (mkPoolInner ∅ ∅ ∅ 0 0)).

(** [tx_to_ordered]: the conversion of the mempool interface. *)
Definition tx_to_ordered (now : u64) (tx : Tx) : option OrderedTransaction :=
  envelope ← ok (decode_2718 (tx_bytes tx));
  sender ← recover_address envelope;
  Some (mkOT (keccak256 (tx_bytes tx)) sender (env_nonce envelope)
          (effective_gas_price envelope) now envelope).

(** [Mempool::insert]. *)
Definition mempool_insert (p : TransactionPool) (now : u64) (tx : Tx)
    : TransactionPool * bool :=
  match tx_to_ordered now tx with
  | None => (record_rejection p "decode_error", false)
  | Some ordered =>
      match pool_add p ordered with
      | (p', Ok _) => (p', true)
      | (p', Err e) => (record_rejection p' (rejection_reason e), false)
      end
  end.

(** The highest nonce per sender among the given ids ([Mempool::prune]). *)
Definition confirmed_by_sender (inner : PoolInner) (tx_ids : list B256) : gmap Address u64 :=
  foldl (fun m id =>
           match by_id inner !! id with
           | None => m
           | Some hash =>
               match by_hash inner !! hash with
               | Some tx =>
                   <[ot_sender tx := match m !! ot_sender tx with
                                     | Some nonce => Z.max nonce (ot_nonce tx)
                                     | None => ot_nonce tx
                                     end]> m
               | None => m
               end
           end) ∅ tx_ids.

(** One iteration of the loop over [confirmed_by_sender]. *)
Definition prune_sender (acc : PoolInner * list Address * list B256) (kv : Address * u64)
    : PoolInner * list Address * list B256 :=
  let '(inner, senders_to_check, hashes_to_remove) := acc in
  let '(sender, confirmed_nonce) := kv in
  match by_sender inner !! sender with
  | Some queue =>
      (with_senders inner
         (<[sender := sq_remove_confirmed queue confirmed_nonce]> (by_sender inner)),
       senders_to_check ++ [sender],
       hashes_to_remove ++ confirmed_hashes queue confirmed_nonce)
  | None => acc
  end.

(** The last loop of [prune]: the emptied queues are dropped. *)
Definition drop_empty (inner : PoolInner) (sender : Address) : PoolInner :=
  match by_sender inner !! sender with
  | Some queue =>
      if sq_is_empty queue then with_senders inner (delete sender (by_sender inner))
      else inner
  | None => inner
  end.

Definition inner_prune (inner : PoolInner) (tx_ids : list B256) : PoolInner :=
  let '(inner1, senders_to_check, hashes_to_remove) :=
    foldl prune_sender (inner, [], []) (map_to_list (confirmed_by_sender inner tx_ids)) in
  let inner2 := remove_hashes inner1 hashes_to_remove in
  update_counts (foldl drop_empty inner2 senders_to_check).

(** [Mempool::prune]. *)
Definition mempool_prune (p : TransactionPool) (tx_ids : list B256) : TransactionPool :=
  sync_metrics (with_inner p (inner_prune (tp_inner p) tx_ids)).

(** [BuildSenderState] and its operations. *)
Record BuildSenderState := mkBSS {
  bs_txs : list OrderedTransaction;
  bs_index : nat;
  bs_expected_nonce : u64;
}.

(** [next_candidate] drops the transactions it skips: the state it leaves and
    the candidate. *)
Fixpoint next_candidate_loop (excluded : gset B256) (rest : list OrderedTransaction)
    (index : nat) (expected_nonce : u64) : nat * u64 * option OrderedTransaction :=
  match rest with
  | [] => (index, expected_nonce, None)
  | tx :: rest' =>
      if ot_nonce tx <? expected_nonce
      then next_candidate_loop excluded rest' (S index) expected_nonce
      else if expected_nonce <? ot_nonce tx then (index, expected_nonce, None)
      else if bool_decide (ordered_tx_id tx ∈ excluded)
      then next_candidate_loop excluded rest' (S index)
             (saturating_add u64_max (ot_nonce tx) 1)
      else (index, expected_nonce, Some tx)
  end.

Definition next_candidate (excluded : gset B256) (st : BuildSenderState)
    : BuildSenderState * option OrderedTransaction :=
  let '(index, expected, tx) :=
    next_candidate_loop excluded (drop (bs_index st) (bs_txs st)) (bs_index st)
      (bs_expected_nonce st) in
  (mkBSS (bs_txs st) index expected, tx).

Definition consume (st : BuildSenderState) : BuildSenderState :=
  mkBSS (bs_txs st) (S (bs_index st)) (saturating_add u64_max (bs_expected_nonce st) 1).

(** The build states of the senders with pending transactions. *)
Definition build_states (inner : PoolInner) : gmap Address BuildSenderState :=
  (fun queue => mkBSS (sq_pending queue) O (sq_next_nonce queue))
  <$> filter (fun kv => sq_pending kv.2 <> []) (by_sender inner).

(** The candidates of one round, in the order the senders are visited. *)
Definition round_candidates (excluded : gset B256) (sts : gmap Address BuildSenderState)
    : list (Address * OrderedTransaction) :=
  omap (fun kv => (fun tx => (kv.1, tx)) <$> (next_candidate excluded kv.2).2)
    (map_to_list sts).

(** One round: [iter_mut] advances every state, then the best candidate is
    taken and its state consumed. *)
Definition build_round (excluded : gset B256) (sts : gmap Address BuildSenderState)
    : option (gmap Address BuildSenderState * OrderedTransaction) :=
  match min_by (cmp_on snd ot_cmp) (round_candidates excluded sts) with
  | None => None
  | Some (sender, tx) =>
      Some (alter consume sender ((fun st => (next_candidate excluded st).1) <$> sts), tx)
  end.

(** The rounds of [Mempool::build], at most [max_txs] of them; the chosen
    transactions in order. *)
Fixpoint build_loop (max_txs : nat) (excluded : gset B256)
    (sts : gmap Address BuildSenderState) : list OrderedTransaction :=
  match max_txs with
  | O => []
  | S n =>
      match build_round excluded sts with
      | None => []
      | Some (sts', tx) => tx :: build_loop n excluded sts'
      end
  end.

Definition mempool_build (p : TransactionPool) (max_txs : usize) (excluded : gset B256)
    : list Tx :=
  ordered_to_tx
  <$> build_loop (Z.to_nat max_txs) excluded (build_states (tp_inner p)).

End pool.
