(* ===== verification/PoolInv.v ===== *)
(** The invariant of the transaction pool and the effect of its operations.

    [inner_wf] ties the three indices of [PoolInner] together: every queue is
    well formed and not empty, [by_hash] holds exactly the transactions of the
    queues, [by_id] is the inverse of the transaction identifier on them, and
    the two counters are the sums of the queue lengths.  The intermediate
    states of an operation, in which the indices and the queues differ, are
    described by [pool_rel]: the indices hold a set [S] of transactions that
    contains the queued ones. *)
From S2P Require Import Prelude TxTypes SenderQueue Pool.

(** ** Queues *)

(** [tx] is in the queue of its sender. *)
Definition in_queues (m : gmap Address SenderQueue) (tx : OrderedTransaction) : Prop :=
  exists q, m !! ot_sender tx = Some q /\ tx ∈ sq_all q.

Definition queues_wf (m : gmap Address SenderQueue) : Prop :=
  map_Forall (fun s q => sq_wf q /\ sq_sender q = s) m.

(** The queues that may be empty are those of [except]. *)
Definition queues_nonempty (except : list Address) (m : gmap Address SenderQueue) : Prop :=
  forall s q, m !! s = Some q -> s ∉ except -> sq_is_empty q = false.

(** [m'] has no queue that [m] lacks, and keeps the next nonces. *)
Definition next_kept (m m' : gmap Address SenderQueue) : Prop :=
  forall s q', m' !! s = Some q' ->
    exists q, m !! s = Some q /\ sq_next_nonce q' = sq_next_nonce q.

Lemma sq_is_empty_true q : sq_is_empty q = true <-> sq_all q = [].
Proof.
  unfold sq_is_empty, sq_all. destruct (sq_pending q), (sq_queued q); simpl; naive_solver.
Qed.

Lemma in_queues_key m s q tx :
  queues_wf m -> m !! s = Some q -> tx ∈ sq_all q -> ot_sender tx = s.
Proof.
  intros Hwf Hq Htx. destruct (Hwf s q Hq) as [Hw <-].
  pose proof (wf_sender _ (wf_pre _ Hw)) as Hs. by eapply Forall_forall in Hs.
Qed.

Lemma in_queues_intro m s q tx :
  queues_wf m -> m !! s = Some q -> tx ∈ sq_all q -> in_queues m tx.
Proof. intros Hwf Hq Htx. exists q. by rewrite (in_queues_key m s q tx). Qed.

Lemma queues_insert_wf m s q :
  queues_wf m -> sq_wf q -> sq_sender q = s -> queues_wf (<[s := q]> m).
Proof. intros Hm Hq Hs. by apply map_Forall_insert_2. Qed.

Lemma queues_delete_wf m s : queues_wf m -> queues_wf (delete s m).
Proof. apply map_Forall_delete. Qed.

(** The transactions after the queue of [s] is replaced. *)
Lemma in_queues_insert m s q x :
  in_queues (<[s := q]> m) x <->
  (ot_sender x = s /\ x ∈ sq_all q) \/ (ot_sender x <> s /\ in_queues m x).
Proof.
  unfold in_queues. destruct (decide (ot_sender x = s)) as [Heq|Hne].
  - rewrite Heq. setoid_rewrite lookup_insert_eq. naive_solver.
  - setoid_rewrite lookup_insert_ne; [|done]. naive_solver.
Qed.

Lemma in_queues_delete m s x :
  in_queues (delete s m) x <-> ot_sender x <> s /\ in_queues m x.
Proof.
  unfold in_queues. setoid_rewrite lookup_delete_Some. naive_solver.
Qed.

(** [update_queue]: keep a queue unless it became empty. *)
Definition put_queue (m : gmap Address SenderQueue) (s : Address) (q : SenderQueue)
    : gmap Address SenderQueue :=
  if sq_is_empty q then delete s m else <[s := q]> m.

Lemma put_queue_wf m s q :
  queues_wf m -> sq_wf q -> sq_sender q = s -> queues_wf (put_queue m s q).
Proof.
  intros. unfold put_queue. destruct (sq_is_empty q);
    [by apply queues_delete_wf|by apply queues_insert_wf].
Qed.

Lemma put_queue_in m s q x :
  in_queues (put_queue m s q) x <->
  (ot_sender x = s /\ x ∈ sq_all q) \/ (ot_sender x <> s /\ in_queues m x).
Proof.
  unfold put_queue. destruct (sq_is_empty q) eqn:E; [|apply in_queues_insert].
  apply sq_is_empty_true in E. rewrite E, in_queues_delete.
  pose proof (not_elem_of_nil x). tauto.
Qed.

Lemma put_queue_nonempty except m s q :
  queues_nonempty except m -> queues_nonempty except (put_queue m s q).
Proof.
  intros Hm s' q'. unfold put_queue. destruct (sq_is_empty q) eqn:E.
  - intros [_ H]%lookup_delete_Some. by apply Hm.
  - intros [[<- <-]|[_ H]]%lookup_insert_Some; [done|]. by apply Hm.
Qed.

Lemma put_queue_lookup_ne m s s' q : s <> s' -> put_queue m s q !! s' = m !! s'.
Proof.
  intros H. unfold put_queue. destruct (sq_is_empty q);
    [by rewrite lookup_delete_ne|by rewrite lookup_insert_ne].
Qed.

Lemma put_queue_next m s q q0 :
  m !! s = Some q0 -> sq_next_nonce q = sq_next_nonce q0 -> next_kept m (put_queue m s q).
Proof.
  intros H0 Hn s' q'. unfold put_queue. destruct (sq_is_empty q).
  - intros [_ H]%lookup_delete_Some. eauto.
  - intros [[<- <-]|[_ H]]%lookup_insert_Some; eauto.
Qed.

Lemma next_kept_refl m : next_kept m m.
Proof. intros s q H. eauto. Qed.

Lemma next_kept_trans m1 m2 m3 : next_kept m1 m2 -> next_kept m2 m3 -> next_kept m1 m3.
Proof.
  intros H12 H23 s q3 H3. destruct (H23 s q3 H3) as (q2 & H2 & E).
  destruct (H12 s q2 H2) as (q1 & H1 & E'). exists q1. split; [done|congruence].
Qed.

Section inv.
Context `{EXT : !External}.

(** ** Indices *)

(** [by_hash] and [by_id] hold exactly the transactions of [S]. *)
Record index_ok (H : gmap B256 OrderedTransaction) (ids : gmap B256 B256)
    (S : OrderedTransaction -> Prop) : Prop := {
  ix_hash : forall h x, H !! h = Some x <-> ot_hash x = h /\ S x;
  ix_id : forall i h, ids !! i = Some h <-> exists x, H !! h = Some x /\ ordered_tx_id x = i;
}.

Lemma index_ext H ids (S S' : OrderedTransaction -> Prop) :
  (forall x, S x <-> S' x) -> index_ok H ids S -> index_ok H ids S'.
Proof.
  intros HS [Hh Hi]. split; [|done]. intros h x. by rewrite Hh, HS.
Qed.

Lemma index_unique H ids S a b :
  index_ok H ids S -> S a -> S b -> ot_hash a = ot_hash b -> a = b.
Proof.
  intros [Hh _] Ha Hb Heq.
  assert (H !! ot_hash a = Some a) as H1 by (by apply Hh).
  assert (H !! ot_hash a = Some b) as H2 by (by apply Hh).
  congruence.
Qed.

Lemma index_id_unique H ids S a b :
  index_ok H ids S -> S a -> S b -> ordered_tx_id a = ordered_tx_id b -> a = b.
Proof.
  intros Hix Ha Hb Heq. destruct Hix as [Hh Hi] eqn:E. clear E.
  assert (ids !! ordered_tx_id a = Some (ot_hash a)) as H1.
  { apply Hi. exists a. by rewrite Hh. }
  assert (ids !! ordered_tx_id a = Some (ot_hash b)) as H2.
  { apply Hi. exists b. by rewrite Hh. }
  eapply index_unique; [exact Hix|done|done|congruence].
Qed.

Lemma index_remove H ids S h tx :
  index_ok H ids S -> H !! h = Some tx ->
  index_ok (delete h H) (delete (ordered_tx_id tx) ids)
    (fun x => S x /\ ot_hash x <> h).
Proof.
  intros Hix Htx. pose proof Hix as [Hh Hi]. split.
  - intros k x. rewrite lookup_delete_Some, Hh. naive_solver.
  - intros i k. rewrite lookup_delete_Some, Hi. setoid_rewrite lookup_delete_Some. split.
    + intros (Hne & x & Hx & <-). exists x. split; [|done]. split; [|done].
      intros <-. congruence.
    + intros (x & (Hne & Hx) & <-). split; [|by exists x].
      intros Heq. apply Hne. apply Hh in Hx as [<- Hx]. apply Hh in Htx as [<- Htx].
      f_equal. by eapply index_id_unique.
Qed.

Lemma index_insert H ids S tx :
  index_ok H ids S -> H !! ot_hash tx = None -> ids !! ordered_tx_id tx = None ->
  index_ok (<[ot_hash tx := tx]> H) (<[ordered_tx_id tx := ot_hash tx]> ids)
    (fun x => x = tx \/ S x).
Proof.
  intros [Hh Hi] Hnh Hni.
  assert (forall x, S x -> ot_hash x <> ot_hash tx) as Hne.
  { intros x Hx Heq. assert (H !! ot_hash tx = Some x) by (by apply Hh). congruence. }
  assert (forall x h, H !! h = Some x -> ordered_tx_id x <> ordered_tx_id tx) as Hne'.
  { intros x h Hx Heq. assert (ids !! ordered_tx_id tx = Some h) by (apply Hi; eauto).
    congruence. }
  split.
  - intros k x. rewrite lookup_insert_Some, Hh. split.
    + intros [[<- <-]|(Hk & Heq & Hx)]; auto.
    + intros [<- [->|Hx]]; [by left|]. right. split; [|done].
      intros Heq. by apply (Hne x).
  - intros i k. rewrite lookup_insert_Some, Hi. setoid_rewrite lookup_insert_Some. split.
    + intros [[<- <-]|(Hk & x & Hx & <-)]; [eauto|].
      exists x. split; [|done]. right. split; [|done]. intros <-. congruence.
    + intros (x & [[<- <-]|(Hk & Hx)] & <-); [by left|]. right.
      split; [|eauto]. intros Heq. by eapply Hne'.
Qed.

Lemma index_None H ids S h x :
  index_ok H ids S -> H !! h = None -> S x -> ot_hash x <> h.
Proof. intros [Hh _] Hn Hx Heq. assert (H !! h = Some x) by (by apply Hh). congruence. Qed.

(** ** Removal by hash *)

(** The indices hold [S], which contains the transactions of the queues. *)
Record pool_rel (I : PoolInner) (S : OrderedTransaction -> Prop) : Prop := {
  pr_index : index_ok (by_hash I) (by_id I) S;
  pr_queues : queues_wf (by_sender I);
  pr_sub : forall x, in_queues (by_sender I) x -> S x;
}.

Lemma sender_remove_put m s h :
  sender_remove m s h =
  match m !! s with
  | Some q => put_queue m s (sq_remove_by_hash q h).1
  | None => m
  end.
Proof. done. Qed.

Lemma sq_remove_by_hash_keeps q h :
  sq_wf q -> sq_wf (sq_remove_by_hash q h).1
  /\ sq_sender (sq_remove_by_hash q h).1 = sq_sender q
  /\ sq_next_nonce (sq_remove_by_hash q h).1 = sq_next_nonce q.
Proof.
  intros Hwf. pose proof (sq_remove_by_hash_spec q h Hwf) as Hs. cbv zeta in Hs.
  destruct ((sq_remove_by_hash q h).2); [tauto|]. destruct Hs as [-> _]. done.
Qed.

Lemma sq_remove_by_hash_elem q h x :
  sq_wf q -> (forall a b, a ∈ sq_all q -> b ∈ sq_all q -> ot_hash a = ot_hash b -> a = b) ->
  x ∈ sq_all (sq_remove_by_hash q h).1 <-> x ∈ sq_all q /\ ot_hash x <> h.
Proof.
  intros Hwf Hu. pose proof (sq_remove_by_hash_spec q h Hwf) as Hs. cbv zeta in Hs.
  destruct ((sq_remove_by_hash q h).2) as [tx|].
  - destruct Hs as (Hh & Hp & Hw & _).
    pose proof (sq_prewf_NoDup q (wf_pre _ Hwf)) as Hnd%NoDup_fmap_1.
    rewrite Hp in Hnd. apply NoDup_cons in Hnd as [Hni _].
    rewrite Hp, elem_of_cons. split.
    + intros Hx. split; [by right|]. intros Heq. apply Hni.
      rewrite <- (Hu x tx); [done| | |congruence]; rewrite Hp; set_solver.
    + intros [[->|Hx] Hne]; [done|done].
  - destruct Hs as [-> Hne]. rewrite Forall_forall in Hne. naive_solver.
Qed.

Lemma inner_remove_rel I S h :
  pool_rel I S ->
  let I' := (inner_remove_by_hash I h).1 in
  (inner_remove_by_hash I h).2 = by_hash I !! h
  /\ by_hash I' = delete h (by_hash I)
  /\ pool_rel I' (fun x => S x /\ ot_hash x <> h)
  /\ (forall x, in_queues (by_sender I') x <-> in_queues (by_sender I) x /\ ot_hash x <> h)
  /\ next_kept (by_sender I) (by_sender I')
  /\ (forall E, queues_nonempty E (by_sender I) -> queues_nonempty E (by_sender I')).
Proof.
  intros [Hix Hq Hsub]. cbv zeta. unfold inner_remove_by_hash.
  destruct (by_hash I !! h) as [tx|] eqn:Eh.
  2:{ assert (forall x, S x -> ot_hash x <> h) as Hne
        by (intros x; by eapply index_None).
      split_and!; [done|by rewrite delete_id| | |apply next_kept_refl|done].
      - split; [|done|].
        + eapply index_ext; [|exact Hix]. naive_solver.
        + intros x Hx. split; [by apply Hsub|]. by apply Hne, Hsub.
      - intros x. split; [|tauto]. intros Hx. split; [done|]. by apply Hne, Hsub. }
  simpl. set (s := ot_sender tx). rewrite sender_remove_put.
  pose proof (proj1 (ix_hash _ _ _ Hix h tx) Eh) as [Hh HS].
  assert (forall x, in_queues (by_sender I) x -> ot_hash x = h -> x = tx) as Htx.
  { intros x Hx Heq. eapply index_unique; [exact Hix|by apply Hsub|done|congruence]. }
  pose proof (index_remove _ _ _ _ _ Hix Eh) as Hix'.
  destruct (by_sender I !! s) as [q|] eqn:Es.
  2:{ assert (forall x, in_queues (by_sender I) x <->
        in_queues (by_sender I) x /\ ot_hash x <> h) as Hin.
      { intros x. split; [|tauto]. intros Hx. split; [done|]. intros Heq.
        rewrite (Htx x Hx Heq) in Hx. destruct Hx as (q & Hq' & _). fold s in Hq'. congruence. }
      split_and!; [done|done| |done|apply next_kept_refl|done].
      split; [done|done|]. simpl. intros x Hx%Hin. split; [apply Hsub|]; tauto. }
  destruct (Hq s q Es) as [Hw Hse].
  destruct (sq_remove_by_hash_keeps q h Hw) as (Hw' & Hse' & Hn').
  assert (forall x, in_queues (put_queue (by_sender I) s (sq_remove_by_hash q h).1) x <->
    in_queues (by_sender I) x /\ ot_hash x <> h) as Hin.
  { intros x. rewrite put_queue_in, sq_remove_by_hash_elem; [|done|].
    - split.
      + intros [(Hsx & Hx & Hne)|(Hsx & Hx)].
        * split; [by eapply in_queues_intro|done].
        * split; [done|]. intros Heq. by rewrite (Htx x Hx Heq) in Hsx.
      + intros [(q' & Hq' & Hx) Hne]. destruct (decide (ot_sender x = s)) as [Hsx|Hsx].
        * left. rewrite Hsx, Es in Hq'. by injection Hq' as ->.
        * right. split; [done|]. by exists q'.
    - intros a b Ha Hb Hab. eapply index_unique; [exact Hix| | |done];
        apply Hsub; by eapply in_queues_intro. }
  split_and!; [done|done| |done|by eapply put_queue_next|].
  - split; simpl; [done|by apply put_queue_wf; [done|done|congruence]|].
    intros x Hx%Hin. split; [apply Hsub|]; tauto.
  - intros E. apply put_queue_nonempty.
Qed.

Lemma remove_hashes_rel hs : forall I S,
  pool_rel I S ->
  let I' := remove_hashes I hs in
  pool_rel I' (fun x => S x /\ ot_hash x ∉ hs)
  /\ (forall x, in_queues (by_sender I') x <-> in_queues (by_sender I) x /\ ot_hash x ∉ hs)
  /\ next_kept (by_sender I) (by_sender I')
  /\ (forall E, queues_nonempty E (by_sender I) -> queues_nonempty E (by_sender I')).
Proof.
  induction hs as [|h hs IH]; intros I S HI; simpl.
  { split_and!; [|set_solver|apply next_kept_refl|done].
    destruct HI as [Hix Hq Hsub]. split; [|done|set_solver].
    eapply index_ext; [|exact Hix]. set_solver. }
  destruct (inner_remove_rel I S h HI) as (_ & _ & HI1 & Hin1 & Hn1 & Hne1).
  destruct (IH _ _ HI1) as ([Hix Hq Hsub] & Hin & Hn & Hne).
  change (remove_hashes I (h :: hs)) with
    (remove_hashes (inner_remove_by_hash I h).1 hs).
  split_and!.
  - split; [|done|].
    + eapply index_ext; [|exact Hix]. set_solver.
    + intros x Hx%Hsub. set_solver.
  - intros x. rewrite Hin, Hin1. set_solver.
  - by eapply next_kept_trans.
  - auto.
Qed.

(** ** The invariant *)

Record inner_wf (I : PoolInner) : Prop := {
  iw_rel : pool_rel I (in_queues (by_sender I));
  iw_nonempty : queues_nonempty [] (by_sender I);
  iw_pending : pending_count I = sum_Z (sq_pending_count <$> queues (by_sender I));
  iw_queued : queued_count I = sum_Z (sq_queued_count <$> queues (by_sender I));
}.

Lemma update_counts_wf I :
  pool_rel I (in_queues (by_sender I)) -> queues_nonempty [] (by_sender I) ->
  inner_wf (update_counts I).
Proof. intros [Hix Hq Hs] Hne. by split. Qed.

Lemma empty_wf : inner_wf PoolInner_new.
Proof.
  split; [split; [split|..]|..]; simpl; try done.
  - intros h x. rewrite lookup_empty. split; [done|].
    intros [_ (q & Hq & _)]. by rewrite lookup_empty in Hq.
  - intros i h. rewrite lookup_empty. split; [done|].
    intros (x & Hx & _). by rewrite lookup_empty in Hx.
Qed.

Lemma by_hash_lookup I h x :
  inner_wf I -> by_hash I !! h = Some x <-> ot_hash x = h /\ in_queues (by_sender I) x.
Proof. intros HI. apply (ix_hash _ _ _ (pr_index _ _ (iw_rel _ HI))). Qed.

Lemma elem_of_queues m q : q ∈ queues m <-> exists s, m !! s = Some q.
Proof.
  unfold queues. rewrite list_elem_of_fmap. split.
  - intros ([s q'] & -> & Hin%elem_of_map_to_list). by exists s.
  - intros [s Hs]. exists (s, q). by rewrite elem_of_map_to_list.
Qed.

Lemma elem_of_all_pending I x :
  x ∈ all_pending I <-> exists s q, by_sender I !! s = Some q /\ x ∈ sq_pending q.
Proof.
  unfold all_pending. rewrite list_elem_of_bind. setoid_rewrite elem_of_queues. naive_solver.
Qed.

Lemma elem_of_all_queued I x :
  x ∈ all_queued I <-> exists s q, by_sender I !! s = Some q /\ x ∈ sq_queued q.
Proof.
  unfold all_queued. rewrite list_elem_of_bind. setoid_rewrite elem_of_queues. naive_solver.
Qed.

Lemma elem_of_all_txs I x :
  inner_wf I -> x ∈ all_pending I ++ all_queued I <-> in_queues (by_sender I) x.
Proof.
  intros HI. rewrite elem_of_app, elem_of_all_pending, elem_of_all_queued.
  pose proof (pr_queues _ _ (iw_rel _ HI)) as Hq. split.
  - intros [(s & q & Hs & Hx)|(s & q & Hs & Hx)];
      (eapply in_queues_intro; [exact Hq|exact Hs|]); unfold sq_all; set_solver.
  - intros (q & Hs & Hx). unfold sq_all in Hx. set_solver.
Qed.

(** ** Sums over the queues *)

Lemma queues_split m s q :
  m !! s = Some q -> queues m ≡ₚ q :: queues (delete s m).
Proof.
  intros Hs. unfold queues. rewrite <- (map_to_list_delete m s q Hs). done.
Qed.

Lemma sum_queues_put (f : SenderQueue -> Z) m s q q' :
  m !! s = Some q -> (sq_is_empty q' = true -> f q' = 0) ->
  sum_Z (f <$> queues (put_queue m s q')) = sum_Z (f <$> queues m) - f q + f q'.
Proof.
  intros Hs H0. rewrite (queues_split m s q Hs).
  unfold put_queue. destruct (sq_is_empty q').
  - specialize (H0 eq_refl). cbn [fmap list_fmap sum_Z foldr]. unfold sum_Z. lia.
  - rewrite (queues_split (<[s := q']> m) s q') by (by rewrite lookup_insert_eq).
    rewrite delete_insert_eq. cbn [fmap list_fmap sum_Z foldr]. unfold sum_Z. lia.
Qed.

Lemma empty_counts q :
  sq_is_empty q = true -> sq_pending_count q = 0 /\ sq_queued_count q = 0.
Proof.
  unfold sq_is_empty, sq_pending_count, sq_queued_count.
  by destruct (sq_pending q), (sq_queued q).
Qed.

Lemma len_bind {A B} (f : A -> list B) (l : list A) :
  len (x ← l; f x) = sum_Z ((fun x => len (f x)) <$> l).
Proof.
  induction l as [|x l IH]; [done|].
  rewrite bind_cons, len_app, IH, fmap_cons. done.
Qed.

Lemma pending_count_len I : inner_wf I -> pending_count I = len (all_pending I).
Proof. intros HI. rewrite (iw_pending _ HI). unfold all_pending. by rewrite len_bind. Qed.

Lemma queued_count_len I : inner_wf I -> queued_count I = len (all_queued I).
Proof. intros HI. rewrite (iw_queued _ HI). unfold all_queued. by rewrite len_bind. Qed.

Lemma counts_nonneg I : inner_wf I -> 0 <= pending_count I /\ 0 <= queued_count I.
Proof.
  intros HI. rewrite pending_count_len, queued_count_len by done.
  split; apply len_nonneg.
Qed.

Lemma bind_app_perm {A B} (f g : A -> list B) (l : list A) :
  (x ← l; f x ++ g x) ≡ₚ (x ← l; f x) ++ (x ← l; g x).
Proof.
  induction l as [|x l IH]; [done|]. rewrite !bind_cons, IH. solve_Permutation.
Qed.

Lemma all_txs_NoDup I : inner_wf I -> NoDup (all_pending I ++ all_queued I).
Proof.
  intros HI. pose proof (pr_queues _ _ (iw_rel _ HI)) as Hq.
  unfold all_pending, all_queued. rewrite <- (bind_app_perm sq_pending sq_queued).
  change (NoDup (q ← queues (by_sender I); sq_all q)). unfold queues.
  assert (NoDup (kv ← map_to_list (by_sender I); sq_all kv.2)) as Hnd.
  { apply NoDup_bind; [|intros [s q] Hin|apply NoDup_map_to_list].
    - intros [s1 q1] [s2 q2] x H1%elem_of_map_to_list H2%elem_of_map_to_list Hx1 Hx2.
      simpl in *. assert (s1 = s2) as ->.
      { rewrite <- (in_queues_key _ s1 q1 x Hq H1 Hx1).
        by apply (in_queues_key _ s2 q2 x Hq H2). }
      congruence.
    - apply elem_of_map_to_list in Hin. destruct (Hq s q Hin) as [Hw _].
      eapply NoDup_fmap_1. apply sq_prewf_NoDup, Hw. }
  by rewrite list_fmap_bind.
Qed.

(** The transactions of the queues are those of [by_hash]. *)
Lemma all_txs_by_hash I :
  inner_wf I -> all_pending I ++ all_queued I ≡ₚ (map_to_list (by_hash I)).*2.
Proof.
  intros HI. apply NoDup_Permutation; [by apply all_txs_NoDup| |].
  - apply NoDup_fmap_2_strong; [|apply NoDup_map_to_list].
    intros [h1 x1] [h2 x2] H1%elem_of_map_to_list H2%elem_of_map_to_list. simpl.
    rewrite by_hash_lookup in H1, H2 by done. intros ->. f_equal. naive_solver.
  - intros x. rewrite elem_of_all_txs by done. rewrite list_elem_of_fmap. split.
    + intros Hx. exists (ot_hash x, x). split; [done|].
      apply elem_of_map_to_list. by apply by_hash_lookup.
    + intros ([h y] & -> & Hin%elem_of_map_to_list). simpl. apply by_hash_lookup in Hin; [|done]. tauto.
Qed.

Lemma counts_size I :
  inner_wf I -> pending_count I + queued_count I = Z.of_nat (size (by_hash I)).
Proof.
  intros HI. rewrite pending_count_len, queued_count_len, <- len_app by done.
  unfold len. rewrite (all_txs_by_hash I HI), length_fmap, length_map_to_list. done.
Qed.

(** ** Eviction *)

(** Removing a pending transaction shortens [pending], removing a queued one
    shortens [queued] and leaves [pending] alone. *)
Lemma sq_remove_pending_count q h tx :
  tx ∈ sq_pending q -> ot_hash tx = h ->
  sq_pending_count (sq_remove_by_hash q h).1 < sq_pending_count q.
Proof.
  intros Hin Hh. unfold sq_remove_by_hash.
  destruct (position _ (sq_pending q)) as [i|] eqn:Ep.
  - apply position_Some in Ep as [(y & Hi & _) _]. unfold sq_pending_count, len. simpl.
    destruct (vec_remove_split _ _ _ Hi) as [-> _]. apply lookup_lt_Some in Hi.
    rewrite length_take. lia.
  - apply position_None in Ep. eapply Forall_forall in Ep; [|exact Hin].
    apply Z.eqb_neq in Ep. congruence.
Qed.

Lemma sq_remove_queued_count q h tx :
  tx ∈ sq_queued q -> ot_hash tx = h -> Forall (fun x => ot_hash x <> h) (sq_pending q) ->
  sq_queued_count (sq_remove_by_hash q h).1 < sq_queued_count q
  /\ sq_pending (sq_remove_by_hash q h).1 = sq_pending q.
Proof.
  intros Hin Hh Hp. unfold sq_remove_by_hash.
  rewrite (proj2 (position_None _ _)).
  2:{ eapply Forall_impl; [exact Hp|]. simpl. intros x. apply Z.eqb_neq. }
  destruct (position _ (sq_queued q)) as [i|] eqn:Ep.
  - split; [|done]. apply position_Some in Ep as [(y & Hi & _) _].
    unfold sq_queued_count. simpl. pose proof (vec_remove_perm _ _ _ Hi) as Hl.
    apply Permutation_length in Hl. unfold len. simpl in Hl. lia.
  - apply position_None in Ep. eapply Forall_forall in Ep; [|exact Hin].
    apply Z.eqb_neq in Ep. congruence.
Qed.

#[export] Instance evict_cmp_order : CmpOrder evict_cmp.
Proof. unfold evict_cmp. apply _. Qed.

(** Transactions with the same eviction key have the same hash. *)
Lemma evict_cmp_Eq a b : evict_cmp a b = Eq -> ot_hash a = ot_hash b.
Proof.
  unfold evict_cmp, cmp_lex, cmp_rev, cmp_on, then_with.
  destruct (Z.compare (ot_price a) (ot_price b)); [|done|done].
  destruct (Z.compare (ot_timestamp b) (ot_timestamp a)); [|done|done].
  apply Z.compare_eq.
Qed.

(** The effect of one removal on a well-formed pool. *)
Lemma remove_update_wf I h :
  inner_wf I -> inner_wf (update_counts (inner_remove_by_hash I h).1)
  /\ (inner_remove_by_hash I h).2 = by_hash I !! h
  /\ by_hash (update_counts (inner_remove_by_hash I h).1) = delete h (by_hash I)
  /\ next_kept (by_sender I) (by_sender (inner_remove_by_hash I h).1).
Proof.
  intros HI. destruct (inner_remove_rel I _ h (iw_rel _ HI))
    as (Hr & Hh & [Hix Hq Hs] & Hin & Hn & Hne).
  split_and!; [|done|done|done]. apply update_counts_wf; [|by apply Hne, HI].
  split; [|done|done]. eapply index_ext; [|exact Hix].
  intros x. by rewrite Hin.
Qed.

(** The queue a removal touches. *)
Lemma inner_remove_senders I s q x :
  inner_wf I -> by_sender I !! s = Some q -> x ∈ sq_all q ->
  by_hash I !! ot_hash x = Some x
  /\ by_sender (inner_remove_by_hash I (ot_hash x)).1
     = put_queue (by_sender I) s (sq_remove_by_hash q (ot_hash x)).1.
Proof.
  intros HI Hs Hx. pose proof (pr_queues _ _ (iw_rel _ HI)) as Hq.
  pose proof (in_queues_key _ _ _ _ Hq Hs Hx) as Hsx.
  assert (by_hash I !! ot_hash x = Some x) as Hh.
  { apply by_hash_lookup; [done|]. split; [done|]. by eapply in_queues_intro. }
  split; [done|]. unfold inner_remove_by_hash. rewrite Hh. simpl.
  by rewrite sender_remove_put, Hsx, Hs.
Qed.

Lemma evict_pending_spec I :
  inner_wf I -> 0 < pending_count I ->
  exists x I', evict_lowest_pending I = (I', Some x)
    /\ min_by evict_cmp (all_pending I) = Some x
    /\ inner_wf I' /\ by_hash I !! ot_hash x = Some x
    /\ by_hash I' = delete (ot_hash x) (by_hash I)
    /\ pending_count I' < pending_count I /\ next_kept (by_sender I) (by_sender I').
Proof.
  intros HI Hc. unfold evict_lowest_pending.
  destruct (min_by evict_cmp (all_pending I)) as [x|] eqn:Em.
  2:{ apply min_by_None in Em. rewrite (pending_count_len I HI), Em in Hc. unfold len in Hc. simpl in Hc. lia. }
  pose proof (min_by_elem _ _ _ Em) as (s & q & Hs & Hx)%elem_of_all_pending.
  destruct (inner_remove_senders I s q x HI Hs) as [Hh Hsend]; [unfold sq_all; set_solver|].
  destruct (remove_update_wf I (ot_hash x) HI) as (Hw & Hr & Hd & Hk).
  rewrite (surjective_pairing (inner_remove_by_hash I (ot_hash x))), Hr, Hh.
  eexists x, _. split_and!; [done|done|done|done|done| |done].
  rewrite (iw_pending _ HI). simpl. rewrite Hsend.
  rewrite (sum_queues_put sq_pending_count _ s q) by (done || apply empty_counts).
  pose proof (sq_remove_pending_count q (ot_hash x) x Hx eq_refl). lia.
Qed.

Lemma evict_queued_spec I :
  inner_wf I -> 0 < queued_count I ->
  exists x I', evict_lowest_queued I = (I', Some x)
    /\ min_by evict_cmp (all_queued I) = Some x
    /\ inner_wf I' /\ by_hash I !! ot_hash x = Some x
    /\ by_hash I' = delete (ot_hash x) (by_hash I)
    /\ queued_count I' < queued_count I /\ pending_count I' = pending_count I
    /\ next_kept (by_sender I) (by_sender I').
Proof.
  intros HI Hc. unfold evict_lowest_queued.
  destruct (min_by evict_cmp (all_queued I)) as [x|] eqn:Em.
  2:{ apply min_by_None in Em. rewrite (queued_count_len I HI), Em in Hc. unfold len in Hc. simpl in Hc. lia. }
  pose proof (min_by_elem _ _ _ Em) as (s & q & Hs & Hx)%elem_of_all_queued.
  destruct (inner_remove_senders I s q x HI Hs) as [Hh Hsend]; [unfold sq_all; set_solver|].
  destruct (remove_update_wf I (ot_hash x) HI) as (Hw & Hr & Hd & Hk).
  rewrite (surjective_pairing (inner_remove_by_hash I (ot_hash x))), Hr, Hh.
  assert (Forall (fun y => ot_hash y <> ot_hash x) (sq_pending q)) as Hp.
  { apply Forall_forall. intros y Hy Heq.
    assert (y = x) as ->.
    { destruct (inner_remove_senders I s q y HI Hs) as [Hhy _]; [unfold sq_all; set_solver|].
      congruence. }
    destruct (pr_queues _ _ (iw_rel _ HI) s q Hs) as [Hwq _].
    pose proof (sq_prewf_NoDup q (wf_pre _ Hwq)) as Hnd%NoDup_fmap_1.
    unfold sq_all in Hnd. apply NoDup_app in Hnd as (_ & Hnd & _). by apply (Hnd x). }
  destruct (sq_remove_queued_count q (ot_hash x) x Hx eq_refl Hp) as [Hlt Hpe].
  eexists x, _. split_and!; [done|done|done|done|done| | |done].
  - rewrite (iw_queued _ HI). simpl. rewrite Hsend.
    rewrite (sum_queues_put sq_queued_count _ s q) by (done || apply empty_counts). lia.
  - rewrite (iw_pending _ HI). simpl. rewrite Hsend.
    rewrite (sum_queues_put sq_pending_count _ s q) by (done || apply empty_counts).
    unfold sq_pending_count. rewrite Hpe. lia.
Qed.

(** What an eviction loop leaves: the evicted transactions were in the pool,
    and exactly they are gone. *)
Record evicted_from (I I' : PoolInner) (l : list OrderedTransaction) : Prop := {
  ev_wf : inner_wf I';
  ev_in : Forall (fun x => by_hash I !! ot_hash x = Some x) l;
  ev_nodup : NoDup (ot_hash <$> l);
  ev_left : by_hash I' = filter (fun kv => kv.1 ∉ ot_hash <$> l) (by_hash I);
}.

Lemma evicted_nil I : inner_wf I -> evicted_from I I [].
Proof.
  intros HI. split; [done|by constructor|by constructor|].
  symmetry. apply map_filter_id. set_solver.
Qed.

Lemma evicted_cons I I1 I' x l :
  by_hash I !! ot_hash x = Some x -> by_hash I1 = delete (ot_hash x) (by_hash I) ->
  evicted_from I1 I' l -> evicted_from I I' (x :: l).
Proof.
  intros Hx H1 [Hw Hin Hnd Hl]. rewrite H1 in Hin, Hl.
  assert (forall y, y ∈ l -> ot_hash y <> ot_hash x /\ by_hash I !! ot_hash y = Some y) as Hy.
  { intros y Hy. eapply Forall_forall in Hin; [|exact Hy]. simpl in Hin.
    apply lookup_delete_Some in Hin. naive_solver. }
  split; [done| | |].
  - constructor; [done|]. apply Forall_forall. intros y ?. by apply Hy.
  - rewrite fmap_cons. constructor; [|done].
    intros (y & Heq & Hyl)%list_elem_of_fmap. by apply (Hy y).
  - rewrite Hl. apply map_eq. intros k. apply option_eq. intros y.
    rewrite !map_lookup_filter_Some, lookup_delete_Some. simpl. set_solver.
Qed.

Lemma evicted_app I I1 I' l l' :
  evicted_from I I1 l -> evicted_from I1 I' l' -> evicted_from I I' (l ++ l').
Proof.
  intros [_ Hin Hnd Hl] [Hw Hin' Hnd' Hl']. rewrite Hl in Hin', Hl'.
  assert (forall y, y ∈ l' -> (ot_hash y ∉ ot_hash <$> l) /\ by_hash I !! ot_hash y = Some y)
    as Hy.
  { intros y Hy. eapply Forall_forall in Hin'; [|exact Hy]. simpl in Hin'.
    apply map_lookup_filter_Some in Hin'. naive_solver. }
  split; [done| | |].
  - apply Forall_app. split; [done|]. apply Forall_forall. intros y ?. by apply Hy.
  - rewrite fmap_app. apply NoDup_app. split_and!; [done| |done].
    intros h Hh (y & -> & Hyl)%list_elem_of_fmap. by apply (Hy y).
  - rewrite Hl'. apply map_eq. intros k. apply option_eq. intros y.
    rewrite !map_lookup_filter_Some. simpl. rewrite fmap_app, elem_of_app. tauto.
Qed.

Lemma evict_loop_pending_le fuel max I :
  inner_wf I -> 0 <= max -> pending_count I <= Z.of_nat fuel ->
  let '(I', l) := evict_loop_pending fuel max I in
  evicted_from I I' l /\ pending_count I' <= max.
Proof.
  revert I. induction fuel as [|fuel IH]; intros I HI Hm Hf; simpl.
  { split; [by apply evicted_nil|lia]. }
  destruct (Z.ltb_spec max (pending_count I)) as [Hlt|Hge].
  2:{ split; [by apply evicted_nil|lia]. }
  destruct (evict_pending_spec I HI) as (x & I1 & -> & _ & H1 & Hx & Hd & Hc & _); [lia|].
  specialize (IH I1 H1 Hm ltac:(lia)).
  destruct (evict_loop_pending fuel max I1) as [I' l]. destruct IH as [Hev Hle].
  split; [|done]. by eapply evicted_cons.
Qed.

Lemma evict_loop_queued_le fuel max I :
  inner_wf I -> 0 <= max -> queued_count I <= Z.of_nat fuel ->
  let '(I', l) := evict_loop_queued fuel max I in
  evicted_from I I' l /\ queued_count I' <= max /\ pending_count I' = pending_count I.
Proof.
  revert I. induction fuel as [|fuel IH]; intros I HI Hm Hf; simpl.
  { split_and!; [by apply evicted_nil|lia|done]. }
  destruct (Z.ltb_spec max (queued_count I)) as [Hlt|Hge].
  2:{ split_and!; [by apply evicted_nil|lia|done]. }
  destruct (evict_queued_spec I HI) as (x & I1 & -> & _ & H1 & Hx & Hd & Hc & Hp & _); [lia|].
  specialize (IH I1 H1 Hm ltac:(lia)).
  destruct (evict_loop_queued fuel max I1) as [I' l]. destruct IH as (Hev & Hle & Hpe).
  split_and!; [by eapply evicted_cons|done|lia].
Qed.

Lemma add_evict_spec config I :
  inner_wf I -> 0 <= max_pending_txs config -> 0 <= max_queued_txs config ->
  let '(I', l) := add_evict config I in
  evicted_from I I' l /\ pending_count I' <= max_pending_txs config
  /\ queued_count I' <= max_queued_txs config.
Proof.
  intros HI Hp Hq. unfold add_evict. destruct (counts_nonneg I HI) as [Hc _].
  pose proof (evict_loop_pending_le (Z.to_nat (pending_count I)) _ I HI Hp ltac:(lia)) as H1.
  destruct (evict_loop_pending _ _ I) as [I1 l1]. destruct H1 as [Hev1 Hle1].
  pose proof (ev_wf _ _ _ Hev1) as HI1. destruct (counts_nonneg I1 HI1) as [_ Hc1].
  pose proof (evict_loop_queued_le (Z.to_nat (queued_count I1)) _ I1 HI1 Hq ltac:(lia)) as H2.
  destruct (evict_loop_queued _ _ I1) as [I2 l2]. destruct H2 as (Hev2 & Hle2 & Heq).
  split_and!; [by eapply evicted_app|lia|done].
Qed.

(** ** Eviction by price

    The order of eviction written out: the lower price first, among equal
    prices the newer, then the smaller hash. *)
Definition goes_before (x y : OrderedTransaction) : Prop :=
  ot_price x < ot_price y
  \/ ot_price x = ot_price y
     /\ (ot_timestamp y < ot_timestamp x
         \/ ot_timestamp x = ot_timestamp y /\ ot_hash x <= ot_hash y).

Lemma evict_cmp_before x y : cmp_le evict_cmp x y -> goes_before x y.
Proof.
  unfold cmp_le, evict_cmp, cmp_lex, cmp_rev, cmp_on, then_with, goes_before.
  destruct (Z.compare_spec (ot_price x) (ot_price y)); [|lia|done].
  destruct (Z.compare_spec (ot_timestamp y) (ot_timestamp x)); [|lia|done].
  destruct (Z.compare_spec (ot_hash x) (ot_hash y)); (lia || done).
Qed.

(** [x] alone leaves the pool.  With the invariant and the next nonces the
    contents determine which transactions are pending. *)
Record dropped (x : OrderedTransaction) (I I' : PoolInner) : Prop := {
  dr_wf : inner_wf I';
  dr_hash : by_hash I' = delete (ot_hash x) (by_hash I);
  dr_next : next_kept (by_sender I) (by_sender I');
}.

(** Eviction down to the limits: as long as there are too many pending
    transactions the first of them in the order goes, then likewise for the
    queued ones. *)
Inductive evict_run (max_pending max_queued : usize)
    : PoolInner -> list OrderedTransaction -> PoolInner -> Prop :=
| run_within I :
    pending_count I <= max_pending -> queued_count I <= max_queued ->
    evict_run max_pending max_queued I [] I
| run_pending I x I' l J :
    max_pending < pending_count I ->
    x ∈ all_pending I -> (forall y, y ∈ all_pending I -> goes_before x y) ->
    dropped x I I' -> evict_run max_pending max_queued I' l J ->
    evict_run max_pending max_queued I (x :: l) J
| run_queued I x I' l J :
    pending_count I <= max_pending -> max_queued < queued_count I ->
    x ∈ all_queued I -> (forall y, y ∈ all_queued I -> goes_before x y) ->
    dropped x I I' -> evict_run max_pending max_queued I' l J ->
    evict_run max_pending max_queued I (x :: l) J.

Lemma evict_loop_queued_run fuel mp mq I :
  inner_wf I -> 0 <= mq -> pending_count I <= mp -> queued_count I <= Z.of_nat fuel ->
  let '(I', l) := evict_loop_queued fuel mq I in evict_run mp mq I l I'.
Proof.
  revert I. induction fuel as [|fuel IH]; intros I HI Hm Hp Hf; simpl.
  { apply run_within; lia. }
  destruct (Z.ltb_spec mq (queued_count I)) as [Hlt|Hge]; [|apply run_within; lia].
  destruct (evict_queued_spec I HI) as (x & I1 & -> & Hmin & H1 & Hx & Hd & Hc & Hpe & Hk); [lia|].
  specialize (IH I1 H1 Hm ltac:(lia) ltac:(lia)).
  destruct (evict_loop_queued fuel mq I1) as [I' l].
  eapply run_queued; [done|done|exact (min_by_elem _ _ _ Hmin)| |by split|done].
  intros y Hy. by apply evict_cmp_before, (min_by_le _ _ _ _ Hmin).
Qed.

Lemma evict_loop_pending_run fuel mp mq I :
  inner_wf I -> 0 <= mp -> pending_count I <= Z.of_nat fuel ->
  let '(I', l) := evict_loop_pending fuel mp I in
  forall l' J, evict_run mp mq I' l' J -> evict_run mp mq I (l ++ l') J.
Proof.
  revert I. induction fuel as [|fuel IH]; intros I HI Hm Hf; simpl; [done|].
  destruct (Z.ltb_spec mp (pending_count I)) as [Hlt|Hge]; [|done].
  destruct (evict_pending_spec I HI) as (x & I1 & -> & Hmin & H1 & Hx & Hd & Hc & Hk); [lia|].
  specialize (IH I1 H1 Hm ltac:(lia)). destruct (evict_loop_pending fuel mp I1) as [I' l].
  intros l' J HJ. eapply run_pending; [done|exact (min_by_elem _ _ _ Hmin)| |by split|by apply IH].
  intros y Hy. by apply evict_cmp_before, (min_by_le _ _ _ _ Hmin).
Qed.

Lemma add_evict_run config I :
  inner_wf I -> 0 <= max_pending_txs config -> 0 <= max_queued_txs config ->
  evict_run (max_pending_txs config) (max_queued_txs config) I (add_evict config I).2
    (add_evict config I).1.
Proof.
  intros HI Hp Hq. unfold add_evict. destruct (counts_nonneg I HI) as [Hc _].
  pose proof (evict_loop_pending_le (Z.to_nat (pending_count I)) _ I HI Hp ltac:(lia)) as H1.
  pose proof (evict_loop_pending_run (Z.to_nat (pending_count I)) _ (max_queued_txs config) I HI Hp
    ltac:(lia)) as Hr.
  destruct (evict_loop_pending _ _ I) as [I1 l1]. destruct H1 as [Hev1 Hle1].
  pose proof (ev_wf _ _ _ Hev1) as HI1. destruct (counts_nonneg I1 HI1) as [_ Hc1].
  pose proof (evict_loop_queued_run (Z.to_nat (queued_count I1)) _ _ I1 HI1 Hq Hle1 ltac:(lia)) as H2.
  destruct (evict_loop_queued _ _ I1) as [I2 l2]. by apply Hr.
Qed.

(** ** Insertion *)

(** The transactions the pool admits. *)
Definition tx_ok (tx : OrderedTransaction) : Prop := 0 <= ot_nonce tx < u64_max.

(** The queue [add] inserts into. *)
Definition target_queue (I : PoolInner) (tx : OrderedTransaction) : SenderQueue :=
  default (sq_new (ot_sender tx) (ot_nonce tx)) (by_sender I !! ot_sender tx).

Lemma target_queue_wf I tx :
  inner_wf I -> tx_ok tx ->
  sq_wf (target_queue I tx) /\ sq_sender (target_queue I tx) = ot_sender tx
  /\ (forall x, x ∈ sq_all (target_queue I tx) <->
        in_queues (by_sender I) x /\ ot_sender x = ot_sender tx).
Proof.
  intros HI Htx. unfold target_queue.
  pose proof (pr_queues _ _ (iw_rel _ HI)) as Hq.
  destruct (by_sender I !! ot_sender tx) as [q|] eqn:Es; simpl.
  - destruct (Hq _ _ Es) as [Hw Hs]. split_and!; [done|done|]. intros x. split.
    + intros Hx. split; [by eapply in_queues_intro|by eapply in_queues_key].
    + intros [(q' & Hq' & Hx) Hsx]. rewrite Hsx, Es in Hq'. by injection Hq' as ->.
  - split_and!; [apply sq_new_wf; unfold tx_ok in Htx; lia|done|]. intros x. split.
    + unfold sq_all, sq_new; simpl. by intros ?%elem_of_nil.
    + intros [(q' & Hq' & Hx) Hsx]. rewrite Hsx, Es in Hq'. done.
Qed.

(** The content of a queue after [sq_insert], in terms of its transactions. *)
Lemma sq_insert_cases q tx :
  sq_wf q -> ot_nonce tx < u64_max -> ot_sender tx = sq_sender q ->
  sq_next_nonce q <= ot_nonce tx -> tx ∉ sq_all q ->
  sq_wf (sq_insert q tx).1 /\ sq_sender (sq_insert q tx).1 = sq_sender q
  /\ sq_next_nonce (sq_insert q tx).1 = sq_next_nonce q
  /\ match (sq_insert q tx).2 with
     | None => forall x, x ∈ sq_all (sq_insert q tx).1 <-> x = tx \/ x ∈ sq_all q
     | Some old =>
         (old = tx /\ (sq_insert q tx).1 = q
          /\ exists y, y ∈ sq_all q /\ ot_nonce y = ot_nonce tx /\ ot_price tx <= ot_price y)
         \/ (old ∈ sq_all q /\ ot_nonce old = ot_nonce tx /\ ot_price old < ot_price tx
             /\ forall x, x ∈ sq_all (sq_insert q tx).1 <-> x = tx \/ (x ∈ sq_all q /\ x <> old))
     end.
Proof.
  intros Hwf Hm Hs Hn Hni.
  destruct (sq_insert_spec q tx Hwf Hm Hs) as [(Hw & Hnn & Hse & Ht) H2].
  split_and!; [done|done|done|]. rewrite H2.
  assert (forall x, x ∈ sq_all (sq_insert q tx).1 <->
    sq_txs (sq_insert q tx).1 !! ot_nonce x = Some x) as Hel.
  { intros x. rewrite sq_txs_lookup by apply Hw. naive_solver. }
  assert (forall x, x ∈ sq_all q <-> sq_txs q !! ot_nonce x = Some x) as Hel0.
  { intros x. rewrite sq_txs_lookup by apply Hwf. naive_solver. }
  destruct (sq_txs q !! ot_nonce tx) as [old|] eqn:El.
  - rewrite (abs_insert_taken q tx old Hn El) in Ht |- *.
    pose proof (proj1 (sq_txs_lookup q _ _ (wf_pre _ Hwf)) El) as [Hold Hon].
    destruct (Z.ltb_spec (ot_price old) (ot_price tx)) as [Hp|Hp]; simpl in *.
    + right. split_and!; [done|done|done|]. intros x. rewrite Hel, Ht, Hel0.
      rewrite lookup_insert_Some. split.
      * intros [[_ <-]|[Hne Hx]]; [by left|]. right. split; [done|]. congruence.
      * intros [->|[Hx Hne]]; [by left|]. right. split; [|done].
        intros Heq. rewrite <- Heq in Hx. congruence.
    + left. split_and!; [done|by apply sq_canonical_aux|by exists old].
  - rewrite (abs_insert_free q tx Hn El) in Ht |- *. simpl in *.
    intros x. rewrite Hel, Ht, Hel0, lookup_insert_Some. split.
    + intros [[_ <-]|[Hne Hx]]; auto.
    + intros [->|Hx]; [by left|]. right. split; [|done]. intros Heq. congruence.
Qed.

(** The queues after [tx] went into the queue of its sender. *)
Lemma in_queues_add I tx q' (P : OrderedTransaction -> Prop) :
  inner_wf I -> tx_ok tx ->
  (forall x, x ∈ sq_all q' <-> x = tx \/ (x ∈ sq_all (target_queue I tx) /\ P x)) ->
  (forall x, in_queues (by_sender I) x -> ot_sender x <> ot_sender tx -> P x) ->
  forall x, in_queues (<[ot_sender tx := q']> (by_sender I)) x <->
    x = tx \/ (in_queues (by_sender I) x /\ P x).
Proof.
  intros HI Htx Hq' HP x. rewrite in_queues_insert, Hq'.
  destruct (target_queue_wf I tx HI Htx) as (_ & _ & Hel). rewrite Hel.
  specialize (HP x). destruct (decide (ot_sender x = ot_sender tx)) as [He|Hne].
  - tauto.
  - split; [|intros [->|]; [done|tauto]]. intros [?|[_ ?]]; tauto.
Qed.

(** The result of [add_insert] once the guards have passed. *)
Definition add_insert_result (I : PoolInner) (tx : OrderedTransaction) : Prop :=
  match add_insert I tx with
  | (I', Err e) => I' = I /\ e = ReplacementUnderpriced
      /\ exists y, by_hash I !! ot_hash y = Some y /\ ot_sender y = ot_sender tx
           /\ ot_nonce y = ot_nonce tx /\ ot_price tx <= ot_price y
  | (I', Ok None) => inner_wf I' /\ by_hash I' = <[ot_hash tx := tx]> (by_hash I)
  | (I', Ok (Some h)) => inner_wf I'
      /\ by_hash I' = <[ot_hash tx := tx]> (delete h (by_hash I))
      /\ exists old, by_hash I !! h = Some old /\ ot_sender old = ot_sender tx
           /\ ot_nonce old = ot_nonce tx /\ ot_price old < ot_price tx
  end.

Lemma nonempty_insert m s q x :
  queues_nonempty [] m -> x ∈ sq_all q -> queues_nonempty [] (<[s := q]> m).
Proof.
  intros Hm Hx s' q' [[_ <-]|[_ H]]%lookup_insert_Some _; [|by apply (Hm s' q' H), not_elem_of_nil].
  apply not_true_iff_false. rewrite sq_is_empty_true. intros He. rewrite He in Hx.
  by apply elem_of_nil in Hx.
Qed.

(** Removing a hash that no queue holds leaves the queues alone. *)
Lemma sender_remove_absent m s q h :
  queues_wf m -> m !! s = Some q -> sq_is_empty q = false ->
  Forall (fun x => ot_hash x <> h) (sq_all q) -> sender_remove m s h = m.
Proof.
  intros Hm Hq Hne Hall. rewrite sender_remove_put, Hq. destruct (Hm s q Hq) as [Hw _].
  pose proof (sq_remove_by_hash_spec q h Hw) as Hs. cbv zeta in Hs.
  destruct ((sq_remove_by_hash q h).2) as [y|].
  - destruct Hs as (Hy & Hp & _). rewrite Hp in Hall. apply Forall_cons in Hall as [? _]. done.
  - destruct Hs as [-> _]. unfold put_queue. by rewrite Hne, insert_id.
Qed.

Lemma add_insert_free I tx q' :
  inner_wf I -> tx_ok tx -> by_hash I !! ot_hash tx = None ->
  by_id I !! ordered_tx_id tx = None -> sq_wf q' -> sq_sender q' = ot_sender tx ->
  (forall x, x ∈ sq_all q' <-> x = tx \/ x ∈ sq_all (target_queue I tx)) ->
  inner_wf (update_counts
    (mkPoolInner (<[ot_hash tx := tx]> (by_hash I))
       (<[ordered_tx_id tx := ot_hash tx]> (by_id I))
       (<[ot_sender tx := q']> (by_sender I)) (pending_count I) (queued_count I))).
Proof.
  intros HI Htx Hh Hi Hw Hs Hel.
  pose proof (in_queues_add I tx q' (fun _ => True) HI Htx) as Hin.
  destruct (iw_rel _ HI) as [Hix Hq _]. apply update_counts_wf; simpl.
  - split; simpl; [|by apply queues_insert_wf|done].
    eapply index_ext; [|by apply index_insert]. intros x. simpl.
    rewrite Hin; [tauto|naive_solver|done].
  - eapply (nonempty_insert _ _ _ tx); [apply HI|]. apply Hel. by left.
Qed.

Lemma add_insert_replace I tx q' old :
  inner_wf I -> tx_ok tx -> by_hash I !! ot_hash tx = None ->
  by_id I !! ordered_tx_id tx = None -> sq_wf q' -> sq_sender q' = ot_sender tx ->
  old ∈ sq_all (target_queue I tx) ->
  (forall x, x ∈ sq_all q' <-> x = tx \/ (x ∈ sq_all (target_queue I tx) /\ x <> old)) ->
  let I2 := (inner_remove_by_hash (with_senders I (<[ot_sender tx := q']> (by_sender I)))
               (ot_hash old)).1 in
  by_hash I !! ot_hash old = Some old
  /\ by_hash I2 = delete (ot_hash old) (by_hash I)
  /\ inner_wf (update_counts
       (mkPoolInner (<[ot_hash tx := tx]> (by_hash I2))
          (<[ordered_tx_id tx := ot_hash tx]> (by_id I2)) (by_sender I2)
          (pending_count I2) (queued_count I2))).
Proof.
  intros HI Htx Hh Hi Hw Hs Hold Hel. cbv zeta.
  destruct (target_queue_wf I tx HI Htx) as (_ & _ & Htq).
  pose proof (in_queues_add I tx q' (fun x => x <> old) HI Htx) as Hin.
  apply Htq in Hold as [Hold Hso].
  specialize (Hin ltac:(naive_solver) ltac:(intros; congruence)).
  pose proof (iw_rel _ HI) as [Hix Hq _].
  assert (by_hash I !! ot_hash old = Some old) as Hbo by (by apply by_hash_lookup).
  assert (ot_hash tx <> ot_hash old) as Hne by congruence.
  assert (queues_nonempty [] (<[ot_sender tx := q']> (by_sender I))) as Hnon.
  { eapply (nonempty_insert _ _ _ tx); [apply HI|]. apply Hel. by left. }
  unfold inner_remove_by_hash, with_senders. simpl. rewrite Hbo. simpl.
  rewrite (sender_remove_absent _ (ot_sender old) q').
  2:{ by apply queues_insert_wf. }
  2:{ by rewrite Hso, lookup_insert_eq. }
  2:{ apply (Hnon (ot_sender tx)); [by rewrite lookup_insert_eq|apply not_elem_of_nil]. }
  2:{ apply Forall_forall. intros x [->|[Hx Hxo]]%Hel; [done|].
      apply Htq in Hx as [Hx _]. intros Heq. apply Hxo.
      eapply index_unique; [exact Hix|done|done|done]. }
  split_and!; [done|done|]. apply update_counts_wf; simpl; [|done].
  split; simpl; [|by apply queues_insert_wf|done].
  pose proof (index_remove _ _ _ _ _ Hix Hbo) as Hix'.
  eapply index_ext; [|eapply index_insert; [exact Hix'| |]].
  - intros x. simpl. rewrite Hin.
    split; (intros [?|[Hx Hxo]]; [by left|right]); (split; [done|]); [congruence|].
    intros Heq. apply Hxo. eapply index_unique; [exact Hix|done|done|done].
  - by rewrite lookup_delete_ne.
  - rewrite lookup_delete_None. by right.
Qed.

Lemma add_insert_spec I tx :
  inner_wf I -> tx_ok tx -> by_hash I !! ot_hash tx = None ->
  by_id I !! ordered_tx_id tx = None ->
  sq_next_nonce (target_queue I tx) <= ot_nonce tx -> add_insert_result I tx.
Proof.
  intros HI Htx Hh Hi Hn. unfold add_insert_result, add_insert. fold (target_queue I tx).
  destruct (target_queue_wf I tx HI Htx) as (Hw & Hs & Htq).
  assert (tx ∉ sq_all (target_queue I tx)) as Hni.
  { intros [Hx _]%Htq. assert (by_hash I !! ot_hash tx = Some tx) by (by apply by_hash_lookup).
    congruence. }
  destruct (sq_insert_cases (target_queue I tx) tx Hw) as (Hw' & Hs' & Hn' & Hc);
    [unfold tx_ok in Htx; lia|done|done|done|].
  destruct (sq_insert (target_queue I tx) tx) as [q' [r|]]; simpl in *.
  - destruct Hc as [(-> & -> & y & Hy & Hyn & Hyp)|(Hr & Hrn & Hrp & Hel)].
    + rewrite Z.eqb_refl. pose proof (proj1 (Htq y) Hy) as [Hyq Hys].
      split_and!; [|done|exists y; by rewrite by_hash_lookup].
      destruct Hyq as (q0 & Hq0 & Hy0). rewrite Hys in Hq0.
      unfold target_queue. rewrite Hq0. simpl. rewrite insert_id by done. by destruct I.
    + destruct (add_insert_replace I tx q' r HI Htx Hh Hi Hw' ltac:(congruence) Hr Hel)
        as (Hb & Hd & Hwf).
      unfold with_senders in *.
      destruct (Z.eqb_spec (ot_hash r) (ot_hash tx)) as [He|_]; [congruence|].
      split_and!; [done|by simpl; rewrite Hd|]. exists r. split_and!; try done.
      apply Htq in Hr as [_ ?]. done.
  - split; [|done]. apply add_insert_free; try done. congruence.
Qed.

Lemma sender_remove_next m s h : queues_wf m -> next_kept m (sender_remove m s h).
Proof.
  intros Hm. rewrite sender_remove_put. destruct (m !! s) as [q|] eqn:E; [|apply next_kept_refl].
  eapply put_queue_next; [exact E|]. apply sq_remove_by_hash_keeps, (Hm s q E).
Qed.

(** An insertion keeps the next nonces; a new queue starts at the nonce. *)
Lemma add_insert_next I tx :
  inner_wf I -> tx_ok tx -> by_hash I !! ot_hash tx = None ->
  sq_next_nonce (target_queue I tx) <= ot_nonce tx ->
  next_kept (<[ot_sender tx := target_queue I tx]> (by_sender I)) (by_sender (add_insert I tx).1).
Proof.
  intros HI Htx Hh Hn. unfold add_insert. fold (target_queue I tx).
  destruct (target_queue_wf I tx HI Htx) as (Hw & Hs & Htq).
  destruct (sq_insert_cases (target_queue I tx) tx Hw) as (Hw' & Hs' & Hn' & _);
    [unfold tx_ok in Htx; lia|done|done| |].
  { intros [Hx _]%Htq. assert (by_hash I !! ot_hash tx = Some tx) by (by apply by_hash_lookup).
    congruence. }
  destruct (sq_insert (target_queue I tx) tx) as [q' d]. simpl in *.
  assert (next_kept (<[ot_sender tx := target_queue I tx]> (by_sender I))
            (<[ot_sender tx := q']> (by_sender I))) as Hk.
  { intros s q [[<- <-]|[Hne Hq]]%lookup_insert_Some.
    - exists (target_queue I tx). by rewrite lookup_insert_eq.
    - exists q. by rewrite lookup_insert_ne. }
  destruct d as [r|]; [|exact Hk]. destruct (_ =? _); [exact Hk|]. simpl.
  unfold inner_remove_by_hash. simpl. destruct (by_hash I !! ot_hash r) as [x|]; [|exact Hk].
  simpl. eapply next_kept_trans; [exact Hk|]. apply sender_remove_next, queues_insert_wf;
    [apply (iw_rel _ HI)|done|congruence].
Qed.
End inv.
