(* ===== verification/PoolOps.v ===== *)
(** The operations of the transaction pool on a well-formed pool: what each
    one does to the transactions, and that every sequence of them keeps the
    invariant and the size bound. *)
From S2P Require Import Prelude TxTypes SenderQueue Pool PoolInv.

Section ops.
Context `{EXT : !External}.

(** ** Adding *)

Lemma add_guard_ok config I tx :
  inner_wf I -> add_guard config I tx = Ok tt ->
  by_hash I !! ot_hash tx = None /\ by_id I !! ordered_tx_id tx = None
  /\ sq_next_nonce (target_queue I tx) <= ot_nonce tx.
Proof.
  intros HI. unfold add_guard, target_queue.
  destruct (by_hash I !! ot_hash tx) eqn:Eh; [by rewrite bool_decide_true by eauto|].
  destruct (by_id I !! ordered_tx_id tx) eqn:Ei;
    [by rewrite orb_comm, bool_decide_true by eauto|].
  rewrite !bool_decide_false by (by intros [? ?]). simpl.
  destruct (by_sender I !! ot_sender tx) as [q|] eqn:Es; simpl; [|intros _; split_and!; [done|done|lia]].
  destruct (Z.ltb_spec (ot_nonce tx) (sq_next_nonce q)); [done|].
  intros _. split_and!; [done|done|lia].
Qed.

(** The gauges, when metrics are attached, show the pool. *)
Definition gauges_ok (p : TransactionPool) : Prop :=
  match tp_metrics p with
  | Some m =>
      txpool_size m = as_i64 (pool_len p) /\ txpool_pending m = as_i64 (pool_pending_count p)
      /\ txpool_queued m = as_i64 (pool_queued_count p)
  | None => True
  end.

Lemma sync_metrics_gauges p : gauges_ok (sync_metrics p).
Proof. unfold gauges_ok, sync_metrics. by destruct (tp_metrics p). Qed.

(** What [add] does when it does not reject: the replaced hash, the evicted
    transactions and the indices it leaves. *)
Record add_effect (p p' : TransactionPool) (tx : OrderedTransaction)
    (replaced : option B256) (evicted : list OrderedTransaction) : Prop := {
  ae_wf : inner_wf (tp_inner p');
  ae_config : tp_config p' = tp_config p;
  ae_fresh : by_hash (tp_inner p) !! ot_hash tx = None;
  ae_replaced : forall h, replaced = Some h ->
    exists old, by_hash (tp_inner p) !! h = Some old /\ ot_sender old = ot_sender tx
      /\ ot_nonce old = ot_nonce tx /\ ot_price old < ot_price tx;
  ae_evicted : Forall (fun x => x = tx \/ by_hash (tp_inner p) !! ot_hash x = Some x) evicted;
  ae_left : by_hash (tp_inner p') =
    filter (fun kv => kv.1 ∉ ot_hash <$> evicted)
      (<[ot_hash tx := tx]>
         match replaced with
         | Some h => delete h (by_hash (tp_inner p))
         | None => by_hash (tp_inner p)
         end);
  ae_pending : pending_count (tp_inner p') <= max_pending_txs (tp_config p);
  ae_queued : queued_count (tp_inner p') <= max_queued_txs (tp_config p);
  ae_events : tp_events p' =
    (fun l => l ++ add_events tx replaced evicted
       (existsb (fun e => ot_hash e =? ot_hash tx) evicted)) <$> tp_events p;
  ae_gauges : gauges_ok p';
}.

Definition limits_ok (config : PoolConfig) : Prop :=
  0 <= max_pending_txs config /\ 0 <= max_queued_txs config.

Lemma add_finish p tx replaced I1 :
  limits_ok (tp_config p) -> by_hash (tp_inner p) !! ot_hash tx = None -> inner_wf I1 ->
  by_hash I1 = <[ot_hash tx := tx]>
    match replaced with
    | Some h => delete h (by_hash (tp_inner p)) | None => by_hash (tp_inner p) end ->
  (forall h, replaced = Some h ->
    exists old, by_hash (tp_inner p) !! h = Some old /\ ot_sender old = ot_sender tx
      /\ ot_nonce old = ot_nonce tx /\ ot_price old < ot_price tx) ->
  let '(I2, evicted) := add_evict (tp_config p) I1 in
  add_effect p
    (sync_metrics (send_events (with_inner p I2) (add_events tx replaced evicted
       (existsb (fun e => ot_hash e =? ot_hash tx) evicted)))) tx replaced evicted.
Proof.
  intros [Hp Hq] Hf H1 Hh Hr.
  pose proof (add_evict_spec (tp_config p) I1 H1 Hp Hq) as Hev.
  destruct (add_evict (tp_config p) I1) as [I2 evicted]. destruct Hev as ([Hw Hin _ Hl] & ? & ?).
  split; simpl; try done.
  - eapply Forall_impl; [exact Hin|]. simpl. intros x. rewrite Hh.
    destruct replaced as [h|]; rewrite !lookup_insert_Some; [|naive_solver].
    rewrite lookup_delete_Some. naive_solver.
  - by rewrite Hl, Hh.
  - apply sync_metrics_gauges.
Qed.

(** [add] either rejects and changes nothing, or has [add_effect]; it then
    fails with [PoolFull] exactly when the new transaction was evicted. *)
Lemma pool_add_spec p tx :
  inner_wf (tp_inner p) -> limits_ok (tp_config p) -> tx_ok tx ->
  let '(p', r) := pool_add p tx in
  (p' = p /\ exists e, r = Err e)
  \/ exists replaced evicted, add_effect p p' tx replaced evicted
       /\ r = if existsb (fun e => ot_hash e =? ot_hash tx) evicted
              then Err PoolFull else Ok tt.
Proof.
  intros HI Hlim Htx. unfold pool_add.
  destruct (add_guard (tp_config p) (tp_inner p) tx) as [[]|e] eqn:Eg; [|left; eauto].
  destruct (add_guard_ok _ _ _ HI Eg) as (Hh & Hi & Hn).
  pose proof (add_insert_spec (tp_inner p) tx HI Htx Hh Hi Hn) as Hres.
  unfold add_insert_result in Hres.
  destruct (add_insert (tp_inner p) tx) as [I1 [[h|]|e]].
  - destruct Hres as (H1 & Hb & Hold).
    pose proof (add_finish p tx (Some h) I1 Hlim Hh H1 Hb ltac:(naive_solver)) as Hfin.
    destruct (add_evict (tp_config p) I1) as [I2 evicted]. right. eauto.
  - destruct Hres as (H1 & Hb).
    pose proof (add_finish p tx None I1 Hlim Hh H1 Hb ltac:(naive_solver)) as Hfin.
    destruct (add_evict (tp_config p) I1) as [I2 evicted]. right. eauto.
  - destruct Hres as (-> & _ & _). left. split; [by destruct p|eauto].
Qed.

(** ** Removing *)

Lemma remove_with_reason_spec p h reason :
  inner_wf (tp_inner p) ->
  let '(p', r) := remove_with_reason p h reason in
  inner_wf (tp_inner p') /\ tp_config p' = tp_config p
  /\ r = by_hash (tp_inner p) !! h
  /\ by_hash (tp_inner p') = delete h (by_hash (tp_inner p))
  /\ tp_events p' = (fun l => l ++ match r with Some _ => [TxEvicted h reason] | None => [] end)
       <$> tp_events p.
Proof.
  intros HI. unfold remove_with_reason.
  destruct (remove_update_wf (tp_inner p) h HI) as (Hw & Hr & Hd & _).
  destruct (inner_remove_by_hash (tp_inner p) h) as [I1 r] eqn:E. simpl in *. subst r.
  destruct (by_hash (tp_inner p) !! h) as [tx|] eqn:Eh.
  - split_and!; done.
  - split_and!; [done|done|done|by rewrite delete_id|].
    destruct (tp_events p); simpl; [by rewrite app_nil_r|done].
Qed.

(** Two well-formed queues of the same sender with the same next nonce and the
    same transactions are equal. *)
Lemma queue_ext q q' :
  sq_wf q -> sq_wf q' -> sq_sender q = sq_sender q' -> sq_next_nonce q = sq_next_nonce q' ->
  (forall x, x ∈ sq_all q <-> x ∈ sq_all q') -> q = q'.
Proof.
  intros Hw Hw' Hs Hn Hx. apply sq_canonical_aux; try done.
  apply sq_wf_all_perm; [apply Hw|]. apply NoDup_Permutation; [| |done].
  - eapply NoDup_fmap_1, sq_prewf_NoDup, Hw.
  - eapply NoDup_fmap_1, sq_prewf_NoDup, Hw'.
Qed.

Lemma sq_remove_confirmed_elem q c x :
  sq_wf q -> 0 <= c <= u64_max ->
  x ∈ sq_all (sq_remove_confirmed q c) <-> x ∈ sq_all q /\ c < ot_nonce x.
Proof.
  intros Hw Hc. destruct (sq_remove_confirmed_spec q c Hw Hc) as (Hw' & _ & _ & Ht).
  transitivity (sq_txs (sq_remove_confirmed q c) !! ot_nonce x = Some x).
  - rewrite sq_txs_lookup by apply Hw'. naive_solver.
  - rewrite Ht, map_lookup_filter_Some, sq_txs_lookup by apply Hw. simpl. naive_solver.
Qed.

Lemma elem_of_confirmed_hashes q c h :
  h ∈ confirmed_hashes q c <->
  exists x, x ∈ sq_all q /\ ot_nonce x <= c /\ ot_hash x = h.
Proof.
  unfold confirmed_hashes. rewrite list_elem_of_fmap.
  setoid_rewrite list_elem_of_filter. unfold sq_all. naive_solver.
Qed.

(** The queues are determined by their transactions and next nonces. *)
Lemma queues_ext m m' :
  queues_wf m -> queues_wf m' -> queues_nonempty [] m -> queues_nonempty [] m' ->
  (forall s q q', m !! s = Some q -> m' !! s = Some q' ->
     sq_next_nonce q = sq_next_nonce q') ->
  (forall x, in_queues m x <-> in_queues m' x) -> m = m'.
Proof.
  intros Hw Hw' Hne Hne' Hn Hx.
  assert (forall m1 m2, queues_wf m1 -> queues_nonempty [] m1 ->
    (forall x, in_queues m1 x -> in_queues m2 x) ->
    forall s q, m1 !! s = Some q -> is_Some (m2 !! s)) as Hdom.
  { intros m1 m2 H1 H1n H12 s q Hs.
    destruct (sq_all q) as [|x l] eqn:El.
    - specialize (H1n s q Hs ltac:(apply not_elem_of_nil)).
      apply sq_is_empty_true in El. congruence.
    - assert (x ∈ sq_all q) as Hin by (rewrite El; by left).
      rewrite <- (in_queues_key m1 s q x H1 Hs Hin).
      destruct (H12 x) as (q' & Hq' & _); [by eapply in_queues_intro|eauto]. }
  apply map_eq. intros s.
  destruct (m !! s) as [q|] eqn:E, (m' !! s) as [q'|] eqn:E'.
  - f_equal. destruct (Hw s q E) as [Hq Hs], (Hw' s q' E') as [Hq' Hs'].
    apply queue_ext; [done|done|congruence|by apply (Hn s)|].
    assert (forall m0 q0, queues_wf m0 -> m0 !! s = Some q0 ->
      forall x, x ∈ sq_all q0 <-> in_queues m0 x /\ ot_sender x = s) as Hel.
    { intros m0 q0 H0 H0s x. split.
      - intros Hin. split; [by eapply in_queues_intro|by eapply in_queues_key].
      - intros [(q1 & Hq1 & Hin) <-]. congruence. }
    intros x. rewrite (Hel m q), (Hel m' q') by done. by rewrite Hx.
  - destruct (Hdom m m' Hw Hne ltac:(intros x; apply Hx) s q E) as [? ?]. congruence.
  - destruct (Hdom m' m Hw' Hne' ltac:(intros x; apply Hx) s q' E') as [? ?]. congruence.
  - done.
Qed.

(** The effect of confirming nonces up to [conf s] per sender. *)
Definition confirm_queue (conf : gmap Address u64) (s : Address) (q : SenderQueue)
    : option SenderQueue :=
  match conf !! s with
  | Some c => if sq_is_empty (sq_remove_confirmed q c) then None
              else Some (sq_remove_confirmed q c)
  | None => Some q
  end.

Definition confirm_queues (conf : gmap Address u64) (m : gmap Address SenderQueue)
    : gmap Address SenderQueue := map_imap (confirm_queue conf) m.

(** [x] is retired by the confirmed nonces. *)
Definition confirmed (conf : gmap Address u64) (x : OrderedTransaction) : Prop :=
  exists c, conf !! ot_sender x = Some c /\ ot_nonce x <= c.

#[global] Instance confirmed_dec conf x : Decision (confirmed conf x).
Proof.
  unfold confirmed. destruct (conf !! ot_sender x) as [c|].
  - destruct (decide (ot_nonce x <= c)); [left; eauto|right].
    intros (c' & [= <-] & ?). lia.
  - right. by intros (c' & ? & _).
Defined.

Definition conf_ok (conf : gmap Address u64) : Prop :=
  map_Forall (fun _ c => 0 <= c <= u64_max) conf.

Lemma confirm_queues_lookup conf m s q' :
  confirm_queues conf m !! s = Some q' <->
  exists q, m !! s = Some q /\ confirm_queue conf s q = Some q'.
Proof.
  unfold confirm_queues. rewrite map_lookup_imap.
  destruct (m !! s) as [q|]; simpl; naive_solver.
Qed.

Lemma confirm_queues_spec conf m :
  queues_wf m -> queues_nonempty [] m -> conf_ok conf ->
  queues_wf (confirm_queues conf m) /\ queues_nonempty [] (confirm_queues conf m)
  /\ forall x, in_queues (confirm_queues conf m) x <-> in_queues m x /\ ~ confirmed conf x.
Proof.
  intros Hw Hne Hc. split_and!.
  - intros s q' (q & Hq & Hcq)%confirm_queues_lookup. unfold confirm_queue in Hcq.
    destruct (Hw s q Hq) as [Hwq Hs].
    destruct (conf !! s) as [c|] eqn:Ec; [|naive_solver].
    destruct (sq_is_empty _); [done|]. injection Hcq as <-.
    destruct (sq_remove_confirmed_spec q c Hwq (Hc s c Ec)) as (? & ? & _). split; [done|congruence].
  - intros s q' (q & Hq & Hcq)%confirm_queues_lookup _. unfold confirm_queue in Hcq.
    destruct (conf !! s) as [c|].
    + destruct (sq_is_empty _) eqn:E; [done|]. by injection Hcq as <-.
    + injection Hcq as <-. apply (Hne s q Hq), not_elem_of_nil.
  - intros x. unfold in_queues. setoid_rewrite confirm_queues_lookup.
    unfold confirmed, confirm_queue. split.
    + intros (q' & (q & Hq & Hcq) & Hx). destruct (Hw _ q Hq) as [Hwq _].
      destruct (conf !! ot_sender x) as [c|] eqn:Ec; [|naive_solver].
      destruct (sq_is_empty _); [done|]. injection Hcq as <-.
      apply sq_remove_confirmed_elem in Hx as [Hx Hlt]; [|done|by eapply Hc].
      split; [eauto|]. intros (c' & [= <-] & ?). lia.
    + intros [(q & Hq & Hx) Hnc]. destruct (Hw _ q Hq) as [Hwq _].
      destruct (conf !! ot_sender x) as [c|] eqn:Ec; [|naive_solver].
      assert (x ∈ sq_all (sq_remove_confirmed q c)) as Hx'.
      { apply sq_remove_confirmed_elem; [done|by eapply Hc|]. split; [done|].
        destruct (Z.lt_ge_cases c (ot_nonce x)); [done|]. destruct Hnc. eauto. }
      exists (sq_remove_confirmed q c). split; [|done]. exists q. split; [done|].
      destruct (sq_is_empty _) eqn:E; [|done]. apply sq_is_empty_true in E.
      rewrite E in Hx'. by apply elem_of_nil in Hx'.
Qed.

(** ** Confirmation *)

(** The pool after the nonces up to [conf s] of each sender [s] are retired. *)
Record confirm_effect (conf : gmap Address u64) (I I' : PoolInner) : Prop := {
  ce_wf : inner_wf I';
  ce_hash : by_hash I' = filter (fun kv => ~ confirmed conf kv.2) (by_hash I);
  ce_senders : by_sender I' = confirm_queues conf (by_sender I);
}.

Definition confirmed_next (conf : gmap Address u64) (s : Address) (n : u64) : u64 :=
  match conf !! s with Some c => Z.max n (Z.min u64_max (c + 1)) | None => n end.

Lemma confirm_intro conf I I2 S2 :
  inner_wf I -> conf_ok conf -> pool_rel I2 S2 ->
  (forall x, S2 x <-> in_queues (by_sender I) x /\ ~ confirmed conf x) ->
  (forall x, in_queues (by_sender I2) x <-> in_queues (by_sender I) x /\ ~ confirmed conf x) ->
  queues_nonempty [] (by_sender I2) ->
  (forall s q2, by_sender I2 !! s = Some q2 -> exists q, by_sender I !! s = Some q
     /\ sq_next_nonce q2 = confirmed_next conf s (sq_next_nonce q)) ->
  confirm_effect conf I (update_counts I2).
Proof.
  intros HI Hc [Hix Hq Hsub] HS Hin Hne Hn.
  destruct (iw_rel _ HI) as [Hix0 Hq0 _].
  destruct (confirm_queues_spec conf (by_sender I) Hq0 (iw_nonempty _ HI) Hc)
    as (Hcw & Hcne & Hcin).
  split; simpl.
  - apply update_counts_wf; [|done]. split; [|done|done].
    eapply index_ext; [|exact Hix]. intros x. by rewrite HS, Hin.
  - apply map_eq. intros h. apply option_eq. intros x.
    rewrite map_lookup_filter_Some, (ix_hash _ _ _ Hix), (ix_hash _ _ _ Hix0), HS. simpl. tauto.
  - apply queues_ext; try done; [|intros x; by rewrite Hin, Hcin].
    intros s q2 q' H2 (q & Hsq & Hcq)%confirm_queues_lookup.
    destruct (Hn s q2 H2) as (q0 & Hsq0 & ->). assert (q0 = q) as -> by congruence.
    unfold confirm_queue in Hcq. unfold confirmed_next.
    destruct (conf !! s) as [c|] eqn:Ec; [|by injection Hcq as ->].
    destruct (sq_is_empty _); [done|]. injection Hcq as <-.
    destruct (Hq0 s q Hsq) as [Hwq _].
    by destruct (sq_remove_confirmed_spec q c Hwq (Hc s c Ec)) as (_ & _ & -> & _).
Qed.

(** The transactions whose hash a confirmed nonce retires. *)
Lemma confirmed_hash_in I s q c x :
  inner_wf I -> by_sender I !! s = Some q -> in_queues (by_sender I) x ->
  ot_hash x ∈ confirmed_hashes q c <-> ot_sender x = s /\ ot_nonce x <= c.
Proof.
  intros HI Hs Hx. destruct (iw_rel _ HI) as [Hix Hq _].
  rewrite elem_of_confirmed_hashes. split.
  - intros (y & Hy & Hyc & Heq).
    assert (y = x) as ->.
    { eapply index_unique; [exact Hix|by eapply in_queues_intro|done|done]. }
    split; [by eapply in_queues_key|done].
  - intros [Hsx Hxc]. destruct Hx as (q' & Hq' & Hx).
    assert (q' = q) as -> by congruence. by exists x.
Qed.

Lemma confirmed_singleton s c x :
  confirmed {[s := c]} x <-> ot_sender x = s /\ ot_nonce x <= c.
Proof. unfold confirmed. setoid_rewrite lookup_singleton_Some. naive_solver. Qed.

Lemma conf_ok_singleton s c : 0 <= c <= u64_max -> conf_ok {[s := c]}.
Proof. by intros Hc s' c' [<- <-]%lookup_singleton_Some. Qed.

(** Nothing is confirmed of a sender without a queue. *)
Lemma confirm_absent I s c :
  inner_wf I -> 0 <= c <= u64_max -> by_sender I !! s = None ->
  confirm_effect {[s := c]} I (update_counts I).
Proof.
  intros HI Hc Es. pose proof (iw_rel _ HI) as HR.
  assert (forall x, in_queues (by_sender I) x -> ~ confirmed {[s := c]} x) as Hno.
  { intros x (q & Hq & _) [Hsx _]%confirmed_singleton. congruence. }
  eapply confirm_intro; [done|by apply conf_ok_singleton|exact HR| | |apply HI|].
  - intros x. specialize (Hno x). tauto.
  - intros x. specialize (Hno x). tauto.
  - intros s' q' Hq'. exists q'. split; [done|]. unfold confirmed_next.
    rewrite lookup_singleton_ne; [done|]. congruence.
Qed.

Lemma inner_remove_confirmed_spec I s c :
  inner_wf I -> 0 <= c <= u64_max ->
  confirm_effect {[s := c]} I (inner_remove_confirmed I s c).
Proof.
  intros HI Hc. unfold inner_remove_confirmed.
  pose proof (conf_ok_singleton s c Hc) as Hok. pose proof (confirmed_singleton s c) as Hconf.
  destruct (by_sender I !! s) as [q|] eqn:Es; cbn [fmap option_fmap option_map default].
  2:{ simpl. rewrite Es. by apply confirm_absent. }
  simpl. destruct (remove_hashes_rel (confirmed_hashes q c) I _ (iw_rel _ HI))
    as ([Hix Hq Hsub] & Hin & Hn & Hne).
  set (I1 := remove_hashes I (confirmed_hashes q c)) in *.
  assert (forall x, in_queues (by_sender I1) x <->
    in_queues (by_sender I) x /\ ~ confirmed {[s := c]} x) as Hin1.
  { intros x. rewrite Hin, Hconf. split; intros [Hx Hnx]; (split; [done|]);
      by rewrite (confirmed_hash_in I s q c x HI Es Hx) in *. }
  assert (forall x, (in_queues (by_sender I) x /\ ot_hash x ∉ confirmed_hashes q c) <->
    in_queues (by_sender I) x /\ ~ confirmed {[s := c]} x) as HS.
  { intros x. rewrite <- Hin1. by rewrite Hin. }
  destruct (by_sender I1 !! s) as [q1|] eqn:E1.
  - destruct (Hq s q1 E1) as [Hw1 Hs1].
    destruct (sq_remove_confirmed_spec q1 c Hw1 Hc) as (Hw2 & Hs2 & Hn2 & _).
    fold (put_queue (by_sender I1) s (sq_remove_confirmed q1 c)).
    assert (forall x, in_queues (put_queue (by_sender I1) s (sq_remove_confirmed q1 c)) x <->
      in_queues (by_sender I) x /\ ~ confirmed {[s := c]} x) as Hin2.
    { intros x. rewrite <- Hin1, put_queue_in, sq_remove_confirmed_elem by done. split.
      - intros [(Hsx & Hx & _)|[_ Hx]]; [by eapply in_queues_intro|done].
      - intros Hx. destruct (decide (ot_sender x = s)) as [Hsx|]; [left|by right].
        pose proof (proj2 (proj1 (Hin1 x) Hx)) as Hnc. rewrite Hconf in Hnc.
        destruct Hx as (q' & Hq' & Hx). assert (q' = q1) as -> by congruence.
        split_and!; [done|done|lia]. }
    eapply (confirm_intro _ _ (with_senders I1 (put_queue (by_sender I1) s _)));
      [done|done| |exact HS|exact Hin2|by apply put_queue_nonempty, Hne, HI|].
    + split; simpl; [done|by apply put_queue_wf; [done|done|congruence]|].
      intros x Hx%Hin2. by apply HS.
    + intros s' q2. simpl. intros H2. unfold confirmed_next.
      destruct (decide (s = s')) as [<-|Hss].
      * destruct (Hn s q1 E1) as (q0 & Hq0 & Heq). exists q0. split; [done|].
        rewrite lookup_singleton_eq, <- Heq, <- Hn2.
        unfold put_queue in H2. destruct (sq_is_empty _);
          [by rewrite lookup_delete_eq in H2|]. rewrite lookup_insert_eq in H2. congruence.
      * rewrite put_queue_lookup_ne in H2 by done. destruct (Hn s' q2 H2) as (q0 & Hq0 & Heq).
        exists q0. by rewrite lookup_singleton_ne.
  - eapply (confirm_intro _ _ I1); [done|done|by split|exact HS|exact Hin1|by apply Hne, HI|].
    intros s' q2 H2. destruct (Hn s' q2 H2) as (q0 & Hq0 & Heq). exists q0.
    unfold confirmed_next. rewrite lookup_singleton_ne; [done|]. congruence.
Qed.

(** ** Pruning *)

(** The state of the loop over the confirmed senders. *)
Record prune_state (I : PoolInner) (conf : gmap Address u64)
    (acc : PoolInner * list Address * list B256) : Prop := {
  ps_hash : by_hash acc.1.1 = by_hash I;
  ps_id : by_id acc.1.1 = by_id I;
  ps_senders : forall s, by_sender acc.1.1 !! s =
    (fun q => match conf !! s with Some c => sq_remove_confirmed q c | None => q end)
    <$> by_sender I !! s;
  ps_check : forall s, s ∈ acc.1.2 <-> is_Some (conf !! s) /\ is_Some (by_sender I !! s);
  ps_hashes : forall h, h ∈ acc.2 <->
    exists s c q, conf !! s = Some c /\ by_sender I !! s = Some q /\ h ∈ confirmed_hashes q c;
}.

Lemma prune_sender_state I conf acc s c :
  prune_state I conf acc -> conf !! s = None ->
  prune_state I (<[s := c]> conf) (prune_sender acc (s, c)).
Proof.
  intros [Hh Hi Hs Hc Hhs] Hns. destruct acc as [[I1 sl] hs]. simpl in *.
  pose proof (Hs s) as Hss. rewrite Hns in Hss.
  destruct (by_sender I !! s) as [q|] eqn:Eq; simpl in Hss; rewrite Hss.
  - split; simpl; try done.
    + intros s'. destruct (decide (s = s')) as [<-|Hne].
      * by rewrite !lookup_insert_eq, Eq.
      * rewrite !lookup_insert_ne by done. apply Hs.
    + intros s'. rewrite elem_of_app, list_elem_of_singleton, Hc, lookup_insert_is_Some'.
      destruct (decide (s' = s)) as [->|]; naive_solver.
    + intros h. rewrite elem_of_app, Hhs. split.
      * intros [(s' & c' & q' & H1 & H2 & H3)|Hin].
        -- exists s', c', q'. rewrite lookup_insert_ne by congruence. done.
        -- exists s, c, q. by rewrite lookup_insert_eq.
      * intros (s' & c' & q' & H1 & H2 & H3).
        apply lookup_insert_Some in H1 as [[<- <-]|[Hne H1]]; [right; congruence|left; eauto 10].
  - split; simpl; try done.
    + intros s'. destruct (decide (s = s')) as [<-|Hne]; [by rewrite Hss, Eq|].
      rewrite lookup_insert_ne by done. apply Hs.
    + intros s'. rewrite Hc, lookup_insert_is_Some'.
      destruct (decide (s' = s)) as [->|]; [|naive_solver]. rewrite Eq.
      split; intros [_ [? [=]]].
    + intros h. rewrite Hhs. split; intros (s' & c' & q' & H1 & H2 & H3); exists s', c', q'.
      * rewrite lookup_insert_ne by congruence. done.
      * by rewrite lookup_insert_ne in H1 by congruence.
Qed.

Lemma prune_fold_state I kvs :
  NoDup kvs.*1 -> prune_state I (list_to_map kvs) (foldl prune_sender (I, [], []) kvs).
Proof.
  assert (forall kvs conf acc, NoDup kvs.*1 ->
    (forall s, s ∈ kvs.*1 -> conf !! s = None) -> prune_state I conf acc ->
    prune_state I (list_to_map kvs ∪ conf) (foldl prune_sender acc kvs)) as Hgen.
  { clear kvs. induction kvs as [|[s c] kvs IH]; intros conf acc Hnd Hfr Hps.
    { simpl. by rewrite (left_id_L ∅ (∪)). }
    rewrite fmap_cons in Hnd. apply NoDup_cons in Hnd as [Hni Hnd].
    simpl. rewrite <- insert_union_l, insert_union_r by (by apply not_elem_of_list_to_map_1).
    apply IH; [done| |].
    - intros s' Hs'. rewrite lookup_insert_ne by (intros <-; done). apply Hfr. by right.
    - apply prune_sender_state; [done|]. apply Hfr. by left. }
  intros Hnd. rewrite <- (right_id_L ∅ (∪) (list_to_map kvs)). apply Hgen; [done|done|].
  split; simpl; try done.
  - intros s. rewrite lookup_empty. by destruct (by_sender I !! s).
  - intros s. rewrite lookup_empty. split; [by intros ?%elem_of_nil|by intros [[? ?] _]].
  - intros h. setoid_rewrite lookup_empty. split; [by intros ?%elem_of_nil|naive_solver].
Qed.

(** Dropping the emptied queues. *)
Lemma drop_empty_lookup I s s' q :
  by_sender (drop_empty I s) !! s' = Some q <->
  by_sender I !! s' = Some q /\ ~ (s' = s /\ sq_is_empty q = true).
Proof.
  unfold drop_empty. destruct (by_sender I !! s) as [q0|] eqn:Es; [|split; [|tauto]].
  - destruct (sq_is_empty q0) eqn:E; simpl; [rewrite lookup_delete_Some|]; split; try tauto.
    + intros [Hne H]. split; [done|]. naive_solver.
    + intros [H Hn]. split; [|done]. intros <-. apply Hn. split; [done|congruence].
    + intros H. split; [done|]. intros [-> He]. congruence.
  - intros H. split; [done|]. intros [-> _]. congruence.
Qed.

Lemma drop_empty_index I s :
  by_hash (drop_empty I s) = by_hash I /\ by_id (drop_empty I s) = by_id I.
Proof.
  unfold drop_empty. destruct (by_sender I !! s); [|done]. by destruct (sq_is_empty _).
Qed.

Lemma drop_empties_spec sl : forall I,
  by_hash (foldl drop_empty I sl) = by_hash I /\ by_id (foldl drop_empty I sl) = by_id I
  /\ forall s q, by_sender (foldl drop_empty I sl) !! s = Some q <->
       by_sender I !! s = Some q /\ ~ (s ∈ sl /\ sq_is_empty q = true).
Proof.
  induction sl as [|s0 sl IH]; intros I; simpl.
  { split_and!; [done|done|]. intros s q. pose proof (not_elem_of_nil s). tauto. }
  destruct (IH (drop_empty I s0)) as (Hh & Hi & Hs).
  destruct (drop_empty_index I s0) as [Hh0 Hi0].
  split_and!; [congruence|congruence|].
  intros s q. rewrite Hs, drop_empty_lookup, elem_of_cons. tauto.
Qed.

(** [x] is a transaction of the pool with one of the identifiers. *)
Definition listed (I : PoolInner) (ids : list B256) (x : OrderedTransaction) : Prop :=
  by_hash I !! ot_hash x = Some x /\ ordered_tx_id x ∈ ids.

Lemma by_id_lookup I i h :
  inner_wf I -> by_id I !! i = Some h <-> exists x, by_hash I !! h = Some x /\ ordered_tx_id x = i.
Proof. intros HI. apply (ix_id _ _ _ (pr_index _ _ (iw_rel _ HI))). Qed.

Lemma by_hash_self I h x : inner_wf I -> by_hash I !! h = Some x -> ot_hash x = h.
Proof. intros HI Hx. apply by_hash_lookup in Hx; tauto. Qed.

(** The confirmed nonce of a sender is the highest among its listed
    transactions. *)
Lemma confirmed_by_sender_spec I ids :
  inner_wf I ->
  (forall s c, confirmed_by_sender I ids !! s = Some c ->
     exists x, listed I ids x /\ ot_sender x = s /\ ot_nonce x = c)
  /\ (forall x, listed I ids x -> confirmed (confirmed_by_sender I ids) x).
Proof.
  intros HI. unfold confirmed_by_sender.
  induction ids as [|i ids [IH1 IH2]] using rev_ind.
  { split; [intros s c Hs; simpl in Hs; by rewrite lookup_empty in Hs|]. intros x [_ Hx]. by apply elem_of_nil in Hx. }
  rewrite foldl_snoc. set (m := foldl _ ∅ ids) in *. clearbody m.
  assert (forall x, listed I (ids ++ [i]) x <->
    listed I ids x \/ (by_hash I !! ot_hash x = Some x /\ ordered_tx_id x = i)) as Hl.
  { intros x. unfold listed. rewrite elem_of_app, list_elem_of_singleton. tauto. }
  setoid_rewrite Hl.
  destruct (by_id I !! i) as [h|] eqn:Ei.
  2:{ split; [naive_solver|]. intros x [Hx|[Hx Hid]]; [by apply IH2|].
      assert (by_id I !! i = Some (ot_hash x)); [|congruence].
      apply by_id_lookup; [done|]. eauto. }
  pose proof (proj1 (by_id_lookup I i h HI) Ei) as (tx & Htx & Hid). rewrite Htx.
  pose proof (by_hash_self I h tx HI Htx) as <-.
  assert (forall x, by_hash I !! ot_hash x = Some x -> ordered_tx_id x = i -> x = tx) as Hun.
  { intros x Hx Hxi. assert (by_id I !! i = Some (ot_hash x)) as Hi'.
    { apply by_id_lookup; [done|]. eauto. }
    rewrite Ei in Hi'. injection Hi' as Hi'. rewrite <- Hi' in Hx. congruence. }
  split.
  - intros s c [[<- <-]|[Hne Hs]]%lookup_insert_Some; [|naive_solver].
    destruct (m !! ot_sender tx) as [n|] eqn:Em; [|by exists tx; eauto].
    destruct (Z.max_spec n (ot_nonce tx)) as [[_ ->]|[_ ->]]; [by exists tx; eauto|].
    destruct (IH1 _ _ Em) as (x & Hx & ?). eauto.
  - intros x Hx. unfold confirmed.
    destruct (decide (ot_sender x = ot_sender tx)) as [Hs|Hs].
    + rewrite Hs, lookup_insert_eq. eexists. split; [done|].
      destruct Hx as [Hx|[Hx Hxi]].
      * destruct (IH2 x Hx) as (c & Hc & Hle). rewrite Hs in Hc. rewrite Hc. lia.
      * rewrite (Hun x Hx Hxi). destruct (m !! ot_sender tx); lia.
    + rewrite lookup_insert_ne by done. destruct Hx as [Hx|[Hx Hxi]]; [by apply IH2|].
      by rewrite (Hun x Hx Hxi) in Hs.
Qed.

Lemma pool_nonce_range I h x :
  inner_wf I -> by_hash I !! h = Some x -> 0 <= ot_nonce x < u64_max.
Proof.
  intros HI Hx. apply by_hash_lookup in Hx as [_ (q & Hq & Hx)]; [|done].
  destruct (pr_queues _ _ (iw_rel _ HI) _ _ Hq) as [Hw _].
  pose proof (sq_prewf_ge q x (wf_pre _ Hw) Hx). pose proof (wf_next _ (wf_pre _ Hw)).
  pose proof (wf_nonce _ (wf_pre _ Hw)) as Hm. eapply Forall_forall in Hm; [|exact Hx].
  simpl in Hm. lia.
Qed.

Lemma confirmed_by_sender_ok I ids : inner_wf I -> conf_ok (confirmed_by_sender I ids).
Proof.
  intros HI s c Hc. destruct (confirmed_by_sender_spec I ids HI) as [H1 _].
  destruct (H1 s c Hc) as (x & [Hx _] & _ & <-).
  pose proof (pool_nonce_range I _ _ HI Hx). lia.
Qed.

(** The queues after the first loop of [prune]. *)
Lemma prune_state_queues I conf acc :
  inner_wf I -> conf_ok conf -> prune_state I conf acc ->
  queues_wf (by_sender acc.1.1)
  /\ forall x, in_queues (by_sender acc.1.1) x <->
       in_queues (by_sender I) x /\ ~ confirmed conf x.
Proof.
  intros HI Hc [_ _ Hs _ _]. pose proof (pr_queues _ _ (iw_rel _ HI)) as Hq. split.
  - intros s q'. rewrite Hs. intros (q & Hsq & ->)%fmap_Some.
    destruct (Hq s q Hsq) as [Hw Hse]. destruct (conf !! s) as [c|] eqn:Ec; [|done].
    destruct (sq_remove_confirmed_spec q c Hw (Hc s c Ec)) as (? & ? & _). split; [done|congruence].
  - intros x. unfold in_queues, confirmed. setoid_rewrite Hs. split.
    + intros (q' & (q & Hsq & ->)%fmap_Some & Hx). destruct (Hq _ q Hsq) as [Hw _].
      destruct (conf !! ot_sender x) as [c|] eqn:Ec; [|naive_solver].
      apply sq_remove_confirmed_elem in Hx as [Hx Hlt]; [|done|by eapply Hc].
      split; [eauto|]. intros (c' & [= <-] & ?). lia.
    + intros [(q & Hsq & Hx) Hn]. rewrite Hsq. simpl. eexists. split; [done|].
      destruct (Hq _ q Hsq) as [Hw _].
      destruct (conf !! ot_sender x) as [c|] eqn:Ec; [|done].
      apply sq_remove_confirmed_elem; [done|by eapply Hc|]. split; [done|].
      destruct (Z.lt_ge_cases c (ot_nonce x)); [done|]. destruct Hn. eauto.
Qed.

Lemma prune_hashes_confirmed I conf acc x :
  inner_wf I -> prune_state I conf acc -> in_queues (by_sender I) x ->
  ot_hash x ∈ acc.2 <-> confirmed conf x.
Proof.
  intros HI [_ _ _ _ Hhs] Hx. rewrite Hhs. unfold confirmed. split.
  - intros (s & c & q & Hc & Hq & Hh). apply (confirmed_hash_in I s q c x HI Hq Hx) in Hh
      as [<- Hle]. eauto.
  - intros (c & Hc & Hle). pose proof Hx as (q & Hq & Hin). exists (ot_sender x), c, q.
    split_and!; [done|done|]. by apply (confirmed_hash_in I (ot_sender x) q).
Qed.

Lemma prune_state_nonempty I conf acc :
  inner_wf I -> prune_state I conf acc -> queues_nonempty acc.1.2 (by_sender acc.1.1).
Proof.
  intros HI [_ _ Hs Hc _] s q'. rewrite Hs, Hc. intros (q & Hq & ->)%fmap_Some Hno.
  destruct (conf !! s) as [c|]; [destruct Hno; eauto|].
  apply (iw_nonempty _ HI s q Hq), not_elem_of_nil.
Qed.

(** Dropping the empty queues of [sl] when no other queue is empty. *)
Lemma drop_empties_queues I sl S :
  pool_rel I S -> queues_nonempty sl (by_sender I) ->
  pool_rel (foldl drop_empty I sl) S
  /\ queues_nonempty [] (by_sender (foldl drop_empty I sl))
  /\ (forall x, in_queues (by_sender (foldl drop_empty I sl)) x <-> in_queues (by_sender I) x)
  /\ next_kept (by_sender I) (by_sender (foldl drop_empty I sl)).
Proof.
  intros [Hix Hq Hsub] Hne. destruct (drop_empties_spec sl I) as (Hh & Hi & Hs).
  assert (forall x, in_queues (by_sender (foldl drop_empty I sl)) x <->
    in_queues (by_sender I) x) as Hin.
  { intros x. unfold in_queues. setoid_rewrite Hs. split; [naive_solver|].
    intros (q & Hsq & Hx). exists q. split_and!; [done| |done].
    intros [_ He%sq_is_empty_true]. rewrite He in Hx. by apply elem_of_nil in Hx. }
  split_and!; [|  |done|].
  - split; [by rewrite Hh, Hi| |intros x ?%Hin; by apply Hsub].
    intros s q [Hsq _]%Hs. by apply Hq.
  - intros s q [Hsq Hno]%Hs _. apply not_true_iff_false. intros He.
    assert (s ∉ sl) as Hns by tauto. rewrite (Hne s q Hsq Hns) in He. done.
  - intros s q [Hsq _]%Hs. eauto.
Qed.

Lemma inner_prune_spec I ids :
  inner_wf I -> confirm_effect (confirmed_by_sender I ids) I (inner_prune I ids).
Proof.
  intros HI. unfold inner_prune.
  pose proof (confirmed_by_sender_ok I ids HI) as Hok.
  set (conf := confirmed_by_sender I ids) in *.
  pose proof (prune_fold_state I (map_to_list conf) (NoDup_fst_map_to_list conf)) as Hps.
  rewrite list_to_map_to_list in Hps.
  destruct (foldl prune_sender (I, [], []) (map_to_list conf)) as [[I1 sl] hs].
  destruct (prune_state_queues I conf _ HI Hok Hps) as [Hq1 Hin1].
  pose proof (prune_state_nonempty I conf _ HI Hps) as Hne1.
  pose proof (fun x => prune_hashes_confirmed I conf _ x HI Hps) as Hhs.
  pose proof (iw_rel _ HI) as [Hix _ _]. destruct Hps as [Hh Hi Hs _ _]; simpl in *.
  assert (pool_rel I1 (in_queues (by_sender I))) as Hrel1.
  { split; [by rewrite Hh, Hi|done|]. intros x Hx%Hin1. tauto. }
  destruct (remove_hashes_rel hs I1 _ Hrel1) as (Hrel2 & Hin2 & Hn2 & Hne2).
  destruct (drop_empties_queues _ sl _ Hrel2 (Hne2 _ Hne1)) as (Hrel3 & Hne3 & Hin3 & Hn3).
  eapply confirm_intro; [done|done|exact Hrel3| | |done|].
  - intros x. simpl. split; intros [Hx Hnx]; (split; [done|]); by rewrite (Hhs x Hx) in *.
  - intros x. rewrite Hin3, Hin2, Hin1. split; [tauto|]. intros [Hx Hnc].
    split_and!; [done|done|]. by rewrite (Hhs x Hx).
  - intros s q3 H3. destruct (next_kept_trans _ _ _ Hn2 Hn3 s q3 H3) as (q1 & H1 & ->).
    rewrite Hs in H1. apply fmap_Some in H1 as (q & Hq & ->). exists q. split; [done|].
    unfold confirmed_next. destruct (conf !! s) as [c|] eqn:Ec; [|done].
    destruct (pr_queues _ _ (iw_rel _ HI) s q Hq) as [Hw _].
    by destruct (sq_remove_confirmed_spec q c Hw (Hok s c Ec)) as (_ & _ & -> & _).
Qed.

(** ** Cleanup *)

(** [x] is expired where it is. *)
Definition expired (config : PoolConfig) (now : u64) (I : PoolInner)
    (x : OrderedTransaction) : Prop :=
  (x ∈ all_pending I /\ pending_ttl_secs config < saturating_sub now (ot_timestamp x))
  \/ (x ∈ all_queued I /\ queued_ttl_secs config < saturating_sub now (ot_timestamp x)).

Lemma elem_of_expired config now I h :
  h ∈ expired_hashes config now I <-> exists x, expired config now I x /\ ot_hash x = h.
Proof.
  unfold expired_hashes, expired. rewrite list_elem_of_bind.
  setoid_rewrite elem_of_queues. setoid_rewrite elem_of_app.
  setoid_rewrite list_elem_of_fmap. setoid_rewrite list_elem_of_filter.
  setoid_rewrite elem_of_all_pending. setoid_rewrite elem_of_all_queued.
  split; [|naive_solver].
  intros (q & [(x & -> & ? & ?)|(x & -> & ? & ?)] & s & Hs); exists x; naive_solver.
Qed.

Lemma expired_in config now I x :
  inner_wf I -> expired config now I x -> by_hash I !! ot_hash x = Some x.
Proof.
  intros HI Hx. apply by_hash_lookup; [done|]. split; [done|].
  apply elem_of_all_txs; [done|]. apply elem_of_app. unfold expired in Hx. tauto.
Qed.

Lemma expired_NoDup config now I :
  inner_wf I -> NoDup (expired_hashes config now I).
Proof.
  intros HI. unfold expired_hashes.
  pose proof (pr_queues _ _ (iw_rel _ HI)) as Hq. pose proof (iw_rel _ HI) as [Hix _ _].
  assert (forall x y, in_queues (by_sender I) x -> in_queues (by_sender I) y ->
    ot_hash x = ot_hash y -> x = y) as Hu.
  { intros x y Hx Hy He. eapply index_unique; [exact Hix|done..]. }
  assert (forall s q, by_sender I !! s = Some q -> forall x, x ∈ sq_all q ->
    in_queues (by_sender I) x) as Hi by (intros; by eapply in_queues_intro).
  unfold queues. rewrite list_fmap_bind. apply NoDup_bind; [| |apply NoDup_map_to_list].
  - intros [s1 q1] [s2 q2] h H1%elem_of_map_to_list H2%elem_of_map_to_list. simpl.
    rewrite !elem_of_app, !list_elem_of_fmap. setoid_rewrite list_elem_of_filter.
    intros Ha Hb.
    assert (exists x, x ∈ sq_all q1 /\ ot_hash x = h) as (x & Hx & Hxh)
      by (unfold sq_all; set_solver).
    assert (exists y, y ∈ sq_all q2 /\ ot_hash y = h) as (y & Hy & Hyh)
      by (unfold sq_all; set_solver).
    assert (x = y) as <- by (apply Hu; [exact (Hi s1 q1 H1 x Hx)|exact (Hi s2 q2 H2 y Hy)|congruence]).
    assert (s1 = s2) as ->.
    { rewrite <- (in_queues_key _ s1 q1 x Hq H1 Hx). by apply (in_queues_key _ s2 q2 x Hq H2). }
    congruence.
  - intros [s q] Hin%elem_of_map_to_list. simpl. rewrite <- fmap_app.
    apply NoDup_fmap_2_strong.
    + intros x y Hx Hy. apply Hu; eapply Hi; try exact Hin;
        unfold sq_all; rewrite elem_of_app, !list_elem_of_filter in *; set_solver.
    + destruct (Hq s q Hin) as [Hw _].
      pose proof (sq_prewf_NoDup q (wf_pre _ Hw)) as Hnd%NoDup_fmap_1.
      unfold sq_all in Hnd. apply NoDup_app in Hnd as (N1 & N2 & N3).
      apply NoDup_app. split_and!; [by apply NoDup_filter| |by apply NoDup_filter].
      intros x [_ Hx]%list_elem_of_filter [_ Hy]%list_elem_of_filter. by apply (N2 x).
Qed.

Lemma cleanup_loop_spec hs : forall I S k,
  pool_rel I S -> NoDup hs -> (forall h, h ∈ hs -> is_Some (by_hash I !! h)) ->
  foldl (fun '(inner, removed) hash =>
           match inner_remove_by_hash inner hash with
           | (inner', Some _) => (inner', removed + 1)
           | (inner', None) => (inner', removed)
           end) (I, k) hs = (remove_hashes I hs, k + len hs).
Proof.
  induction hs as [|h hs IH]; intros I S k HI Hnd Hin; simpl.
  { by rewrite len_nil, Z.add_0_r. }
  apply NoDup_cons in Hnd as [Hni Hnd].
  destruct (inner_remove_rel I S h HI) as (Hr & Hh & HI1 & _).
  rewrite (surjective_pairing (inner_remove_by_hash I h)), Hr.
  destruct (Hin h ltac:(by left)) as [x ->].
  rewrite (IH _ _ (k + 1) HI1 Hnd).
  - rewrite len_cons. f_equal. lia.
  - intros h' Hh'. rewrite Hh, lookup_delete_ne; [apply Hin; by right|]. intros ->. done.
Qed.

Lemma remove_hashes_by_hash hs : forall I S,
  pool_rel I S -> by_hash (remove_hashes I hs) = filter (fun kv => kv.1 ∉ hs) (by_hash I).
Proof.
  intros I S HI. destruct (remove_hashes_rel hs I S HI) as ([Hix' _ _] & _).
  destruct HI as [Hix _ _]. apply map_eq. intros h. apply option_eq. intros x.
  rewrite map_lookup_filter_Some, (ix_hash _ _ _ Hix'), (ix_hash _ _ _ Hix). naive_solver.
Qed.

Lemma remove_hashes_wf I hs : inner_wf I -> inner_wf (update_counts (remove_hashes I hs)).
Proof.
  intros HI. destruct (remove_hashes_rel hs I _ (iw_rel _ HI)) as ([Hix Hq Hs] & Hin & _ & Hne).
  apply update_counts_wf; [|by apply Hne, HI]. split; [|done|done].
  eapply index_ext; [|exact Hix]. intros x. by rewrite Hin.
Qed.

(** [cleanup] removes the expired transactions, and counts them. *)
Lemma cleanup_spec p now :
  inner_wf (tp_inner p) ->
  let '(p', removed) := cleanup p now in
  inner_wf (tp_inner p') /\ tp_config p' = tp_config p
  /\ (forall h x, by_hash (tp_inner p') !! h = Some x <->
        by_hash (tp_inner p) !! h = Some x
        /\ ~ expired (tp_config p) now (tp_inner p) x)
  /\ removed = len (expired_hashes (tp_config p) now (tp_inner p)).
Proof.
  intros HI. unfold cleanup, cleanup_loop.
  set (hs := expired_hashes (tp_config p) now (tp_inner p)).
  rewrite (cleanup_loop_spec hs (tp_inner p) _ 0 (iw_rel _ HI)).
  2:{ by apply expired_NoDup. }
  2:{ intros h (x & Hx & <-)%elem_of_expired. exists x. by eapply expired_in. }
  assert (forall h x, by_hash (remove_hashes (tp_inner p) hs) !! h = Some x <->
    by_hash (tp_inner p) !! h = Some x
    /\ ~ expired (tp_config p) now (tp_inner p) x) as Hleft.
  2:{ pose proof (remove_hashes_wf _ hs HI). by destruct (0 <? 0 + len hs). }
  intros h x. simpl. rewrite (remove_hashes_by_hash hs _ _ (iw_rel _ HI)).
  rewrite map_lookup_filter_Some. simpl. unfold hs. rewrite elem_of_expired.
  split; intros [Hx Hn]; (split; [done|]).
  - intros He. apply Hn. exists x. split; [done|]. by apply (by_hash_self (tp_inner p)).
  - intros (y & Hy & Heq). apply Hn.
    pose proof (expired_in _ _ _ _ HI Hy) as Hyy. rewrite Heq in Hyy. congruence.
Qed.

End ops.
