(* ===== verification/PoolProps.v ===== *)
(** Properties of the transaction pool: the invariant of every reachable pool,
    the exact effect of each operation, the faithfulness of the broadcast
    events, and the independence of the eviction from the iteration order of
    the hash map. *)
From S2P Require Import Prelude TxTypes SenderQueue Pool PoolInv PoolOps.

Section props.
Context `{EXT : !External}.

(** ** Operations on a pool *)

(** The operations that change a pool. *)
Inductive pool_op : Type :=
| PAdd (tx : OrderedTransaction)
| PInsert (now : u64) (tx : Tx)
| PRemove (hash : B256) (reason : string)
| PRemoveConfirmed (sender : Address) (nonce : u64)
| PPrune (ids : list B256)
| PCleanup (now : u64)
| PClear.

Definition pool_step (p : TransactionPool) (o : pool_op) : TransactionPool :=
  match o with
  | PAdd tx => (pool_add p tx).1
  | PInsert now tx => (mempool_insert p now tx).1
  | PRemove h r => (remove_with_reason p h r).1
  | PRemoveConfirmed s n => pool_remove_confirmed p s n
  | PPrune ids => mempool_prune p ids
  | PCleanup now => (cleanup p now).1
  | PClear => clear p
  end.

(** The nonces are 64-bit, and those of new transactions below the maximum. *)
Definition pool_op_ok (o : pool_op) : Prop :=
  match o with
  | PAdd tx => tx_ok tx
  | PInsert now tx => match tx_to_ordered now tx with Some o => tx_ok o | None => True end
  | PRemoveConfirmed _ n => 0 <= n <= u64_max
  | _ => True
  end.

Record pool_inv (p : TransactionPool) : Prop := {
  pi_wf : inner_wf (tp_inner p);
  pi_limits : limits_ok (tp_config p);
  pi_size : pool_len p <= max_pending_txs (tp_config p) + max_queued_txs (tp_config p);
  pi_gauges : gauges_ok p;
}.

(** An operation that only removes keeps the invariant. *)
Lemma pool_inv_shrink p p' :
  pool_inv p -> inner_wf (tp_inner p') -> tp_config p' = tp_config p ->
  by_hash (tp_inner p') ⊆ by_hash (tp_inner p) -> gauges_ok p' -> pool_inv p'.
Proof.
  intros [Hw Hl Hs Hg] Hw' Hc Hsub Hg'. split; [done|by rewrite Hc| |done].
  rewrite Hc. unfold pool_len in *. apply map_subseteq_size in Hsub. lia.
Qed.

Lemma pool_add_inv p tx : pool_inv p -> tx_ok tx -> pool_inv (pool_add p tx).1.
Proof.
  intros Hp Htx. pose proof (pool_add_spec p tx (pi_wf _ Hp) (pi_limits _ Hp) Htx) as Hspec.
  destruct (pool_add p tx) as [p' r]. simpl in *.
  destruct Hspec as [[-> _]|(rep & ev & Hae & _)]; [done|].
  split; [apply Hae| | |apply Hae].
  - rewrite (ae_config _ _ _ _ _ Hae). apply Hp.
  - rewrite (ae_config _ _ _ _ _ Hae). unfold pool_len.
    rewrite <- counts_size by apply Hae.
    pose proof (ae_pending _ _ _ _ _ Hae). pose proof (ae_queued _ _ _ _ _ Hae). lia.
Qed.

Lemma record_rejection_inv p r : pool_inv p -> pool_inv (record_rejection p r).
Proof.
  intros [Hw Hl Hs Hg]. split; try done.
  unfold gauges_ok, record_rejection in *. simpl. by destruct (tp_metrics p).
Qed.

Lemma confirm_inv p conf I' :
  pool_inv p -> confirm_effect conf (tp_inner p) I' ->
  pool_inv (sync_metrics (with_inner p I')).
Proof.
  intros Hp Hce. apply (pool_inv_shrink p); [done|apply Hce|done| |apply sync_metrics_gauges].
  simpl. rewrite (ce_hash _ _ _ Hce). apply map_filter_subseteq.
Qed.

Lemma update_counts_id I : inner_wf I -> update_counts I = I.
Proof.
  intros HI. destruct I as [h i s pc qc]. unfold update_counts. simpl. f_equal.
  - symmetry. apply (iw_pending _ HI).
  - symmetry. apply (iw_queued _ HI).
Qed.

Lemma cleanup_inv p now : pool_inv p -> pool_inv (cleanup p now).1.
Proof.
  intros Hp. pose proof (cleanup_spec p now (pi_wf _ Hp)) as Hspec.
  assert (gauges_ok (cleanup p now).1) as Hg.
  { unfold cleanup, cleanup_loop.
    set (hs := expired_hashes _ _ _).
    rewrite (cleanup_loop_spec hs (tp_inner p) _ 0 (iw_rel _ (pi_wf _ Hp)));
      [|by apply expired_NoDup, Hp|].
    - destruct hs as [|h hs]; [|].
      + change (remove_hashes (tp_inner p) []) with (tp_inner p).
        rewrite update_counts_id by apply Hp. apply Hp.
      + rewrite len_cons. pose proof (len_nonneg hs).
        rewrite (proj2 (Z.ltb_lt _ _)) by lia. apply sync_metrics_gauges.
    - intros h (x & Hx & <-)%elem_of_expired. exists x. eapply expired_in; [apply Hp|done]. }
  destruct (cleanup p now) as [p' n]. simpl in *. destruct Hspec as (Hw & Hc & Hh & _).
  apply (pool_inv_shrink p); [done|done|done| |done].
  apply map_subseteq_spec. intros h x Hx. by apply Hh.
Qed.

Lemma pool_step_inv p o : pool_inv p -> pool_op_ok o -> pool_inv (pool_step p o).
Proof.
  intros Hp Ho. destruct o as [tx|now tx|h r|s n|ids|now|]; simpl in *.
  - by apply pool_add_inv.
  - unfold mempool_insert. destruct (tx_to_ordered now tx) as [o|];
      [|by apply record_rejection_inv].
    pose proof (pool_add_inv p o Hp Ho) as Hadd.
    destruct (pool_add p o) as [p' [?|e]]; [done|]. by apply record_rejection_inv.
  - pose proof (remove_with_reason_spec p h r (pi_wf _ Hp)) as Hspec.
    assert (gauges_ok (remove_with_reason p h r).1) as Hg.
    { unfold remove_with_reason. destruct (inner_remove_by_hash _ _) as [I' [x|]];
        [apply sync_metrics_gauges|apply Hp]. }
    destruct (remove_with_reason p h r) as [p' x]. cbn [fst] in *. destruct Hspec as (Hw & Hc & _ & Hd & _).
    apply (pool_inv_shrink p); [done|done|done| |done]. rewrite Hd. apply delete_subseteq.
  - eapply confirm_inv; [done|]. apply inner_remove_confirmed_spec; [apply Hp|done].
  - eapply confirm_inv; [done|]. apply inner_prune_spec, Hp.
  - by apply cleanup_inv.
  - apply (pool_inv_shrink p); [done|apply empty_wf|done| |apply sync_metrics_gauges].
    apply map_empty_subseteq.
Qed.

(** ** Behaviour of [add] per outcome *)

(** [y] has the sender and the nonce of [tx]. *)
Definition same_slot (tx y : OrderedTransaction) : Prop :=
  ot_sender y = ot_sender tx /\ ot_nonce y = ot_nonce tx.

Definition replaces (p : TransactionPool) (tx : OrderedTransaction) : Prop :=
  exists y, pool_get p (ot_hash y) = Some y /\ same_slot tx y.

(** [tx] continues the pending transactions of its sender. *)
Definition next_in_line (p : TransactionPool) (tx : OrderedTransaction) : Prop :=
  match by_sender (tp_inner p) !! ot_sender tx with
  | Some q => ot_nonce tx = sq_next_nonce q + len (sq_pending q)
  | None => True
  end.

(** A part of the pool at its limit, none of which pays less than [tx]. *)
Definition part_full (max count : usize) (txs : list OrderedTransaction)
    (tx : OrderedTransaction) : Prop :=
  max = 0 \/ (max <= count /\ forall y, y ∈ txs -> ot_price tx <= ot_price y).

(** There is no room for [tx] where it would go. *)
Definition no_room (p : TransactionPool) (tx : OrderedTransaction) : Prop :=
  ~ replaces p tx
  /\ (next_in_line p tx
      /\ part_full (max_pending_txs (tp_config p)) (pool_pending_count p)
           (all_pending (tp_inner p)) tx
      \/ ~ next_in_line p tx
         /\ part_full (max_queued_txs (tp_config p)) (pool_queued_count p)
              (all_queued (tp_inner p)) tx).

(** The pool with [tx] in it, in the place of the transaction it replaces. *)
Definition with_tx (p : TransactionPool) (tx : OrderedTransaction) : gmap B256 OrderedTransaction :=
  <[ot_hash tx := tx]> (filter (fun kv => ~ same_slot tx kv.2) (by_hash (tp_inner p))).

(** [tx] passes every check and goes into the pool, from which [ev] is then
    evicted in order, down to the limits. *)
Record inserted (p p' : TransactionPool) (tx : OrderedTransaction)
    (ev : list OrderedTransaction) : Prop := {
  in_fresh : pool_get p (ot_hash tx) = None /\ by_id (tp_inner p) !! ordered_tx_id tx = None;
  in_nonce : forall q, by_sender (tp_inner p) !! ot_sender tx = Some q ->
    sq_next_nonce q <= ot_nonce tx
    /\ (replaces p tx \/ sq_total_count q < max_txs_per_sender (tp_config p));
  in_room : ~ no_room p tx;
  in_price : forall y, pool_get p (ot_hash y) = Some y -> same_slot tx y -> ot_price y < ot_price tx;
  in_run : exists I1, inner_wf I1 /\ by_hash I1 = with_tx p tx
    /\ next_kept (<[ot_sender tx := target_queue (tp_inner p) tx]> (by_sender (tp_inner p)))
         (by_sender I1)
    /\ evict_run (max_pending_txs (tp_config p)) (max_queued_txs (tp_config p)) I1 ev (tp_inner p');
  in_left : by_hash (tp_inner p') = filter (fun kv => kv.1 ∉ ot_hash <$> ev) (with_tx p tx);
}.

(** What each outcome of [add] tells. *)
Definition add_outcome (p p' : TransactionPool) (tx : OrderedTransaction)
    (r : result unit TxPoolError) : Prop :=
  match r with
  | Ok _ =>
      pool_get p' (ot_hash tx) = Some tx
      /\ pool_pending_count p' <= max_pending_txs (tp_config p)
      /\ pool_queued_count p' <= max_queued_txs (tp_config p)
      /\ exists ev, inserted p p' tx ev /\ ot_hash tx ∉ ot_hash <$> ev
  | Err PoolFull =>
      pool_get p' (ot_hash tx) = None
      /\ (p' = p /\ no_room p tx
          \/ exists ev, inserted p p' tx ev /\ ot_hash tx ∈ ot_hash <$> ev)
  | Err AlreadyExists =>
      p' = p /\ (contains p (ot_hash tx) = true
                 \/ is_Some (by_id (tp_inner p) !! ordered_tx_id tx))
  | Err ReplacementUnderpriced =>
      p' = p /\ exists y, pool_get p (ot_hash y) = Some y /\ same_slot tx y
                  /\ ot_price tx <= ot_price y
  | Err (NonceTooLow got expected) =>
      p' = p /\ got = ot_nonce tx /\ got < expected
      /\ exists q, by_sender (tp_inner p) !! ot_sender tx = Some q /\ sq_next_nonce q = expected
  | Err (SenderFull s) =>
      p' = p /\ s = ot_sender tx /\ ~ replaces p tx
      /\ exists q, by_sender (tp_inner p) !! s = Some q
           /\ max_txs_per_sender (tp_config p) <= sq_total_count q
  | Err _ => False
  end.

(** Where the code sends a transaction. *)
Lemma pending_end q : sq_wf q -> 0 <= sq_next_nonce q + len (sq_pending q) <= u64_max.
Proof.
  intros [Hw _]. pose proof (wf_next _ Hw) as Hn. unfold len.
  destruct (sq_pending q) as [|x l _] eqn:Ep using rev_ind; [simpl; lia|].
  assert (sq_pending q !! length l = Some x) as Hx by (rewrite Ep; by apply list_lookup_middle).
  pose proof (wf_pending _ Hw _ _ Hx) as Hnx. pose proof (wf_nonce _ Hw) as Hall.
  eapply Forall_forall in Hall;
    [|unfold sq_all; apply elem_of_app; left; by eapply list_elem_of_lookup_2].
  simpl in Hall. rewrite length_app. simpl. lia.
Qed.

Lemma replaces_queue p tx :
  inner_wf (tp_inner p) ->
  replaces p tx <-> exists q, by_sender (tp_inner p) !! ot_sender tx = Some q
    /\ is_Some (existing_nonce_tx q (ot_nonce tx)).
Proof.
  intros HI. unfold replaces, same_slot, pool_get, existing_nonce_tx. split.
  - intros (y & Hy & Hs & Hn). apply by_hash_lookup in Hy as [_ (q & Hq & Hy)]; [|done].
    rewrite Hs in Hq. exists q. split; [done|].
    destruct (list_find _ _) as [[i z]|] eqn:E; [by eexists|].
    apply list_find_None in E. eapply Forall_forall in E; [|exact Hy]. done.
  - intros (q & Hq & [y Hy]). destruct (list_find _ _) as [[i z]|] eqn:E; [|done].
    apply list_find_Some in E as (Hz & Hn & _). simpl in Hy. injection Hy as ->.
    assert (y ∈ sq_all q) as Hin by (by eapply list_elem_of_lookup_2).
    pose proof (in_queues_key _ _ _ _ (pr_queues _ _ (iw_rel _ HI)) Hq Hin) as Hs.
    exists y. split_and!; [|done|done]. apply by_hash_lookup; [done|].
    split; [done|]. by eapply in_queues_intro; [apply (iw_rel _ HI)|..].
Qed.

Lemma insertion_target_spec p tx :
  inner_wf (tp_inner p) -> tx_ok tx ->
  match insertion_target (by_sender (tp_inner p) !! ot_sender tx) tx with
  | Pending => ~ replaces p tx /\ next_in_line p tx
  | Queued => ~ replaces p tx /\ ~ next_in_line p tx
  | Replacement => replaces p tx
  end.
Proof.
  intros HI Htx. pose proof (replaces_queue p tx HI) as Hrq. unfold insertion_target, next_in_line.
  destruct (by_sender (tp_inner p) !! ot_sender tx) as [q|] eqn:Eq; [|naive_solver].
  destruct (existing_nonce_tx q (ot_nonce tx)) as [y|] eqn:Ey; [apply Hrq; by eauto|].
  destruct (pr_queues _ _ (iw_rel _ HI) _ _ Eq) as [Hw _]. pose proof (pending_end q Hw).
  unfold wrapping_add, wrap. rewrite Z.mod_small by lia.
  destruct (Z.eqb_spec (ot_nonce tx) (sq_next_nonce q + len (sq_pending q)));
    (split; [intros (q' & [= <-] & [? ?])%Hrq; congruence|done]).
Qed.

Lemma part_full_spec max count min txs tx :
  0 <= max -> (min = min_by Z.compare (ot_price <$> txs)) -> (0 < count -> txs <> []) ->
  let r := if max =? 0 then Err PoolFull
           else if max <=? count then
             match min with
             | Some min_price => if ot_price tx <=? min_price then Err PoolFull else Ok tt
             | None => Ok tt
             end
           else Ok tt in
  (r = Err PoolFull /\ part_full max count txs tx) \/ (r = Ok tt /\ ~ part_full max count txs tx).
Proof.
  intros Hm -> Hne r. unfold r, part_full. clear r.
  destruct (Z.eqb_spec max 0) as [->|H0]; [by left; split; [|left]|].
  destruct (Z.leb_spec max count) as [Hle|Hlt]; [|right; split; [done|lia]].
  destruct (min_by Z.compare (ot_price <$> txs)) as [m|] eqn:Em.
  2:{ apply min_by_None, fmap_nil_inv in Em. exfalso. apply Hne; [lia|done]. }
  pose proof (min_by_elem _ _ _ Em) as (z & -> & Hz)%list_elem_of_fmap.
  destruct (Z.leb_spec (ot_price tx) (ot_price z)) as [Hp|Hp].
  - left. split; [done|]. right. split; [done|]. intros y Hy.
    assert (ot_price y ∈ ot_price <$> txs) as Hin by (by apply list_elem_of_fmap_2).
    pose proof (min_by_le _ _ _ _ Em Hin) as Hle'. unfold cmp_le in Hle'.
    destruct (Z.compare_spec (ot_price z) (ot_price y)); (lia || done).
  - right. split; [done|]. intros [?|[_ Hall]]; [done|]. specialize (Hall z Hz). lia.
Qed.

Lemma reject_underpriced_spec p tx :
  inner_wf (tp_inner p) -> limits_ok (tp_config p) -> tx_ok tx ->
  let r := reject_underpriced_when_full (tp_config p) (tp_inner p) tx
             (insertion_target (by_sender (tp_inner p) !! ot_sender tx) tx) in
  (r = Err PoolFull /\ no_room p tx) \/ (r = Ok tt /\ ~ no_room p tx).
Proof.
  intros HI [Hp Hq] Htx. pose proof (insertion_target_spec p tx HI Htx) as Ht. unfold no_room.
  assert (forall I : PoolInner, inner_wf I -> (0 < pending_count I -> all_pending I <> [])
    /\ (0 < queued_count I -> all_queued I <> [])) as Hne.
  { intros I HI'. rewrite pending_count_len, queued_count_len by done.
    split; intros ? E; rewrite E in *; by unfold len in *. }
  destruct (Hne _ HI) as [Hn1 Hn2].
  unfold reject_underpriced_when_full, min_pending_price, min_queued_price.
  destruct (insertion_target _ tx); cbv zeta.
  - destruct (part_full_spec _ _ _ _ tx Hp eq_refl Hn1) as [[-> ?]|[-> ?]];
      [left|right]; (split; [done|]); unfold pool_pending_count; tauto.
  - destruct (part_full_spec _ _ _ _ tx Hq eq_refl Hn2) as [[-> ?]|[-> ?]];
      [left|right]; (split; [done|]); unfold pool_queued_count; tauto.
  - right. split; [done|]. tauto.
Qed.

(** The guards of [add] reject for a reason, or none of the reasons holds. *)
Lemma add_guard_outcome p tx :
  inner_wf (tp_inner p) -> limits_ok (tp_config p) -> tx_ok tx ->
  match add_guard (tp_config p) (tp_inner p) tx with
  | Err e => add_outcome p p tx (Err e)
  | Ok _ =>
      (pool_get p (ot_hash tx) = None /\ by_id (tp_inner p) !! ordered_tx_id tx = None)
      /\ (forall q, by_sender (tp_inner p) !! ot_sender tx = Some q ->
            sq_next_nonce q <= ot_nonce tx
            /\ (replaces p tx \/ sq_total_count q < max_txs_per_sender (tp_config p)))
      /\ ~ no_room p tx
  end.
Proof.
  intros HI Hl Htx. unfold add_guard, pool_get.
  destruct (by_hash (tp_inner p) !! ot_hash tx) as [y|] eqn:Eh.
  { rewrite bool_decide_true by eauto. split; [done|]. left.
    unfold contains. rewrite Eh. by rewrite bool_decide_true by eauto. }
  destruct (by_id (tp_inner p) !! ordered_tx_id tx) as [i|] eqn:Ei.
  { rewrite orb_comm, bool_decide_true by eauto. split; [done|]. right. eauto. }
  rewrite !bool_decide_false by (by intros [? ?]). cbn [orb].
  pose proof (reject_underpriced_spec p tx HI Hl Htx) as Hrej. cbv zeta in Hrej.
  pose proof (insertion_target_spec p tx HI Htx) as Ht.
  destruct (by_sender (tp_inner p) !! ot_sender tx) as [q|] eqn:Es.
  2:{ destruct Hrej as [[-> ?]|[-> ?]]; cbn [add_outcome]; [|done]. split; [done|by left]. }
  destruct (Z.ltb_spec (ot_nonce tx) (sq_next_nonce q)) as [Hlt|Hge].
  { split_and!; [done|done|done|]. eauto. }
  set (t := insertion_target (Some q) tx) in *.
  assert (match t with Replacement => True | _ => max_txs_per_sender (tp_config p) <= sq_total_count q end
    /\ t <> Replacement \/ (replaces p tx \/ sq_total_count q < max_txs_per_sender (tp_config p)))
    as [[Hfull Hnr]|Hroom].
  { destruct t; [| |tauto];
      (destruct (Z.leb_spec (max_txs_per_sender (tp_config p)) (sq_total_count q)); [left|right]);
      (done || tauto). }
  - destruct t; [| |done]; rewrite (proj2 (Z.leb_le _ _)) by done;
      (split_and!; [done|done|tauto|by exists q]).
  - assert (match t with
            | Replacement => Ok tt
            | _ => if max_txs_per_sender (tp_config p) <=? sq_total_count q
                   then Err (SenderFull (ot_sender tx)) else Ok tt
            end = Ok tt) as ->.
    { destruct t; [| |done]; destruct Hroom; try tauto; by rewrite (proj2 (Z.leb_gt _ _)). }
    destruct Hrej as [[-> ?]|[-> ?]]; cbn [add_outcome].
    + split; [done|by left].
    + split_and!; try done. by intros ? [= <-].
Qed.

Lemma existsb_hash evicted h :
  existsb (fun e => ot_hash e =? h) evicted = true <-> h ∈ ot_hash <$> evicted.
Proof.
  rewrite existsb_exists, list_elem_of_fmap. setoid_rewrite list_elem_of_In.
  setoid_rewrite Z.eqb_eq. naive_solver.
Qed.

(** At most one transaction per sender and nonce. *)
Lemma pool_nonce_unique I x y :
  inner_wf I -> by_hash I !! ot_hash x = Some x -> by_hash I !! ot_hash y = Some y ->
  ot_sender x = ot_sender y -> ot_nonce x = ot_nonce y -> x = y.
Proof.
  intros HI Hx Hy Hs Hn.
  apply by_hash_lookup in Hx as [_ (q & Hq & Hx)]; [|done].
  apply by_hash_lookup in Hy as [_ (q' & Hq' & Hy)]; [|done].
  rewrite <- Hs, Hq in Hq'. injection Hq' as <-.
  destruct (pr_queues _ _ (iw_rel _ HI) _ _ Hq) as [Hw _].
  assert (sq_txs q !! ot_nonce x = Some x) as H1 by (by apply sq_txs_lookup; [apply Hw|]).
  assert (sq_txs q !! ot_nonce x = Some y) as H2 by (by apply sq_txs_lookup; [apply Hw|]).
  congruence.
Qed.

(** The contents after the insertion, in terms of the slot. *)
Lemma insert_contents p tx rep I1 :
  inner_wf (tp_inner p) -> inner_wf I1 -> by_hash (tp_inner p) !! ot_hash tx = None ->
  by_hash I1 = <[ot_hash tx := tx]>
    match rep with
    | Some h => delete h (by_hash (tp_inner p))
    | None => by_hash (tp_inner p)
    end ->
  (forall h, rep = Some h -> exists old, by_hash (tp_inner p) !! h = Some old /\ same_slot tx old) ->
  by_hash I1 = with_tx p tx
  /\ forall y, pool_get p (ot_hash y) = Some y -> same_slot tx y -> rep = Some (ot_hash y).
Proof.
  intros HI H1 Hf Hb Hr. unfold pool_get.
  assert (forall y, by_hash (tp_inner p) !! ot_hash y = Some y -> same_slot tx y ->
    rep = Some (ot_hash y)) as Hu.
  { intros y Hy [Hs Hn]. destruct rep as [h|].
    - destruct (Hr h eq_refl) as (old & Hold & Hso & Hno).
      pose proof (by_hash_self _ _ _ HI Hold) as Hh. rewrite <- Hh in Hold |- *. do 2 f_equal.
      eapply pool_nonce_unique; [exact HI|done|done|congruence|congruence].
    - exfalso. assert (y = tx) as ->; [|congruence].
      eapply pool_nonce_unique; [exact H1|..]; [| |done|done]; rewrite Hb.
      + rewrite lookup_insert_ne; [done|]. intros Heq. rewrite Heq in Hf. congruence.
      + by rewrite lookup_insert_eq. }
  split; [|done]. rewrite Hb. unfold with_tx. f_equal.
  apply map_eq. intros h. apply option_eq. intros y.
  rewrite map_lookup_filter_Some. cbn [snd]. destruct rep as [h'|].
  - rewrite lookup_delete_Some. split.
    + intros [Hne Hy]. split; [done|]. intros Hsl. pose proof (by_hash_self _ _ _ HI Hy) as Hh.
      rewrite <- Hh in Hy. specialize (Hu y Hy Hsl). congruence.
    + intros [Hy Hsl]. split; [|done]. intros ->. destruct (Hr h eq_refl) as (old & Hold & Hso).
      congruence.
  - split; [|tauto]. intros Hy. split; [done|]. intros Hsl.
    pose proof (by_hash_self _ _ _ HI Hy) as Hh. rewrite <- Hh in Hy. by specialize (Hu y Hy Hsl).
Qed.

Lemma add_effect_outcome p p' tx rep ev :
  add_effect p p' tx rep ev -> inserted p p' tx ev ->
  add_outcome p p' tx
    (if existsb (fun e => ot_hash e =? ot_hash tx) ev then Err PoolFull else Ok tt).
Proof.
  intros Hae Hin. pose proof (in_left _ _ _ _ Hin) as Hl.
  destruct (existsb _ ev) eqn:Ee; cbn [add_outcome].
  - apply existsb_hash in Ee. split; [|right; by exists ev]. unfold pool_get. rewrite Hl.
    apply map_lookup_filter_None. right. intros x _ Hn. by apply Hn.
  - assert (ot_hash tx ∉ ot_hash <$> ev) as Hne
      by (intros Hin'%existsb_hash; congruence).
    split_and!; [|apply Hae|apply Hae|by exists ev].
    unfold pool_get. rewrite Hl. apply map_lookup_filter_Some. unfold with_tx.
    by rewrite lookup_insert_eq.
Qed.

(** ** Events *)

(** The set of hashes a listener of the broadcast channel keeps. *)
Definition replay (S : gset B256) (evs : list MempoolEvent) : gset B256 :=
  foldl (fun S ev => match ev with
                     | TxAdded h _ _ _ _ _ => {[h]} ∪ S
                     | TxIncluded h _ _ => S ∖ {[h]}
                     | TxEvicted h _ => S ∖ {[h]}
                     end) S evs.

Lemma replay_app S evs evs' : replay S (evs ++ evs') = replay (replay S evs) evs'.
Proof. apply foldl_app. Qed.

Lemma replay_evicted S r (l : list OrderedTransaction) :
  replay S ((fun e => TxEvicted (ot_hash e) r) <$> l) = S ∖ list_to_set (ot_hash <$> l).
Proof.
  revert S. induction l as [|x l IH]; intros S; simpl; [set_solver|].
  unfold replay in *. simpl. rewrite IH. set_solver.
Qed.

Lemma add_effect_replay p p' tx rep ev :
  add_effect p p' tx rep ev ->
  replay (dom (by_hash (tp_inner p)))
    (add_events tx rep ev (existsb (fun e => ot_hash e =? ot_hash tx) ev))
  = dom (by_hash (tp_inner p')).
Proof.
  intros Hae. rewrite (ae_left _ _ _ _ _ Hae). unfold add_events.
  rewrite !replay_app, replay_evicted.
  set (M := match rep with Some h => delete h _ | None => _ end).
  assert (replay (dom (by_hash (tp_inner p)))
    match rep with Some h => [TxEvicted h "replaced"] | None => [] end = dom M) as ->.
  { unfold M, replay. destruct rep as [h|]; simpl; [|done]. by rewrite dom_delete_L. }
  apply set_eq. intros h.
  rewrite elem_of_difference, elem_of_list_to_set, elem_of_dom.
  transitivity (h ∈ dom (<[ot_hash tx := tx]> M) /\ h ∉ ot_hash <$> ev).
  - destruct (existsb _ ev) eqn:Ee; simpl; rewrite dom_insert_L; [|done].
    apply existsb_hash in Ee. set_solver.
  - rewrite elem_of_dom. unfold is_Some. setoid_rewrite map_lookup_filter_Some. naive_solver.
Qed.

(** ** Properties *)

(** C1: every pool reached from an empty one by adding, inserting, removing,
    confirming, pruning, cleaning up and clearing, in any order, is
    consistent: the queues are well formed and not empty, [by_hash] holds
    exactly their transactions, [by_id] inverts the identifiers, the counters
    are the queue lengths and add up to the size, the size never exceeds the
    two limits together, and the gauges show the pool. *)
Theorem pool_reachable p0 ops :
  tp_inner p0 = PoolInner_new -> limits_ok (tp_config p0) -> gauges_ok p0 ->
  Forall pool_op_ok ops ->
  let p := foldl pool_step p0 ops in
  inner_wf (tp_inner p) /\ pool_pending_count p + pool_queued_count p = pool_len p
  /\ pool_len p <= max_pending_txs (tp_config p) + max_queued_txs (tp_config p)
  /\ gauges_ok p.
Proof.
  intros H0 Hl Hg Hops. cbv zeta.
  assert (pool_inv p0) as Hp.
  { destruct Hl. split; [rewrite H0; apply empty_wf|done| |done].
    unfold pool_len. rewrite H0. simpl. rewrite map_size_empty. lia. }
  clear H0 Hl Hg. revert p0 Hp.
  induction Hops as [|o ops Ho _ IH]; intros p Hp; simpl.
  - split_and!; [apply Hp|apply counts_size, Hp|apply Hp|apply Hp].
  - apply IH. by apply pool_step_inv.
Qed.

(** C2: each outcome of [add] means what it says.  [Ok]: no check fails, the
    transaction is in the pool in the place of the one with its sender and
    nonce, which paid less, and what leaves to bring the pool down to its
    limits is, one after the other, the pending and then the queued transaction
    with the lowest price (the newest of those, then the smallest hash).
    [PoolFull]: the transaction is not in the pool, because it replaces nothing
    and its part of the pool is full of transactions that pay at least as
    much, with the pool as it was, or because it was itself evicted in that
    order.  Every other error leaves the pool as it was, and its cause holds:
    the hash or identifier is known, the nonce is below the next one of the
    sender, the sender is at its limit and the nonce is not a replacement, or
    the nonce is taken by a transaction that pays at least as much. *)
Theorem pool_add_outcome p tx :
  inner_wf (tp_inner p) -> limits_ok (tp_config p) -> tx_ok tx ->
  add_outcome p (pool_add p tx).1 tx (pool_add p tx).2.
Proof.
  intros HI Hl Htx. pose proof (add_guard_outcome p tx HI Hl Htx) as Hg. unfold pool_add.
  destruct (add_guard (tp_config p) (tp_inner p) tx) as [[]|e] eqn:Eg; [|done].
  destruct (add_guard_ok _ _ _ HI Eg) as (Hh & Hi & Hn). destruct Hg as (Hfresh & Hnonce & Hroom).
  pose proof (add_insert_spec (tp_inner p) tx HI Htx Hh Hi Hn) as Hres.
  pose proof (add_insert_next (tp_inner p) tx HI Htx Hh Hn) as Hk.
  unfold add_insert_result in Hres. destruct (add_insert (tp_inner p) tx) as [I1 [r|e]].
  2:{ destruct Hres as (-> & -> & y & Hy & Hs & Hny & Hp). split; [by destruct p|by exists y]. }
  cbn [fst] in Hk.
  assert (inner_wf I1 /\ by_hash I1 = <[ot_hash tx := tx]>
    match r with Some h => delete h (by_hash (tp_inner p)) | None => by_hash (tp_inner p) end
    /\ forall h, r = Some h -> exists old, by_hash (tp_inner p) !! h = Some old
         /\ ot_sender old = ot_sender tx /\ ot_nonce old = ot_nonce tx
         /\ ot_price old < ot_price tx) as (H1 & Hb & Hold).
  { destruct r as [h|]; [|naive_solver]. destruct Hres as (? & ? & ?). naive_solver. }
  destruct (insert_contents p tx r I1 HI H1 Hh Hb) as [Hc Hslot];
    [intros h Hr; destruct (Hold h Hr) as (old & ? & ? & ? & _); by exists old|].
  pose proof (add_finish p tx r I1 Hl Hh H1 Hb Hold) as Hfin.
  pose proof (add_evict_run (tp_config p) I1 H1 (proj1 Hl) (proj2 Hl)) as Hrun.
  pose proof (add_evict_spec (tp_config p) I1 H1 (proj1 Hl) (proj2 Hl)) as Hev.
  destruct (add_evict (tp_config p) I1) as [I2 ev]. cbn [fst snd] in *.
  apply (add_effect_outcome _ _ _ r); [done|]. split; [done|done|done| |by exists I1|].
  - intros y Hy Hsl. destruct (Hold _ (Hslot y Hy Hsl)) as (old & Ho & _ & _ & Hp).
    unfold pool_get in Hy. congruence.
  - simpl. rewrite <- Hc. apply Hev.
Qed.

(** The broadcast events are faithful.  A listener that adds the hashes of
    [TxAdded] and drops those of [TxEvicted] has, after [add] and after
    [remove], exactly the hashes of the pool. *)
Theorem pool_events_faithful p tx h reason l :
  inner_wf (tp_inner p) -> limits_ok (tp_config p) -> tx_ok tx -> tp_events p = Some l ->
  (exists evs, tp_events (pool_add p tx).1 = Some (l ++ evs)
     /\ replay (dom (by_hash (tp_inner p))) evs = dom (by_hash (tp_inner (pool_add p tx).1)))
  /\ (exists evs, tp_events (remove_with_reason p h reason).1 = Some (l ++ evs)
     /\ replay (dom (by_hash (tp_inner p))) evs
        = dom (by_hash (tp_inner (remove_with_reason p h reason).1))).
Proof.
  intros HI Hl Htx He. split.
  - pose proof (pool_add_spec p tx HI Hl Htx) as Hspec.
    destruct (pool_add p tx) as [p' r]. simpl.
    destruct Hspec as [[-> _]|(rep & ev & Hae & _)].
    + exists []. by rewrite app_nil_r.
    + rewrite (ae_events _ _ _ _ _ Hae), He. eexists. split; [done|]. by apply add_effect_replay.
  - pose proof (remove_with_reason_spec p h reason HI) as Hspec.
    destruct (remove_with_reason p h reason) as [p' r]. simpl.
    destruct Hspec as (_ & _ & -> & -> & ->). rewrite He. eexists. split; [done|].
    rewrite dom_delete_L. destruct (by_hash (tp_inner p) !! h) as [x|] eqn:Eh; simpl.
    + unfold replay. simpl. set_solver.
    + assert (h ∉ dom (by_hash (tp_inner p))) by (by apply not_elem_of_dom). set_solver.
Qed.

(** [prune] retires, per sender, the nonces up to the highest nonce among
    the listed transactions the pool holds, and nothing else: exactly those
    transactions leave [by_hash], each queue becomes what
    [SenderQueue::remove_confirmed] makes of it (dropped when empty), and no
    listed identifier remains. *)
Theorem mempool_prune_correct p ids :
  inner_wf (tp_inner p) ->
  let conf := confirmed_by_sender (tp_inner p) ids in
  confirm_effect conf (tp_inner p) (tp_inner (mempool_prune p ids))
  /\ (forall s c, conf !! s = Some c ->
        exists x, listed (tp_inner p) ids x /\ ot_sender x = s /\ ot_nonce x = c)
  /\ (forall i, i ∈ ids -> by_id (tp_inner (mempool_prune p ids)) !! i = None).
Proof.
  intros HI conf. pose proof (inner_prune_spec (tp_inner p) ids HI) as Hce.
  destruct (confirmed_by_sender_spec (tp_inner p) ids HI) as [H1 H2].
  split_and!; [exact Hce|exact H1|]. intros i Hi. simpl.
  apply eq_None_not_Some. intros [h Hh].
  apply (by_id_lookup _ i h (ce_wf _ _ _ Hce)) in Hh as (x & Hx & Hid).
  rewrite (ce_hash _ _ _ Hce) in Hx. apply map_lookup_filter_Some in Hx as [Hx Hn].
  simpl in Hn. apply Hn, H2. split; [|by rewrite Hid].
  by rewrite (by_hash_self _ h x HI Hx).
Qed.

(** [remove_confirmed] retires exactly the transactions of the sender with
    a nonce up to the confirmed one; although it removes them one by one,
    moving transactions between the two parts of the queue, the queue ends as
    [SenderQueue::remove_confirmed] makes it. *)
Lemma pool_remove_confirmed_correct p s c :
  inner_wf (tp_inner p) -> 0 <= c <= u64_max ->
  confirm_effect {[s := c]} (tp_inner p) (tp_inner (pool_remove_confirmed p s c)).
Proof. intros HI Hc. by apply inner_remove_confirmed_spec. Qed.

(** [cleanup] removes exactly the transactions older than the time to live
    of the part of the queue they are in, and returns their number. *)
Theorem cleanup_correct p now :
  inner_wf (tp_inner p) ->
  let '(p', removed) := cleanup p now in
  inner_wf (tp_inner p')
  /\ (forall h x, pool_get p' h = Some x <->
        pool_get p h = Some x /\ ~ expired (tp_config p) now (tp_inner p) x)
  /\ removed = pool_len p - pool_len p'.
Proof.
  intros HI. pose proof (cleanup_spec p now HI) as Hspec.
  pose proof (expired_NoDup (tp_config p) now (tp_inner p) HI) as Hnd.
  destruct (cleanup p now) as [p' removed]. destruct Hspec as (Hw & _ & Hh & ->).
  split_and!; [done|done|]. unfold pool_len.
  set (hs := expired_hashes (tp_config p) now (tp_inner p)) in *.
  assert (dom (by_hash (tp_inner p)) = list_to_set hs ∪ dom (by_hash (tp_inner p'))) as Hdom.
  { apply set_eq. intros h. rewrite elem_of_union, elem_of_list_to_set.
    unfold hs. rewrite elem_of_expired, !elem_of_dom. split.
    - intros [x Hx]. destruct (decide (h ∈ hs)) as [Hin|Hni].
      + left. by apply elem_of_expired.
      + right. exists x. apply Hh. split; [done|]. intros Hex. apply Hni.
        apply elem_of_expired. exists x. split; [done|]. exact (by_hash_self _ _ _ HI Hx).
    - intros [(x & Hx & <-)|[x Hx]]; [exists x; by eapply expired_in|].
      exists x. by apply Hh. }
  assert ((list_to_set hs : gset Z) ## dom (by_hash (tp_inner p'))) as Hdisj.
  { apply elem_of_disjoint. intros h Hin%elem_of_list_to_set [x Hx]%elem_of_dom.
    apply elem_of_expired in Hin as (y & Hy & <-). apply Hh in Hx as [Hx Hn].
    pose proof (expired_in _ _ _ _ HI Hy). congruence. }
  rewrite <- !size_dom, Hdom, size_union by done.
  rewrite size_list_to_set by done. unfold len. lia.
Qed.

(** The choice of the evicted transaction and the order of [pending] do
    not depend on the order in which the hash map yields the queues. *)
Theorem pool_order_independent p qs :
  inner_wf (tp_inner p) -> qs ≡ₚ queues (by_sender (tp_inner p)) ->
  min_by evict_cmp (q ← qs; sq_pending q) = min_by evict_cmp (all_pending (tp_inner p))
  /\ min_by evict_cmp (q ← qs; sq_queued q) = min_by evict_cmp (all_queued (tp_inner p))
  /\ forall n, take (Z.to_nat n) (sort_by ot_cmp (q ← qs; sq_pending q)) = pool_pending p n.
Proof.
  intros HI Hqs.
  assert (forall x y, x ∈ all_pending (tp_inner p) ++ all_queued (tp_inner p) ->
    y ∈ all_pending (tp_inner p) ++ all_queued (tp_inner p) ->
    ot_hash x = ot_hash y -> x = y) as Hu.
  { intros x y. rewrite !elem_of_all_txs by done. intros Hx Hy.
    eapply index_unique; [apply (iw_rel _ HI)|done|done]. }
  split_and!.
  - symmetry. apply min_by_perm; [apply _| |unfold all_pending; by rewrite Hqs].
    intros x y Hx Hy Hc. apply Hu; [set_solver|set_solver|]. by apply evict_cmp_Eq.
  - symmetry. apply min_by_perm; [apply _| |unfold all_queued; by rewrite Hqs].
    intros x y Hx Hy Hc. apply Hu; [set_solver|set_solver|]. by apply evict_cmp_Eq.
  - intros n. unfold pool_pending. f_equal. apply sort_by_perm_eq; [apply _| |].
    + intros x y Hx Hy Hc. rewrite Hqs in Hx, Hy.
      apply Hu; [set_solver|set_solver|]. by apply ot_cmp_Eq.
    + unfold all_pending. by rewrite Hqs.
Qed.
End props.

(** ** Witnesses *)

(** A concrete choice of the third-party functions. *)
#[local] Instance demo_ext : External := {|
  keccak256 := foldl (fun h b => h * 257 + b + 1) 0;
  rlp_encode := fun e => [env_nonce e];
  encode_2718 := fun e => [env_nonce e; effective_gas_price e];
  decode_2718 := fun b => Err "unsupported";
  codec_bytes := fun b => len b :: b;
  recover_address := fun _ => None;
|}.

Definition demo_otx (hash nonce price ts : Z) : OrderedTransaction :=
  mkOT hash 42 nonce price ts
    (Legacy (mkTxLegacy (Some 1) nonce price 21000 None 0 []) (mkSignature 1 1 false)).

Definition demo_pool0 : TransactionPool :=
  set_metrics (pool_new_with_events PoolConfig_default) (mkPoolMetrics 0 0 0 ∅).

Definition demo_adds : list pool_op :=
  [PAdd (demo_otx 10 5 7 100); PAdd (demo_otx 12 7 8 200); PAdd (demo_otx 11 6 9 300)].

Definition demo_pool : TransactionPool := foldl pool_step demo_pool0 demo_adds.

Lemma demo_pool0_inv : pool_inv demo_pool0.
Proof.
  split; [apply empty_wf|split; vm_compute; discriminate|vm_compute; discriminate|].
  vm_compute. done.
Qed.

Lemma demo_adds_ok : Forall pool_op_ok demo_adds.
Proof. repeat constructor; vm_compute; done || discriminate. Qed.

Lemma demo_pool_inv : pool_inv demo_pool.
Proof.
  pose proof demo_pool0_inv as Hp. unfold demo_pool. pose proof demo_adds_ok as Hok.
  revert Hp. generalize demo_pool0. induction Hok as [|o ops Ho _ IH]; intros p Hp; [done|].
  simpl. apply IH. by apply pool_step_inv.
Qed.

Lemma demo_limits : limits_ok (tp_config demo_pool).
Proof. apply demo_pool_inv. Qed.

Lemma pool_reachable_witness :
  pool_len (foldl pool_step demo_pool0 demo_adds) = 3
  /\ pool_pending_count (foldl pool_step demo_pool0 demo_adds) = 3
  /\ inner_wf (tp_inner (foldl pool_step demo_pool0 demo_adds)).
Proof.
  split; [vm_compute; done|]. split; [vm_compute; done|].
  exact (proj1 (pool_reachable demo_pool0 demo_adds eq_refl (pi_limits _ demo_pool0_inv)
    (pi_gauges _ demo_pool0_inv) demo_adds_ok)).
Defined.

(** A full pool: a better transaction of another sender takes the place of the
    cheapest. *)
Definition demo_full : TransactionPool :=
  mkPool (tp_inner demo_pool)
    (mkPoolConfig 3 3 16 131072 0 10 3600 1800) None None.

Definition demo_better : OrderedTransaction :=
  mkOT 30 43 1 8 50
    (Legacy (mkTxLegacy (Some 1) 100 8 21000 None 0 []) (mkSignature 1 1 false)).

Lemma pool_add_outcome_witness :
  (pool_add demo_full demo_better).2 = Ok tt
  /\ pool_get (pool_add demo_full demo_better).1 10 = None
  /\ add_outcome demo_full (pool_add demo_full demo_better).1 demo_better
       (pool_add demo_full demo_better).2.
Proof.
  split; [vm_compute; done|]. split; [vm_compute; done|].
  apply pool_add_outcome; [apply demo_pool_inv|split; vm_compute; discriminate|
    split; vm_compute; done || discriminate].
Defined.

Lemma pool_events_faithful_witness :
  exists evs, tp_events (pool_add demo_pool (demo_otx 20 7 9 400)).1
    = Some (default [] (tp_events demo_pool) ++ evs) /\ length evs = 2%nat.
Proof.
  pose proof (pool_events_faithful demo_pool (demo_otx 20 7 9 400) 10 "removed"
    (default [] (tp_events demo_pool)) (pi_wf _ demo_pool_inv) demo_limits) as [(evs & He & _) _].
  - split; vm_compute; done || discriminate.
  - vm_compute. done.
  - exists [TxEvicted 12 "replaced"; tx_added_event (demo_otx 20 7 9 400)].
    split; [vm_compute; done|done].
Defined.

Lemma mempool_prune_correct_witness :
  confirm_effect (confirmed_by_sender (tp_inner demo_pool) [ordered_tx_id (demo_otx 11 6 9 300)])
    (tp_inner demo_pool)
    (tp_inner (mempool_prune demo_pool [ordered_tx_id (demo_otx 11 6 9 300)]))
  /\ pool_len (mempool_prune demo_pool [ordered_tx_id (demo_otx 11 6 9 300)]) = 1.
Proof.
  split; [|vm_compute; done].
  exact (proj1 (mempool_prune_correct demo_pool [ordered_tx_id (demo_otx 11 6 9 300)]
    (pi_wf _ demo_pool_inv))).
Defined.

Lemma cleanup_correct_witness :
  (cleanup demo_pool 2100).2 = 2 /\ inner_wf (tp_inner (cleanup demo_pool 2050).1).
Proof.
  split; [vm_compute; done|].
  pose proof (cleanup_correct demo_pool 2050 (pi_wf _ demo_pool_inv)) as Hc.
  destruct (cleanup demo_pool 2050) as [p' n]. apply Hc.
Defined.

Lemma pool_order_independent_witness :
  min_by evict_cmp (q ← queues (by_sender (tp_inner demo_pool)); sq_pending q)
  = Some (demo_otx 10 5 7 100).
Proof.
  destruct (pool_order_independent demo_pool (queues (by_sender (tp_inner demo_pool)))) as [-> _];
    [apply demo_pool_inv|done|vm_compute; done].
Defined.
