(* ===== verification/PoolBuild.v ===== *)
(** Block building ([Mempool::build] of crates/node/txpool/src/pool.rs): the
    rounds over the sender states are a greedy merge of one list per sender,
    the pending transactions that are not excluded. *)
From S2P Require Import Prelude TxTypes SenderQueue Pool PoolInv PoolOps PoolProps.

Section build.
Context `{EXT : !External}.

(** ** The reference: a greedy merge *)

(** Takes up to [n] times the best of the heads. *)
Definition heads (R : gmap Address (list OrderedTransaction))
    : list (Address * OrderedTransaction) :=
  omap (fun kv => (fun tx => (kv.1, tx)) <$> head kv.2) (map_to_list R).

Fixpoint greedy (n : nat) (R : gmap Address (list OrderedTransaction))
    : list OrderedTransaction :=
  match n with
  | O => []
  | S n =>
      match min_by (cmp_on snd ot_cmp) (heads R) with
      | None => []
      | Some (s, tx) => tx :: greedy n (alter tail s R)
      end
  end.

(** ** One sender *)

(** The transactions from [index] on have consecutive nonces from
    [expected_nonce]. *)
Definition bs_ok (st : BuildSenderState) : Prop :=
  consecutive (bs_expected_nonce st) (drop (bs_index st) (bs_txs st))
  /\ Forall (fun tx => ot_nonce tx < u64_max) (bs_txs st).

(** What the state can still yield. *)
Definition bs_rest (excluded : gset B256) (st : BuildSenderState) : list OrderedTransaction :=
  filter (fun tx => ordered_tx_id tx ∉ excluded) (drop (bs_index st) (bs_txs st)).

Lemma next_candidate_loop_spec excluded rest index n :
  consecutive n rest -> Forall (fun tx => ot_nonce tx < u64_max) rest ->
  let '(index', n', c) := next_candidate_loop excluded rest index n in
  exists skipped, rest = skipped ++ drop (length skipped) rest
    /\ index' = (index + length skipped)%nat /\ n' = n + len skipped
    /\ Forall (fun tx => ordered_tx_id tx ∈ excluded) skipped
    /\ c = head (drop (length skipped) rest)
    /\ (forall tx, c = Some tx -> ordered_tx_id tx ∉ excluded).
Proof.
  revert index n. induction rest as [|tx rest IH]; intros index n Hc Hm; simpl.
  { exists []. rewrite Nat.add_0_r, len_nil, Z.add_0_r. split_and!; try done. }
  apply consecutive_cons in Hc as [Htx Hc]. apply Forall_cons in Hm as [Hmx Hm].
  rewrite Htx, Z.ltb_irrefl. case_bool_decide as Hex.
  - assert (saturating_add u64_max n 1 = n + 1) as -> by (unfold saturating_add; lia).
    specialize (IH (S index) (n + 1) Hc Hm).
    destruct (next_candidate_loop excluded rest (S index) (n + 1)) as [[index' n'] c].
    destruct IH as (sk & Hr & -> & -> & Hsk & Hhd & Hnx).
    exists (tx :: sk). rewrite len_cons. simpl. split_and!; try done.
    + by rewrite <- Hr.
    + lia.
    + by constructor.
  - exists []. rewrite Nat.add_0_r, len_nil, Z.add_0_r. split_and!; try done.
    simpl. naive_solver.
Qed.

Lemma next_candidate_spec excluded st :
  bs_ok st ->
  let '(st', c) := next_candidate excluded st in
  bs_ok st' /\ bs_rest excluded st' = bs_rest excluded st
  /\ c = head (bs_rest excluded st)
  /\ (is_Some c -> bs_rest excluded (consume st') = tail (bs_rest excluded st)
                   /\ bs_ok (consume st')).
Proof.
  destruct st as [txs index n]. intros [Hc Hm]. unfold next_candidate. simpl in *.
  pose proof (next_candidate_loop_spec excluded (drop index txs) index n Hc) as Hs.
  destruct (next_candidate_loop excluded (drop index txs) index n) as [[index' n'] c].
  destruct Hs as (sk & Hr & -> & -> & Hsk & -> & Hnx); [by apply Forall_drop|].
  rewrite drop_drop in *. unfold bs_ok, bs_rest. simpl.
  set (r := drop (index + length sk) txs) in *. rewrite Hr in Hc |- *.
  apply consecutive_app in Hc as [_ Hc]. rewrite filter_app.
  rewrite (list_filter_none (fun tx => ordered_tx_id tx ∉ excluded) sk); simpl.
  2:{ eapply Forall_impl; [exact Hsk|]. simpl. intros x Hx Hn. done. }
  assert (Forall (fun tx => ot_nonce tx < u64_max) r) as Hmr by (by apply Forall_drop).
  assert (drop (S (index + length sk)) txs = drop 1 r) as ->.
  { unfold r. rewrite drop_drop. f_equal. lia. }
  clearbody r. destruct r as [|tx r]; simpl.
  { split_and!; done. }
  assert (ordered_tx_id tx ∉ excluded) as Htx by (by apply Hnx).
  apply consecutive_cons in Hc as [Hn Hc]. apply Forall_cons in Hmr as [Hmx _].
  rewrite filter_cons, decide_True by done. simpl. rewrite drop_0.
  split_and!; try done.
  - by apply consecutive_cons.
  - intros _. split_and!; try done.
    assert (saturating_add u64_max (n + len sk) 1 = n + len sk + 1) as ->
      by (unfold saturating_add; lia). done.
Qed.

(** ** The rounds *)

Lemma round_candidates_heads excluded sts :
  map_Forall (fun _ st => bs_ok st) sts ->
  round_candidates excluded sts = heads (bs_rest excluded <$> sts).
Proof.
  intros Hok. unfold round_candidates, heads. rewrite map_to_list_fmap.
  assert (Forall (fun kv => bs_ok kv.2) (map_to_list sts)) as Hl
    by (apply map_Forall_to_list in Hok; eapply Forall_impl; [exact Hok|by intros []]).
  induction Hl as [|[s st] l Hst _ IH]; [done|]. simpl in *.
  pose proof (next_candidate_spec excluded st Hst) as Hs.
  destruct (next_candidate excluded st) as [st' c]. destruct Hs as (_ & _ & -> & _). simpl.
  destruct (head (bs_rest excluded st)); simpl; [f_equal|]; exact IH.
Qed.

Lemma elem_of_heads R s tx :
  (s, tx) ∈ heads R <-> exists l, R !! s = Some (tx :: l).
Proof.
  unfold heads. rewrite list_elem_of_omap. split.
  - intros ([s' l] & Hin%elem_of_map_to_list & Heq). simpl in Heq.
    destruct l as [|y l]; simpl in Heq; [done|]. injection Heq as -> ->. eauto.
  - intros [l Hl]. exists (s, tx :: l). by rewrite elem_of_map_to_list.
Qed.

(** The rounds of the code are those of the greedy merge. *)
Lemma build_loop_greedy excluded n : forall sts,
  map_Forall (fun _ st => bs_ok st) sts ->
  build_loop n excluded sts = greedy n (bs_rest excluded <$> sts).
Proof.
  induction n as [|n IH]; intros sts Hok; simpl; [done|].
  unfold build_round. rewrite round_candidates_heads by done.
  destruct (min_by _ (heads _)) as [[s tx]|] eqn:Em; [|done]. f_equal.
  pose proof (min_by_elem _ _ _ Em) as [l Hl]%elem_of_heads.
  rewrite lookup_fmap in Hl. apply fmap_Some in Hl as (st & Hst & Hrest).
  pose proof (next_candidate_spec excluded st (Hok s st Hst)) as Hsp.
  destruct (next_candidate excluded st) as [st' c] eqn:En.
  destruct Hsp as (_ & _ & -> & Hcons). rewrite <- Hrest in Hcons. simpl in Hcons.
  destruct (Hcons ltac:(eauto)) as [Hct Hco].
  rewrite IH.
  - f_equal. apply map_eq. intros s'. rewrite lookup_fmap.
    destruct (decide (s = s')) as [<-|Hne].
    + rewrite !lookup_alter_eq, !lookup_fmap, Hst. simpl. rewrite En. simpl. f_equal.
      by rewrite Hct, <- Hrest.
    + rewrite !lookup_alter_ne, !lookup_fmap by done.
      destruct (sts !! s') as [st2|] eqn:E2; simpl; [|done]. f_equal.
      pose proof (next_candidate_spec excluded st2 (Hok s' st2 E2)) as H2.
      rewrite (surjective_pairing (next_candidate excluded st2)) in H2. apply H2.
  - intros s' st2. destruct (decide (s = s')) as [<-|Hne].
    + rewrite lookup_alter_eq, lookup_fmap, Hst. simpl. rewrite En. by intros [= <-].
    + rewrite lookup_alter_ne, lookup_fmap by done.
      destruct (sts !! s') as [st3|] eqn:E3; simpl; [|done]. intros [= <-].
      pose proof (next_candidate_spec excluded st3 (Hok s' st3 E3)) as H3.
      rewrite (surjective_pairing (next_candidate excluded st3)) in H3. apply H3.
Qed.

(** ** The greedy merge *)

Definition keyed (R : gmap Address (list OrderedTransaction)) : Prop :=
  map_Forall (fun s l => Forall (fun tx => ot_sender tx = s) l) R.

(** The transactions of a sender, in order. *)
Definition of_sender (s : Address) (l : list OrderedTransaction) : list OrderedTransaction :=
  filter (fun tx => ot_sender tx = s) l.

Lemma keyed_tail R (s : Address) : keyed R -> keyed (alter tail s R).
Proof.
  intros HR s' l. destruct (decide (s = s')) as [<-|Hne].
  - rewrite lookup_alter_eq. intros (l' & Hl' & ->)%fmap_Some.
    specialize (HR s l' Hl'). destruct l'; [done|]. by apply Forall_cons in HR as [_ ?].
  - rewrite lookup_alter_ne by done. apply HR.
Qed.

(** A step of the merge: the head of one of the lists is the least head. *)
Lemma greedy_step n R :
  keyed R ->
  (greedy (S n) R = [] /\ forall s, default [] (R !! s) = [])
  \/ exists s tx l, R !! s = Some (tx :: l) /\ ot_sender tx = s
       /\ greedy (S n) R = tx :: greedy n (alter tail s R)
       /\ forall s' y l', R !! s' = Some (y :: l') -> cmp_le ot_cmp tx y.
Proof.
  intros HR. simpl. destruct (min_by _ (heads R)) as [[s tx]|] eqn:Em.
  - right. pose proof (min_by_elem _ _ _ Em) as [l Hl]%elem_of_heads.
    exists s, tx, l. split_and!; [done| |done|].
    + specialize (HR s _ Hl). by apply Forall_cons in HR as [? _].
    + intros s' y l' Hy. apply (min_by_le _ _ _ (s', y) Em). apply elem_of_heads. eauto.
  - left. split; [done|]. intros s. apply min_by_None in Em.
    destruct (R !! s) as [[|y l]|] eqn:E; [done| |done].
    assert ((s, y) ∈ heads R) as Hin by (apply elem_of_heads; eauto).
    rewrite Em in Hin. by apply elem_of_nil in Hin.
Qed.

Lemma of_sender_cons s tx l :
  of_sender s (tx :: l) = if decide (ot_sender tx = s) then tx :: of_sender s l else of_sender s l.
Proof. unfold of_sender. by rewrite filter_cons. Qed.

Lemma default_alter_tail (R : gmap Address (list OrderedTransaction)) s s' tx l :
  R !! s = Some (tx :: l) ->
  default [] (R !! s') =
    if decide (s = s') then tx :: default [] (alter tail s R !! s')
    else default [] (alter tail s R !! s').
Proof.
  intros Hs. destruct (decide (s = s')) as [<-|Hne].
  - by rewrite lookup_alter_eq, Hs.
  - by rewrite lookup_alter_ne.
Qed.

Lemma greedy_prefix n : forall R s,
  keyed R -> of_sender s (greedy n R) `prefix_of` default [] (R !! s)
  /\ ((length (greedy n R) < n)%nat -> of_sender s (greedy n R) = default [] (R !! s)).
Proof.
  induction n as [|n IH]; intros R s HR; [split; [apply prefix_nil|simpl; lia]|].
  destruct (greedy_step n R HR) as [[-> Hnil]|(s0 & tx & l & Hs0 & Htx & -> & _)].
  { rewrite Hnil. done. }
  destruct (IH (alter tail s0 R) s (keyed_tail R s0 HR)) as [Hp Hc].
  rewrite of_sender_cons, (default_alter_tail R s0 s tx l Hs0), Htx.
  destruct (decide (s0 = s)); (split; [by try apply prefix_cons|]); simpl; intros Hlt;
    rewrite Hc by lia; done.
Qed.

Lemma greedy_length n : forall R, (length (greedy n R) <= n)%nat.
Proof.
  induction n as [|n IH]; intros R; simpl; [lia|].
  destruct (min_by _ _) as [[s tx]|]; simpl; [|lia]. specialize (IH (alter tail s R)). lia.
Qed.

Lemma NoDup_of_sender L : (forall s, NoDup (of_sender s L)) -> NoDup L.
Proof.
  induction L as [|x L IH]; intros H; [constructor|]. constructor.
  - intros Hin. specialize (H (ot_sender x)). rewrite of_sender_cons, decide_True in H by done.
    apply NoDup_cons in H as [Hni _]. apply Hni. unfold of_sender.
    by apply list_elem_of_filter.
  - apply IH. intros s. specialize (H s). rewrite of_sender_cons in H.
    destruct (decide _); [by apply NoDup_cons in H as [_ ?]|done].
Qed.

(** ** The states of [build] *)

Definition candidates (excluded : gset B256) (q : SenderQueue) : list OrderedTransaction :=
  filter (fun tx => ordered_tx_id tx ∉ excluded) (sq_pending q).

Lemma build_states_ok I : inner_wf I -> map_Forall (fun _ st => bs_ok st) (build_states I).
Proof.
  intros HI s st. unfold build_states. rewrite lookup_fmap.
  intros (q & [Hq _]%map_lookup_filter_Some & ->)%fmap_Some.
  destruct (pr_queues _ _ (iw_rel _ HI) s q Hq) as [[Hw _] _]. split; simpl.
  - rewrite drop_0. exact (wf_pending _ Hw).
  - pose proof (wf_nonce _ Hw) as Hm. by apply Forall_app in Hm as [? _].
Qed.

Lemma build_states_rest I excluded s :
  default [] ((bs_rest excluded <$> build_states I) !! s)
  = default [] (candidates excluded <$> by_sender I !! s).
Proof.
  unfold build_states, candidates. rewrite !lookup_fmap, map_lookup_filter.
  destruct (by_sender I !! s) as [q|]; simpl; [|done].
  case_guard as Hg; simpl; [done|].
  simpl in Hg. by rewrite Hg.
Qed.

Lemma build_states_keyed I excluded :
  inner_wf I -> keyed (bs_rest excluded <$> build_states I).
Proof.
  intros HI s l. rewrite lookup_fmap. intros (st & Hst & ->)%fmap_Some.
  unfold build_states in Hst. rewrite lookup_fmap in Hst.
  apply fmap_Some in Hst as (q & [Hq _]%map_lookup_filter_Some & ->).
  unfold bs_rest. simpl. rewrite drop_0. apply Forall_filter_sub, Forall_forall.
  intros x Hx. eapply in_queues_key; [apply (iw_rel _ HI)|exact Hq|].
  unfold sq_all. set_solver.
Qed.

(** The transactions [build] takes, before they are encoded. *)
Definition build_txs (p : TransactionPool) (max_txs : usize) (excluded : gset B256)
    : list OrderedTransaction :=
  build_loop (Z.to_nat max_txs) excluded (build_states (tp_inner p)).

Lemma build_txs_greedy p max_txs excluded :
  inner_wf (tp_inner p) ->
  build_txs p max_txs excluded
  = greedy (Z.to_nat max_txs) (bs_rest excluded <$> build_states (tp_inner p)).
Proof. intros HI. apply build_loop_greedy. by apply build_states_ok. Qed.

(** The picks of a sender are a prefix of its candidates. *)
Lemma build_txs_prefix p max_txs excluded s :
  inner_wf (tp_inner p) ->
  let cands := default [] (candidates excluded <$> by_sender (tp_inner p) !! s) in
  of_sender s (build_txs p max_txs excluded) `prefix_of` cands
  /\ (len (build_txs p max_txs excluded) < max_txs ->
      of_sender s (build_txs p max_txs excluded) = cands).
Proof.
  intros HI. cbv zeta. rewrite build_txs_greedy by done.
  rewrite <- build_states_rest.
  destruct (greedy_prefix (Z.to_nat max_txs)
    (bs_rest excluded <$> build_states (tp_inner p)) s) as [Hp Hc];
    [by apply build_states_keyed|].
  split; [done|]. unfold len. intros Hlt. apply Hc. lia.
Qed.

Lemma candidates_NoDup p excluded s :
  inner_wf (tp_inner p) ->
  NoDup (default [] (candidates excluded <$> by_sender (tp_inner p) !! s)).
Proof.
  intros HI. destruct (by_sender (tp_inner p) !! s) as [q|] eqn:Es; simpl; [|constructor].
  destruct (pr_queues _ _ (iw_rel _ HI) s q Es) as [Hw _].
  apply NoDup_filter. pose proof (sq_prewf_NoDup q (wf_pre _ Hw)) as Hnd%NoDup_fmap_1.
  unfold sq_all in Hnd. by apply NoDup_app in Hnd as (? & _).
Qed.

Lemma elem_of_candidates p excluded s x :
  inner_wf (tp_inner p) ->
  x ∈ default [] (candidates excluded <$> by_sender (tp_inner p) !! s) <->
  ot_sender x = s /\ x ∈ all_pending (tp_inner p) /\ ordered_tx_id x ∉ excluded.
Proof.
  intros HI. rewrite elem_of_all_pending. pose proof (pr_queues _ _ (iw_rel _ HI)) as Hq. split.
  - destruct (by_sender (tp_inner p) !! s) as [q|] eqn:Es; simpl; [|by intros ?%elem_of_nil].
    unfold candidates. intros [Hn Hx]%list_elem_of_filter. split_and!; [|eauto|done].
    eapply in_queues_key; [exact Hq|exact Es|]. unfold sq_all. set_solver.
  - intros (Hs & (s' & q & Es & Hx) & Hn).
    assert (s' = s) as ->.
    { rewrite <- Hs. symmetry. eapply in_queues_key; [exact Hq|exact Es|].
      unfold sq_all. set_solver. }
    rewrite Es. simpl. unfold candidates. by apply list_elem_of_filter.
Qed.

(** ** Properties *)

(** [build] selects a valid batch.  It returns at most [max_txs]
    transactions, none twice, each pending and not excluded; those of a
    sender are an initial segment, in nonce order, of the sender's pending
    transactions that are not excluded; and when fewer than [max_txs] are
    returned nothing executable was left out. *)
Lemma build_valid p max_txs excluded :
  inner_wf (tp_inner p) -> 0 <= max_txs ->
  let L := build_txs p max_txs excluded in
  mempool_build p max_txs excluded = ordered_to_tx <$> L
  /\ len L <= max_txs /\ NoDup L
  /\ (forall s, of_sender s L `prefix_of`
        default [] (candidates excluded <$> by_sender (tp_inner p) !! s))
  /\ (forall x, x ∈ L -> x ∈ all_pending (tp_inner p) /\ ordered_tx_id x ∉ excluded)
  /\ (len L < max_txs ->
      L ≡ₚ filter (fun tx => ordered_tx_id tx ∉ excluded) (all_pending (tp_inner p))).
Proof.
  intros HI Hmax L.
  assert (forall s, of_sender s L `prefix_of`
    default [] (candidates excluded <$> by_sender (tp_inner p) !! s)) as Hpre
    by (intros s; by apply build_txs_prefix).
  assert (NoDup L) as Hnd.
  { apply NoDup_of_sender. intros s. destruct (Hpre s) as [k Hk].
    pose proof (candidates_NoDup p excluded s HI) as Hc. rewrite Hk in Hc.
    by apply NoDup_app in Hc as (? & _). }
  assert (forall x, x ∈ L <-> x ∈ of_sender (ot_sender x) L) as Hof
    by (intros x; unfold of_sender; rewrite list_elem_of_filter; naive_solver).
  split_and!; [done| |done|done| |].
  - unfold L. rewrite build_txs_greedy by done. unfold len.
    pose proof (greedy_length (Z.to_nat max_txs)
      (bs_rest excluded <$> build_states (tp_inner p))). lia.
  - intros x Hx%Hof. destruct (Hpre (ot_sender x)) as [k Hk].
    apply (elem_of_candidates p excluded (ot_sender x) x HI). rewrite Hk. set_solver.
  - intros Hlt. apply NoDup_Permutation; [done| |].
    + apply NoDup_filter. pose proof (all_txs_NoDup _ HI) as Ha.
      by apply NoDup_app in Ha as (? & _).
    + intros x. rewrite Hof.
      destruct (build_txs_prefix p max_txs excluded (ot_sender x) HI) as [_ Hc].
      fold L in Hc. rewrite (Hc Hlt), elem_of_candidates, list_elem_of_filter by done. naive_solver.
Qed.

(** ** The specification of [build]

    The order of the pool written out: the higher price first, among equal
    prices the older, then the smaller hash. *)
Definition preferred (x y : OrderedTransaction) : Prop :=
  ot_price y < ot_price x
  \/ ot_price x = ot_price y
     /\ (ot_timestamp x < ot_timestamp y
         \/ ot_timestamp x = ot_timestamp y /\ ot_hash x <= ot_hash y).

(** A greedy selection of at most [n] transactions from one list per sender:
    while there is room and a list is left, the head that no other head is
    preferred to. *)
Inductive selection
    : nat -> (Address -> list OrderedTransaction) -> list OrderedTransaction -> Prop :=
| sel_limit R : selection 0 R []
| sel_exhausted n R : (forall s, R s = []) -> selection n R []
| sel_take n R R' s x rest L :
    R s = x :: rest -> (forall s' y rest', R s' = y :: rest' -> preferred x y) ->
    R' s = rest -> (forall s', s' <> s -> R' s' = R s') ->
    selection n R' L -> selection (S n) R (x :: L).

Lemma ot_cmp_preferred x y : cmp_le ot_cmp x y -> preferred x y.
Proof.
  unfold cmp_le, ot_cmp, then_with, preferred.
  destruct (Z.compare_spec (ot_price y) (ot_price x)); [|lia|done].
  destruct (Z.compare_spec (ot_timestamp x) (ot_timestamp y)); [|lia|done].
  destruct (Z.compare_spec (ot_hash x) (ot_hash y)); (lia || done).
Qed.

Lemma greedy_selection n : forall R f,
  keyed R -> (forall s, f s = default [] (R !! s)) -> selection n f (greedy n R).
Proof.
  induction n as [|n IH]; intros R f HR Hf; [apply sel_limit|].
  destruct (greedy_step n R HR) as [[-> Hnil]|(s & tx & l & Hs & _ & -> & Hbest)].
  { apply sel_exhausted. intros s. by rewrite Hf. }
  apply (sel_take n f (fun s' => default [] (alter tail s R !! s')) s tx l).
  - by rewrite Hf, Hs.
  - intros s' y rest Hy. rewrite Hf in Hy. apply ot_cmp_preferred. apply (Hbest s' y rest).
    by destruct (R !! s'); simpl in Hy; simplify_eq.
  - by rewrite lookup_alter_eq, Hs.
  - intros s' Hne. by rewrite Hf, lookup_alter_ne.
  - apply IH; [by apply keyed_tail|done].
Qed.

(** The pending transactions of a sender that are not excluded, by nonce. *)
Definition executable (p : TransactionPool) (excluded : gset B256) (s : Address)
    : list OrderedTransaction :=
  filter (fun tx => ordered_tx_id tx ∉ excluded) (pending_for_sender p s).

(** C7: [build] returns a greedy selection, up to the limit, from the
    executable transactions of the senders: those that are pending and not
    excluded, in the order of their nonces.  Each transaction it takes is the
    next one of its sender, and no sender's next one has a higher price, is
    older at the same price, or has a smaller hash at the same price and age;
    it stops only at the limit or when nothing executable is left, so that it
    takes as many as there are, or the limit. *)
Theorem mempool_build_greedy p max_txs excluded :
  inner_wf (tp_inner p) -> 0 <= max_txs ->
  exists L, mempool_build p max_txs excluded = ordered_to_tx <$> L
    /\ selection (Z.to_nat max_txs) (executable p excluded) L
    /\ NoDup L
    /\ len L = Z.min max_txs
         (len (filter (fun tx => ordered_tx_id tx ∉ excluded) (all_pending (tp_inner p)))).
Proof.
  intros HI Hm. destruct (build_valid p max_txs excluded HI Hm) as (Hb & Hle & Hnd & _ & Hin & Hall).
  exists (build_txs p max_txs excluded). split_and!; [done| |done|].
  - rewrite build_txs_greedy by done. apply greedy_selection; [by apply build_states_keyed|].
    intros s. rewrite build_states_rest. unfold executable, pending_for_sender, candidates.
    by destruct (by_sender (tp_inner p) !! s).
  - set (L := build_txs p max_txs excluded) in *.
    set (A := filter _ (all_pending (tp_inner p))) in *.
    assert (len L <= len A) as HLA.
    { unfold len. apply Nat2Z.inj_le. apply submseteq_length, NoDup_submseteq; [done|].
      intros x Hx. unfold A. rewrite list_elem_of_filter. by apply and_comm, Hin. }
    destruct (decide (len L < max_txs)) as [Hlt|]; [|lia].
    specialize (Hall Hlt). unfold len in *. rewrite (Permutation_length Hall) in *. lia.
Qed.
End build.

(** ** Witnesses *)

#[local] Existing Instance demo_ext.

Definition demo_pool2 : TransactionPool := (pool_add demo_pool demo_better).1.

Lemma demo_pool2_wf : inner_wf (tp_inner demo_pool2).
Proof.
  apply (pool_add_inv demo_pool); [apply demo_pool_inv|].
  split; vm_compute; done || discriminate.
Qed.

Lemma mempool_build_greedy_witness :
  ot_hash <$> build_txs demo_pool2 3 ∅ = [30; 10; 11]
  /\ exists L, mempool_build demo_pool2 3 ∅ = ordered_to_tx <$> L /\ len L = 3.
Proof.
  split; [vm_compute; done|].
  destruct (mempool_build_greedy demo_pool2 3 ∅ demo_pool2_wf ltac:(lia)) as (L & HL & _ & _ & Hlen).
  exists L. split; [done|]. rewrite Hlen. vm_compute. done.
Defined.
