(* ===== verification/StateDb.v ===== *)
(** The interface of a state database (crates/storage/traits/src/state.rs and
    error.rs): what the validator, the overlay and the executor ask of it. *)
From S2P Require Import Prelude.

Inductive StateDbError : Type :=
| AccountNotFound (address : Address)
| CodeNotFound (hash : B256)
| Storage (msg : string)
| LockPoisoned
| RootComputation (msg : string).

(** The trait [StateDbRead]; an asynchronous read is its result. *)
Class StateDbRead (St : Type) := {
  st_nonce : St -> Address -> result u64 StateDbError;
  st_balance : St -> Address -> result U256 StateDbError;
  st_code_hash : St -> Address -> result B256 StateDbError;
  st_code : St -> B256 -> result bytes StateDbError;
  st_storage : St -> Address -> U256 -> result U256 StateDbError;
}.

(** [StateDbRead::exists], the provided method. *)
Definition st_exists {St} `{!StateDbRead St} (s : St) (address : Address) : result bool StateDbError :=
  match st_nonce s address with
  | Ok nonce =>
      if 0 <? nonce then Ok true
      else
        let? balance := st_balance s address in
        Ok (negb (balance =? 0))
  | Err (AccountNotFound _) => Ok false
  | Err e => Err e
  end.

(** Two databases that answer every read alike. *)
Definition same_reads {St Tt} `{!StateDbRead St} `{!StateDbRead Tt} (s : St) (t : Tt) : Prop :=
  (forall a, st_nonce s a = st_nonce t a) /\ (forall a, st_balance s a = st_balance t a)
  /\ (forall a, st_code_hash s a = st_code_hash t a) /\ (forall h, st_code s h = st_code t h)
  /\ (forall a k, st_storage s a k = st_storage t a k).

Lemma same_reads_exists {St Tt} `{!StateDbRead St} `{!StateDbRead Tt} (s : St) (t : Tt) a :
  same_reads s t -> st_exists s a = st_exists t a.
Proof. intros (Hn & Hb & _). unfold st_exists. by rewrite Hn, Hb. Qed.
