(* ===== verification/Validator.v ===== *)
(** Transaction validation (crates/node/txpool/src/validator.rs): the checks a
    raw transaction passes before it enters the pool, and how they compose
    with [TransactionPool::add]. *)
From S2P Require Import Prelude TxTypes SenderQueue Pool PoolInv PoolOps PoolProps StateDb.

Definition TX_BASE_GAS : u64 := 21000.
Definition TX_DATA_ZERO_GAS : u64 := 4.
Definition TX_DATA_NON_ZERO_GAS : u64 := 16.
Definition TX_CREATE_GAS : u64 := 32000.
Definition TX_ACCESS_LIST_ADDRESS_GAS : u64 := 2400.
Definition TX_ACCESS_LIST_STORAGE_KEY_GAS : u64 := 1900.

Record ValidatedTransaction := mkValidated {
  vt_hash : B256;
  vt_sender : Address;
  vt_nonce : u64;
  vt_gas_limit : u64;
  vt_effective_gas_price : u128;
  vt_max_cost : U256;
  vt_envelope : TxEnvelope;
  vt_raw : Tx;
}.

Record TransactionValidator (S : Type) := mkValidator {
  tv_chain_id : u64;
  tv_state : S;
  tv_config : PoolConfig;
  tv_pool : option TransactionPool;
}.
Arguments mkValidator {S}.
Arguments tv_chain_id {S}.
Arguments tv_state {S}.
Arguments tv_config {S}.
Arguments tv_pool {S}.

Definition validator_new {S} (chain_id : u64) (state : S) (config : PoolConfig)
    : TransactionValidator S := mkValidator chain_id state config None.

Definition with_pool {S} (v : TransactionValidator S) (pool : TransactionPool)
    : TransactionValidator S :=
  mkValidator (tv_chain_id v) (tv_state v) (tv_config v) (Some pool).

Definition u64_add := wrapping_add u64_max.

Definition access_list_gas_cost (access_list : list AccessListItem) : u64 :=
  foldl (fun gas item =>
           u64_add (u64_add gas TX_ACCESS_LIST_ADDRESS_GAS)
             (wrap u64_max (len (al_storage_keys item) * TX_ACCESS_LIST_STORAGE_KEY_GAS)))
    0 access_list.

Definition intrinsic_gas (envelope : TxEnvelope) : u64 :=
  let gas := foldl (fun gas byte =>
                      if byte =? 0 then u64_add gas TX_DATA_ZERO_GAS
                      else u64_add gas TX_DATA_NON_ZERO_GAS)
               TX_BASE_GAS (env_input envelope) in
  let gas := match env_to envelope with
             | None => u64_add gas TX_CREATE_GAS
             | Some _ => gas
             end in
  let access_list_gas :=
    match envelope with
    | Legacy _ _ => 0
    | Eip2930 tx _ => access_list_gas_cost (e2930_access_list tx)
    | Eip1559 tx _ => access_list_gas_cost (e1559_access_list tx)
    | Eip4844 tx _ => access_list_gas_cost (e4844_access_list tx)
    | Eip7702 tx _ => access_list_gas_cost (e7702_access_list tx)
    end in
  u64_add gas access_list_gas.

(** [U256] arithmetic wraps around. *)
Definition max_tx_cost (envelope : TxEnvelope) : U256 :=
  wrapping_add u256_max
    (wrap u256_max (env_gas_limit envelope * effective_gas_price envelope))
    (env_value envelope).

Section validator.
Context `{EXT : !External} {St : Type} `{SDB : !StateDbRead St}.
(** [Display] of a state error. *)
Variable state_error_string : StateDbError -> string.

Definition recover_sender_and_hash (envelope : TxEnvelope)
    : result (Address * B256) TxPoolError :=
  match recover_address envelope with
  | Some sender => Ok (sender, keccak256 (rlp_encode envelope))
  | None => Err InvalidSignature
  end.

Definition recover_sender_from_envelope (envelope : TxEnvelope) : result Address TxPoolError :=
  let? (addr, _) := recover_sender_and_hash envelope in Ok addr.

(** [TransactionValidator::validate]. *)
Definition validate (v : TransactionValidator St) (tx : Tx)
    : result ValidatedTransaction TxPoolError :=
  let config := tv_config v in
  if max_tx_size config <? len (tx_bytes tx)
  then Err (TxTooLarge (len (tx_bytes tx)) (max_tx_size config)) else
  let? envelope := map_err DecodeError (decode_2718 (tx_bytes tx)) in
  let tx_chain_id := default (tv_chain_id v) (env_chain_id envelope) in
  if negb (tx_chain_id =? tv_chain_id v)
  then Err (InvalidChainId tx_chain_id (tv_chain_id v)) else
  let? (sender, hash) := recover_sender_and_hash envelope in
  let price := effective_gas_price envelope in
  if price <? min_gas_price config
  then Err (GasPriceTooLow price (min_gas_price config)) else
  let intrinsic := intrinsic_gas envelope in
  let gas_limit := env_gas_limit envelope in
  if gas_limit <? intrinsic
  then Err (IntrinsicGasTooLow gas_limit intrinsic) else
  let nonce := env_nonce envelope in
  let? state_nonce :=
    map_err (fun e => StateError (state_error_string e)) (st_nonce (tv_state v) sender) in
  if nonce <? state_nonce
  then Err (NonceTooLow nonce state_nonce) else
  let max_accepted_nonce := saturating_add u64_max state_nonce (max_txs_per_sender config) in
  if max_accepted_nonce <? nonce
  then Err (NonceGap nonce state_nonce) else
  if match tv_pool v with Some pool => has_nonce pool sender nonce | None => false end
  then Err (NonceAlreadyInPool sender nonce) else
  let max_cost := max_tx_cost envelope in
  let? balance :=
    map_err (fun e => StateError (state_error_string e)) (st_balance (tv_state v) sender) in
  if balance <? max_cost
  then Err (InsufficientBalance max_cost balance) else
  Ok (mkValidated hash sender nonce gas_limit price max_cost envelope tx).

Definition into_ordered (vt : ValidatedTransaction) (timestamp : u64) : OrderedTransaction :=
  mkOT (vt_hash vt) (vt_sender vt) (vt_nonce vt) (vt_effective_gas_price vt) timestamp
    (vt_envelope vt).

(** ** Costs *)

(** The intrinsic gas of the protocol rules, as a sum of unbounded integers. *)
Definition access_list (envelope : TxEnvelope) : list AccessListItem :=
  match envelope with
  | Legacy _ _ => []
  | Eip2930 tx _ => e2930_access_list tx
  | Eip1559 tx _ => e1559_access_list tx
  | Eip4844 tx _ => e4844_access_list tx
  | Eip7702 tx _ => e7702_access_list tx
  end.

Definition intrinsic_gas_sum (envelope : TxEnvelope) : Z :=
  21000 + sum_Z ((fun b => if b =? 0 then 4 else 16) <$> env_input envelope)
  + match env_to envelope with Some _ => 0 | None => 32000 end
  + sum_Z ((fun item => 2400 + 1900 * len (al_storage_keys item)) <$> access_list envelope).

Lemma u64_add_exact a b : 0 <= a + b <= u64_max -> u64_add a b = a + b.
Proof. intros H. unfold u64_add, wrapping_add, wrap. apply Z.mod_small. lia. Qed.

(** A loop of wrapping additions is the sum when the sum fits. *)
Lemma fold_add_exact {A} (step : Z -> A -> Z) (cost : A -> Z) (l : list A) :
  (forall x, 0 <= cost x) ->
  (forall g x, 0 <= g -> g + cost x <= u64_max -> step g x = g + cost x) ->
  forall g, 0 <= g -> g + sum_Z (cost <$> l) <= u64_max ->
  foldl step g l = g + sum_Z (cost <$> l).
Proof.
  intros Hc Hs. induction l as [|x l IH]; intros g Hg Hle.
  { simpl. unfold sum_Z. simpl. lia. }
  assert (0 <= sum_Z (cost <$> l)) as Hn.
  { apply sum_Z_nonneg, Forall_fmap, Forall_forall. intros y _. apply Hc. }
  rewrite fmap_cons, sum_Z_cons in Hle |- *. cbn [foldl]. specialize (Hc x).
  rewrite Hs by lia. rewrite IH by lia. lia.
Qed.

Lemma access_list_gas_exact l :
  sum_Z ((fun item => 2400 + 1900 * len (al_storage_keys item)) <$> l) <= u64_max ->
  access_list_gas_cost l
  = sum_Z ((fun item => 2400 + 1900 * len (al_storage_keys item)) <$> l).
Proof.
  intros Hle. unfold access_list_gas_cost.
  rewrite (fold_add_exact _ (fun item => 2400 + 1900 * len (al_storage_keys item))); try lia.
  - intros x. pose proof (len_nonneg (al_storage_keys x)). lia.
  - intros g x Hg Hle'. pose proof (len_nonneg (al_storage_keys x)). cbv beta in *.
    unfold TX_ACCESS_LIST_ADDRESS_GAS, TX_ACCESS_LIST_STORAGE_KEY_GAS.
    unfold wrap. rewrite Z.mod_small by (unfold u64_max in *; lia).
    rewrite (u64_add_exact g) by lia. rewrite u64_add_exact; lia.
Qed.

Lemma intrinsic_gas_sum_exact envelope :
  intrinsic_gas_sum envelope <= u64_max -> intrinsic_gas envelope = intrinsic_gas_sum envelope.
Proof.
  unfold intrinsic_gas_sum, intrinsic_gas. intros Hle.
  set (d := sum_Z ((fun b => if b =? 0 then 4 else 16) <$> env_input envelope)) in *.
  set (a := sum_Z ((fun item => 2400 + 1900 * len (al_storage_keys item))
    <$> access_list envelope)) in *.
  assert (0 <= d) as Hd.
  { apply sum_Z_nonneg, Forall_fmap, Forall_forall. intros b _. simpl. by destruct (b =? 0). }
  assert (0 <= a) as Ha.
  { apply sum_Z_nonneg, Forall_fmap, Forall_forall. intros item _. simpl.
    pose proof (len_nonneg (al_storage_keys item)). lia. }
  assert (access_list_gas_cost (access_list envelope) = a) as Hal.
  { apply access_list_gas_exact. fold a. destruct (env_to envelope); lia. }
  rewrite (fold_add_exact _ (fun b => if b =? 0 then 4 else 16)); fold d.
  2:{ intros b. by destruct (b =? 0). }
  2:{ intros g b Hg Hgb. destruct (b =? 0); apply u64_add_exact; unfold TX_DATA_ZERO_GAS, TX_DATA_NON_ZERO_GAS; lia. }
  2:{ unfold TX_BASE_GAS. lia. }
  2:{ unfold TX_BASE_GAS. destruct (env_to envelope); lia. }
  assert (match envelope with
    | Legacy _ _ => 0
    | Eip2930 tx _ => access_list_gas_cost (e2930_access_list tx)
    | Eip1559 tx _ => access_list_gas_cost (e1559_access_list tx)
    | Eip4844 tx _ => access_list_gas_cost (e4844_access_list tx)
    | Eip7702 tx _ => access_list_gas_cost (e7702_access_list tx)
    end = a) as ->.
  { rewrite <- Hal. by destruct envelope. }
  unfold TX_BASE_GAS, TX_CREATE_GAS.
  destruct (env_to envelope); [|rewrite (u64_add_exact _ 32000) by lia];
    rewrite u64_add_exact; lia.
Qed.

(** The cost a sender must be able to pay. *)
Definition true_cost (envelope : TxEnvelope) : Z :=
  env_gas_limit envelope * effective_gas_price envelope + env_value envelope.

Lemma max_tx_cost_mod envelope :
  max_tx_cost envelope = true_cost envelope `mod` 2 ^ 256.
Proof.
  unfold max_tx_cost, true_cost, wrapping_add, wrap, u256_max.
  replace (2 ^ 256 - 1 + 1) with (2 ^ 256) by lia. by rewrite Zplus_mod_idemp_l.
Qed.

(** ** Acceptance *)

(** Everything that must hold of an accepted transaction. *)
Record accepted (v : TransactionValidator St) (tx : Tx) (envelope : TxEnvelope)
    (sender : Address) (state_nonce : u64) (balance : U256) : Prop := {
  acc_size : len (tx_bytes tx) <= max_tx_size (tv_config v);
  acc_decode : decode_2718 (tx_bytes tx) = Ok envelope;
  acc_chain : forall c, env_chain_id envelope = Some c -> c = tv_chain_id v;
  acc_sender : recover_address envelope = Some sender;
  acc_price : min_gas_price (tv_config v) <= effective_gas_price envelope;
  acc_gas : intrinsic_gas envelope <= env_gas_limit envelope;
  acc_state_nonce : st_nonce (tv_state v) sender = Ok state_nonce;
  acc_nonce : state_nonce <= env_nonce envelope
    <= saturating_add u64_max state_nonce (max_txs_per_sender (tv_config v));
  acc_free : forall pool, tv_pool v = Some pool ->
    has_nonce pool sender (env_nonce envelope) = false;
  acc_balance : st_balance (tv_state v) sender = Ok balance;
  acc_funds : max_tx_cost envelope <= balance;
}.

Definition accepted_tx (tx : Tx) (envelope : TxEnvelope) (sender : Address)
    : ValidatedTransaction :=
  mkValidated (keccak256 (rlp_encode envelope)) sender (env_nonce envelope)
    (env_gas_limit envelope) (effective_gas_price envelope) (max_tx_cost envelope) envelope tx.

Lemma validate_ok v tx vt :
  validate v tx = Ok vt ->
  exists envelope sender n b, accepted v tx envelope sender n b
    /\ vt = accepted_tx tx envelope sender.
Proof.
  unfold validate, map_err, recover_sender_and_hash.
  destruct (Z.ltb_spec (max_tx_size (tv_config v)) (len (tx_bytes tx))); [done|].
  destruct (decode_2718 (tx_bytes tx)) as [env|] eqn:Ed; [|done].
  destruct (negb _) eqn:Ec; [done|]. apply negb_false_iff, Z.eqb_eq in Ec.
  destruct (recover_address env) as [sender|] eqn:Er; [|done].
  destruct (Z.ltb_spec (effective_gas_price env) (min_gas_price (tv_config v))); [done|].
  destruct (Z.ltb_spec (env_gas_limit env) (intrinsic_gas env)); [done|].
  destruct (st_nonce (tv_state v) sender) as [n|] eqn:En; [|done].
  destruct (Z.ltb_spec (env_nonce env) n); [done|].
  destruct (Z.ltb_spec (saturating_add u64_max n (max_txs_per_sender (tv_config v)))
    (env_nonce env)); [done|].
  destruct (match tv_pool v with Some pool => _ | None => _ end) eqn:Ep; [done|].
  destruct (st_balance (tv_state v) sender) as [b|] eqn:Eb; [|done].
  destruct (Z.ltb_spec b (max_tx_cost env)); [done|].
  intros [= <-]. exists env, sender, n, b. split; [|done].
  split; try done; try lia.
  - intros c Hc. rewrite Hc in Ec. done.
  - intros pool Hp. by rewrite Hp in Ep.
Qed.

Lemma accepted_validate v tx envelope sender n b :
  accepted v tx envelope sender n b -> validate v tx = Ok (accepted_tx tx envelope sender).
Proof.
  intros [H1 H2 H3 H4 H5 H6 H7 [H8 H8'] H9 H10 H11]. unfold validate, recover_sender_and_hash.
  rewrite (proj2 (Z.ltb_ge _ _) H1), H2. simpl.
  assert (default (tv_chain_id v) (env_chain_id envelope) = tv_chain_id v) as ->.
  { destruct (env_chain_id envelope) as [c|]; [|done]. by apply H3. }
  rewrite Z.eqb_refl, H4. simpl.
  rewrite (proj2 (Z.ltb_ge _ _) H5), (proj2 (Z.ltb_ge _ _) H6), H7. simpl.
  rewrite (proj2 (Z.ltb_ge _ _) H8), (proj2 (Z.ltb_ge _ _) H8').
  assert (match tv_pool v with
    | Some pool => has_nonce pool sender (env_nonce envelope) | None => false end = false) as ->.
  { destruct (tv_pool v); [by apply H9|done]. }
  rewrite H10. simpl. by rewrite (proj2 (Z.ltb_ge _ _) H11).
Qed.

(** ** Properties *)

(** The fee cap of a transaction: the gas price before EIP-1559. *)
Definition fee_cap (envelope : TxEnvelope) : Z :=
  match envelope with
  | Legacy tx _ => leg_gas_price tx
  | Eip2930 tx _ => e2930_gas_price tx
  | Eip1559 tx _ => e1559_max_fee_per_gas tx
  | Eip4844 tx _ => e4844_max_fee_per_gas tx
  | Eip7702 tx _ => e7702_max_fee_per_gas tx
  end.

(** What the sender may be charged, as a [U256]: [gas * price + value] modulo
    2^256. *)
Definition charge (envelope : TxEnvelope) : Z :=
  (env_gas_limit envelope * fee_cap envelope + env_value envelope) `mod` 2 ^ 256.

(** The pool has a transaction of this sender with this nonce. *)
Definition taken (pool : TransactionPool) (sender : Address) (nonce : u64) : Prop :=
  exists queue x, by_sender (tp_inner pool) !! sender = Some queue /\ ot_nonce x = nonce
    /\ (x ∈ sq_pending queue \/ x ∈ sq_queued queue).

(** The rules of acceptance. *)
Record rules (v : TransactionValidator St) (tx : Tx) (envelope : TxEnvelope)
    (sender : Address) (state_nonce : u64) (balance : U256) : Prop := {
  ru_size : len (tx_bytes tx) <= max_tx_size (tv_config v);
  ru_decode : decode_2718 (tx_bytes tx) = Ok envelope;
  ru_chain : env_chain_id envelope = None \/ env_chain_id envelope = Some (tv_chain_id v);
  ru_sender : recover_address envelope = Some sender;
  ru_price : min_gas_price (tv_config v) <= fee_cap envelope;
  ru_gas : intrinsic_gas_sum envelope <= env_gas_limit envelope;
  ru_state_nonce : st_nonce (tv_state v) sender = Ok state_nonce;
  ru_nonce : state_nonce <= env_nonce envelope
    <= Z.min (2 ^ 64 - 1) (state_nonce + max_txs_per_sender (tv_config v));
  ru_free : forall pool, tv_pool v = Some pool -> ~ taken pool sender (env_nonce envelope);
  ru_balance : st_balance (tv_state v) sender = Ok balance;
  ru_funds : charge envelope <= balance;
}.

(** What each error says of the transaction. *)
Definition violates (v : TransactionValidator St) (tx : Tx) (e : TxPoolError) : Prop :=
  match e with
  | TxTooLarge size max => size = len (tx_bytes tx) /\ max = max_tx_size (tv_config v) /\ max < size
  | DecodeError msg => decode_2718 (tx_bytes tx) = Err msg
  | _ =>
      exists envelope, decode_2718 (tx_bytes tx) = Ok envelope /\
      match e with
      | InvalidChainId got expected =>
          env_chain_id envelope = Some got /\ expected = tv_chain_id v /\ got <> expected
      | InvalidSignature => recover_address envelope = None
      | GasPriceTooLow price min =>
          price = fee_cap envelope /\ min = min_gas_price (tv_config v) /\ price < min
      | IntrinsicGasTooLow limit intrinsic =>
          limit = env_gas_limit envelope /\ intrinsic = intrinsic_gas_sum envelope
          /\ limit < intrinsic
      | _ =>
          exists sender, recover_address envelope = Some sender /\
          match e with
          | NonceTooLow got expected =>
              got = env_nonce envelope /\ st_nonce (tv_state v) sender = Ok expected
              /\ got < expected
          | NonceGap got expected =>
              got = env_nonce envelope /\ st_nonce (tv_state v) sender = Ok expected
              /\ Z.min (2 ^ 64 - 1) (expected + max_txs_per_sender (tv_config v)) < got
          | NonceAlreadyInPool who nonce =>
              who = sender /\ nonce = env_nonce envelope
              /\ exists pool, tv_pool v = Some pool /\ taken pool sender nonce
          | InsufficientBalance need have =>
              need = charge envelope /\ st_balance (tv_state v) sender = Ok have /\ have < need
          | StateError msg =>
              exists err, msg = state_error_string err
                /\ (st_nonce (tv_state v) sender = Err err \/ st_balance (tv_state v) sender = Err err)
          | _ => False
          end
      end
  end.

Lemma fee_cap_price envelope : effective_gas_price envelope = fee_cap envelope.
Proof. by destruct envelope. Qed.

Lemma charge_cost envelope : max_tx_cost envelope = charge envelope.
Proof. rewrite max_tx_cost_mod. unfold true_cost, charge. by rewrite fee_cap_price. Qed.

Lemma has_nonce_taken pool sender nonce :
  has_nonce pool sender nonce = true <-> taken pool sender nonce.
Proof.
  unfold has_nonce, taken. destruct (by_sender (tp_inner pool) !! sender) as [q|]; [|naive_solver].
  rewrite existsb_exists. setoid_rewrite Z.eqb_eq. setoid_rewrite <- list_elem_of_In.
  setoid_rewrite elem_of_app. naive_solver.
Qed.

(** The parts whose gas is added up are fewer than 2^40. *)
Definition small_parts (envelope : TxEnvelope) : Prop :=
  len (env_input envelope) + len (access_list envelope)
    + sum_Z ((fun item => len (al_storage_keys item)) <$> access_list envelope) <= 2 ^ 40.

Lemma intrinsic_gas_small envelope :
  small_parts envelope -> intrinsic_gas envelope = intrinsic_gas_sum envelope.
Proof.
  unfold small_parts. intros Hsz.
  apply intrinsic_gas_sum_exact. unfold intrinsic_gas_sum.
  assert (forall l, sum_Z ((fun b => if b =? 0 then 4 else 16) <$> l) <= 16 * len l) as Hd.
  { induction l as [|b l IH]; [done|]. rewrite len_cons, fmap_cons, sum_Z_cons.
    destruct (b =? 0); lia. }
  assert (forall l, sum_Z ((fun item => 2400 + 1900 * len (al_storage_keys item)) <$> l)
    = 2400 * len l + 1900 * sum_Z ((fun item => len (al_storage_keys item)) <$> l)) as Ha.
  { induction l as [|b l IH]; [done|]. rewrite len_cons, !fmap_cons, !sum_Z_cons. lia. }
  rewrite Ha. specialize (Hd (env_input envelope)).
  assert (0 <= sum_Z ((fun item => len (al_storage_keys item)) <$> access_list envelope)).
  { apply sum_Z_nonneg, Forall_fmap, Forall_forall. intros x _. apply len_nonneg. }
  pose proof (len_nonneg (env_input envelope)). pose proof (len_nonneg (access_list envelope)).
  unfold u64_max. destruct (env_to envelope); lia.
Qed.

(** The code's conditions are the rules. *)
Lemma accepted_rules v tx envelope sender n b :
  small_parts envelope ->
  accepted v tx envelope sender n b <-> rules v tx envelope sender n b.
Proof.
  intros Hs. split; intros [].
  - split; try done.
    + destruct (env_chain_id envelope) as [c|]; [right; by rewrite (acc_chain0 c eq_refl)|by left].
    + by rewrite <- intrinsic_gas_small.
    + intros pool Hp Ht%has_nonce_taken. by rewrite (acc_free0 pool Hp) in Ht.
    + by rewrite <- charge_cost.
  - split; try done.
    + intros c Hc. destruct ru_chain0; congruence.
    + by rewrite intrinsic_gas_small.
    + intros pool Hp. apply not_true_iff_false. intros Ht%has_nonce_taken. by apply (ru_free0 pool Hp).
    + by rewrite charge_cost.
Qed.

Lemma validate_violates v tx e :
  (forall envelope, decode_2718 (tx_bytes tx) = Ok envelope -> small_parts envelope) ->
  validate v tx = Err e -> violates v tx e.
Proof.
  intros Hs. unfold validate, map_err, recover_sender_and_hash.
  destruct (Z.ltb_spec (max_tx_size (tv_config v)) (len (tx_bytes tx))); [by intros [= <-]|].
  destruct (decode_2718 (tx_bytes tx)) as [env|msg] eqn:Ed; [|by intros [= <-]].
  specialize (Hs env eq_refl).
  destruct (negb _) eqn:Ec.
  { apply negb_true_iff, Z.eqb_neq in Ec. intros [= <-]. exists env. split; [done|].
    destruct (env_chain_id env) as [c|]; [by split_and!|done]. }
  destruct (recover_address env) as [sender|] eqn:Er; [|intros [= <-]; by exists env].
  rewrite fee_cap_price, intrinsic_gas_small by done.
  destruct (Z.ltb_spec (fee_cap env) (min_gas_price (tv_config v))); [intros [= <-]; by exists env|].
  destruct (Z.ltb_spec (env_gas_limit env) (intrinsic_gas_sum env)); [intros [= <-]; by exists env|].
  destruct (st_nonce (tv_state v) sender) as [n|err] eqn:En.
  2:{ intros [= <-]. exists env. split; [done|]. exists sender. eauto. }
  destruct (Z.ltb_spec (env_nonce env) n); [intros [= <-]; exists env; split; [done|]; by exists sender|].
  destruct (Z.ltb_spec (saturating_add u64_max n (max_txs_per_sender (tv_config v))) (env_nonce env)) as [Hg|].
  { intros [= <-]. exists env. split; [done|]. by exists sender. }
  destruct (tv_pool v) as [pool|] eqn:Ep; [destruct (has_nonce pool sender (env_nonce env)) eqn:Eh|].
  1:{ intros [= <-]. exists env. split; [done|]. exists sender. split_and!; try done.
      exists pool. split; [done|]. by apply has_nonce_taken. }
  all: destruct (st_balance (tv_state v) sender) as [b|err] eqn:Eb;
    [|intros [= <-]; exists env; split; [done|]; exists sender; eauto 10];
    rewrite charge_cost; destruct (Z.ltb_spec b (charge env)); [|done];
    intros [= <-]; exists env; split; [done|]; by exists sender.
Qed.

(** C38: a transaction is accepted exactly when every rule holds: the size, a
    decodable envelope for this chain or for none, a recoverable sender, the
    minimum price, a gas limit of at least 21000 plus 4 or 16 per byte of input,
    32000 for a creation and the access list, a nonce in the window above the
    state nonce and free in the pool, and a balance of at least
    [gas limit * price + value] taken modulo 2^256; the validated transaction
    carries the recovered sender and the envelope's fields; and the error of a
    refused one names a rule that it breaks, with the numbers compared.  The
    parts of the transaction are fewer than 2^40. *)
Theorem validate_accepts v tx :
  (forall envelope, decode_2718 (tx_bytes tx) = Ok envelope -> small_parts envelope) ->
  (forall vt, validate v tx = Ok vt <->
     exists envelope sender n b, rules v tx envelope sender n b
       /\ vt = mkValidated (keccak256 (rlp_encode envelope)) sender (env_nonce envelope)
                 (env_gas_limit envelope) (fee_cap envelope) (charge envelope) envelope tx)
  /\ (forall e, validate v tx = Err e -> violates v tx e).
Proof.
  intros Hs. split; [|intros e; by apply validate_violates]. intros vt. split.
  - intros (env & sender & n & b & Hacc & ->)%validate_ok.
    pose proof (Hs _ (acc_decode _ _ _ _ _ _ Hacc)) as He. exists env, sender, n, b.
    split; [by apply accepted_rules|]. unfold accepted_tx. by rewrite fee_cap_price, charge_cost.
  - intros (env & sender & n & b & Hr & ->). pose proof (Hs _ (ru_decode _ _ _ _ _ _ Hr)) as He.
    apply accepted_rules in Hr; [|done]. rewrite (accepted_validate _ _ _ _ _ _ Hr).
    unfold accepted_tx. by rewrite fee_cap_price, charge_cost.
Qed.

Lemma has_nonce_false p sender nonce x :
  inner_wf (tp_inner p) -> has_nonce p sender nonce = false ->
  pool_get p (ot_hash x) = Some x -> ~ (ot_sender x = sender /\ ot_nonce x = nonce).
Proof.
  intros HI Hn Hx [<- <-]. apply by_hash_lookup in Hx as [_ (q & Hq & Hin)]; [|done].
  unfold has_nonce in Hn. rewrite Hq in Hn. apply not_true_iff_false in Hn. apply Hn.
  apply existsb_exists. exists x. rewrite Z.eqb_refl, <- list_elem_of_In. done.
Qed.

(** Validating against a pool and then adding to it never replaces.  No
    transaction of the pool shares sender and nonce with the validated one,
    so [add] does not fail with [ReplacementUnderpriced], and when it succeeds
    everything that was evicted made room under a limit. *)
Theorem validated_never_replaces v tx vt p timestamp :
  validate v tx = Ok vt -> tv_pool v = Some p -> inner_wf (tp_inner p) ->
  limits_ok (tp_config p) -> tx_ok (into_ordered vt timestamp) ->
  let o := into_ordered vt timestamp in
  (pool_add p o).2 <> Err ReplacementUnderpriced
  /\ (forall x, pool_get p (ot_hash x) = Some x ->
        ~ (ot_sender x = ot_sender o /\ ot_nonce x = ot_nonce o))
  /\ ((pool_add p o).2 = Ok tt -> pool_get (pool_add p o).1 (vt_hash vt) = Some o).
Proof.
  intros Hv Hp HI Hl Ho. cbv zeta.
  apply validate_ok in Hv as (env & sender & n & b & Hacc & ->).
  pose proof (acc_free _ _ _ _ _ _ Hacc p Hp) as Hfree.
  set (o := into_ordered _ timestamp) in *.
  assert (forall x, pool_get p (ot_hash x) = Some x ->
    ~ (ot_sender x = ot_sender o /\ ot_nonce x = ot_nonce o)) as Hno
    by (intros x; by apply has_nonce_false).
  pose proof (pool_add_spec p o HI Hl Ho) as Hspec. split_and!; [|done|].
  - unfold pool_add in *.
    destruct (add_guard (tp_config p) (tp_inner p) o) as [[]|e] eqn:Eg.
    + destruct (add_guard_ok _ _ _ HI Eg) as (Hh & Hi & Hn).
      pose proof (add_insert_spec (tp_inner p) o HI Ho Hh Hi Hn) as Hres.
      unfold add_insert_result in Hres. destruct (add_insert (tp_inner p) o) as [I1 [r|e]].
      * destruct (add_evict _ I1) as [I2 ev]. simpl. by destruct (existsb _ ev).
      * destruct Hres as (_ & _ & y & Hy & Hs & Hny & _). by destruct (Hno y Hy).
    + simpl. intros [= ->]. pose proof (add_guard_outcome p o HI Hl Ho) as Hout. rewrite Eg in Hout.
      destruct Hout as [_ (y & Hy & [Hs Hny] & _)]. by destruct (Hno y Hy).
  - intros Hok. destruct (pool_add p o) as [p' r]. cbn [fst snd] in *. subst r.
    destruct Hspec as [[_ [e ?]]|(rep & ev & Hae & Hr)]; [done|].
    destruct (existsb _ ev) eqn:Ee; [done|]. unfold pool_get. rewrite (ae_left _ _ _ _ _ Hae).
    apply map_lookup_filter_Some. split; [by rewrite lookup_insert_eq|].
    intros Hin%existsb_hash.
    change (existsb (fun e => ot_hash e =? ot_hash o) ev = true) in Hin. congruence.
Qed.
End validator.

(** ** The cost wraps around *)

Definition wrap_env : TxEnvelope :=
  Legacy (mkTxLegacy (Some 1) 0 1000000000 21000 (Some 7) (2 ^ 256 - 21000 * 1000000000) [])
    (mkSignature 1 1 false).

(** The funds check compares with the wrapped sum: a transaction whose value is
    just below 2^256 costs nothing there. *)
Lemma max_tx_cost_wraps : true_cost wrap_env = 2 ^ 256 /\ max_tx_cost wrap_env = 0.
Proof. split; vm_compute; reflexivity. Qed.

(** ** Witnesses *)

#[local] Instance val_ext : External := {|
  keccak256 := foldl (fun h b => h * 257 + b + 1) 0;
  rlp_encode := fun e => [9; env_nonce e];
  encode_2718 := fun e => [env_nonce e; effective_gas_price e];
  decode_2718 := fun b =>
    match b with
    | [n; v] => Ok (Legacy (mkTxLegacy (Some 1) n 1000000000 21000 (Some 7) v [])
                      (mkSignature 1 1 false))
    | _ => Err "bad length"
    end;
  codec_bytes := fun b => len b :: b;
  recover_address := fun _ => Some 42;
|}.

(** A state in which every account has nonce 0 and a large balance. *)
#[local] Instance val_state : StateDbRead unit := {|
  st_nonce := fun _ _ => Ok 0;
  st_balance := fun _ _ => Ok (10 ^ 18);
  st_code_hash := fun _ _ => Ok 0;
  st_code := fun _ _ => Ok [];
  st_storage := fun _ _ _ => Ok 0;
|}.

Definition val_validator : TransactionValidator unit :=
  with_pool (validator_new 1 tt PoolConfig_default) (pool_new PoolConfig_default).

Lemma val_small b envelope : decode_2718 b = Ok envelope -> small_parts envelope.
Proof.
  cbn [decode_2718 val_ext]. destruct b as [|n [|x [|y b]]]; try discriminate.
  intros [= <-]. vm_compute. discriminate.
Qed.

(** Accepted with the cost [21000 * 10^9 + 5]; and refused for its nonce. *)
Lemma validate_accepts_witness :
  (exists vt, validate (fun _ => "error") val_validator (mkTx [3; 5]) = Ok vt
     /\ vt_max_cost vt = 21000000000005)
  /\ violates (fun _ => "error") val_validator (mkTx [500; 5]) (NonceGap 500 0).
Proof.
  split.
  - destruct (validate_accepts (fun _ => "error") val_validator (mkTx [3; 5]) (val_small [3; 5]))
      as [H _].
    eexists. split; [|shelve]. apply H.
    exists (Legacy (mkTxLegacy (Some 1) 3 1000000000 21000 (Some 7) 5 []) (mkSignature 1 1 false)), 42, 0, (10 ^ 18).
    split; [|reflexivity]. split; try reflexivity; try (vm_compute; discriminate).
    + by right.
    + split; vm_compute; discriminate.
    + intros pool [= <-] (q & x & Hq & _). discriminate Hq.
    Unshelve. reflexivity.
  - apply (validate_accepts (fun _ => "error") val_validator (mkTx [500; 5]) (val_small [500; 5])).
    reflexivity.
Defined.

Lemma validated_never_replaces_witness :
  exists vt, validate (fun _ => "error") val_validator (mkTx [3; 5]) = Ok vt
    /\ (pool_add (pool_new PoolConfig_default) (into_ordered vt 100)).2
       <> Err ReplacementUnderpriced.
Proof.
  eexists. split; [vm_compute; reflexivity|].
  eapply (validated_never_replaces (fun _ => "error") val_validator (mkTx [3; 5]));
    [vm_compute; reflexivity|reflexivity|apply empty_wf|split; vm_compute; discriminate|].
  split; vm_compute; done || discriminate.
Defined.
