(* ===== verification/Bytes.v ===== *)
(** Big-endian byte strings: [to_be_bytes] and [from_be_bytes] of the
    fixed-width integers, and reading a prefix of a buffer. *)
From S2P Require Import Prelude.

(** [x] in [n] big-endian bytes. *)
Fixpoint be_bytes (n : nat) (x : Z) : bytes :=
  match n with
  | O => []
  | S n => (x `div` 256 ^ Z.of_nat n) `mod` 256 :: be_bytes n x
  end.

(** The value of big-endian bytes. *)
Definition be_value (l : bytes) : Z := foldl (fun a b => a * 256 + b) 0 l.

(** Every element is a byte. *)
Definition bytes_ok (l : bytes) : Prop := Forall (fun b => 0 <= b < 256) l.

(** The sub-slice [l[i..j]]. *)
Definition slice (l : bytes) (i j : nat) : bytes := take (j - i) (drop i l).

Lemma be_bytes_length n x : length (be_bytes n x) = n.
Proof. induction n as [|n IH]; simpl; congruence. Qed.

Lemma be_bytes_len n x : len (be_bytes n x) = Z.of_nat n.
Proof. unfold len. by rewrite be_bytes_length. Qed.

Lemma be_bytes_ok n x : bytes_ok (be_bytes n x).
Proof.
  induction n as [|n IH]; simpl; constructor; [|done]. apply Z.mod_pos_bound. lia.
Qed.

Lemma be_fold_acc l a :
  foldl (fun a b => a * 256 + b) a l = a * 256 ^ len l + be_value l.
Proof.
  unfold be_value. revert a. induction l as [|b l IH]; intros a; cbn [foldl].
  { rewrite len_nil. lia. }
  rewrite (IH (a * 256 + b)), (IH (0 * 256 + b)), len_cons, Z.pow_add_r by (pose proof (len_nonneg l); lia). lia.
Qed.

Lemma be_value_cons b l : be_value (b :: l) = b * 256 ^ len l + be_value l.
Proof. unfold be_value at 1. cbn [foldl]. rewrite be_fold_acc. lia. Qed.

Lemma be_value_app l k : be_value (l ++ k) = be_value l * 256 ^ len k + be_value k.
Proof. unfold be_value at 1. rewrite foldl_app. by rewrite be_fold_acc. Qed.

Lemma be_value_bound l : bytes_ok l -> 0 <= be_value l < 256 ^ len l.
Proof.
  induction 1 as [|b l Hb _ IH]; [done|].
  rewrite be_value_cons, len_cons, Z.pow_add_r by (pose proof (len_nonneg l); lia).
  nia.
Qed.

Lemma be_value_bytes n x : be_value (be_bytes n x) = x `mod` 256 ^ Z.of_nat n.
Proof.
  induction n as [|n IH]; [by rewrite Z.mod_1_r|].
  cbn [be_bytes]. rewrite be_value_cons, IH, be_bytes_len.
  rewrite Nat2Z.inj_succ, Z.pow_succ_r, (Z.mul_comm 256) by lia.
  rewrite Z.rem_mul_r by lia. lia.
Qed.

(** Decoding inverts encoding for values of the width. *)
Lemma be_value_bytes_id n x : 0 <= x < 256 ^ Z.of_nat n -> be_value (be_bytes n x) = x.
Proof. intros H. rewrite be_value_bytes. by apply Z.mod_small. Qed.

Lemma be_bytes_inj n x y :
  0 <= x < 256 ^ Z.of_nat n -> 0 <= y < 256 ^ Z.of_nat n ->
  be_bytes n x = be_bytes n y -> x = y.
Proof. intros Hx Hy H. rewrite <- (be_value_bytes_id n x), <- (be_value_bytes_id n y), H; done. Qed.

(** The values of [8 * n] bits are those of [n] bytes. *)
Lemma in_width_bytes w n x : in_width w x -> w = 8 * Z.of_nat n -> 0 <= x < 256 ^ Z.of_nat n.
Proof.
  unfold in_width. intros H ->. rewrite Z.pow_mul_r in H by lia. done.
Qed.

(** The bytes above the width do not matter. *)
Lemma be_bytes_shift b v n m :
  (n <= m)%nat -> be_bytes n (b * 256 ^ Z.of_nat m + v) = be_bytes n v.
Proof.
  revert m. induction n as [|n IHn]; intros m Hle; [done|].
  cbn [be_bytes]. f_equal; [|apply IHn; lia].
  replace (Z.of_nat m) with (Z.of_nat n + 1 + Z.of_nat (m - S n)) by lia.
  rewrite !Z.pow_add_r by lia.
  replace (b * (256 ^ Z.of_nat n * 256 ^ 1 * 256 ^ Z.of_nat (m - S n)))
    with ((b * 256 ^ Z.of_nat (m - S n) * 256) * 256 ^ Z.of_nat n) by lia.
  rewrite Z.div_add_l by lia. rewrite Z.add_comm, Z.mod_add by lia. done.
Qed.

(** Encoding inverts decoding. *)
Lemma be_bytes_value l : bytes_ok l -> be_bytes (length l) (be_value l) = l.
Proof.
  induction 1 as [|b l Hb Hl IH]; [done|]. cbn [length be_bytes].
  pose proof (be_value_bound l Hl) as Hv. fold (len l).
  rewrite be_value_cons. f_equal.
  - rewrite Z.div_add_l by lia. rewrite (Z.div_small (be_value l)) by done.
    rewrite Z.add_0_r. by apply Z.mod_small.
  - etrans; [|exact IH]. unfold len. by apply be_bytes_shift.
Qed.

(** Slices of a concatenation of fixed-size fields. *)
Lemma slice_app_l a b i j :
  (j <= length a)%nat -> slice (a ++ b) i j = slice a i j.
Proof.
  intros Hj. unfold slice. destruct (decide (i <= length a)%nat).
  - rewrite drop_app_le by done. rewrite take_app_le; [done|]. rewrite length_drop. lia.
  - replace (j - i)%nat with O by lia. done.
Qed.

Lemma slice_app_r a b i j n :
  length a = n -> (n <= i)%nat -> slice (a ++ b) i j = slice b (i - n) (j - n).
Proof.
  intros <- Hi. unfold slice. rewrite drop_app_ge by done.
  by replace (j - length a - (i - length a))%nat with (j - i)%nat by lia.
Qed.

Lemma slice_all a n : length a = n -> slice a 0 n = a.
Proof. intros <-. unfold slice. rewrite drop_0, Nat.sub_0_r. apply take_ge. lia. Qed.

(** ** Prefix codes *)

(** [enc] is a prefix code on the values of [P]: from the concatenation of an
    encoding and a rest both can be recovered. *)
Definition prefix_code {A} (P : A -> Prop) (enc : A -> bytes) : Prop :=
  forall x y r r', P x -> P y -> enc x ++ r = enc y ++ r' -> x = y /\ r = r'.

Lemma app_same_length {A} (a b r r' : list A) :
  length a = length b -> a ++ r = b ++ r' -> a = b /\ r = r'.
Proof. intros Hl H. by apply app_inj_1. Qed.

Lemma cons_eq_inv {A} (x y : A) l k : x :: l = y :: k -> x = y /\ l = k.
Proof. by intros [= -> ->]. Qed.

(** Fixed-width integers form a prefix code. *)
Lemma be_bytes_prefix n :
  prefix_code (fun x => 0 <= x < 256 ^ Z.of_nat n) (be_bytes n).
Proof.
  intros x y r r' Hx Hy H.
  apply app_same_length in H as [H ->]; [|by rewrite !be_bytes_length].
  split; [|done]. by eapply be_bytes_inj.
Qed.

(** A list preceded by its length, each element a prefix code. *)
Definition enc_list {A} (enc : A -> bytes) (l : list A) : bytes :=
  be_bytes 8 (len l) ++ (x ← l; enc x).

Lemma bind_prefix {A} (P : A -> Prop) (enc : A -> bytes) l l' r r' :
  prefix_code P enc -> Forall P l -> Forall P l' -> length l = length l' ->
  (x ← l; enc x) ++ r = (x ← l'; enc x) ++ r' -> l = l' /\ r = r'.
Proof.
  intros Henc. revert l'. induction l as [|x l IH]; intros [|y l'] Hl Hl' Hlen H;
    try done. apply Forall_cons in Hl as [Hx Hl], Hl' as [Hy Hl'].
  rewrite !bind_cons, <- !app_assoc in H.
  apply Henc in H as [-> H]; [|done|done].
  apply IH in H as [-> ->]; [done|done|done|]. simpl in Hlen. lia.
Qed.

Lemma enc_list_prefix {A} (P : A -> Prop) (enc : A -> bytes) :
  prefix_code P enc ->
  prefix_code (fun l => Forall P l /\ len l <= u64_max) (enc_list enc).
Proof.
  intros Henc l l' r r' [Hl Hn] [Hl' Hn'] H. unfold enc_list in H. rewrite <- !app_assoc in H.
  apply be_bytes_prefix in H as [Hlen H].
  - apply (bind_prefix P enc) in H as [-> ->]; try done. unfold len in Hlen. lia.
  - pose proof (len_nonneg l). unfold u64_max in Hn. simpl. lia.
  - pose proof (len_nonneg l'). unfold u64_max in Hn'. simpl. lia.
Qed.

#[global] Arguments be_bytes n x : simpl never.
