(* ===== verification/Text.v ===== *)
(** Strings as the code takes them apart: splitting at a character, prefixes,
    substrings, and the numbers of Rust's [FromStr] and [from_str_radix]. *)
From Stdlib Require Import Ascii.
From stdpp Require Import pretty.
From S2P Require Import Prelude.
Open Scope Z_scope.

(** ** Operations *)

(** [str::split_once] and [rsplit_once] at a character. *)
Fixpoint split_once (c : Ascii.ascii) (s : string) : option (string * string) :=
  match s with
  | EmptyString => None
  | String x s =>
      if Ascii.eqb x c then Some (EmptyString, s)
      else '(a, b) ← split_once c s; Some (String x a, b)
  end.

Fixpoint rsplit_once (c : Ascii.ascii) (s : string) : option (string * string) :=
  match s with
  | EmptyString => None
  | String x s =>
      match rsplit_once c s with
      | Some (a, b) => Some (String x a, b)
      | None => if Ascii.eqb x c then Some (EmptyString, s) else None
      end
  end.

(** [str::strip_prefix]. *)
Fixpoint strip_prefix (p s : string) : option string :=
  match p, s with
  | EmptyString, _ => Some s
  | String x p, String y s => if Ascii.eqb x y then strip_prefix p s else None
  | String _ _, EmptyString => None
  end.

(** [str::contains]. *)
Fixpoint contains (p s : string) : bool :=
  is_some (strip_prefix p s) || match s with EmptyString => false | String _ s => contains p s end.

(** A digit in a radix up to 16. *)
Definition digit_value (radix : Z) (c : Ascii.ascii) : option Z :=
  let n := Z.of_N (Ascii.N_of_ascii c) in
  let d := if (48 <=? n) && (n <=? 57) then n - 48
           else if (97 <=? n) && (n <=? 102) then n - 87
           else if (65 <=? n) && (n <=? 70) then n - 55
           else 16 in
  if d <? radix then Some d else None.

Fixpoint digits (radix max acc : Z) (s : string) : option Z :=
  match s with
  | EmptyString => Some acc
  | String c s =>
      d ← digit_value radix c;
      let acc := acc * radix + d in
      if max <? acc then None else digits radix max acc s
  end.

(** [from_str_radix] of an unsigned integer: an optional plus sign, at least one
    digit, no overflow. *)
Definition from_str_radix (radix max : Z) (s : string) : option Z :=
  match s with
  | EmptyString => None
  | String c rest =>
      if Ascii.eqb c "+"%char then
        match rest with EmptyString => None | _ => digits radix max 0 rest end
      else digits radix max 0 s
  end.
Definition parse_uint (max : Z) (s : string) : option Z := from_str_radix 10 max s.

(** [Display] of an unsigned integer. *)
Definition show_uint (n : Z) : string := pretty (Z.to_N n).

(** All characters of a string. *)
Fixpoint all_chars (P : Ascii.ascii -> bool) (s : string) : bool :=
  match s with EmptyString => true | String c s => P c && all_chars P s end.

(** ** Lemmas *)

Lemma all_chars_app P a b : all_chars P (a +:+ b) = all_chars P a && all_chars P b.
Proof. induction a as [|c a IH]; simpl; [done|]. by rewrite IH, andb_assoc. Qed.

Lemma all_chars_impl (P Q : Ascii.ascii -> bool) s :
  (forall c, P c = true -> Q c = true) -> all_chars P s = true -> all_chars Q s = true.
Proof.
  intros HPQ. induction s as [|c s IH]; simpl; [done|]. rewrite !andb_true_iff. naive_solver.
Qed.

Lemma split_once_app c a b :
  all_chars (fun x => negb (Ascii.eqb x c)) a = true -> split_once c (a +:+ String c b) = Some (a, b).
Proof.
  induction a as [|x a IH]; simpl; [by rewrite Ascii.eqb_refl|].
  rewrite andb_true_iff. intros [Hx Ha]. apply negb_true_iff in Hx. by rewrite Hx, IH.
Qed.

Lemma rsplit_once_None c s :
  all_chars (fun x => negb (Ascii.eqb x c)) s = true -> rsplit_once c s = None.
Proof.
  induction s as [|x s IH]; simpl; [done|]. rewrite andb_true_iff. intros [Hx Hs].
  apply negb_true_iff in Hx. by rewrite IH, Hx.
Qed.

Lemma rsplit_once_app c a b :
  all_chars (fun x => negb (Ascii.eqb x c)) b = true -> rsplit_once c (a +:+ String c b) = Some (a, b).
Proof.
  intros Hb. induction a as [|x a IH]; simpl; [|by rewrite IH].
  by rewrite rsplit_once_None, Ascii.eqb_refl.
Qed.

Lemma rsplit_once_Some c s a b : rsplit_once c s = Some (a, b) -> s = a +:+ String c b.
Proof.
  revert a. induction s as [|x s IH]; intros a; simpl; [done|].
  destruct (rsplit_once c s) as [[p q]|]; [intros [= <- <-]; by rewrite (IH p)|].
  destruct (Ascii.eqb_spec x c) as [->|]; [|done]. by intros [= <- <-].
Qed.

Lemma strip_prefix_app p s : strip_prefix p (p +:+ s) = Some s.
Proof. induction p as [|c p IH]; simpl; [done|]. by rewrite Ascii.eqb_refl. Qed.

Lemma strip_prefix_Some p s r : strip_prefix p s = Some r -> s = p +:+ r.
Proof.
  revert s. induction p as [|c p IH]; intros s; simpl; [by intros [= ->]|].
  destruct s as [|d s]; [done|]. destruct (Ascii.eqb_spec c d) as [->|]; [|done].
  intros H%IH. by rewrite H.
Qed.

Lemma contains_middle a p b : contains p (a +:+ p +:+ b) = true.
Proof.
  assert (H0 : contains p (p +:+ b) = true).
  { destruct (p +:+ b) as [|c s] eqn:E; cbn [contains]; rewrite <- ?E, strip_prefix_app; done. }
  induction a as [|c a IH]; simpl; [done|]. rewrite IH. apply orb_true_r.
Qed.

(** Decimal numbers are read back. *)
Lemma digits_app radix max acc a b :
  digits radix max acc (a +:+ b) = (x ← digits radix max acc a; digits radix max x b).
Proof.
  revert acc. induction a as [|c a IH]; intros acc; simpl; [done|].
  destruct (digit_value radix c) as [d|]; simpl; [|done]. destruct (max <? _); [done|apply IH].
Qed.

Lemma digit_pretty x : (x < 10)%N -> digit_value 10 (pretty_N_char x) = Some (Z.of_N x).
Proof.
  intros Hx. assert (exists n, (n < 10)%nat /\ x = N.of_nat n) as (n & Hn & ->).
  { exists (N.to_nat x). lia. }
  do 10 (destruct n as [|n]; [reflexivity|]). lia.
Qed.

Definition is_digit (c : Ascii.ascii) : bool := is_some (digit_value 10 c).

Lemma append_assoc a b c : (a +:+ b) +:+ c = a +:+ (b +:+ c).
Proof. induction a as [|x a IH]; [done|]. exact (f_equal (String x) IH). Qed.

Lemma append_nil a : a +:+ EmptyString = a.
Proof. induction a as [|x a IH]; [done|]. exact (f_equal (String x) IH). Qed.

Lemma digits_go x s max :
  Z.of_N x <= max ->
  exists p, pretty_N_go x s = p +:+ s /\ digits 10 max 0 p = Some (Z.of_N x)
    /\ all_chars is_digit p = true /\ (x <> 0%N -> p <> EmptyString).
Proof.
  revert s. induction (N.lt_wf_0 x) as [x _ IH]; intros s Hmax.
  destruct (decide (x = 0)%N) as [->|Hx].
  { exists EmptyString. by rewrite pretty_N_go_0. }
  rewrite pretty_N_go_step by lia.
  pose proof (N.div_mod x 10 ltac:(lia)) as Hdm. pose proof (N.mod_lt x 10 ltac:(lia)) as Hm.
  assert (Hle : (x `div` 10 <= x)%N) by (apply N.Div0.div_le_upper_bound; lia).
  destruct (IH (x `div` 10)%N ltac:(apply N.div_lt; lia) (String (pretty_N_char (x `mod` 10)) s))
    as (p & -> & Hp & Hall & _); [lia|].
  exists (p +:+ String (pretty_N_char (x `mod` 10)) EmptyString).
  split; [by rewrite append_assoc|]. split; [|split].
  - rewrite digits_app, Hp. simpl. rewrite digit_pretty by done. simpl.
    replace (Z.of_N (x `div` 10) * 10 + Z.of_N (x `mod` 10)) with (Z.of_N x) by (rewrite Hdm at 1; lia).
    by rewrite (proj2 (Z.ltb_ge _ _)).
  - rewrite all_chars_app, Hall. simpl. unfold is_digit. by rewrite digit_pretty.
  - intros _. by destruct p.
Qed.

(** Numbers that fit are printed with digits and read back. *)
Lemma show_uint_digits n :
  0 <= n -> all_chars is_digit (show_uint n) = true /\ show_uint n <> EmptyString.
Proof.
  intros Hn. unfold show_uint, pretty, pretty_N. destruct (decide _) as [|Hx]; [done|].
  destruct (digits_go (Z.to_N n) EmptyString n) as (p & -> & _ & Hall & Hne); [lia|].
  rewrite append_nil. auto.
Qed.

Lemma parse_show_uint n max : 0 <= n <= max -> parse_uint max (show_uint n) = Some n.
Proof.
  intros Hn. destruct (show_uint_digits n) as [Hall Hne]; [lia|]. unfold parse_uint, from_str_radix.
  assert (Hd : digits 10 max 0 (show_uint n) = Some n).
  { unfold show_uint, pretty, pretty_N. destruct (decide _) as [Hx|Hx].
    - simpl. rewrite (proj2 (Z.ltb_ge _ _)) by lia. f_equal. lia.
    - destruct (digits_go (Z.to_N n) EmptyString max) as (p & -> & Hp & _); [lia|].
      rewrite append_nil, Hp. f_equal. lia. }
  destruct (show_uint n) as [|c r]; [done|]. simpl in Hall. apply andb_true_iff in Hall as [Hc _].
  destruct (Ascii.eqb_spec c "+"%char) as [->|]; [done|exact Hd].
Qed.

Lemma show_uint_inj n m : 0 <= n -> 0 <= m -> show_uint n = show_uint m -> n = m.
Proof. unfold show_uint. intros Hn Hm H. apply (inj (pretty (A := N))) in H. lia. Qed.
