(* ===== verification/Hex.v ===== *)
(** Hexadecimal text in lower case, and addresses in it: a concrete instance
    of the encodings the node takes from its libraries. *)
From Stdlib Require Import Ascii.
From S2P Require Import Prelude Text Bytes.
Open Scope Z_scope.

Definition hex_char (n : Z) : ascii := ascii_of_N (Z.to_N (if n <? 10 then 48 + n else 87 + n)).

Fixpoint hex_text (b : bytes) : string :=
  match b with
  | [] => EmptyString
  | x :: b => String (hex_char (x `div` 16)) (String (hex_char (x `mod` 16)) (hex_text b))
  end.

Fixpoint hex_bytes (s : string) : option bytes :=
  match s with
  | EmptyString => Some []
  | String h (String l s) =>
      h ← digit_value 16 h; l ← digit_value 16 l; b ← hex_bytes s;
      Some (h * 16 + l :: b)
  | _ => None
  end.

Definition is_hex (c : ascii) : bool := is_some (digit_value 16 c).

Definition address_text (a : Address) : string := "0x" +:+ hex_text (be_bytes 20 a).
Definition text_address (s : string) : option Address :=
  s ← strip_prefix "0x" s; b ← hex_bytes s;
  if len b =? 20 then Some (be_value b) else None.

(** ** Lemmas *)

Lemma digit_hex n : 0 <= n < 16 -> digit_value 16 (hex_char n) = Some n.
Proof.
  intros Hn. assert (exists k, (k < 16)%nat /\ n = Z.of_nat k) as (k & Hk & ->).
  { exists (Z.to_nat n). lia. }
  do 16 (destruct k as [|k]; [done|]). lia.
Qed.

Lemma digit_value_range r c d : digit_value r c = Some d -> 0 <= d < r.
Proof.
  unfold digit_value. intros H. repeat (case_match; try done); simplify_eq; lia.
Qed.

Lemma byte_nibbles x : 0 <= x < 256 -> 0 <= x `div` 16 < 16 /\ 0 <= x `mod` 16 < 16.
Proof. intros Hx. pose proof (Z.div_mod x 16). pose proof (Z.mod_pos_bound x 16). lia. Qed.

Lemma hex_back b : bytes_ok b -> hex_bytes (hex_text b) = Some b.
Proof.
  induction 1 as [|x b Hx _ IH]; [done|]. cbn [hex_text hex_bytes].
  apply byte_nibbles in Hx as [H1 H2]. rewrite !digit_hex by done. rewrite IH. cbn [mbind option_bind].
  f_equal. f_equal. rewrite (Z.div_mod x 16) at 3; lia.
Qed.

Lemma hex_bytes_ok s b : hex_bytes s = Some b -> bytes_ok b.
Proof.
  revert s b. fix IH 1. intros s b. destruct s as [|h [|l s]]; cbn [hex_bytes]; [intros [= <-]; by apply Forall_nil_2|done|].
  destruct (digit_value 16 h) as [h'|] eqn:Hh; cbn; [|done].
  destruct (digit_value 16 l) as [l'|] eqn:Hl; cbn; [|done].
  destruct (hex_bytes s) as [r|] eqn:Hs; cbn; [|done]. intros [= <-].
  apply digit_value_range in Hh, Hl. constructor; [lia|by apply (IH s)].
Qed.

Lemma hex_text_chars b : bytes_ok b -> all_chars is_hex (hex_text b) = true.
Proof.
  induction 1 as [|x b Hx _ IH]; [done|]. cbn [hex_text all_chars]. unfold is_hex.
  apply byte_nibbles in Hx as [H1 H2]. by rewrite !digit_hex.
Qed.

Lemma hex_chars_plain s : all_chars is_hex s = true -> strip_prefix "0x" s = None.
Proof.
  destruct s as [|a [|b s]]; cbn [all_chars strip_prefix]; [done|by destruct (Ascii.eqb _ _)|].
  rewrite !andb_true_iff. intros (_ & Hb & _). destruct (Ascii.eqb "0" a); [|done].
  destruct (Ascii.eqb_spec "x" b) as [<-|]; done.
Qed.

Lemma address_text_back a : in_width 160 a -> text_address (address_text a) = Some a.
Proof.
  intros Ha. unfold text_address, address_text. rewrite strip_prefix_app. cbn [mbind option_bind].
  rewrite hex_back by apply be_bytes_ok. cbn [mbind option_bind]. rewrite be_bytes_len. cbn -[be_value be_bytes].
  f_equal. apply be_value_bytes_id. by eapply in_width_bytes.
Qed.

Lemma text_address_width s a : text_address s = Some a -> in_width 160 a.
Proof.
  unfold text_address. destruct (strip_prefix "0x" s) as [r|]; cbn -[be_value]; [|done].
  destruct (hex_bytes r) as [b|] eqn:E; cbn -[be_value]; [|done].
  destruct (Z.eqb_spec (len b) 20) as [Hl|]; [|done]. intros [= <-].
  apply hex_bytes_ok, be_value_bound in E. by rewrite Hl in E.
Qed.
