(* ===== verification/Changes.v ===== *)
(** Accumulated state changes and the overlay that reads through them
    (crates/storage/qmdb/src/changes.rs, crates/storage/overlay/src/overlay.rs). *)
From S2P Require Import Prelude StateDb.

(** ** Change sets *)

Record AccountUpdate := mkUpdate {
  au_created : bool;
  au_selfdestructed : bool;
  au_nonce : u64;
  au_balance : U256;
  au_code_hash : B256;
  au_code : option bytes;
  au_storage : gmap U256 U256;
}.

Record ChangeSet := mkChangeSet { accounts : gmap Address AccountUpdate }.

Definition ChangeSet_new : ChangeSet := mkChangeSet ∅.
Definition cs_is_empty (c : ChangeSet) : bool := bool_decide (accounts c = ∅).
Definition cs_len (c : ChangeSet) : usize := Z.of_nat (size (accounts c)).

(** [AccountUpdate::merge]. *)
Definition au_merge (self other : AccountUpdate) : AccountUpdate :=
  let storage1 := if au_created other then ∅ else au_storage self in
  let created1 := if au_created other then true else au_created self in
  let storage2 := if au_selfdestructed other then ∅ else storage1 in
  let code1 :=
    if negb (au_code_hash self =? au_code_hash other) || bool_decide (is_Some (au_code other))
    then au_code other else au_code self in
  let storage3 :=
    if au_selfdestructed other then storage2
    else foldl (fun m '(slot, value) => <[slot := value]> m) storage2 (btree (au_storage other)) in
  mkUpdate created1 (au_selfdestructed other) (au_nonce other) (au_balance other)
    (au_code_hash other) code1 storage3.

Arguments au_merge : simpl never.

(** [ChangeSet::insert]. *)
Definition cs_insert (c : ChangeSet) (address : Address) (update : AccountUpdate) : ChangeSet :=
  mkChangeSet
    (match accounts c !! address with
     | Some existing => <[address := au_merge existing update]> (accounts c)
     | None => <[address := update]> (accounts c)
     end).

(** [ChangeSet::merge]. *)
Definition cs_merge (self other : ChangeSet) : ChangeSet :=
  foldl (fun c '(address, update) => cs_insert c address update) self (btree (accounts other)).

(** ** The overlay *)

Record OverlayState (St : Type) := mkOverlay { ov_base : St; ov_changes : ChangeSet }.
Arguments mkOverlay {St}.
Arguments ov_base {St}.
Arguments ov_changes {St}.

Definition overlay_merge_changes {St} (o : OverlayState St) (newer : ChangeSet) : ChangeSet :=
  cs_merge (ov_changes o) newer.

(** The search of [code] through the updates, in address order. *)
Definition find_code (c : ChangeSet) (code_hash : B256) : option bytes :=
  foldr (fun kv acc =>
           if au_code_hash kv.2 =? code_hash
           then match au_code kv.2 with Some code => Some code | None => acc end
           else acc) None (btree (accounts c)).

Definition overlay_storage {St} `{!StateDbRead St} (o : OverlayState St) (address : Address)
    (slot : U256) : result U256 StateDbError :=
  match accounts (ov_changes o) !! address with
  | Some update =>
      if au_selfdestructed update then Ok 0
      else match au_storage update !! slot with
           | Some value => Ok value
           | None => if au_created update then Ok 0 else st_storage (ov_base o) address slot
           end
  | None => st_storage (ov_base o) address slot
  end.

#[export] Instance overlay_read {St} `{!StateDbRead St} : StateDbRead (OverlayState St) := {|
  st_nonce := fun o a =>
    match accounts (ov_changes o) !! a with
    | Some u => Ok (au_nonce u) | None => st_nonce (ov_base o) a end;
  st_balance := fun o a =>
    match accounts (ov_changes o) !! a with
    | Some u => Ok (au_balance u) | None => st_balance (ov_base o) a end;
  st_code_hash := fun o a =>
    match accounts (ov_changes o) !! a with
    | Some u => Ok (au_code_hash u) | None => st_code_hash (ov_base o) a end;
  st_code := fun o h =>
    match find_code (ov_changes o) h with
    | Some code => Ok code | None => st_code (ov_base o) h end;
  st_storage := overlay_storage;
|}.

(** ** Merging key by key *)

Definition merge_entry (old : option AccountUpdate) (new : AccountUpdate)
    : option AccountUpdate :=
  Some (match old with Some u => au_merge u new | None => new end).

Lemma cs_insert_lookup c a u b :
  accounts (cs_insert c a u) !! b =
    if decide (b = a) then merge_entry (accounts c !! a) u else accounts c !! b.
Proof.
  unfold cs_insert, merge_entry. simpl.
  destruct (accounts c !! a) eqn:E; destruct (decide (b = a)) as [->|Hne];
    by rewrite ?lookup_insert_eq, ?lookup_insert_ne by done.
Qed.

(** The merged change set, address by address. *)
Lemma cs_merge_lookup c d a :
  accounts (cs_merge c d) !! a =
    match accounts d !! a with
    | Some u => merge_entry (accounts c !! a) u
    | None => accounts c !! a
    end.
Proof.
  unfold cs_merge.
  assert (forall l c, accounts (foldl (fun c '(address, update) => cs_insert c address update) c l)
    = foldl (fun m kv => accounts (cs_insert (mkChangeSet m) kv.1 kv.2)) (accounts c) l) as ->.
  { induction l as [|[k v] l IH]; intros c'; simpl; [done|]. rewrite IH. by destruct c'. }
  rewrite (foldl_keyed_lookup _ merge_entry);
    [by rewrite btree_to_map| | |apply btree_NoDup_fst].
  - intros m k v. by rewrite cs_insert_lookup, decide_True.
  - intros m k v j Hne. by rewrite cs_insert_lookup, decide_False.
Qed.

(** The storage loop is a left-biased union. *)
Lemma storage_insert_union (m n : gmap U256 U256) :
  foldl (fun m '(slot, value) => <[slot := value]> m) m (btree n) = n ∪ m.
Proof.
  apply map_eq. intros k.
  rewrite (foldl_keyed_lookup _ (fun _ v => Some v));
    [rewrite btree_to_map| | |apply btree_NoDup_fst].
  - rewrite lookup_union. destruct (n !! k), (m !! k); done.
  - intros m' j v. apply lookup_insert_eq.
  - intros m' j v i Hne. by apply lookup_insert_ne.
Qed.

Lemma au_merge_storage u v :
  au_storage (au_merge u v) =
    if au_selfdestructed v then ∅
    else au_storage v ∪ (if au_created v then ∅ else au_storage u).
Proof.
  unfold au_merge. simpl. destruct (au_selfdestructed v); [done|].
  by rewrite storage_insert_union.
Qed.

(** ** Reading through merged changes *)

(** A change set a later one may be merged onto: where an account that the
    newer set only touches was selfdestructed, it had been created in the same
    set and carries no storage. *)
Definition merge_ok (older newer : ChangeSet) : Prop :=
  forall a u v, accounts older !! a = Some u -> accounts newer !! a = Some v ->
    au_selfdestructed u = true -> au_created v = false -> au_selfdestructed v = false ->
    au_created u = true /\ au_storage u = ∅.

Section overlay.
Context {St : Type} `{SDB : !StateDbRead St}.

Lemma overlay_merge_storage (base : St) older newer a k :
  merge_ok older newer ->
  st_storage (mkOverlay base (cs_merge older newer)) a k
  = st_storage (mkOverlay (mkOverlay base older) newer) a k.
Proof.
  intros Hok. cbn [st_storage overlay_read]. unfold overlay_storage.
  cbn [ov_changes ov_base]. rewrite cs_merge_lookup.
  destruct (accounts newer !! a) as [v|] eqn:Ev; [|done].
  cbn [st_storage overlay_read]. unfold overlay_storage. cbn [ov_changes ov_base].
  destruct (accounts older !! a) as [u|] eqn:Eu; [|done].
  unfold merge_entry. rewrite au_merge_storage.
  change (au_selfdestructed (au_merge u v)) with (au_selfdestructed v).
  change (au_created (au_merge u v)) with (if au_created v then true else au_created u).
  destruct (au_selfdestructed v) eqn:Esd; [done|].
  rewrite lookup_union. destruct (au_storage v !! k) as [x|] eqn:Ek.
  { by rewrite union_Some_l. }
  rewrite (left_id None (∪)). destruct (au_created v) eqn:Ec.
  { by rewrite lookup_empty. }
  destruct (au_selfdestructed u) eqn:Eud; [|done].
  destruct (Hok a u v Eu Ev Eud Ec Esd) as [Hcu ->]. by rewrite lookup_empty, Hcu.
Qed.

(** Reading through the merge of two change sets is reading through the
    newer one laid over the older one.  Nonces, balances and code hashes
    always agree; storage agrees when no account the newer set merely touches
    was selfdestructed in the older one without having been created there
    with empty storage. *)
Theorem overlay_merge_reads (base : St) older newer :
  (forall a, st_nonce (mkOverlay base (cs_merge older newer)) a
             = st_nonce (mkOverlay (mkOverlay base older) newer) a)
  /\ (forall a, st_balance (mkOverlay base (cs_merge older newer)) a
             = st_balance (mkOverlay (mkOverlay base older) newer) a)
  /\ (forall a, st_code_hash (mkOverlay base (cs_merge older newer)) a
             = st_code_hash (mkOverlay (mkOverlay base older) newer) a)
  /\ (merge_ok older newer -> forall a k,
        st_storage (mkOverlay base (cs_merge older newer)) a k
        = st_storage (mkOverlay (mkOverlay base older) newer) a k).
Proof.
  split_and!; [intros a..|intros Hok a k; by apply overlay_merge_storage].
  all: simpl; rewrite cs_merge_lookup; destruct (accounts newer !! a) as [v|]; [|done];
    by destruct (accounts older !! a).
Qed.
End overlay.

(** ** Where the merge and the overlay differ *)

Definition plain_update (created sd : bool) (storage : gmap U256 U256) : AccountUpdate :=
  mkUpdate created sd 0 0 0 None storage.

Definition sd_older : ChangeSet :=
  mkChangeSet {[7 := plain_update true true {[1 := 99]}]}.
Definition touch_newer : ChangeSet :=
  mkChangeSet {[7 := plain_update false false ∅]}.

#[local] Instance zero_state : StateDbRead unit := {|
  st_nonce := fun _ _ => Ok 0; st_balance := fun _ _ => Ok 0;
  st_code_hash := fun _ _ => Ok 0; st_code := fun _ _ => Ok [];
  st_storage := fun _ _ _ => Ok 0 |}.

(** A contract created and selfdestructed with a written slot, then touched:
    one after the other the slot reads zero, merged it reads the dead value. *)
Lemma merge_resurrects_storage :
  st_storage (mkOverlay (mkOverlay tt sd_older) touch_newer) 7 1 = Ok 0
  /\ st_storage (mkOverlay tt (cs_merge sd_older touch_newer)) 7 1 = Ok 99.
Proof. split; vm_compute; reflexivity. Qed.

(** ** Witness *)

Lemma overlay_merge_reads_witness :
  let older := mkChangeSet {[7 := plain_update true false {[1 := 99]}]} in
  st_storage (mkOverlay tt (cs_merge older touch_newer)) 7 1 = Ok 99
  /\ st_storage (mkOverlay (mkOverlay tt older) touch_newer) 7 1 = Ok 99.
Proof.
  cbv zeta. set (older := mkChangeSet _).
  destruct (overlay_merge_reads tt older touch_newer) as (_ & _ & _ & Hs).
  rewrite Hs; [split; vm_compute; reflexivity|].
  intros a u v Hu _ Hsd _ _. unfold older in Hu. simpl in Hu.
  apply lookup_singleton_Some in Hu as [<- <-]. discriminate Hsd.
Defined.
