(* ===== verification/Encoding.v ===== *)
(** Key and value encodings of the QMDB partitions
    (crates/storage/qmdb/src/encoding.rs) and the commit sequence markers
    (crates/storage/qmdb/src/store.rs). *)
From S2P Require Import Prelude Bytes.

Record StorageKey := mkStorageKey {
  sk_address : Address;
  sk_generation : u64;
  sk_slot : U256;
}.

#[export] Instance StorageKey_eq_dec : EqDecision StorageKey.
Proof. solve_decision. Defined.
#[export] Instance StorageKey_countable : Countable StorageKey.
Proof.
  refine (inj_countable' (fun k => (sk_address k, sk_generation k, sk_slot k))
            (fun '(a, g, s) => mkStorageKey a g s) _).
  by intros [].
Defined.

Definition sk_to_bytes (k : StorageKey) : bytes :=
  be_bytes 20 (sk_address k) ++ be_bytes 8 (sk_generation k) ++ be_bytes 32 (sk_slot k).

Definition sk_from_bytes (b : bytes) : StorageKey :=
  mkStorageKey (be_value (slice b 0 20)) (be_value (slice b 20 28)) (be_value (slice b 28 60)).

Definition ACCOUNT_SIZE : nat := 80.

(** [AccountEncoding::encode]. *)
Definition account_encode (nonce : u64) (balance : U256) (code_hash : B256) (generation : u64)
    : bytes :=
  be_bytes 8 nonce ++ be_bytes 32 balance ++ be_bytes 32 code_hash ++ be_bytes 8 generation.

(** [AccountEncoding::decode]. *)
Definition account_decode (b : bytes) : option (u64 * U256 * B256 * u64) :=
  if Nat.ltb (length b) ACCOUNT_SIZE then None
  else Some (be_value (slice b 0 8), be_value (slice b 8 40), be_value (slice b 40 72),
             be_value (slice b 72 80)).

(** ** Commit sequence markers *)

Definition COMMIT_SEQ_ACCOUNT_KEY : Address := 2 ^ 160 - 2.
Definition COMMIT_SEQ_STORAGE_KEY : StorageKey :=
  mkStorageKey COMMIT_SEQ_ACCOUNT_KEY u64_max (2 ^ 256 - 1).
Definition COMMIT_SEQ_CODE_KEY : B256 := 2 ^ 256 - 2.

Definition encode_commit_seq_account (seq : u64) : bytes := account_encode seq 0 0 0.
Definition decode_commit_seq_account (b : bytes) : option u64 :=
  (fun '(nonce, _, _, _) => nonce) <$> account_decode b.
Definition encode_commit_seq_code (seq : u64) : bytes := be_bytes 8 seq.
Definition decode_commit_seq_code (b : bytes) : option u64 :=
  if Nat.ltb (length b) 8 then None else Some (be_value (slice b 0 8)).

(** The read of the storage marker: the value when it fits 64 bits. *)
Definition decode_commit_seq_storage (value : U256) : option u64 :=
  if value `div` 2 ^ 64 =? 0 then Some (value `mod` 2 ^ 64) else None.

(** [PartitionCommitSeqs]. *)
Record PartitionCommitSeqs := mkSeqs {
  seq_accounts : option u64;
  seq_storage : option u64;
  seq_code : option u64;
}.

Definition is_consistent (s : PartitionCommitSeqs) : bool :=
  match seq_accounts s, seq_storage s, seq_code s with
  | None, None, None => true
  | Some a, Some st, Some c => (a =? st) && (st =? c)
  | _, _, _ => false
  end.

(** ** Round trips *)

Definition key_ok (k : StorageKey) : Prop :=
  in_width 160 (sk_address k) /\ in_width 64 (sk_generation k) /\ in_width 256 (sk_slot k).

Definition account_ok (acct : u64 * U256 * B256 * u64) : Prop :=
  let '(nonce, balance, code_hash, generation) := acct in
  in_width 64 nonce /\ in_width 256 balance /\ in_width 256 code_hash /\ in_width 64 generation.

(** Cuts a slice out of a concatenation of encoded fields. *)
Ltac slices :=
  repeat first
    [ rewrite slice_all by (by rewrite ?be_bytes_length)
    | rewrite slice_app_l by (rewrite be_bytes_length; lia); cbn [Nat.sub]
    | erewrite slice_app_r by ((rewrite be_bytes_length; reflexivity) || lia); cbn [Nat.sub] ].

Lemma sk_roundtrip k : key_ok k -> sk_from_bytes (sk_to_bytes k) = k.
Proof.
  destruct k as [a g s]. intros (Ha & Hg & Hs). cbn [sk_address sk_generation sk_slot] in *.
  unfold sk_from_bytes, sk_to_bytes. cbn [sk_address sk_generation sk_slot].
  slices. rewrite !be_value_bytes_id by (by eapply in_width_bytes). done.
Qed.

Lemma account_encode_length n b h g : length (account_encode n b h g) = ACCOUNT_SIZE.
Proof. unfold account_encode. by rewrite !length_app, !be_bytes_length. Qed.

Lemma account_roundtrip n b h g :
  account_ok (n, b, h, g) -> account_decode (account_encode n b h g) = Some (n, b, h, g).
Proof.
  intros (Hn & Hb & Hh & Hg). unfold account_decode. rewrite account_encode_length. simpl.
  unfold account_encode. slices.
  rewrite !be_value_bytes_id by (by eapply in_width_bytes). done.
Qed.

Lemma commit_seq_account_roundtrip seq :
  in_width 64 seq -> decode_commit_seq_account (encode_commit_seq_account seq) = Some seq.
Proof.
  intros H. unfold decode_commit_seq_account, encode_commit_seq_account.
  rewrite account_roundtrip; [done|]. split_and!; [done|split; lia..].
Qed.

Lemma commit_seq_storage_roundtrip seq :
  in_width 64 seq -> decode_commit_seq_storage seq = Some seq.
Proof.
  intros H. unfold decode_commit_seq_storage, in_width in *.
  rewrite Z.div_small, Z.mod_small by done. done.
Qed.

Lemma commit_seq_code_roundtrip seq :
  in_width 64 seq -> decode_commit_seq_code (encode_commit_seq_code seq) = Some seq.
Proof.
  intros H. unfold decode_commit_seq_code, encode_commit_seq_code. rewrite be_bytes_length. simpl.
  slices. rewrite be_value_bytes_id; [done|]. by eapply in_width_bytes.
Qed.

(** ** Properties *)

(** The encodings of storage keys and accounts are invertible on values
    of the declared widths: decoding what was encoded gives it back, and no
    two keys share an encoding, so the partitions never alias. *)
Theorem encoding_roundtrip k k' n b h g :
  key_ok k -> key_ok k' -> account_ok (n, b, h, g) ->
  sk_from_bytes (sk_to_bytes k) = k
  /\ (sk_to_bytes k = sk_to_bytes k' -> k = k')
  /\ account_decode (account_encode n b h g) = Some (n, b, h, g)
  /\ length (sk_to_bytes k) = 60%nat /\ length (account_encode n b h g) = 80%nat.
Proof.
  intros Hk Hk' Ha. split_and!.
  - by apply sk_roundtrip.
  - intros He. by rewrite <- (sk_roundtrip k), He, sk_roundtrip.
  - by apply account_roundtrip.
  - unfold sk_to_bytes. by rewrite !length_app, !be_bytes_length.
  - apply account_encode_length.
Qed.

Lemma encoding_roundtrip_witness :
  sk_from_bytes (sk_to_bytes (mkStorageKey 1234 5 678)) = mkStorageKey 1234 5 678
  /\ account_decode (account_encode 7 1000 42 3) = Some (7, 1000, 42, 3).
Proof.
  destruct (encoding_roundtrip (mkStorageKey 1234 5 678) (mkStorageKey 1234 5 678) 7 1000 42 3)
    as (Hk & _ & Ha & _).
  - repeat split; vm_compute; done || discriminate.
  - repeat split; vm_compute; done || discriminate.
  - repeat split; vm_compute; done || discriminate.
  - split; [exact Hk|exact Ha].
Defined.
