(* ===== verification/QmdbStore.v ===== *)
(** The QMDB store (crates/storage/qmdb/src/store.rs, batch.rs, traits.rs) and
    the state database on top of it (crates/storage/handlers/src/state.rs,
    qmdb.rs and adapter.rs).

    A partition is any implementation of [Partition], the traits
    [QmdbGettable] and [QmdbBatchable]; [PartitionLaws] states what the store
    relies on.  A write of the store goes partition by partition, so an
    operation returns the state it leaves together with its result. *)
From S2P Require Import Prelude Bytes StateDb Changes Encoding.

(** ** Partitions *)

Class Partition (P K V : Type) := {
  p_get : P -> K -> result (option V) string;
  p_write_batch : P -> list (K * option V) -> P * result unit string;
}.

(** The last operation of a batch on a key. *)
Definition last_write {K V} `{!EqDecision K} (ops : list (K * option V)) (k : K)
    : option (option V) :=
  foldl (fun acc op => if decide (op.1 = k) then Some op.2 else acc) None ops.

(** What a partition answers after a batch. *)
Definition after_batch {P K V} `{!EqDecision K} `{!Partition P K V} (p : P)
    (ops : list (K * option V)) (k : K) : result (option V) string :=
  match last_write ops k with Some w => Ok w | None => p_get p k end.

(** A batch that succeeds sets every key to its last operation. *)
Class PartitionLaws (P K V : Type) `{!EqDecision K} `{!Partition P K V} : Prop := {
  p_write_ok : forall p ops p', p_write_batch p ops = (p', Ok tt) ->
    forall k, p_get p' k = after_batch p ops k;
}.

(** Partitions across a restart: [p_reopen] is the partition the next start of
    the process opens, [p_sound] what a partition keeps by its operations. *)
Class Durable (P K V : Type) `{!Partition P K V} := {
  p_reopen : P -> P;
  p_sound : P -> Prop;
}.
Arguments p_reopen {P} K V {_ _}.
Arguments p_sound {P} K V {_ _}.

Definition readable {P K V} `{!Partition P K V} (p : P) : Prop :=
  forall k, exists v, p_get p k = Ok v.

(** What can be read is on disk; a batch that fails is there entirely or not at
    all. *)
Class DurableLaws (P K V : Type) `{!EqDecision K} `{!Partition P K V} `{!Durable P K V}
    : Prop := {
  p_sound_reopen : forall p, p_sound K V (p_reopen K V p);
  p_sound_write : forall p (ops : list (K * option V)) p',
    p_sound K V p -> p_write_batch p ops = (p', Ok tt) -> p_sound K V p';
  p_reopen_readable : forall p, p_sound K V p -> readable (K := K) (V := V) p ->
    forall k : K, p_get (p_reopen K V p) k = p_get p k;
  p_reopen_failed : forall p (ops : list (K * option V)) p' e,
    p_sound K V p -> readable (K := K) (V := V) p -> p_write_batch p ops = (p', Err e) ->
    (forall k : K, p_get (p_reopen K V p') k = p_get p k)
    \/ (forall k : K, p_get (p_reopen K V p') k = after_batch p ops k);
}.

(** After a restart a written partition is the old or the new one, and the new
    one if the write succeeded. *)
Lemma reopen_write {P K V} `{!EqDecision K} `{!Partition P K V} `{!PartitionLaws P K V}
    `{!Durable P K V} `{!DurableLaws P K V} (p p' : P) (ops : list (K * option V)) r :
  p_sound K V p -> readable (K := K) (V := V) p -> p_write_batch p ops = (p', r) ->
  (forall k : K, p_get (p_reopen K V p') k = after_batch p ops k)
  \/ (exists e, r = Err e) /\ (forall k : K, p_get (p_reopen K V p') k = p_get p k).
Proof.
  intros Hs Hp Hw. destruct r as [[]|e].
  - left. intros k. rewrite p_reopen_readable; [by apply p_write_ok|by eapply p_sound_write|].
    intros j. rewrite (p_write_ok _ _ _ Hw j). unfold after_batch.
    destruct (last_write ops j); [by eexists|apply Hp].
  - destruct (p_reopen_failed p ops p' e Hs Hp Hw) as [H|H]; [right; eauto|by left].
Qed.

(** ** Errors and records *)

Inductive QmdbError : Type :=
| QStorage (msg : string)
| StoreUnavailable
| QDecodeError
| QCodeNotFound (hash : B256)
| InconsistentPartitions (msg : string).

Record Stores (A S C : Type) := mkStores {
  s_accounts : A; s_storage : S; s_code : C;
}.
Arguments mkStores {A S C}.
Arguments s_accounts {A S C}.
Arguments s_storage {A S C}.
Arguments s_code {A S C}.

Record QmdbStore (A S C : Type) := mkQmdb {
  q_stores : option (Stores A S C);
  q_commit_seq : u64;
}.
Arguments mkQmdb {A S C}.
Arguments q_stores {A S C}.
Arguments q_commit_seq {A S C}.

Record StoreBatches := mkBatches {
  b_accounts : list (Address * option bytes);
  b_storage : list (StorageKey * option U256);
  b_code : list (B256 * option bytes);
}.

Definition batches_len (b : StoreBatches) : usize :=
  len (b_accounts b) + len (b_storage b) + len (b_code b).
Definition batches_is_empty (b : StoreBatches) : bool :=
  match b_accounts b, b_storage b, b_code b with [], [], [] => true | _, _, _ => false end.

Section store.
Context {A S C : Type}.
Context `{PA : !Partition A Address bytes} `{PS : !Partition S StorageKey U256}
        `{PC : !Partition C B256 bytes}.

Definition qmdb_new (accounts : A) (storage : S) (code : C) : QmdbStore A S C :=
  mkQmdb (Some (mkStores accounts storage code)) 0.

Definition set_commit_seq (s : QmdbStore A S C) (seq : u64) : QmdbStore A S C :=
  mkQmdb (q_stores s) seq.

Definition stores (s : QmdbStore A S C) : result (Stores A S C) QmdbError :=
  ok_or (q_stores s) StoreUnavailable.

Definition take_stores (s : QmdbStore A S C)
    : QmdbStore A S C * result (Stores A S C) QmdbError :=
  (mkQmdb None (q_commit_seq s), stores s).

Definition restore_stores (s : QmdbStore A S C) (st : Stores A S C) : QmdbStore A S C :=
  mkQmdb (Some st) (q_commit_seq s).

Definition get_account (s : QmdbStore A S C) (address : Address)
    : result (option (u64 * U256 * B256 * u64)) QmdbError :=
  let? st := stores s in
  match p_get (s_accounts st) address with
  | Ok (Some b) =>
      let? acct := ok_or (account_decode b) QDecodeError in Ok (Some acct)
  | Ok None => Ok None
  | Err e => Err (QStorage e)
  end.

Definition get_storage (s : QmdbStore A S C) (key : StorageKey)
    : result (option U256) QmdbError :=
  let? st := stores s in map_err QStorage (p_get (s_storage st) key).

Definition get_code (s : QmdbStore A S C) (hash : B256) : result (option bytes) QmdbError :=
  let? st := stores s in map_err QStorage (p_get (s_code st) hash).

(** The generation an update reads and the one it writes at. *)
Definition current_gen (st : Stores A S C) (address : Address) : result u64 QmdbError :=
  match p_get (s_accounts st) address with
  | Ok (Some b) => Ok (match account_decode b with Some (_, _, _, g) => g | None => 0 end)
  | Ok None => Ok 0
  | Err e => Err (QStorage e)
  end.

Definition new_gen (u : AccountUpdate) (current : u64) : u64 :=
  if au_created u || au_selfdestructed u then saturating_add u64_max current 1 else current.

(** The operations of one account. *)
Definition account_ops (address : Address) (u : AccountUpdate) (g : u64)
    : list (Address * option bytes) :=
  if au_selfdestructed u then [(address, None)]
  else [(address, Some (account_encode (au_nonce u) (au_balance u) (au_code_hash u) g))].

Definition code_ops (u : AccountUpdate) : list (B256 * option bytes) :=
  if au_selfdestructed u then []
  else match au_code u with
       | Some code => [(au_code_hash u, Some code)]
       | None => []
       end.

Definition storage_ops (address : Address) (u : AccountUpdate) (g : u64)
    : list (StorageKey * option U256) :=
  (fun '(slot, value) =>
     (mkStorageKey address g slot, if value =? 0 then None else Some value))
  <$> btree (au_storage u).

(** The loop of [build_batches]. *)
Fixpoint build_batches_loop (st : Stores A S C) (l : list (Address * AccountUpdate))
    (batches : StoreBatches) : result StoreBatches QmdbError :=
  match l with
  | [] => Ok batches
  | (address, u) :: l =>
      let? current := current_gen st address in
      let g := new_gen u current in
      build_batches_loop st l
        (mkBatches (b_accounts batches ++ account_ops address u g)
           (b_storage batches ++ storage_ops address u g)
           (b_code batches ++ code_ops u))
  end.

Definition build_batches (s : QmdbStore A S C) (changes : ChangeSet)
    : result StoreBatches QmdbError :=
  let? st := stores s in
  build_batches_loop st (btree (accounts changes)) (mkBatches [] [] []).

(** [apply_batches]: the three partitions in turn; a failure leaves the earlier
    partitions written. *)
Definition apply_batches (s : QmdbStore A S C) (batches : StoreBatches)
    : QmdbStore A S C * result unit QmdbError :=
  let next_seq := saturating_add u64_max (q_commit_seq s) 1 in
  match q_stores s with
  | None => (s, Err StoreUnavailable)
  | Some st =>
      let a_ops := b_accounts batches
        ++ [(COMMIT_SEQ_ACCOUNT_KEY, Some (encode_commit_seq_account next_seq))] in
      let s_ops := b_storage batches ++ [(COMMIT_SEQ_STORAGE_KEY, Some next_seq)] in
      let c_ops := b_code batches
        ++ [(COMMIT_SEQ_CODE_KEY, Some (encode_commit_seq_code next_seq))] in
      match p_write_batch (s_accounts st) a_ops with
      | (a', Err e) =>
          (mkQmdb (Some (mkStores a' (s_storage st) (s_code st))) (q_commit_seq s),
           Err (QStorage e))
      | (a', Ok _) =>
          match p_write_batch (s_storage st) s_ops with
          | (s', Err e) =>
              (mkQmdb (Some (mkStores a' s' (s_code st))) (q_commit_seq s), Err (QStorage e))
          | (s', Ok _) =>
              match p_write_batch (s_code st) c_ops with
              | (c', Err e) =>
                  (mkQmdb (Some (mkStores a' s' c')) (q_commit_seq s), Err (QStorage e))
              | (c', Ok _) => (mkQmdb (Some (mkStores a' s' c')) next_seq, Ok tt)
              end
          end
      end
  end.

Definition commit_changes (s : QmdbStore A S C) (changes : ChangeSet)
    : QmdbStore A S C * result unit QmdbError :=
  if cs_is_empty changes then (s, Ok tt)
  else match build_batches s changes with
       | Err e => (s, Err e)
       | Ok batches => apply_batches s batches
       end.

Definition read_partition_commit_seqs (s : QmdbStore A S C)
    : result PartitionCommitSeqs QmdbError :=
  let? st := stores s in
  let? a := map_err QStorage (p_get (s_accounts st) COMMIT_SEQ_ACCOUNT_KEY) in
  let? v := map_err QStorage (p_get (s_storage st) COMMIT_SEQ_STORAGE_KEY) in
  let? c := map_err QStorage (p_get (s_code st) COMMIT_SEQ_CODE_KEY) in
  Ok (mkSeqs (a ≫= decode_commit_seq_account) (v ≫= decode_commit_seq_storage)
        (c ≫= decode_commit_seq_code)).

(** ** The store as three maps *)

(** What the reads of a store return. *)
Record view := mkView {
  v_acct : Address -> option (u64 * U256 * B256 * u64);
  v_slot : StorageKey -> option U256;
  v_code : B256 -> option bytes;
}.

(** Every read of [st] succeeds, with the answers of [v]. *)
Record has_view (st : Stores A S C) (v : view) : Prop := {
  hv_acct : forall a, match v_acct v a with
    | Some acct => exists b, p_get (s_accounts st) a = Ok (Some b) /\ account_decode b = Some acct
    | None => p_get (s_accounts st) a = Ok None
    end;
  hv_slot : forall k, p_get (s_storage st) k = Ok (v_slot v k);
  hv_code : forall h, p_get (s_code st) h = Ok (v_code v h);
}.

Definition gen_of (v : view) (a : Address) : u64 :=
  match v_acct v a with Some (_, _, _, g) => g | None => 0 end.

(** The generation at which a change set writes the storage of [a]. *)
Definition write_gen (v : view) (a : Address) (u : AccountUpdate) : u64 :=
  new_gen u (gen_of v a).

(** The code a change set stores under a hash: the last one in address order. *)
Definition written_code (l : list (Address * AccountUpdate)) (h : B256) : option (option bytes) :=
  last_write (kv ← l; code_ops kv.2) h.

(** The abstract effect of a commit. *)
Definition commit_view (seq : u64) (v : view) (c : ChangeSet) : view := {|
  v_acct := fun a =>
    if decide (a = COMMIT_SEQ_ACCOUNT_KEY) then Some (seq, 0, 0, 0)
    else match accounts c !! a with
         | Some u =>
             if au_selfdestructed u then None
             else Some (au_nonce u, au_balance u, au_code_hash u, write_gen v a u)
         | None => v_acct v a
         end;
  v_slot := fun k =>
    if decide (k = COMMIT_SEQ_STORAGE_KEY) then Some seq
    else match accounts c !! sk_address k with
         | Some u =>
             if decide (sk_generation k = write_gen v (sk_address k) u) then
               match au_storage u !! sk_slot k with
               | Some value => if value =? 0 then None else Some value
               | None => v_slot v k
               end
             else v_slot v k
         | None => v_slot v k
         end;
  v_code := fun h =>
    if decide (h = COMMIT_SEQ_CODE_KEY) then Some (encode_commit_seq_code seq)
    else match written_code (btree (accounts c)) h with
         | Some w => w
         | None => v_code v h
         end;
|}.

(** ** Batches *)

Lemma last_write_nil {K V} `{!EqDecision K} (k : K) : last_write (V:=V) [] k = None.
Proof. done. Qed.

Lemma last_write_app {K V} `{!EqDecision K} (l1 l2 : list (K * option V)) k :
  last_write (l1 ++ l2) k =
  match last_write l2 k with Some w => Some w | None => last_write l1 k end.
Proof.
  unfold last_write. rewrite foldl_app. generalize (foldl
    (fun acc op => if decide (op.1 = k) then Some op.2 else acc) None l1). intros acc.
  induction l2 as [|op l2 IH] using rev_ind; [done|].
  rewrite !foldl_snoc. by destruct (decide (op.1 = k)).
Qed.

Lemma last_write_singleton {K V} `{!EqDecision K} (j : K) (w : option V) k :
  last_write [(j, w)] k = if decide (j = k) then Some w else None.
Proof. done. Qed.

(** No operation touches the key. *)
Lemma last_write_None {K V} `{!EqDecision K} (l : list (K * option V)) k :
  Forall (fun op => op.1 <> k) l -> last_write l k = None.
Proof.
  induction l as [|op l IH] using rev_ind; [done|].
  intros [Hl Hop]%Forall_app. apply Forall_cons in Hop as [Hop _].
  rewrite last_write_app, IH by done. destruct op. rewrite last_write_singleton.
  simpl in Hop. by rewrite decide_False by done.
Qed.

(** With distinct keys the last operation is the only one. *)
Lemma last_write_NoDup {K V} `{!EqDecision K} (l : list (K * option V)) k w :
  NoDup l.*1 -> (k, w) ∈ l -> last_write l k = Some w.
Proof.
  induction l as [|[j w'] l IH] using rev_ind; [by intros _ ?%elem_of_nil|].
  rewrite fmap_app. intros (Hnd & Hdis & _)%NoDup_app Hin.
  rewrite last_write_app, last_write_singleton.
  apply elem_of_app in Hin as [Hin|Hin].
  - rewrite decide_False; [by apply IH|]. intros ->.
    apply (Hdis k); [by apply (list_elem_of_fmap_2 fst l (k, w))|by left].
  - apply list_elem_of_singleton in Hin. injection Hin as -> ->. by rewrite decide_True.
Qed.

(** A batch assembled per tag: only the part of the key's tag matters. *)
Lemma last_write_tagged {K V T} `{!EqDecision K} (tag : K -> Z)
    (f : Z * T -> list (K * option V)) (l : list (Z * T)) k :
  NoDup l.*1 -> (forall x, Forall (fun op => tag op.1 = x.1) (f x)) ->
  last_write (x ← l; f x) k =
  match (list_to_map l : gmap Z T) !! tag k with
  | Some t => last_write (f (tag k, t)) k
  | None => None
  end.
Proof.
  intros Hnd Hf. induction l as [|[i t] l IH]; [simpl; by rewrite lookup_empty|].
  rewrite fmap_cons in Hnd. apply NoDup_cons in Hnd as [Hni Hnd].
  rewrite bind_cons, last_write_app, IH by done. simpl.
  assert (i <> tag k -> last_write (f (i, t)) k = None) as Hother.
  { intros Hne. apply last_write_None. eapply Forall_impl; [apply (Hf (i, t))|].
    simpl. intros [k' w] Hk' Heq. simpl in *. congruence. }
  destruct (decide (i = tag k)) as [->|Hne].
  - rewrite lookup_insert_eq, (not_elem_of_list_to_map_1 l (tag k) Hni). done.
  - rewrite lookup_insert_ne by done.
    destruct (list_to_map l !! tag k) as [t'|]; rewrite Hother by done; [|done].
    by destruct (last_write (f (tag k, t')) k).
Qed.

Lemma current_gen_view (st : Stores A S C) v a : has_view st v -> current_gen st a = Ok (gen_of v a).
Proof.
  intros Hv. unfold current_gen, gen_of. pose proof (hv_acct _ _ Hv a) as Ha.
  destruct (v_acct v a) as [[[[n b] h] g]|].
  - destruct Ha as (bs & -> & ->). done.
  - by rewrite Ha.
Qed.

(** The batches [build_batches] assembles from the accounts in [l]. *)
Definition batches_of (v : view) (l : list (Address * AccountUpdate)) : StoreBatches :=
  mkBatches (kv ← l; account_ops kv.1 kv.2 (write_gen v kv.1 kv.2))
    (kv ← l; storage_ops kv.1 kv.2 (write_gen v kv.1 kv.2))
    (kv ← l; code_ops kv.2).

Lemma build_batches_loop_spec (st : Stores A S C) v l b :
  has_view st v ->
  build_batches_loop st l b =
  Ok (mkBatches (b_accounts b ++ b_accounts (batches_of v l))
        (b_storage b ++ b_storage (batches_of v l)) (b_code b ++ b_code (batches_of v l))).
Proof.
  intros Hv. revert b. induction l as [|[a u] l IH]; intros b.
  { simpl. rewrite !app_nil_r. by destruct b. }
  cbn [build_batches_loop]. rewrite (current_gen_view st v a Hv). rewrite IH.
  unfold batches_of. cbn [b_accounts b_storage b_code]. rewrite !bind_cons. simpl.
  by rewrite !app_assoc.
Qed.

(** The three batches, key by key. *)
Lemma account_batch v c a :
  last_write (b_accounts (batches_of v (btree (accounts c)))) a =
  (fun u => if au_selfdestructed u then None
            else Some (account_encode (au_nonce u) (au_balance u) (au_code_hash u)
                         (write_gen v a u))) <$> accounts c !! a.
Proof.
  unfold batches_of. cbn [b_accounts].
  rewrite (last_write_tagged id (fun kv => account_ops kv.1 kv.2 (write_gen v kv.1 kv.2)));
    [|apply btree_NoDup_fst|].
  - rewrite btree_to_map. simpl. destruct (accounts c !! a) as [u|]; simpl; [|done].
    unfold account_ops. destruct (au_selfdestructed u); rewrite last_write_singleton;
      by rewrite decide_True.
  - intros [k u]. unfold account_ops. simpl. by destruct (au_selfdestructed u); repeat constructor.
Qed.

Lemma storage_batch v c k :
  last_write (b_storage (batches_of v (btree (accounts c)))) k =
  match accounts c !! sk_address k with
  | Some u =>
      if decide (sk_generation k = write_gen v (sk_address k) u)
      then (fun value => if value =? 0 then None else Some value) <$> au_storage u !! sk_slot k
      else None
  | None => None
  end.
Proof.
  unfold batches_of. cbn [b_storage].
  rewrite (last_write_tagged sk_address
    (fun kv => storage_ops kv.1 kv.2 (write_gen v kv.1 kv.2))); [|apply btree_NoDup_fst|].
  2:{ intros [a u]. unfold storage_ops. simpl. apply Forall_fmap, Forall_forall.
      by intros [slot value] _. }
  rewrite btree_to_map. destruct (accounts c !! sk_address k) as [u|]; [|done]. simpl.
  set (g := write_gen v (sk_address k) u).
  assert (forall slot w, (mkStorageKey (sk_address k) g slot, w)
      ∈ storage_ops (sk_address k) u g <->
    exists value, au_storage u !! slot = Some value
      /\ w = if value =? 0 then None else Some value) as Hel.
  { intros slot w. unfold storage_ops. rewrite list_elem_of_fmap. split.
    - intros ([slot' value] & [= -> ->] & Hin%elem_of_btree). eauto.
    - intros (value & Hv & ->). exists (slot, value). by rewrite elem_of_btree. }
  destruct (decide (sk_generation k = g)) as [Hg|Hg].
  - assert (k = mkStorageKey (sk_address k) g (sk_slot k)) as Hk by (destruct k; simpl in *; congruence).
    destruct (au_storage u !! sk_slot k) as [value|] eqn:Es; simpl.
    + apply last_write_NoDup.
      * unfold storage_ops. rewrite <- list_fmap_compose.
        apply (NoDup_fmap_1 sk_slot). rewrite <- list_fmap_compose.
        erewrite list_fmap_ext; [apply (btree_NoDup_fst (au_storage u))|].
        by intros i [slot value'] _.
      * rewrite Hk at 1. apply Hel. eauto.
    + apply last_write_None, Forall_forall. intros [k' w] Hin Heq. simpl in Heq. subst k'.
      rewrite Hk in Hin. apply Hel in Hin as (value & Hv & _). congruence.
  - apply last_write_None, Forall_forall. intros [k' w] Hin Heq. simpl in Heq. subst k'.
    unfold storage_ops in Hin. apply list_elem_of_fmap in Hin as ([slot value] & [= Hk _] & _).
    rewrite Hk in Hg. done.
Qed.

(** Widths of the values of a change set. *)
Definition update_ok (u : AccountUpdate) : Prop :=
  in_width 64 (au_nonce u) /\ in_width 256 (au_balance u) /\ in_width 256 (au_code_hash u).
Definition changes_ok (c : ChangeSet) : Prop := map_Forall (fun _ u => update_ok u) (accounts c).
Definition view_ok (v : view) : Prop := forall a, in_width 64 (gen_of v a).

Lemma write_gen_width v a u : view_ok v -> in_width 64 (write_gen v a u).
Proof.
  intros Hv. specialize (Hv a). unfold write_gen, new_gen, saturating_add, in_width, u64_max in *.
  destruct (_ || _); lia.
Qed.

Context `{LA : !PartitionLaws A Address bytes} `{LS : !PartitionLaws S StorageKey U256}
        `{LC : !PartitionLaws C B256 bytes}.
#[local] Set Default Proof Using "Type*".

(** The markers before the first commit, or after commit number [seq]. *)
Definition markers_at (v : view) (seq : u64) : Prop :=
  in_width 64 seq /\
  ((seq = 0 /\ v_acct v COMMIT_SEQ_ACCOUNT_KEY = None
    /\ v_slot v COMMIT_SEQ_STORAGE_KEY = None /\ v_code v COMMIT_SEQ_CODE_KEY = None)
   \/ (v_acct v COMMIT_SEQ_ACCOUNT_KEY = Some (seq, 0, 0, 0)
       /\ v_slot v COMMIT_SEQ_STORAGE_KEY = Some seq
       /\ v_code v COMMIT_SEQ_CODE_KEY = Some (encode_commit_seq_code seq))).

(** The partitions after their batch was written. *)
Lemma accounts_written (a a' : A) v c seq :
  (forall k, match v_acct v k with
    | Some acct => exists b, p_get a k = Ok (Some b) /\ account_decode b = Some acct
    | None => p_get a k = Ok None end) ->
  view_ok v -> changes_ok c -> in_width 64 seq ->
  (forall k, p_get a' k = after_batch a (b_accounts (batches_of v (btree (accounts c)))
    ++ [(COMMIT_SEQ_ACCOUNT_KEY, Some (encode_commit_seq_account seq))]) k) ->
  forall k, match v_acct (commit_view seq v c) k with
    | Some acct => exists b, p_get a' k = Ok (Some b) /\ account_decode b = Some acct
    | None => p_get a' k = Ok None end.
Proof.
  intros Ha Hv Hc Hseq Hw k. pose proof (Hw k) as Hk. unfold after_batch in Hk.
  rewrite last_write_app, last_write_singleton, account_batch in Hk.
  unfold commit_view; cbn [v_acct]. rewrite (decide_ext (k = _) (COMMIT_SEQ_ACCOUNT_KEY = k)) by naive_solver.
  destruct (decide (COMMIT_SEQ_ACCOUNT_KEY = k)) as [<-|Hne].
  - eexists. split; [exact Hk|]. unfold encode_commit_seq_account.
    apply account_roundtrip. split_and!; [done|split; lia..].
  - destruct (accounts c !! k) as [u|] eqn:Eu; simpl in Hk; [|rewrite Hk; apply Ha].
    destruct (au_selfdestructed u); [done|]. eexists. split; [exact Hk|].
    apply account_roundtrip. destruct (Hc k u Eu) as (? & ? & ?).
    split_and!; [done|done|done|]. by apply write_gen_width.
Qed.

Lemma storage_written (s s' : S) v c seq :
  (forall k, p_get s k = Ok (v_slot v k)) ->
  (forall k, p_get s' k = after_batch s (b_storage (batches_of v (btree (accounts c)))
    ++ [(COMMIT_SEQ_STORAGE_KEY, Some seq)]) k) ->
  forall k, p_get s' k = Ok (v_slot (commit_view seq v c) k).
Proof.
  intros Hs Hw k. rewrite (Hw k). unfold after_batch.
  rewrite last_write_app, last_write_singleton, storage_batch.
  unfold commit_view; cbn [v_slot]. rewrite (decide_ext (k = _) (COMMIT_SEQ_STORAGE_KEY = k)) by naive_solver.
  destruct (decide (COMMIT_SEQ_STORAGE_KEY = k)); [done|].
  destruct (accounts c !! sk_address k) as [u|]; [|apply Hs].
  destruct (decide _); [|apply Hs].
  destruct (au_storage u !! sk_slot k); [done|apply Hs].
Qed.

Lemma code_written (cd cd' : C) v c seq :
  (forall k, p_get cd k = Ok (v_code v k)) ->
  (forall k, p_get cd' k = after_batch cd (b_code (batches_of v (btree (accounts c)))
    ++ [(COMMIT_SEQ_CODE_KEY, Some (encode_commit_seq_code seq))]) k) ->
  forall k, p_get cd' k = Ok (v_code (commit_view seq v c) k).
Proof.
  intros Hs Hw k. rewrite (Hw k). unfold after_batch.
  rewrite last_write_app, last_write_singleton.
  unfold commit_view; cbn [v_code]. rewrite (decide_ext (k = _) (COMMIT_SEQ_CODE_KEY = k)) by naive_solver.
  destruct (decide (COMMIT_SEQ_CODE_KEY = k)); [done|].
  unfold batches_of, written_code. cbn [b_code].
  destruct (last_write _ k); [done|apply Hs].
Qed.

(** A store whose reads succeed. *)
Definition store_view (s : QmdbStore A S C) (v : view) : Prop :=
  exists st, q_stores s = Some st /\ has_view st v.

Lemma commit_batches (s : QmdbStore A S C) st v c :
  q_stores s = Some st -> has_view st v -> accounts c <> ∅ ->
  commit_changes s c = apply_batches s (batches_of v (btree (accounts c))).
Proof.
  intros Hst Hv Hne. unfold commit_changes, cs_is_empty. rewrite bool_decide_false by done.
  unfold build_batches, stores. rewrite Hst. simpl.
  rewrite (build_batches_loop_spec st v _ _ Hv). done.
Qed.

Lemma commit_changes_view (s s' : QmdbStore A S C) v c :
  store_view s v -> view_ok v -> changes_ok c -> in_width 64 (q_commit_seq s) ->
  accounts c <> ∅ -> commit_changes s c = (s', Ok tt) ->
  let seq := saturating_add u64_max (q_commit_seq s) 1 in
  store_view s' (commit_view seq v c) /\ q_commit_seq s' = seq.
Proof.
  intros (st & Hst & Hv) Hvo Hco Hseq Hne Hc. cbv zeta.
  rewrite (commit_batches s st v c Hst Hv Hne) in Hc. unfold apply_batches in Hc.
  rewrite Hst in Hc. set (seq := saturating_add u64_max (q_commit_seq s) 1) in *.
  assert (in_width 64 seq) as Hsw.
  { unfold seq, saturating_add, in_width, u64_max in *. lia. }
  destruct (p_write_batch (s_accounts st) _) as [a' [[]|e]] eqn:Ea; [|done].
  destruct (p_write_batch (s_storage st) _) as [s1 [[]|e]] eqn:Es; [|done].
  destruct (p_write_batch (s_code st) _) as [c' [[]|e]] eqn:Ec; [|done].
  injection Hc as <-. split; [|done]. eexists. split; [done|]. split.
  - exact (accounts_written _ _ v c seq (hv_acct _ _ Hv) Hvo Hco Hsw (p_write_ok _ _ _ Ea)).
  - exact (storage_written _ _ v c seq (hv_slot _ _ Hv) (p_write_ok _ _ _ Es)).
  - exact (code_written _ _ v c seq (hv_code _ _ Hv) (p_write_ok _ _ _ Ec)).
Qed.

(** The markers a store reads back. *)
Lemma seqs_of_view (st : Stores A S C) seq v1 v2 v3 :
  (match v1 with
   | Some acct => exists b, p_get (s_accounts st) COMMIT_SEQ_ACCOUNT_KEY = Ok (Some b)
       /\ account_decode b = Some acct
   | None => p_get (s_accounts st) COMMIT_SEQ_ACCOUNT_KEY = Ok None end) ->
  p_get (s_storage st) COMMIT_SEQ_STORAGE_KEY = Ok v2 ->
  p_get (s_code st) COMMIT_SEQ_CODE_KEY = Ok v3 ->
  read_partition_commit_seqs (mkQmdb (Some st) seq) =
  Ok (mkSeqs ((fun '(n, _, _, _) => n) <$> v1) (v2 ≫= decode_commit_seq_storage)
        (v3 ≫= decode_commit_seq_code)).
Proof.
  intros H1 H2 H3. unfold read_partition_commit_seqs, stores. simpl. rewrite H2, H3.
  destruct v1 as [acct|].
  - destruct H1 as (b & -> & Hd). simpl. unfold decode_commit_seq_account. by rewrite Hd.
  - rewrite H1. done.
Qed.
End store.
