(* ===== verification/QmdbState.v ===== *)
(** The state database over QMDB (crates/storage/handlers/src/qmdb.rs,
    state.rs and adapter.rs): reads through the account generation, commits,
    genesis, and the REVM adapter; and the theorems of the storage layer. *)
From S2P Require Import Prelude Bytes StateDb Changes Encoding QmdbStore.

(** ** The handle *)

Inductive HandleError : Type :=
| HQmdb (e : QmdbError)
| HLockPoisoned
| HCodeNotFound (hash : B256)
| HBlockHashNotFound (number : u64)
| HRootComputation (msg : string).

(** The trait [RootProvider]. *)
Class RootProvider (R : Type) := {
  rp_state_root : R -> result B256 HandleError;
  rp_compute_root : R -> ChangeSet -> R * result B256 HandleError;
  rp_commit_and_get_root : R -> R * result B256 HandleError;
}.

(** A handle: the store behind its lock, the root provider and the flag of a
    failed REVM commit. *)
Record QmdbHandle (A S C R : Type) := mkHandle {
  h_store : QmdbStore A S C;
  h_root_provider : option R;
  h_commit_failed : bool;
}.
Arguments mkHandle {A S C R}.
Arguments h_store {A S C R}.
Arguments h_root_provider {A S C R}.
Arguments h_commit_failed {A S C R}.

Definition KECCAK256_EMPTY : B256 :=
  0xc5d2460186f7233c927e7db2dcc703c0e500b653ca82273b7bfad8045d85a470.

(** [Display] of the errors. *)
Class ErrorDisplay := {
  qmdb_error_string : QmdbError -> string;
  handle_error_string : HandleError -> string;
}.

Section handle.
Context {A S C R : Type}.
Context `{PA : !Partition A Address bytes} `{PS : !Partition S StorageKey U256}
        `{PC : !Partition C B256 bytes} `{RP : !RootProvider R}.
Context `{ED : !ErrorDisplay}.

Definition handle_new (accounts : A) (storage : S) (code : C) : QmdbHandle A S C R :=
  mkHandle (qmdb_new accounts storage code) None false.
Definition from_store (s : QmdbStore A S C) : QmdbHandle A S C R := mkHandle s None false.
Definition with_root_provider (h : QmdbHandle A S C R) (p : R) : QmdbHandle A S C R :=
  mkHandle (h_store h) (Some p) (h_commit_failed h).

(** [take_commit_failure]: reads the flag and clears it. *)
Definition take_commit_failure (h : QmdbHandle A S C R) : QmdbHandle A S C R * bool :=
  (mkHandle (h_store h) (h_root_provider h) false, h_commit_failed h).

Definition mark_commit_failed (h : QmdbHandle A S C R) : QmdbHandle A S C R :=
  mkHandle (h_store h) (h_root_provider h) true.

Definition set_store (h : QmdbHandle A S C R) (s : QmdbStore A S C) : QmdbHandle A S C R :=
  mkHandle s (h_root_provider h) (h_commit_failed h).

(** ** Reads ([StateDbRead]) *)

Definition storage_err {T} (r : result T QmdbError) : result T StateDbError :=
  map_err (fun e => Storage (qmdb_error_string e)) r.

(** A field of the account, or [AccountNotFound]. *)
Definition account_field {T} (f : u64 * U256 * B256 * u64 -> T) (h : QmdbHandle A S C R)
    (address : Address) : result T StateDbError :=
  let? acct := storage_err (get_account (h_store h) address) in
  match acct with
  | Some acct => Ok (f acct)
  | None => Err (AccountNotFound address)
  end.

Definition handle_code (h : QmdbHandle A S C R) (code_hash : B256) : result bytes StateDbError :=
  if (code_hash =? KECCAK256_EMPTY) || (code_hash =? 0) then Ok []
  else
    let? code := storage_err (get_code (h_store h) code_hash) in
    match code with Some b => Ok b | None => Err (CodeNotFound code_hash) end.

Definition handle_storage (h : QmdbHandle A S C R) (address : Address) (slot : U256)
    : result U256 StateDbError :=
  let? acct := storage_err (get_account (h_store h) address) in
  match acct with
  | None => Ok 0
  | Some (_, _, _, generation) =>
      let? value := storage_err (get_storage (h_store h) (mkStorageKey address generation slot)) in
      Ok (default 0 value)
  end.

#[export] Instance handle_read : StateDbRead (QmdbHandle A S C R) := {|
  st_nonce := account_field (fun '(n, _, _, _) => n);
  st_balance := account_field (fun '(_, b, _, _) => b);
  st_code_hash := account_field (fun '(_, _, h, _) => h);
  st_code := handle_code;
  st_storage := handle_storage;
|}.

(** ** Writes ([StateDbWrite], [StateDb]) *)

(** [QmdbHandle::commit]. *)
Definition handle_commit (h : QmdbHandle A S C R) (changes : ChangeSet)
    : QmdbHandle A S C R * result unit HandleError :=
  let '(s, r) := commit_changes (h_store h) changes in
  (set_store h s, map_err HQmdb r).

(** [StateDbWrite::commit]. *)
Definition state_commit (h : QmdbHandle A S C R) (changes : ChangeSet)
    : QmdbHandle A S C R * result B256 StateDbError :=
  match commit_changes (h_store h) changes with
  | (s, Err e) => (set_store h s, Err (Storage (qmdb_error_string e)))
  | (s, Ok _) =>
      match h_root_provider h with
      | Some p =>
          let '(p', r) := rp_commit_and_get_root p in
          (mkHandle s (Some p') (h_commit_failed h),
           map_err (fun e => RootComputation (handle_error_string e)) r)
      | None => (set_store h s, Ok 0)
      end
  end.

(** [StateRoot::compute] of three zero roots is a parameter of the placeholder. *)
Definition state_compute_root (placeholder : B256) (h : QmdbHandle A S C R)
    (changes : ChangeSet) : QmdbHandle A S C R * result B256 StateDbError :=
  match h_root_provider h with
  | Some p =>
      let '(p', r) := rp_compute_root p changes in
      (mkHandle (h_store h) (Some p') (h_commit_failed h),
       map_err (fun e => RootComputation (handle_error_string e)) r)
  | None => (h, Ok placeholder)
  end.

Definition state_merge_changes (older newer : ChangeSet) : ChangeSet := cs_merge older newer.

Definition state_state_root (h : QmdbHandle A S C R) : result B256 StateDbError :=
  match h_root_provider h with
  | Some p => map_err (fun e => RootComputation (handle_error_string e)) (rp_state_root p)
  | None => Ok 0
  end.

(** [init_genesis]: later allocations of an address replace earlier ones. *)
Definition genesis_update (balance : U256) : AccountUpdate :=
  mkUpdate true false 0 balance KECCAK256_EMPTY None ∅.

Definition genesis_changes (allocs : list (Address * U256)) : ChangeSet :=
  mkChangeSet
    (foldl (fun m '(address, balance) => <[address := genesis_update balance]> m) ∅ allocs).

Definition init_genesis (h : QmdbHandle A S C R) (allocs : list (Address * U256))
    : QmdbHandle A S C R * result unit HandleError :=
  handle_commit h (genesis_changes allocs).

(** ** The REVM adapter *)

(** The fields of REVM's [AccountInfo] the adapter fills. *)
Record AccountInfo := mkAccountInfo {
  ai_nonce : u64; ai_balance : U256; ai_code_hash : B256; ai_code : option bytes;
}.

Definition basic_ref (h : QmdbHandle A S C R) (address : Address)
    : result (option AccountInfo) HandleError :=
  let? acct := map_err HQmdb (get_account (h_store h) address) in
  Ok ((fun '(n, b, ch, _) => mkAccountInfo n b ch None) <$> acct).

Definition code_by_hash_ref (h : QmdbHandle A S C R) (code_hash : B256)
    : result bytes HandleError :=
  if (code_hash =? KECCAK256_EMPTY) || (code_hash =? 0) then Ok []
  else
    let? code := map_err HQmdb (get_code (h_store h) code_hash) in
    match code with Some b => Ok b | None => Err (HCodeNotFound code_hash) end.

Definition storage_ref (h : QmdbHandle A S C R) (address : Address) (index : U256)
    : result U256 HandleError :=
  let? acct := map_err HQmdb (get_account (h_store h) address) in
  match acct with
  | None => Ok 0
  | Some (_, _, _, generation) =>
      let? value :=
        map_err HQmdb (get_storage (h_store h) (mkStorageKey address generation index)) in
      Ok (default 0 value)
  end.

Definition block_hash_ref (h : QmdbHandle A S C R) (number : u64) : result B256 HandleError :=
  Err (HBlockHashNotFound number).
End handle.

(** ** Changes of an execution *)

(** The parts of REVM's [Account] the adapter and the executor read: the
    status flags, the account information, and the slots with whether they
    changed. *)
Record EvmAccount := mkEvmAccount {
  ea_touched : bool;
  ea_created : bool;
  ea_selfdestructed : bool;
  ea_nonce : u64;
  ea_balance : U256;
  ea_code_hash : B256;
  ea_code : option bytes;
  ea_storage : gmap U256 (bool * U256);
}.

(** The update of a touched account: only the changed slots. *)
Definition evm_update (account : EvmAccount) : AccountUpdate :=
  mkUpdate (ea_created account) (ea_selfdestructed account) (ea_nonce account)
    (ea_balance account) (ea_code_hash account) (ea_code account)
    (snd <$> filter (fun kv => kv.2.1 = true) (ea_storage account)).

(** The change set of [DatabaseCommit::commit]; REVM's state is a map, visited
    in any order. *)
Definition revm_changes (state : gmap Address EvmAccount) : ChangeSet :=
  mkChangeSet
    (foldl (fun m '(address, account) =>
              if ea_touched account then <[address := evm_update account]> m else m)
       ∅ (map_to_list state)).

Section revm_commit.
Context {A S C R : Type}.
Context `{PA : !Partition A Address bytes} `{PS : !Partition S StorageKey U256}
        `{PC : !Partition C B256 bytes}.

(** [DatabaseCommit::commit]: a failure is recorded in the flag. *)
Definition revm_commit (h : QmdbHandle A S C R) (state : gmap Address EvmAccount)
    : QmdbHandle A S C R :=
  match handle_commit h (revm_changes state) with
  | (h', Ok _) => h'
  | (h', Err _) => mark_commit_failed h'
  end.
End revm_commit.

(** ** Reads of a store with a view *)

Section theory.
Context {A S C R : Type}.
Context `{PA : !Partition A Address bytes} `{PS : !Partition S StorageKey U256}
        `{PC : !Partition C B256 bytes} `{RP : !RootProvider R}.
Context `{LA : !PartitionLaws A Address bytes} `{LS : !PartitionLaws S StorageKey U256}
        `{LC : !PartitionLaws C B256 bytes}.
Context `{ED : !ErrorDisplay}.
#[local] Set Default Proof Using "Type*".

Lemma get_account_view (s : QmdbStore A S C) v a :
  store_view s v -> get_account s a = Ok (v_acct v a).
Proof.
  intros (st & Hst & Hv). unfold get_account, stores. rewrite Hst. simpl.
  pose proof (hv_acct _ _ Hv a) as Ha. destruct (v_acct v a) as [acct|].
  - destruct Ha as (b & -> & Hd). by rewrite Hd.
  - by rewrite Ha.
Qed.

Lemma get_storage_view (s : QmdbStore A S C) v k : store_view s v -> get_storage s k = Ok (v_slot v k).
Proof.
  intros (st & Hst & Hv). unfold get_storage, stores. rewrite Hst. simpl.
  by rewrite (hv_slot _ _ Hv k).
Qed.

Lemma get_code_view (s : QmdbStore A S C) v h : store_view s v -> get_code s h = Ok (v_code v h).
Proof.
  intros (st & Hst & Hv). unfold get_code, stores. rewrite Hst. simpl.
  by rewrite (hv_code _ _ Hv h).
Qed.

(** The answers of a handle whose store has view [v]. *)
Definition view_field {T} (f : u64 * U256 * B256 * u64 -> T) (v : view) (a : Address)
    : result T StateDbError :=
  match v_acct v a with Some acct => Ok (f acct) | None => Err (AccountNotFound a) end.

Definition view_storage (v : view) (a : Address) (k : U256) : result U256 StateDbError :=
  match v_acct v a with
  | Some (_, _, _, g) => Ok (default 0 (v_slot v (mkStorageKey a g k)))
  | None => Ok 0
  end.

Definition view_code (v : view) (h : B256) : result bytes StateDbError :=
  if (h =? KECCAK256_EMPTY) || (h =? 0) then Ok []
  else match v_code v h with Some b => Ok b | None => Err (CodeNotFound h) end.

Lemma handle_field_view {T} (f : u64 * U256 * B256 * u64 -> T) (h : QmdbHandle A S C R) v a :
  store_view (h_store h) v -> account_field f h a = view_field f v a.
Proof.
  intros Hv. unfold account_field, view_field. rewrite (get_account_view _ v a Hv). simpl.
  by destruct (v_acct v a).
Qed.

Lemma handle_storage_view (h : QmdbHandle A S C R) v a k :
  store_view (h_store h) v -> handle_storage h a k = view_storage v a k.
Proof.
  intros Hv. unfold handle_storage, view_storage. rewrite (get_account_view _ v a Hv). simpl.
  destruct (v_acct v a) as [[[[n b] ch] g]|]; [|done].
  by rewrite (get_storage_view _ v _ Hv).
Qed.

Lemma handle_code_view (h : QmdbHandle A S C R) v ch :
  store_view (h_store h) v -> handle_code h ch = view_code v ch.
Proof.
  intros Hv. unfold handle_code, view_code. destruct (_ || _); [done|].
  rewrite (get_code_view _ v _ Hv). simpl. by destruct (v_code v ch).
Qed.

(** ** Commit and overlay *)

(** No storage without an account of at least that generation. *)
Definition gens_ok (v : view) : Prop :=
  forall k x, v_slot v k = Some x -> sk_address k <> COMMIT_SEQ_ACCOUNT_KEY ->
    is_Some (v_acct v (sk_address k)) /\ sk_generation k <= gen_of v (sk_address k).

(** The change sets whose commit can be described: the marker account is not
    among them, an account that is created has generations left, and a code
    hash names one code.  Accounts may be selfdestructed. *)
Record commit_ok (v : view) (c : ChangeSet) : Prop := {
  cm_ok : changes_ok c;
  cm_nonempty : accounts c <> ∅;
  cm_marker : accounts c !! COMMIT_SEQ_ACCOUNT_KEY = None;
  cm_gens : forall a u, accounts c !! a = Some u -> au_created u = true -> gen_of v a < u64_max;
  cm_codes : forall a b u w x y, accounts c !! a = Some u -> accounts c !! b = Some w ->
    au_code_hash u = au_code_hash w -> au_code u = Some x -> au_code w = Some y -> x = y;
  cm_empty : forall a u x, accounts c !! a = Some u -> au_code u = Some x ->
    au_code_hash u = KECCAK256_EMPTY \/ au_code_hash u = 0 -> x = [];
}.

(** No account is selfdestructed. *)
Definition all_alive (c : ChangeSet) : Prop :=
  map_Forall (fun _ u => au_selfdestructed u = false) (accounts c).

(** The change sets whose commit the overlay describes in every read. *)
Record committable (v : view) (c : ChangeSet) : Prop := {
  cm_base : commit_ok v c;
  cm_alive : all_alive c;
}.

Definition destroyed (c : ChangeSet) (a : Address) : bool :=
  match accounts c !! a with Some u => au_selfdestructed u | None => false end.

(** No selfdestructed account carries the code of that hash. *)
Definition code_alive (c : ChangeSet) (h : B256) : Prop :=
  forall a u, accounts c !! a = Some u -> au_selfdestructed u = true -> au_code_hash u = h ->
    au_code u = None.

Lemma write_gen_created v a u :
  view_ok v -> au_selfdestructed u = false -> gen_of v a < u64_max ->
  au_created u = true -> write_gen v a u = gen_of v a + 1.
Proof.
  intros Hv Hs Hg Hc. unfold write_gen, new_gen, saturating_add. rewrite Hc. simpl. lia.
Qed.

Lemma write_gen_kept v a u :
  au_selfdestructed u = false -> au_created u = false -> write_gen v a u = gen_of v a.
Proof. intros Hs Hc. unfold write_gen, new_gen. by rewrite Hc, Hs. Qed.

Lemma write_gen_ge v a u : view_ok v -> gen_of v a <= write_gen v a u.
Proof.
  intros Hv. specialize (Hv a). unfold write_gen, new_gen, saturating_add, in_width, u64_max in *.
  destruct (_ || _); lia.
Qed.

(** The code written and the code the overlay finds. *)
Lemma codes_found v c h :
  commit_ok v c -> code_alive c h ->
  match find_code c h with
  | Some x => written_code (btree (accounts c)) h = Some (Some x)
              /\ exists a u, accounts c !! a = Some u /\ au_code_hash u = h /\ au_code u = Some x
  | None => written_code (btree (accounts c)) h = None
  end.
Proof.
  intros Hc Hal. unfold find_code, written_code.
  assert (forall kv, kv ∈ btree (accounts c) -> accounts c !! kv.1 = Some kv.2) as Hin
    by (intros [k w] Hk; by apply elem_of_btree in Hk).
  induction (btree (accounts c)) as [|[a u] l IH]; [done|].
  rewrite bind_cons, last_write_app. cbn [foldr snd].
  specialize (IH ltac:(intros kv Hkv; apply Hin; by right)).
  pose proof (Hin (a, u) ltac:(by left)) as Hu. simpl in Hu.
  set (r := foldr _ None l) in *. destruct (Z.eqb_spec (au_code_hash u) h) as [Hh|Hh].
  - destruct (au_code u) as [x|] eqn:Ex.
    2:{ assert (code_ops u = []) as -> by (unfold code_ops; rewrite Ex; by destruct (au_selfdestructed u)).
        by destruct r; [destruct IH as [-> ?]|rewrite IH]. }
    assert (code_ops u = [(au_code_hash u, Some x)]) as ->.
    { unfold code_ops. rewrite Ex. destruct (au_selfdestructed u) eqn:Esd; [|done].
      by rewrite (Hal a u Hu Esd Hh) in Ex. }
    split; [|by exists a, u]. rewrite last_write_singleton, decide_True by done.
    destruct r as [y|]; [|by rewrite IH]. destruct IH as [-> (b & w & Hw & Hwh & Hy)].
    do 2 f_equal. eapply (cm_codes _ _ Hc b a w u); eauto; congruence.
  - assert (last_write (code_ops u) h = None) as ->.
    { unfold code_ops. destruct (au_selfdestructed u); [done|]. destruct (au_code u); [|done].
      by rewrite last_write_singleton, decide_False. }
    destruct r as [y|]; [destruct IH as [-> ?]; done|by rewrite IH].
Qed.

Lemma commit_view_field {T} (f : u64 * U256 * B256 * u64 -> T) (g : AccountUpdate -> T) seq v c a :
  (forall u gen, f (au_nonce u, au_balance u, au_code_hash u, gen) = g u) ->
  a <> COMMIT_SEQ_ACCOUNT_KEY ->
  view_field f (commit_view seq v c) a =
    match accounts c !! a with
    | Some u => if au_selfdestructed u then Err (AccountNotFound a) else Ok (g u)
    | None => view_field f v a
    end.
Proof.
  intros Hf Ha. unfold view_field, commit_view. cbn [v_acct].
  rewrite decide_False by done. destruct (accounts c !! a) as [u|]; [|done].
  destruct (au_selfdestructed u); [done|]. by rewrite Hf.
Qed.

Lemma commit_view_storage seq v c a k :
  commit_ok v c -> view_ok v -> gens_ok v -> a <> COMMIT_SEQ_ACCOUNT_KEY ->
  view_storage (commit_view seq v c) a k =
    match accounts c !! a with
    | Some u => if au_selfdestructed u then Ok 0
                else match au_storage u !! k with
                     | Some value => Ok value
                     | None => if au_created u then Ok 0 else view_storage v a k
                     end
    | None => view_storage v a k
    end.
Proof.
  intros Hc Hv Hg Ha. unfold view_storage at 1, commit_view. cbn [v_acct v_slot].
  rewrite decide_False by done.
  assert (forall g, mkStorageKey a g k <> COMMIT_SEQ_STORAGE_KEY) as Hk
    by (intros g Heq; apply Ha; unfold COMMIT_SEQ_STORAGE_KEY in Heq; congruence).
  cbn [sk_address sk_generation sk_slot].
  destruct (accounts c !! a) as [u|] eqn:Eu.
  2:{ unfold view_storage. destruct (v_acct v a) as [[[[n b] ch] g]|]; [|done].
      by rewrite decide_False. }
  destruct (au_selfdestructed u) eqn:Hal; [done|].
  rewrite decide_False by done. rewrite decide_True by done.
  destruct (au_storage u !! k) as [value|]; [by destruct (Z.eqb_spec value 0) as [->|]|].
  assert (forall g, (forall n b ch g', v_acct v a = Some (n, b, ch, g') -> g' < g) ->
    v_slot v (mkStorageKey a g k) = None) as Hnone.
  { intros g Hlt. destruct (v_slot v (mkStorageKey a g k)) as [x|] eqn:Ex; [|done].
    destruct (Hg _ _ Ex Ha) as [[[[[n b] ch] g'] Hacct] Hle]. simpl in *.
    unfold gen_of in Hle. rewrite Hacct in Hle. specialize (Hlt _ _ _ _ Hacct). lia. }
  destruct (au_created u) eqn:Ecr.
  - rewrite (write_gen_created v a u Hv Hal (cm_gens _ _ Hc a u Eu Ecr) Ecr).
    rewrite Hnone; [done|]. intros n b ch g' Hacct. unfold gen_of. rewrite Hacct. lia.
  - rewrite (write_gen_kept v a u Hal Ecr). unfold view_storage, gen_of.
    destruct (v_acct v a) as [[[[n b] ch] g]|] eqn:Eacct; [done|].
    rewrite Hnone; [done|]. by intros.
Qed.

Lemma commit_view_code seq v c h :
  commit_ok v c -> code_alive c h -> h <> COMMIT_SEQ_CODE_KEY ->
  view_code (commit_view seq v c) h =
    match find_code c h with Some code => Ok code | None => view_code v h end.
Proof.
  intros Hc Hal Hh. pose proof (codes_found v c h Hc Hal) as Hf.
  unfold view_code, commit_view. cbn [v_code]. rewrite decide_False by done.
  destruct (find_code c h) as [x|].
  - destruct Hf as [-> (a & u & Hu & Hch & Hx)].
    destruct (_ || _) eqn:Ee; [|done]. f_equal. symmetry. eapply (cm_empty _ _ Hc a u); [done|done|].
    apply orb_true_iff in Ee as [Ee|Ee]; apply Z.eqb_eq in Ee; subst h; auto.
  - rewrite Hf. done.
Qed.

Lemma commit_view_gens seq v c :
  all_alive c -> view_ok v -> gens_ok v -> gens_ok (commit_view seq v c).
Proof.
  intros Hc Hv Hg k x Hx Hk. unfold commit_view, gen_of in *. cbn [v_acct v_slot] in *.
  rewrite decide_False in Hx by (intros ->; done).
  rewrite decide_False by done.
  destruct (accounts c !! sk_address k) as [u|] eqn:Eu; [|by apply (Hg k x)].
  pose proof (Hc _ u Eu) as Hal. simpl in Hal. rewrite Hal. split; [by eexists|].
  destruct (decide (sk_generation k = write_gen v (sk_address k) u)) as [->|]; [done|].
  destruct (Hg k x Hx Hk) as [_ Hle]. pose proof (write_gen_ge v (sk_address k) u Hv). lia.
Qed.

Lemma commit_view_ok seq v c : view_ok v -> view_ok (commit_view seq v c).
Proof.
  intros Hv a. unfold gen_of, commit_view. cbn [v_acct].
  destruct (decide _); [split; lia|]. destruct (accounts c !! a) as [u|]; [|apply Hv].
  destruct (au_selfdestructed u); [split; lia|]. by apply write_gen_width.
Qed.

(** ** Properties *)

(** C3: a successful commit has the effect of [commit_view]: each updated
    account is replaced (or deleted when selfdestructed), its slots are
    written at its generation, a new one when it was created, zero deleting
    the slot, the code of every update is stored, nothing else changes, and
    the three markers advance together with the sequence number. *)
Theorem commit_refines (s s' : QmdbStore A S C) v c :
  store_view s v -> view_ok v -> changes_ok c -> in_width 64 (q_commit_seq s) ->
  accounts c <> ∅ -> commit_changes s c = (s', Ok tt) ->
  store_view s' (commit_view (saturating_add u64_max (q_commit_seq s) 1) v c)
  /\ q_commit_seq s' = saturating_add u64_max (q_commit_seq s) 1
  /\ view_ok (commit_view (saturating_add u64_max (q_commit_seq s) 1) v c).
Proof.
  intros Hs Hv Hc Hq Hne Hcm.
  destruct (commit_changes_view s s' v c Hs Hv Hc Hq Hne Hcm) as [H1 H2].
  split_and!; [done|done|by apply commit_view_ok].
Qed.


End theory.

(** ** In-memory partitions *)

#[export] Instance mem_partition {K V} `{Countable K} : Partition (gmap K V) K V := {|
  p_get := fun m k => Ok (m !! k);
  p_write_batch := fun m ops =>
    (foldl (fun m op => match op.2 with Some v => <[op.1 := v]> m | None => delete op.1 m end)
       m ops, Ok tt);
|}.

#[export] Instance mem_laws {K V} `{Countable K} : PartitionLaws (gmap K V) K V.
Proof.
  split. intros m ops m' [= <-] k. unfold after_batch. simpl.
  induction ops as [|[j w] ops IH] using rev_ind; [done|].
  rewrite last_write_app, last_write_singleton, foldl_snoc. simpl.
  destruct (decide (j = k)) as [->|Hne].
  - destruct w; by rewrite ?lookup_insert_eq, ?lookup_delete_eq.
  - destruct w; by rewrite ?lookup_insert_ne, ?lookup_delete_ne by done.
Qed.

#[export] Instance mem_durable {K V} `{Countable K} : Durable (gmap K V) K V :=
  {| p_reopen := id; p_sound := fun _ => True |}.
#[export] Instance mem_durable_laws {K V} `{Countable K} : DurableLaws (gmap K V) K V.
Proof. by split. Qed.

#[local] Instance unit_root : RootProvider unit := {|
  rp_state_root := fun _ => Ok 0;
  rp_compute_root := fun p _ => (p, Ok 0);
  rp_commit_and_get_root := fun p => (p, Ok 0);
|}.
#[local] Instance demo_display : ErrorDisplay := {|
  qmdb_error_string := fun _ => "qmdb";
  handle_error_string := fun _ => "handle";
|}.

Definition MemHandle : Type :=
  QmdbHandle (gmap Address bytes) (gmap StorageKey U256) (gmap B256 bytes) unit.

Definition mem_handle : MemHandle := handle_new ∅ ∅ ∅.

Definition empty_view : view := mkView (fun _ => None) (fun _ => None) (fun _ => None).

Lemma mem_handle_view : store_view (h_store mem_handle) empty_view.
Proof.
  eexists. split; [reflexivity|]. split; intros k; simpl; by rewrite lookup_empty.
Qed.

Lemma empty_view_ok : view_ok empty_view.
Proof. intros a. split; vm_compute; done || discriminate. Qed.

Lemma empty_gens_ok : gens_ok empty_view.
Proof. intros k x Hx. discriminate Hx. Qed.

Lemma empty_markers : markers_at empty_view 0.
Proof. split; [split; vm_compute; done || discriminate|]. left. done. Qed.

(** ** Where persistence and the overlay differ *)

Definition demo_update (created sd : bool) (code : option bytes) (storage : gmap U256 U256)
    : AccountUpdate := mkUpdate created sd 1 10 5 code storage.

Definition demo_changes (created sd : bool) (storage : gmap U256 U256) : ChangeSet :=
  mkChangeSet {[7 := demo_update created sd None storage]}.

(** A selfdestructed account loses its generation but not the slots written in
    the same change set, so a new account at the address reads them. *)
Lemma selfdestruct_leaves_storage :
  let h1 := (handle_commit mem_handle (demo_changes true true {[1 := 99]})).1 in
  let h2 := (handle_commit h1 (demo_changes true false ∅)).1 in
  st_storage h2 7 1 = Ok 99
  /\ st_storage (mkOverlay h1 (demo_changes true false ∅)) 7 1 = Ok 0.
Proof. split; vm_compute; reflexivity. Qed.

(** The marker account is an ordinary address: an account there reads back as
    the commit sequence number. *)
Lemma marker_account_clobbered :
  let c := mkChangeSet {[COMMIT_SEQ_ACCOUNT_KEY := mkUpdate true false 5 10 0 None ∅]} in
  let h1 := (handle_commit mem_handle c).1 in
  st_nonce h1 COMMIT_SEQ_ACCOUNT_KEY = Ok 1
  /\ st_balance h1 COMMIT_SEQ_ACCOUNT_KEY = Ok 0
  /\ st_nonce (mkOverlay mem_handle c) COMMIT_SEQ_ACCOUNT_KEY = Ok 5.
Proof. split_and!; vm_compute; reflexivity. Qed.

(** ** Witnesses *)

Definition demo_commit : ChangeSet := demo_changes true false {[1 := 99; 2 := 0]}.

Lemma demo_commit_ok : commit_ok empty_view demo_commit.
Proof.
  assert (forall a u, accounts demo_commit !! a = Some u ->
    u = demo_update true false None {[1 := 99; 2 := 0]}) as Hu.
  { intros a u Hu. unfold demo_commit, demo_changes in Hu. simpl in Hu. apply lookup_singleton_Some in Hu as [_ <-]. done. }
  split.
  - intros a u Hx. apply Hu in Hx as ->. repeat split; vm_compute; done || discriminate.
  - vm_compute. discriminate.
  - vm_compute. reflexivity.
  - intros a u _ _. vm_compute. reflexivity.
  - intros a b u w x y Hx _ _ Hcx _. apply Hu in Hx as ->. discriminate Hcx.
  - intros a u x Hx Hcx _. apply Hu in Hx as ->. discriminate Hcx.
Qed.

Lemma demo_committable : committable empty_view demo_commit.
Proof.
  split; [exact demo_commit_ok|]. intros a u. unfold demo_commit, demo_changes. cbn [accounts].
  by intros [_ <-]%lookup_singleton_Some.
Qed.

(** The store after the commit, evaluated. *)
Definition demo_after : MemHandle :=
  Eval vm_compute in (handle_commit mem_handle demo_commit).1.

Lemma demo_after_handle : handle_commit mem_handle demo_commit = (demo_after, Ok tt).
Proof. vm_cast_no_check (@eq_refl _ (demo_after, @Ok unit HandleError tt)). Qed.

Lemma demo_after_store :
  commit_changes (h_store mem_handle) demo_commit = (h_store demo_after, Ok tt).
Proof. vm_cast_no_check (@eq_refl _ (h_store demo_after, @Ok unit QmdbError tt)). Qed.

Lemma demo_seq_ok : in_width 64 (q_commit_seq (h_store mem_handle)).
Proof. split; vm_compute; done || discriminate. Qed.

Lemma demo_seq_lt : q_commit_seq (h_store mem_handle) < u64_max.
Proof. vm_compute. reflexivity. Qed.

Lemma commit_refines_witness : q_commit_seq (h_store demo_after) = 1.
Proof.
  exact (proj1 (proj2 (commit_refines _ _ empty_view demo_commit mem_handle_view empty_view_ok
    (cm_ok _ _ demo_commit_ok) demo_seq_ok (cm_nonempty _ _ demo_commit_ok)
    demo_after_store))).
Defined.

Lemma seven_not_marker : 7 <> COMMIT_SEQ_ACCOUNT_KEY.
Proof. vm_compute. discriminate. Qed.

