(* ===== verification/Restart.v ===== *)
(** Restarts of the store (crates/storage/qmdb/src/store.rs): what a commit
    interrupted between its three partitions leaves on disk, and how the commit
    sequence markers reveal it. *)
From S2P Require Import Prelude Bytes StateDb Changes Encoding QmdbStore QmdbState.

Section restart.
Context {A S C : Type}.
Context `{PA : !Partition A Address bytes} `{PS : !Partition S StorageKey U256}
        `{PC : !Partition C B256 bytes}.
Context `{LA : !PartitionLaws A Address bytes} `{LS : !PartitionLaws S StorageKey U256}
        `{LC : !PartitionLaws C B256 bytes}.
Context `{DA : !Durable A Address bytes} `{DS : !Durable S StorageKey U256}
        `{DC : !Durable C B256 bytes}.
Context `{DLA : !DurableLaws A Address bytes} `{DLS : !DurableLaws S StorageKey U256}
        `{DLC : !DurableLaws C B256 bytes}.
#[local] Set Default Proof Using "Type*".

(** The store the next start of the process opens, before its sequence number
    is set from the markers. *)
Definition reopen_store (s : QmdbStore A S C) : QmdbStore A S C :=
  mkQmdb ((fun st => mkStores (p_reopen Address bytes (s_accounts st))
                       (p_reopen StorageKey U256 (s_storage st))
                       (p_reopen B256 bytes (s_code st))) <$> q_stores s) 0.

(** Per partition the old or the new contents. *)
Definition mixed_view (ba bs bc : bool) (v v' : view) : view :=
  mkView (v_acct (if ba then v' else v)) (v_slot (if bs then v' else v))
    (v_code (if bc then v' else v)).

(** The contents of the three partitions. *)
Definition acct_part (a : A) (v : view) : Prop := p_sound Address bytes a /\ forall k,
  match v_acct v k with
  | Some acct => exists b, p_get a k = Ok (Some b) /\ account_decode b = Some acct
  | None => p_get a k = Ok None
  end.
Definition slot_part (p : S) (v : view) : Prop :=
  p_sound StorageKey U256 p /\ forall k, p_get p k = Ok (v_slot v k).
Definition code_part (p : C) (v : view) : Prop :=
  p_sound B256 bytes p /\ forall k, p_get p k = Ok (v_code v k).

Lemma acct_part_readable a v : acct_part a v -> readable (K := Address) (V := bytes) a.
Proof.
  intros [_ H] k. specialize (H k). destruct (v_acct v k); [destruct H as (b & -> & _)|]; by eexists.
Qed.

Lemma acct_part_reopen a v : acct_part a v -> acct_part (p_reopen Address bytes a) v.
Proof.
  intros H. split; [apply p_sound_reopen|]. intros k.
  rewrite p_reopen_readable by (apply H || by eapply acct_part_readable). by apply H.
Qed.
Lemma slot_part_reopen p v : slot_part p v -> slot_part (p_reopen StorageKey U256 p) v.
Proof.
  intros [Hs H]. split; [apply p_sound_reopen|]. intros k.
  rewrite p_reopen_readable; [done|done|]. intros j. rewrite H. by eexists.
Qed.
Lemma code_part_reopen p v : code_part p v -> code_part (p_reopen B256 bytes p) v.
Proof.
  intros [Hs H]. split; [apply p_sound_reopen|]. intros k.
  rewrite p_reopen_readable; [done|done|]. intros j. rewrite H. by eexists.
Qed.

(** A store whose partitions are sound and read as [v]. *)
Definition sound_view (s : QmdbStore A S C) (v : view) : Prop :=
  exists st, q_stores s = Some st /\ acct_part (s_accounts st) v
    /\ slot_part (s_storage st) v /\ code_part (s_code st) v.

Lemma sound_store_view s v : sound_view s v -> store_view s v.
Proof. intros (st & Hst & [_ Ha] & [_ Hs] & [_ Hc]). exists st. split; [done|]. by split. Qed.

Lemma sound_view_reopen s v : sound_view s v -> sound_view (reopen_store s) v.
Proof.
  intros (st & Hst & Ha & Hs & Hc). eexists. unfold reopen_store. rewrite Hst. split; [done|].
  split_and!; [by apply acct_part_reopen|by apply slot_part_reopen|by apply code_part_reopen].
Qed.

Lemma parts_view a1 s1 c1 q (ba bs bc : bool) v v' :
  acct_part (p_reopen Address bytes a1) (if ba then v' else v) ->
  slot_part (p_reopen StorageKey U256 s1) (if bs then v' else v) ->
  code_part (p_reopen B256 bytes c1) (if bc then v' else v) ->
  sound_view (reopen_store (mkQmdb (Some (mkStores a1 s1 c1)) q)) (mixed_view ba bs bc v v').
Proof. intros H1 H2 H3. eexists. split; [done|]. by split_and!. Qed.

(** A written partition after the restart: new, or old if the write failed. *)
Lemma acct_part_write a a' v c seq r :
  acct_part a v -> view_ok v -> changes_ok c -> in_width 64 seq ->
  p_write_batch a (b_accounts (batches_of v (btree (accounts c)))
    ++ [(COMMIT_SEQ_ACCOUNT_KEY, Some (encode_commit_seq_account seq))]) = (a', r) ->
  exists b : bool, acct_part (p_reopen Address bytes a') (if b then commit_view seq v c else v)
    /\ (r = Ok tt -> b = true).
Proof.
  intros [Hp Ha] Hv Hc Hw Hr.
  destruct (reopen_write _ _ _ _ Hp (acct_part_readable _ v (conj Hp Ha)) Hr) as [H|[[e ->] H]].
  - exists true. split; [|done]. split; [apply p_sound_reopen|].
    exact (accounts_written a _ v c seq Ha Hv Hc Hw H).
  - exists false. split; [|done]. split; [apply p_sound_reopen|]. intros k. rewrite H. apply Ha.
Qed.

Lemma slot_part_write p p' v c seq r :
  slot_part p v ->
  p_write_batch p (b_storage (batches_of v (btree (accounts c)))
    ++ [(COMMIT_SEQ_STORAGE_KEY, Some seq)]) = (p', r) ->
  exists b : bool, slot_part (p_reopen StorageKey U256 p') (if b then commit_view seq v c else v)
    /\ (r = Ok tt -> b = true).
Proof.
  intros [Hs Hp] Hr. destruct (reopen_write p p' _ _ Hs ltac:(intros k; rewrite Hp; by eexists) Hr)
    as [H|[[e ->] H]].
  - exists true. split; [|done]. split; [apply p_sound_reopen|].
    exact (storage_written p _ v c seq Hp H).
  - exists false. split; [|done]. split; [apply p_sound_reopen|]. intros k. rewrite H. apply Hp.
Qed.

Lemma code_part_write p p' v c seq r :
  code_part p v ->
  p_write_batch p (b_code (batches_of v (btree (accounts c)))
    ++ [(COMMIT_SEQ_CODE_KEY, Some (encode_commit_seq_code seq))]) = (p', r) ->
  exists b : bool, code_part (p_reopen B256 bytes p') (if b then commit_view seq v c else v)
    /\ (r = Ok tt -> b = true).
Proof.
  intros [Hs Hp] Hr. destruct (reopen_write p p' _ _ Hs ltac:(intros k; rewrite Hp; by eexists) Hr)
    as [H|[[e ->] H]].
  - exists true. split; [|done]. split; [apply p_sound_reopen|].
    exact (code_written p _ v c seq Hp H).
  - exists false. split; [|done]. split; [apply p_sound_reopen|]. intros k. rewrite H. apply Hp.
Qed.

(** What a commit leaves on disk: the partitions are written in order, each
    entirely or not at all. *)
Lemma commit_prefix (s s' : QmdbStore A S C) v c r :
  sound_view s v -> view_ok v -> changes_ok c -> in_width 64 (q_commit_seq s) ->
  accounts c <> ∅ -> commit_changes s c = (s', r) ->
  exists ba bs bc, (bs = true -> ba = true) /\ (bc = true -> bs = true) /\ (r = Ok tt -> bc = true)
    /\ sound_view (reopen_store s')
         (mixed_view ba bs bc v (commit_view (saturating_add u64_max (q_commit_seq s) 1) v c)).
Proof.
  intros Hsv Hvo Hco Hq Hne Hc. destruct (sound_store_view s v Hsv) as (st & Hst & Hv).
  destruct Hsv as (st' & Hst' & Hva & Hvs & Hvc). assert (st' = st) as -> by congruence.
  rewrite (commit_batches s st v c Hst Hv Hne) in Hc. unfold apply_batches in Hc.
  rewrite Hst in Hc. set (seq := saturating_add u64_max (q_commit_seq s) 1) in *.
  assert (in_width 64 seq) as Hsw by (unfold seq, saturating_add, in_width, u64_max in *; lia).
  destruct (p_write_batch (s_accounts st) _) as [a' ra] eqn:Ea.
  destruct (acct_part_write _ _ v c seq _ Hva Hvo Hco Hsw Ea) as (ba & Ha & Hra).
  destruct ra as [[]|ea].
  2:{ injection Hc as <- <-. exists ba, false, false. split_and!; [done..|].
      exact (parts_view _ _ _ _ ba false false _ _ Ha (slot_part_reopen _ _ Hvs)
               (code_part_reopen _ _ Hvc)). }
  destruct (p_write_batch (s_storage st) _) as [s1 rs] eqn:Es.
  destruct (slot_part_write _ _ v c seq _ Hvs Es) as (bs & Hs & Hrs).
  destruct rs as [[]|es].
  2:{ injection Hc as <- <-. exists ba, bs, false. split_and!; [auto|done..|].
      exact (parts_view _ _ _ _ ba bs false _ _ Ha Hs (code_part_reopen _ _ Hvc)). }
  destruct (p_write_batch (s_code st) _) as [c' rc] eqn:Ec.
  destruct (code_part_write _ _ v c seq _ Hvc Ec) as (bc & Hcd & Hrc).
  exists ba, bs, bc. split_and!; [auto|auto|by destruct rc as [[]|]; simplify_eq; auto|].
  destruct rc as [[]|ec]; injection Hc as <- <-; exact (parts_view _ _ _ _ ba bs bc _ _ Ha Hs Hcd).
Qed.

(** The marker reads at sequence number [seq], or before the first commit. *)
Definition marker (v : view) (seq : u64) : option u64 :=
  match v_slot v COMMIT_SEQ_STORAGE_KEY with Some _ => Some seq | None => None end.

Lemma markers_storage v seq :
  markers_at v seq ->
  v_slot v COMMIT_SEQ_STORAGE_KEY ≫= decode_commit_seq_storage = marker v seq.
Proof.
  intros [Hw [(_ & _ & Hs & _)|(_ & Hs & _)]]; unfold marker; rewrite Hs; [done|].
  simpl. by apply commit_seq_storage_roundtrip.
Qed.

Lemma markers_code v seq :
  markers_at v seq ->
  v_code v COMMIT_SEQ_CODE_KEY ≫= decode_commit_seq_code = marker v seq.
Proof.
  intros [Hw [(_ & _ & Hs & Hc)|(_ & Hs & Hc)]]; unfold marker; rewrite Hs, Hc; [done|].
  simpl. by apply commit_seq_code_roundtrip.
Qed.


Lemma markers_account v seq :
  markers_at v seq ->
  (fun '(n, _, _, _) => n) <$> v_acct v COMMIT_SEQ_ACCOUNT_KEY = marker v seq.
Proof. intros [_ [(_ & Ha & Hs & _)|(Ha & Hs & _)]]; unfold marker; by rewrite Ha, Hs. Qed.

(** A commit leaves the markers of its number. *)
Lemma commit_view_markers v c n : in_width 64 n -> markers_at (commit_view n v c) n.
Proof.
  intros Hn. split; [done|]. right. unfold commit_view. cbn [v_acct v_slot v_code].
  by rewrite !decide_True.
Qed.

Lemma commit_view_marker v c n : marker (commit_view n v c) n = Some n.
Proof. unfold marker, commit_view. cbn [v_slot]. by rewrite decide_True. Qed.

(** The markers of a mixture are those of its parts. *)
Lemma mixed_seqs (s : QmdbStore A S C) v c seq n ba bs bc :
  markers_at v seq -> in_width 64 n ->
  store_view s (mixed_view ba bs bc v (commit_view n v c)) ->
  let mark (b : bool) := if b then Some n else marker v seq in
  read_partition_commit_seqs s = Ok (mkSeqs (mark ba) (mark bs) (mark bc)).
Proof.
  intros Hmk Hn (st & Hst & [Ha Hs Hc]). cbv zeta.
  pose proof (commit_view_markers v c n Hn) as Hmk'.
  specialize (Ha COMMIT_SEQ_ACCOUNT_KEY).
  destruct s as [o q]. simpl in Hst. subst o.
  rewrite (seqs_of_view st q _ _ _ Ha (Hs _) (Hc _)). unfold mixed_view. cbn [v_acct v_slot v_code].
  do 2 f_equal; [destruct ba|destruct bs|destruct bc].
  - by rewrite (markers_account _ _ Hmk'), commit_view_marker.
  - by apply markers_account.
  - by rewrite (markers_storage _ _ Hmk'), commit_view_marker.
  - by apply markers_storage.
  - by rewrite (markers_code _ _ Hmk'), commit_view_marker.
  - by apply markers_code.
Qed.

Lemma marker_cases v seq : marker v seq = None \/ marker v seq = Some seq.
Proof. unfold marker. destruct (v_slot v _); auto. Qed.

(** What the next start finds after a commit. *)
Lemma crash_outcome (s s' : QmdbStore A S C) v c r :
  sound_view s v -> view_ok v -> changes_ok c -> markers_at v (q_commit_seq s) ->
  q_commit_seq s < u64_max -> accounts c <> ∅ -> commit_changes s c = (s', r) ->
  let v' := commit_view (q_commit_seq s + 1) v c in
  exists seqs, read_partition_commit_seqs (reopen_store s') = Ok seqs
    /\ (is_consistent seqs = true ->
          sound_view (reopen_store s') v' /\ markers_at v' (default 0 (seq_accounts seqs))
          \/ r <> Ok tt /\ sound_view (reopen_store s') v
             /\ markers_at v (default 0 (seq_accounts seqs)))
    /\ (r = Ok tt -> is_consistent seqs = true /\ seq_accounts seqs = Some (q_commit_seq s + 1)).
Proof.
  intros Hs Hvo Hco Hmk Hlt Hne Hc. pose proof (proj1 Hmk) as Hq.
  destruct (commit_prefix s s' v c r Hs Hvo Hco Hq Hne Hc) as (ba & bs & bc & Hsa & Hcs & Hr & Hv').
  assert (saturating_add u64_max (q_commit_seq s) 1 = q_commit_seq s + 1) as Hn
    by (unfold saturating_add; lia). rewrite Hn in Hv'.
  assert (in_width 64 (q_commit_seq s + 1)) as Hw by (unfold in_width, u64_max in *; lia).
  cbv zeta. eexists. split; [exact (mixed_seqs _ _ _ _ _ _ _ _ Hmk Hw (sound_store_view _ _ Hv'))|].
  assert (marker v (q_commit_seq s) = None -> q_commit_seq s = 0) as Hz.
  { destruct Hmk as [_ [(? & _)|(_ & Hx & _)]]; [done|]. unfold marker. by rewrite Hx. }
  pose proof (commit_view_markers v c _ Hw) as Hmk'.
  unfold is_consistent.
  destruct ba, bs, bc; try (by specialize (Hsa eq_refl)); try (by specialize (Hcs eq_refl));
    cbn [seq_accounts seq_storage seq_code].
  - split; [intros _; left; by split|]. intros _. by rewrite !Z.eqb_refl.
  - split; [|intros H; by specialize (Hr H)].
    destruct (marker_cases v (q_commit_seq s)) as [->| ->]; [done|].
    rewrite Z.eqb_refl, (proj2 (Z.eqb_neq _ _)) by lia. done.
  - split; [|intros H; by specialize (Hr H)].
    destruct (marker_cases v (q_commit_seq s)) as [->| ->]; [done|].
    rewrite (proj2 (Z.eqb_neq _ _)) by lia. done.
  - split; [|intros H; by specialize (Hr H)]. intros _. right.
    split; [intros H; by specialize (Hr H)|]. split; [by destruct v|].
    destruct (marker_cases v (q_commit_seq s)) as [E|E]; rewrite E; simpl; [|done].
    by rewrite <- (Hz E).
Qed.

(** ** Properties *)

(** C5: a partial commit is always detected.  Whatever happens to a commit, the
    store that the next start opens is the one before it, or the one after it
    (always, if it succeeded), each with consistent markers that carry on the
    sequence; or its markers are inconsistent, and the node refuses to start
    from it. *)
Theorem commit_crash_detected (s s' : QmdbStore A S C) v c r :
  sound_view s v -> view_ok v -> changes_ok c -> markers_at v (q_commit_seq s) ->
  q_commit_seq s < u64_max -> accounts c <> ∅ -> commit_changes s c = (s', r) ->
  let v' := commit_view (q_commit_seq s + 1) v c in
  exists seqs, read_partition_commit_seqs (reopen_store s') = Ok seqs
    /\ (is_consistent seqs = true ->
          sound_view (reopen_store s') v' /\ markers_at v' (default 0 (seq_accounts seqs))
          \/ r <> Ok tt /\ sound_view (reopen_store s') v
             /\ markers_at v (default 0 (seq_accounts seqs)))
    /\ (r = Ok tt -> is_consistent seqs = true /\ seq_accounts seqs = Some (q_commit_seq s + 1)).
Proof. apply crash_outcome. Qed.
End restart.

(** ** Witness *)

Lemma mem_sound_view : sound_view (h_store mem_handle) empty_view.
Proof.
  destruct mem_handle_view as (st & Hst & [Ha Hs Hc]). exists st. split; [done|]. by split_and!.
Qed.

Lemma commit_crash_detected_witness :
  exists seqs, read_partition_commit_seqs (reopen_store (h_store demo_after)) = Ok seqs
    /\ is_consistent seqs = true.
Proof.
  destruct (commit_crash_detected _ _ empty_view demo_commit (Ok tt)
    mem_sound_view empty_view_ok (cm_ok _ _ demo_commit_ok) empty_markers
    demo_seq_lt (cm_nonempty _ _ demo_commit_ok) demo_after_store) as (seqs & Hr & _ & Hc).
  exists seqs. split; [exact Hr|exact (proj1 (Hc eq_refl))].
Defined.
