(* ===== verification/StateRoot.v ===== *)
(** State roots (crates/storage/qmdb/src/root.rs): the digest of the three
    partition roots, and the deterministic root of a state transition. *)
From S2P Require Import Prelude Bytes TxTypes StateDb Changes.

(** The namespaces, as bytes. *)
Definition KORA_ROOT_NAMESPACE : bytes :=
  [95; 75; 79; 82; 65; 95; 81; 77; 68; 66; 95; 82; 79; 79; 84].
Definition KORA_TRANSITION_ROOT_NAMESPACE : bytes :=
  [95; 75; 79; 82; 65; 95; 83; 84; 65; 84; 69; 95; 84; 82; 65; 78; 83; 73; 84; 73; 79; 78; 95;
   82; 79; 79; 84].

Definition bool_byte (b : bool) : Z := if b then 1 else 0.

(** The optional code of an update. *)
Definition enc_code (code : option bytes) : bytes :=
  match code with
  | Some code => [1] ++ be_bytes 8 (len code) ++ code
  | None => [0]
  end.

Definition enc_slot (kv : U256 * U256) : bytes := be_bytes 32 kv.1 ++ be_bytes 32 kv.2.

(** The bytes of one account in the transition buffer. *)
Definition enc_account (kv : Address * AccountUpdate) : bytes :=
  let '(address, update) := kv in
  be_bytes 20 address ++ [bool_byte (au_created update)]
  ++ [bool_byte (au_selfdestructed update)] ++ be_bytes 8 (au_nonce update)
  ++ be_bytes 32 (au_balance update) ++ be_bytes 32 (au_code_hash update)
  ++ enc_code (au_code update)
  ++ enc_list enc_slot (btree (au_storage update)).

Definition transition_buf (parent_root : B256) (changes : ChangeSet) : bytes :=
  KORA_TRANSITION_ROOT_NAMESPACE ++ be_bytes 32 parent_root
  ++ enc_list enc_account (btree (accounts changes)).

Definition root_buf (accounts_root storage_root code_root : B256) : bytes :=
  KORA_ROOT_NAMESPACE ++ be_bytes 32 accounts_root ++ be_bytes 32 storage_root
  ++ be_bytes 32 code_root.

Section root.
Context `{EXT : !External}.

Definition root_compute (accounts_root storage_root code_root : B256) : B256 :=
  keccak256 (root_buf accounts_root storage_root code_root).

Definition root_transition (parent_root : B256) (changes : ChangeSet) : B256 :=
  if cs_is_empty changes then parent_root
  else keccak256 (transition_buf parent_root changes).
End root.

(** ** The buffers determine what they encode *)

(** The values have the widths of their types. *)
Record update_wf (u : AccountUpdate) : Prop := {
  uw_nonce : in_width 64 (au_nonce u);
  uw_balance : in_width 256 (au_balance u);
  uw_code_hash : in_width 256 (au_code_hash u);
  uw_code : forall code, au_code u = Some code -> len code <= u64_max;
  uw_slots : map_Forall (fun k v => in_width 256 k /\ in_width 256 v) (au_storage u);
  uw_size : Z.of_nat (size (au_storage u)) <= u64_max;
}.

Record changes_wf (c : ChangeSet) : Prop := {
  cw_updates : map_Forall (fun a u => in_width 160 a /\ update_wf u) (accounts c);
  cw_size : Z.of_nat (size (accounts c)) <= u64_max;
}.

Lemma len_width {A} (l : list A) : len l <= u64_max -> 0 <= len l < 256 ^ Z.of_nat 8.
Proof. pose proof (len_nonneg l). unfold u64_max. simpl. lia. Qed.

Lemma bool_byte_inj a b : bool_byte a = bool_byte b -> a = b.
Proof. by destruct a, b. Qed.

Lemma enc_code_prefix :
  prefix_code (fun code => forall c, code = Some c -> len c <= u64_max) enc_code.
Proof.
  intros [c|] [d|] r r' Hc Hd H; cbn [enc_code app] in H; try done; [|by injection H as ->].
  apply cons_eq_inv in H as [_ H]. rewrite <- !app_assoc in H.
  apply be_bytes_prefix in H as [Hlen H]; [|by apply len_width, Hc|by apply len_width, Hd].
  apply app_same_length in H as [-> ->]; [done|]. unfold len in Hlen. lia.
Qed.

Lemma enc_slot_prefix :
  prefix_code (fun kv => in_width 256 kv.1 /\ in_width 256 kv.2) enc_slot.
Proof.
  intros [k v] [k' v'] r r' [Hk Hv] [Hk' Hv'] H. unfold enc_slot in H. cbn [fst snd] in *.
  rewrite <- !app_assoc in H.
  apply be_bytes_prefix in H as [-> H]; [|by eapply in_width_bytes|by eapply in_width_bytes].
  apply be_bytes_prefix in H as [-> H]; [|by eapply in_width_bytes|by eapply in_width_bytes]. done.
Qed.

Lemma storage_entries_wf u :
  update_wf u ->
  Forall (fun kv => in_width 256 kv.1 /\ in_width 256 kv.2) (btree (au_storage u))
  /\ len (btree (au_storage u)) <= u64_max.
Proof.
  intros Hu. split.
  - apply Forall_forall. intros [k v] Hin%elem_of_btree. by apply (uw_slots _ Hu).
  - unfold len. rewrite btree_length. apply Hu.
Qed.

Lemma update_eq u v :
  au_created u = au_created v -> au_selfdestructed u = au_selfdestructed v ->
  au_nonce u = au_nonce v -> au_balance u = au_balance v -> au_code_hash u = au_code_hash v ->
  au_code u = au_code v -> au_storage u = au_storage v -> u = v.
Proof. destruct u, v. simpl. congruence. Qed.

Lemma enc_account_prefix :
  prefix_code (fun kv => in_width 160 kv.1 /\ update_wf kv.2) enc_account.
Proof.
  intros [a u] [b v] r r' [Ha Hu] [Hb Hv] H. unfold enc_account in H. cbn [fst snd] in *.
  rewrite <- !app_assoc in H.
  apply be_bytes_prefix in H as [-> H]; [|by eapply in_width_bytes|by eapply in_width_bytes].
  cbn [app] in H. apply cons_eq_inv in H as [Hc H]. apply cons_eq_inv in H as [Hs H].
  apply bool_byte_inj in Hc, Hs.
  apply be_bytes_prefix in H as [Hn H]; 
    [|by eapply in_width_bytes; [apply (uw_nonce _ Hu)|]|by eapply in_width_bytes; [apply (uw_nonce _ Hv)|]].
  apply be_bytes_prefix in H as [Hbal H]; 
    [|by eapply in_width_bytes; [apply (uw_balance _ Hu)|]|by eapply in_width_bytes; [apply (uw_balance _ Hv)|]].
  apply be_bytes_prefix in H as [Hch H]; 
    [|by eapply in_width_bytes; [apply (uw_code_hash _ Hu)|]|by eapply in_width_bytes; [apply (uw_code_hash _ Hv)|]].
  apply enc_code_prefix in H as [Hcode H]; [|apply (uw_code _ Hu)|apply (uw_code _ Hv)].
  apply (enc_list_prefix _ _ enc_slot_prefix) in H as [Hst ->];
    [|by apply storage_entries_wf|by apply storage_entries_wf].
  apply btree_inj in Hst. split; [|done]. f_equal. by apply update_eq.
Qed.

Lemma changes_entries_wf c :
  changes_wf c ->
  Forall (fun kv => in_width 160 kv.1 /\ update_wf kv.2) (btree (accounts c))
  /\ len (btree (accounts c)) <= u64_max.
Proof.
  intros Hc. split.
  - apply Forall_forall. intros [a u] Hin%elem_of_btree. by apply (cw_updates _ Hc).
  - unfold len. rewrite btree_length. apply Hc.
Qed.

Lemma transition_buf_inj p p' c c' :
  in_width 256 p -> in_width 256 p' -> changes_wf c -> changes_wf c' ->
  transition_buf p c = transition_buf p' c' -> p = p' /\ c = c'.
Proof.
  intros Hp Hp' Hc Hc' H. unfold transition_buf in H. apply app_inv_head in H.
  apply be_bytes_prefix in H as [-> H]; [|by eapply in_width_bytes|by eapply in_width_bytes].
  rewrite <- (app_nil_r (enc_list enc_account (btree (accounts c)))) in H.
  rewrite <- (app_nil_r (enc_list enc_account (btree (accounts c')))) in H.
  apply (enc_list_prefix _ _ enc_account_prefix) in H as [H _];
    [|by apply changes_entries_wf|by apply changes_entries_wf].
  apply btree_inj in H. split; [done|]. destruct c, c'. simpl in H. congruence.
Qed.

(** ** Properties *)

Section props.
Context `{EXT : !External}.

(** The transition root identifies the transition.  Two nonempty
    transitions with the same root, under a hash that does not collide on
    their buffers, start from the same parent and have the same changes; so
    every account, slot and code byte is committed to. *)
Theorem root_transition_binding p p' c c' :
  in_width 256 p -> in_width 256 p' -> changes_wf c -> changes_wf c' ->
  cs_is_empty c = false -> cs_is_empty c' = false ->
  (keccak256 (transition_buf p c) = keccak256 (transition_buf p' c') ->
   transition_buf p c = transition_buf p' c') ->
  root_transition p c = root_transition p' c' -> p = p' /\ c = c'.
Proof.
  intros Hp Hp' Hc Hc' He He' Hk H. unfold root_transition in H. rewrite He, He' in H.
  apply transition_buf_inj; auto.
Qed.
End props.

(** ** Witness *)

#[local] Instance root_ext : External := {|
  keccak256 := fun b => be_value (1 :: b);
  rlp_encode := fun _ => [];
  encode_2718 := fun _ => [];
  decode_2718 := fun _ => Err "unsupported";
  codec_bytes := fun b => b;
  recover_address := fun _ => None;
|}.

Definition demo_transition : ChangeSet :=
  mkChangeSet {[7 := mkUpdate true false 1 10 5 (Some [96; 0]) {[1 := 99]}]}.

Lemma demo_transition_wf : changes_wf demo_transition.
Proof.
  split; [|vm_compute; discriminate].
  intros a u Hu. unfold demo_transition in Hu. simpl in Hu.
  apply lookup_singleton_Some in Hu as [<- <-]. split; [split; vm_compute; done || discriminate|].
  split; simpl; [unfold in_width; lia..| | |vm_compute; discriminate].
  - intros code [= <-]. vm_compute. discriminate.
  - intros k v Hk. apply lookup_singleton_Some in Hk as [<- <-]. unfold in_width. lia.
Qed.

Lemma root_transition_binding_witness :
  root_transition 3 demo_transition = root_transition 3 demo_transition /\ 3 = 3
  /\ demo_transition = demo_transition.
Proof.
  split; [reflexivity|].
  apply (root_transition_binding 3 3 demo_transition demo_transition).
  1, 2: unfold in_width; lia.
  1, 2: exact demo_transition_wf.
  1, 2: vm_compute; reflexivity.
  - intros _. reflexivity.
  - reflexivity.
Defined.
