(* ===== verification/Backend.v ===== *)
(** The storage backend (crates/storage/backend/src): the slot that holds a
    commonware database during writes, the three partitions over it, the
    partition life cycle, the consistency check at start-up and the root
    provider.  The databases of commonware-storage are an interface with laws;
    the partitions are shown to be the durable partitions the store relies on. *)
From stdpp Require Import pretty.
From S2P Require Import Prelude Bytes TxTypes StateDb Changes Encoding QmdbStore QmdbState StateRoot.

(** ** Errors (error.rs) *)

Inductive BackendError : Type :=
| BStorage (msg : string)
| BConfig (msg : string)
| BNotInitialized
| BPartition (msg : string)
| BRootComputation (msg : string)
| BInconsistentPartitions (msg : string).

Definition backend_error_string (e : BackendError) : string :=
  match e with
  | BStorage m => "storage error: " +:+ m
  | BConfig m => "configuration error: " +:+ m
  | BNotInitialized => "database not initialized"
  | BPartition m => "partition error: " +:+ m
  | BRootComputation m => "root computation failed: " +:+ m
  | BInconsistentPartitions m => "inconsistent partitions: " +:+ m
  end.

(** ** The slot (types.rs) *)

Definition StoreSlot (T : Type) : Type := option T.

Section slot.
Context {T : Type}.

Definition slot_new (inner : T) : StoreSlot T := Some inner.
Definition slot_get (s : StoreSlot T) : result T BackendError := ok_or s BNotInitialized.
Definition slot_take (s : StoreSlot T) : StoreSlot T * result T BackendError :=
  (None, ok_or s BNotInitialized).
Definition slot_restore (s : StoreSlot T) (inner : T) : StoreSlot T := Some inner.
Definition slot_into_inner (s : StoreSlot T) : result T BackendError := ok_or s BNotInitialized.
End slot.

(** Values on the wire: exactly as many bytes as announced. *)
Definition account_value_read (buf : bytes) : result (bytes * bytes) string :=
  if len buf <? Z.of_nat ACCOUNT_SIZE then Err "EndOfBuffer"
  else Ok (take ACCOUNT_SIZE buf, drop ACCOUNT_SIZE buf).
Definition storage_value_write (v : U256) : bytes := be_bytes 32 v.
Definition storage_value_read (buf : bytes) : result (U256 * bytes) string :=
  if len buf <? 32 then Err "EndOfBuffer" else Ok (be_value (take 32 buf), drop 32 buf).

(** ** The life cycle of a partition (partition.rs) *)

Inductive PartitionState (D : Type) : Type :=
| Uninitialized
| Ready (db : D)
| Closed.
Arguments Uninitialized {D}.
Arguments Ready {D}.
Arguments Closed {D}.

Section lifecycle.
Context {D : Type}.

Definition partition_new : PartitionState D := Uninitialized.

Definition partition_initialize (s : PartitionState D) (db : D)
    : PartitionState D * result unit BackendError :=
  match s with
  | Uninitialized => (Ready db, Ok tt)
  | Ready _ => (s, Err (BPartition "already initialized"))
  | Closed => (s, Err (BPartition "partition closed"))
  end.

Definition partition_get (s : PartitionState D) : result D BackendError :=
  match s with
  | Ready db => Ok db
  | Uninitialized => Err BNotInitialized
  | Closed => Err (BPartition "partition closed")
  end.

Definition partition_close (s : PartitionState D) : PartitionState D * result D BackendError :=
  (Closed,
   match s with
   | Ready db => Ok db
   | Uninitialized => Err BNotInitialized
   | Closed => Err (BPartition "already closed")
   end).

Definition partition_is_ready (s : PartitionState D) : bool :=
  match s with Ready _ => true | _ => false end.
End lifecycle.

(** ** Databases of commonware-storage *)

(** [qmdb::any]: reads, batches (merkleized against the database, applied and
    committed), the root, and the database a later process opens. *)
Class CwDb (D K V : Type) := {
  cw_batch : Type;
  cw_get : D -> K -> result (option V) string;
  cw_merkleize : D -> list (K * option V) -> result cw_batch string;
  cw_apply : D -> cw_batch -> D * result unit string;
  cw_commit : D -> D * result unit string;
  cw_root : D -> B256;
  cw_reopen : D -> D;
  cw_committed : D -> Prop;
}.

Definition cw_after {D K V} `{!EqDecision K} `{!CwDb D K V} (d : D)
    (ops : list (K * option V)) (k : K) : result (option V) string :=
  match last_write ops k with Some w => Ok w | None => cw_get d k end.

(** An applied batch is visible, a commit makes it durable and changes no
    answer, a committed database reopens as it was; one that failed to apply
    or commit a batch reopens with the batch or without it. *)
Class CwLaws (D K V : Type) `{!EqDecision K} `{!CwDb D K V} : Prop := {
  cw_apply_ok : forall d (ops : list (K * option V)) m d',
    cw_merkleize d ops = Ok m -> cw_apply d m = (d', Ok tt) ->
    forall k, cw_get d' k = cw_after d ops k;
  cw_commit_ok : forall d d', cw_commit (K := K) (V := V) d = (d', Ok tt) ->
    cw_committed (K := K) (V := V) d' /\ forall k : K, cw_get (V := V) d' k = cw_get d k;
  cw_reopen_committed : forall d, cw_committed (K := K) (V := V) d ->
    forall k : K, cw_get (V := V) (cw_reopen (K := K) (V := V) d) k = cw_get d k;
  cw_reopen_clean : forall d, cw_committed (K := K) (V := V) (cw_reopen (K := K) (V := V) d);
  cw_apply_failed : forall d (ops : list (K * option V)) m d' e,
    cw_committed (K := K) (V := V) d -> cw_merkleize d ops = Ok m -> cw_apply d m = (d', Err e) ->
    (forall k, cw_get (cw_reopen (K := K) (V := V) d') k = cw_get d k)
    \/ (forall k, cw_get (cw_reopen (K := K) (V := V) d') k = cw_after d ops k);
  cw_commit_failed : forall d (ops : list (K * option V)) m d' d'' e,
    cw_committed (K := K) (V := V) d -> cw_merkleize d ops = Ok m -> cw_apply d m = (d', Ok tt) ->
    cw_commit (K := K) (V := V) d' = (d'', Err e) ->
    (forall k, cw_get (cw_reopen (K := K) (V := V) d'') k = cw_get d k)
    \/ (forall k, cw_get (cw_reopen (K := K) (V := V) d'') k = cw_after d ops k);
}.

(** ** The partitions (accounts.rs, storage.rs, code.rs) *)

(** A partition: the slot with the open database, and the database as it was
    last left, which is what remains on disk when a failed write has emptied
    the slot. *)
Record PartitionStore (D : Type) := mkPartition {
  ps_inner : StoreSlot D;
  ps_disk : D;
}.
Arguments mkPartition {D}.
Arguments ps_inner {D}.
Arguments ps_disk {D}.

(** [AccountStoreDirty] and its like: the database without a slot. *)
Record DirtyStore (D : Type) := mkDirty { ds_inner : D }.
Arguments mkDirty {D}.
Arguments ds_inner {D}.

Section partitions.
Context {D K V : Type} `{CW : !CwDb D K V}.

Definition part_init (opened : result D string) : result (PartitionStore D) BackendError :=
  let? inner := map_err BStorage opened in
  Ok (mkPartition (slot_new inner) inner).

Definition part_root (p : PartitionStore D) : result B256 BackendError :=
  let? inner := slot_get (ps_inner p) in Ok (cw_root (K := K) (V := V) inner).

Definition part_into_dirty (p : PartitionStore D) : result (DirtyStore D) BackendError :=
  let? inner := slot_into_inner (ps_inner p) in Ok (mkDirty inner).

Definition part_get (p : PartitionStore D) (key : K) : result (option V) BackendError :=
  let? inner := slot_get (ps_inner p) in map_err BStorage (cw_get inner key).

(** The database is taken out of the slot and put back only when the batch was
    applied and committed. *)
Definition part_write_batch (p : PartitionStore D) (ops : list (K * option V))
    : PartitionStore D * result unit BackendError :=
  let '(slot, taken) := slot_take (ps_inner p) in
  match taken with
  | Err e => (mkPartition slot (ps_disk p), Err e)
  | Ok inner =>
      match cw_merkleize inner ops with
      | Err e => (mkPartition slot inner, Err (BStorage e))
      | Ok merkleized =>
          match cw_apply inner merkleized with
          | (inner, Err e) => (mkPartition slot inner, Err (BStorage e))
          | (inner, Ok _) =>
              match cw_commit (K := K) (V := V) inner with
              | (inner, Err e) => (mkPartition slot inner, Err (BStorage e))
              | (inner, Ok _) => (mkPartition (slot_restore slot inner) inner, Ok tt)
              end
          end
      end
  end.

Definition dirty_root (p : DirtyStore D) : B256 := cw_root (K := K) (V := V) (ds_inner p).

Definition dirty_get (p : DirtyStore D) (key : K) : result (option V) BackendError :=
  map_err BStorage (cw_get (ds_inner p) key).

(** A dirty store applies its batches and never commits them. *)
Definition dirty_write_batch (p : DirtyStore D) (ops : list (K * option V))
    : DirtyStore D * result unit BackendError :=
  match cw_merkleize (ds_inner p) ops with
  | Err e => (p, Err (BStorage e))
  | Ok merkleized =>
      let '(inner, r) := cw_apply (ds_inner p) merkleized in
      (mkDirty inner, map_err BStorage r)
  end.

#[export] Instance part_partition : Partition (PartitionStore D) K V := {|
  p_get := fun p k => map_err backend_error_string (part_get p k);
  p_write_batch := fun p ops =>
    let '(p', r) := part_write_batch p ops in (p', map_err backend_error_string r);
|}.

#[export] Instance dirty_partition : Partition (DirtyStore D) K V := {|
  p_get := fun p k => map_err backend_error_string (dirty_get p k);
  p_write_batch := fun p ops =>
    let '(p', r) := dirty_write_batch p ops in (p', map_err backend_error_string r);
|}.

(** The next process opens what is on disk. *)
#[export] Instance part_durable : Durable (PartitionStore D) K V := {|
  p_reopen := fun p =>
    let d := cw_reopen (K := K) (V := V) (ps_disk p) in mkPartition (slot_new d) d;
  p_sound := fun p => forall d, ps_inner p = Some d ->
    ps_disk p = d /\ cw_committed (K := K) (V := V) d;
|}.
End partitions.

Definition AccountStore (D : Type) : Type := PartitionStore D.
Definition StorageStore (D : Type) : Type := PartitionStore D.
Definition CodeStore (D : Type) : Type := PartitionStore D.

Section partition_laws.
Context {D K V : Type} `{!EqDecision K} `{CW : !CwDb D K V} `{CL : !CwLaws D K V}.
#[local] Set Default Proof Using "Type*".

Lemma map_err_ok {T E F} (f : E -> F) (r : result T E) x : map_err f r = Ok x <-> r = Ok x.
Proof. destruct r; simpl; split; congruence. Qed.

Lemma part_get_open d disk (k : K) v :
  p_get (mkPartition (Some d) disk) k = Ok v <-> cw_get d k = Ok v.
Proof. simpl. unfold part_get, slot_get. simpl. by rewrite !map_err_ok. Qed.

(** The four outcomes of a write. *)
Lemma part_write_cases p (ops : list (K * option V)) p' r :
  part_write_batch p ops = (p', r) ->
  match ps_inner p with
  | None => ps_inner p' = None /\ ps_disk p' = ps_disk p /\ r = Err BNotInitialized
  | Some d =>
      match cw_merkleize d ops with
      | Err e => p' = mkPartition None d /\ r = Err (BStorage e)
      | Ok m =>
          match cw_apply d m with
          | (d', Err e) => p' = mkPartition None d' /\ r = Err (BStorage e)
          | (d', Ok _) =>
              match cw_commit (K := K) (V := V) d' with
              | (d'', Err e) => p' = mkPartition None d'' /\ r = Err (BStorage e)
              | (d'', Ok _) => p' = mkPartition (Some d'') d'' /\ r = Ok tt
              end
          end
      end
  end.
Proof.
  unfold part_write_batch, slot_take. destruct (ps_inner p) as [d|]; simpl; [|naive_solver].
  destruct (cw_merkleize d ops) as [m|e]; [|naive_solver].
  destruct (cw_apply d m) as [d' [[]|e]]; [|naive_solver].
  destruct (cw_commit d') as [d'' [[]|e]]; naive_solver.
Qed.

#[export] Instance part_laws : PartitionLaws (PartitionStore D) K V.
Proof.
  split. intros p ops p' Hw k. simpl in Hw.
  destruct (part_write_batch p ops) as [p1 r] eqn:Ew. injection Hw as -> Hr.
  apply map_err_ok in Hr as ->.
  pose proof (part_write_cases _ _ _ _ Ew) as Hc.
  destruct (ps_inner p) as [d|] eqn:Ed; [|naive_solver].
  destruct (cw_merkleize d ops) as [m|e] eqn:Em; [|naive_solver].
  destruct (cw_apply d m) as [d' [[]|e]] eqn:Ea; [|naive_solver].
  destruct (cw_commit d') as [d'' [[]|e]] eqn:Ec; [|naive_solver].
  destruct Hc as [-> _]. destruct (cw_commit_ok _ _ Ec) as [_ Hg].
  unfold after_batch. simpl. unfold part_get. rewrite Ed. simpl.
  rewrite Hg, (cw_apply_ok _ _ _ _ Em Ea). unfold cw_after. by destruct (last_write ops k).
Qed.

#[export] Instance part_durable_laws : DurableLaws (PartitionStore D) K V.
Proof.
  split.
  - intros p d [= <-]. split; [done|]. apply cw_reopen_clean.
  - intros p ops p' _ Hw d Hd. simpl in Hw.
    destruct (part_write_batch p ops) as [p1 r] eqn:Ew. injection Hw as -> Hr.
    apply map_err_ok in Hr as ->. pose proof (part_write_cases _ _ _ _ Ew) as Hc.
    destruct (ps_inner p) as [d0|]; [|naive_solver].
    destruct (cw_merkleize d0 ops) as [m|]; [|naive_solver].
    destruct (cw_apply d0 m) as [d' [[]|e]]; [|naive_solver].
    destruct (cw_commit d') as [d'' [[]|e]] eqn:Ec; [|naive_solver].
    destruct Hc as [-> _]. simpl in *. simplify_eq. split; [done|]. by eapply cw_commit_ok.
  - intros p Hs Hr k. destruct (Hr k) as [v Hv]. simpl in *. unfold part_get in *.
    destruct (ps_inner p) as [d|] eqn:Ed; [|done]. destruct (Hs d eq_refl) as [-> Hc]. simpl in *.
    by rewrite cw_reopen_committed.
  - intros p ops p' e Hs Hr Hw. simpl in Hw.
    destruct (part_write_batch p ops) as [p1 r] eqn:Ew. injection Hw as -> He.
    pose proof (part_write_cases _ _ _ _ Ew) as Hc. unfold after_batch. simpl. unfold part_get.
    destruct (ps_inner p) as [d|] eqn:Ed.
    2:{ left. intros k. destruct (Hr k) as [v Hv]. simpl in Hv. unfold part_get in Hv.
        by rewrite Ed in Hv. }
    destruct (Hs d Ed) as [_ Hcd]. simpl.
    destruct (cw_merkleize d ops) as [m|em] eqn:Em.
    2:{ destruct Hc as [-> _]. left. intros k. simpl. by rewrite cw_reopen_committed. }
    assert (forall d1, (forall k, cw_get (cw_reopen (K := K) (V := V) d1) k = cw_get d k)
        \/ (forall k, cw_get (cw_reopen (K := K) (V := V) d1) k = cw_after d ops k) ->
      (forall k, map_err backend_error_string (map_err BStorage (cw_get (cw_reopen (K := K) (V := V) d1) k))
         = map_err backend_error_string (map_err BStorage (cw_get d k)))
      \/ (forall k, map_err backend_error_string (map_err BStorage (cw_get (cw_reopen (K := K) (V := V) d1) k))
         = match last_write ops k with
           | Some w => Ok w
           | None => map_err backend_error_string (map_err BStorage (cw_get d k))
           end)) as Hmap.
    { intros d1 [H|H]; [left|right]; intros k; rewrite H; [done|].
      unfold cw_after. by destruct (last_write ops k). }
    destruct (cw_apply d m) as [d' [[]|ea]] eqn:Ea.
    2:{ destruct Hc as [-> _]. apply Hmap. by eapply cw_apply_failed. }
    destruct (cw_commit d') as [d'' [[]|ec]] eqn:Ec; [by destruct Hc as [_ ->]|].
    destruct Hc as [-> _]. apply Hmap. by eapply cw_commit_failed.
Qed.
End partition_laws.

(** ** The backend (backend.rs) *)

Definition CODE_MAX_BYTES : usize := 24576.

(** [PartitionCommitSeqs::inconsistency_message]. *)
Definition seq_string (s : option u64) : string :=
  match s with Some n => pretty n | None => "none" end.

Definition inconsistency_message (s : PartitionCommitSeqs) : option string :=
  if is_consistent s then None
  else Some ("QMDB partition commit sequences are inconsistent: accounts=" +:+ seq_string (seq_accounts s)
             +:+ ", storage=" +:+ seq_string (seq_storage s) +:+ ", code=" +:+ seq_string (seq_code s)
             +:+ ". A partial cross-partition commit was detected. The node cannot safely start without state recovery (see issue #88).").

Section backend.
Context `{EXT : !External}.
Context {DA DS DC : Type} `{CA : !CwDb DA Address bytes} `{CS : !CwDb DS StorageKey U256}
        `{CC : !CwDb DC B256 bytes}.

(** [CommonwareBackend], whose context and configuration are the databases they
    open. *)
Definition CommonwareBackend : Type :=
  Stores (AccountStore DA) (StorageStore DS) (CodeStore DC).
Definition DirtyStores : Type := Stores (DirtyStore DA) (DirtyStore DS) (DirtyStore DC).

(** The three databases a context and a configuration open. *)
Record Databases := mkDatabases {
  open_accounts : result DA string;
  open_storage : result DS string;
  open_code : result DC string;
}.

Definition open_stores (dbs : Databases) : result CommonwareBackend BackendError :=
  let? accounts := part_init (open_accounts dbs) in
  let? storage := part_init (open_storage dbs) in
  let? code := part_init (open_code dbs) in
  Ok (mkStores accounts storage code).

Definition open_dirty_stores (dbs : Databases) : result DirtyStores BackendError :=
  let? st := open_stores dbs in
  let? accounts := part_into_dirty (s_accounts st) in
  let? storage := part_into_dirty (s_storage st) in
  let? code := part_into_dirty (s_code st) in
  Ok (mkStores accounts storage code).

Definition state_root_from_roots (accounts storage code : B256) : B256 :=
  root_compute accounts storage code.

Definition state_root_from_stores (b : CommonwareBackend) : result B256 BackendError :=
  let? a := part_root (K := Address) (V := bytes) (s_accounts b) in
  let? s := part_root (K := StorageKey) (V := U256) (s_storage b) in
  let? c := part_root (K := B256) (V := bytes) (s_code b) in
  Ok (state_root_from_roots a s c).

(** The backend's own reading of the markers. *)
Definition backend_code_seq (b : bytes) : option u64 :=
  if Nat.leb 8 (length b) then Some (be_value (slice b 0 8)) else None.

Definition backend_commit_seqs (b : CommonwareBackend) : result PartitionCommitSeqs BackendError :=
  let? a := map_err (fun e => BStorage (backend_error_string e))
              (part_get (s_accounts b) COMMIT_SEQ_ACCOUNT_KEY) in
  let? v := map_err (fun e => BStorage (backend_error_string e))
              (part_get (s_storage b) COMMIT_SEQ_STORAGE_KEY) in
  let? c := map_err (fun e => BStorage (backend_error_string e))
              (part_get (s_code b) COMMIT_SEQ_CODE_KEY) in
  Ok (mkSeqs ((fun '(nonce, _, _, _) => nonce) <$> (a ≫= account_decode))
        (v ≫= fun value => if value `div` 2 ^ 64 =? 0 then Some (value `mod` 2 ^ 64) else None)
        (c ≫= backend_code_seq)).

Definition verify_partition_consistency (b : CommonwareBackend)
    : result PartitionCommitSeqs BackendError :=
  let? seqs := backend_commit_seqs b in
  match inconsistency_message seqs with
  | Some msg => Err (BInconsistentPartitions msg)
  | None => Ok seqs
  end.

(** ** The root provider: each call opens the databases anew. *)

Definition provider_err {T} (r : result T BackendError) : result T HandleError :=
  map_err (fun e => HRootComputation (backend_error_string e)) r.

Definition provider_state_root (dbs : Databases) : result B256 HandleError :=
  let? st := provider_err (open_stores dbs) in
  provider_err (state_root_from_stores st).

Definition provider_compute_root `{!ErrorDisplay} (dbs : Databases) (changes : ChangeSet)
    : result B256 HandleError :=
  if cs_is_empty changes then provider_state_root dbs
  else
    let? st := provider_err (open_dirty_stores dbs) in
    let '(q, r) := commit_changes (mkQmdb (Some st) 0) changes in
    let? _ := map_err (fun e => HRootComputation (qmdb_error_string e)) r in
    let? st := map_err (fun e => HRootComputation (qmdb_error_string e)) (take_stores q).2 in
    Ok (state_root_from_roots (dirty_root (K := Address) (V := bytes) (s_accounts st))
          (dirty_root (K := StorageKey) (V := U256) (s_storage st))
          (dirty_root (K := B256) (V := bytes) (s_code st))).

Definition provider_commit_and_get_root (dbs : Databases) : result B256 HandleError :=
  provider_state_root dbs.

Lemma code_seq_decode x : backend_code_seq x = decode_commit_seq_code x.
Proof.
  unfold backend_code_seq, decode_commit_seq_code. rewrite Nat.ltb_antisym.
  by destruct (Nat.leb 8 (length x)).
Qed.

(** The backend reads the markers as the store does. *)
Lemma backend_seqs_store (b : CommonwareBackend) seqs :
  backend_commit_seqs b = Ok seqs
  <-> read_partition_commit_seqs (mkQmdb (Some b) 0) = Ok seqs.
Proof.
  unfold backend_commit_seqs, read_partition_commit_seqs, stores. simpl.
  destruct (part_get (s_accounts b) _) as [a|e]; simpl; [|done].
  destruct (part_get (s_storage b) _) as [v|e]; simpl; [|done].
  destruct (part_get (s_code b) _) as [c|e]; simpl; [|done].
  assert (forall x y z x' z', x = x' -> z = z' ->
    @Ok _ BackendError (mkSeqs x y z) = Ok seqs <-> @Ok _ QmdbError (mkSeqs x' y z') = Ok seqs) as H
    by (intros; subst; split; congruence).
  apply H.
  - by destruct a as [x|].
  - destruct c as [x|]; [apply code_seq_decode|done].
Qed.
End backend.

(** ** A database in memory *)

Definition mem_apply {K V} `{Countable K} (m : gmap K V) (ops : list (K * option V)) : gmap K V :=
  foldl (fun m op => match op.2 with Some v => <[op.1 := v]> m | None => delete op.1 m end) m ops.

#[export] Instance mem_db {K V} `{Countable K} : CwDb (gmap K V) K V := {|
  cw_batch := list (K * option V);
  cw_get := fun d k => Ok (d !! k);
  cw_merkleize := fun _ ops => Ok ops;
  cw_apply := fun d ops => (mem_apply d ops, Ok tt);
  cw_commit := fun d => (d, Ok tt);
  cw_root := fun d => Z.of_nat (size d);
  cw_reopen := id;
  cw_committed := fun _ => True;
|}.

Lemma mem_apply_lookup {K V} `{Countable K} (m : gmap K V) ops k :
  mem_apply m ops !! k = match last_write ops k with Some w => w | None => m !! k end.
Proof.
  induction ops as [|[j w] ops IH] using rev_ind; [done|].
  unfold mem_apply in *. rewrite last_write_app, last_write_singleton, foldl_snoc. simpl.
  destruct (decide (j = k)) as [->|Hne].
  - destruct w; by rewrite ?lookup_insert_eq, ?lookup_delete_eq.
  - destruct w; by rewrite ?lookup_insert_ne, ?lookup_delete_ne by done.
Qed.

#[export] Instance mem_db_laws {K V} `{Countable K} : CwLaws (gmap K V) K V.
Proof.
  split; try done.
  - intros d ops m d' [= <-] [= <-] k. simpl. unfold cw_after. simpl. rewrite mem_apply_lookup.
    by destruct (last_write ops k).
  - by intros d d' [= <-].
Qed.
