(* ===== verification/Executor.v ===== *)
(** The header rules of the executor (crates/node/executor/src/config.rs,
    context.rs, error.rs and the header part of revm.rs): the EIP-1559 base
    fee, the gas limit bounds and the checks of a header against its parent. *)
From S2P Require Import Prelude.

(** ** Configuration and context *)

Record GasLimitBounds := mkBounds { gl_min : u64; gl_max : u64; max_delta_divisor : u64 }.
Definition GasLimitBounds_DEFAULT : GasLimitBounds := mkBounds 5000 u64_max 1024.

Record BaseFeeParams := mkFeeParams {
  elasticity_multiplier : u64;
  max_change_denominator : u64;
}.
Definition BaseFeeParams_DEFAULT : BaseFeeParams := mkFeeParams 2 8.

(** The hard fork REVM runs; the code names Cancun, the others are set by the
    caller. *)
Inductive SpecId : Type :=
| CANCUN
| OtherSpec (name : string).

Record ExecutionConfig := mkExecConfig {
  ec_chain_id : u64;
  ec_spec_id : SpecId;
  ec_gas_limit_bounds : GasLimitBounds;
  ec_base_fee_params : BaseFeeParams;
}.
Definition ExecutionConfig_new (chain_id : u64) : ExecutionConfig :=
  mkExecConfig chain_id CANCUN GasLimitBounds_DEFAULT BaseFeeParams_DEFAULT.

(** The fields of alloy's [Header] the code reads or sets. *)
Record Header := mkHeader {
  hd_parent_hash : B256;
  hd_beneficiary : Address;
  hd_number : u64;
  hd_gas_limit : u64;
  hd_gas_used : u64;
  hd_timestamp : u64;
  hd_base_fee_per_gas : option u64;
}.

Record BlockContext := mkBlockContext {
  bc_header : Header;
  bc_parent_hash : B256;
  bc_prevrandao : B256;
  bc_blob_base_fee : option u128;
  bc_recent_block_hashes : gmap u64 B256;
}.
Definition BlockContext_new (header : Header) (parent_hash prevrandao : B256) : BlockContext :=
  mkBlockContext header parent_hash prevrandao None ∅.
Definition with_blob_base_fee (c : BlockContext) (fee : u128) : BlockContext :=
  mkBlockContext (bc_header c) (bc_parent_hash c) (bc_prevrandao c) (Some fee)
    (bc_recent_block_hashes c).

Definition MAX_BLOCK_HASHES : usize := 256.

(** [with_recent_block_hashes]: which entries of a larger map are kept is up
    to the order of the hash map. *)
Definition with_recent_block_hashes (c : BlockContext) (hashes : gmap u64 B256) : BlockContext :=
  mkBlockContext (bc_header c) (bc_parent_hash c) (bc_prevrandao c) (bc_blob_base_fee c)
    (if MAX_BLOCK_HASHES <? Z.of_nat (size hashes)
     then list_to_map (take (Z.to_nat MAX_BLOCK_HASHES) (map_to_list hashes))
     else hashes).

Record ParentBlock := mkParentBlock {
  pb_hash : B256;
  pb_number : u64;
  pb_timestamp : u64;
  pb_gas_limit : u64;
  pb_gas_used : u64;
  pb_base_fee_per_gas : option u64;
}.
Definition ParentBlock_from_header (h : Header) (hash : B256) : ParentBlock :=
  mkParentBlock hash (hd_number h) (hd_timestamp h) (hd_gas_limit h) (hd_gas_used h)
    (hd_base_fee_per_gas h).

(** ** Header checks *)

(** The message of a failed check, by the values it is formatted from. *)
Inductive HeaderFault : Type :=
| NumberNotSequential (expected got : u64)
| ParentHashMismatch (expected got : B256)
| TimestampBackwards (parent current : u64)
| GasLimitBelow (limit min : u64)
| GasLimitAbove (limit max : u64)
| GasLimitDelta (diff max_delta : u64)
| MissingBaseFee
| BaseFeeMismatch (expected got : u64).

(** [calculate_base_fee].  [None] is the panic of a division by zero. *)
Definition calculate_base_fee (parent_base_fee parent_gas_used parent_gas_limit : u64)
    (params : BaseFeeParams) : option u64 :=
  parent_gas_target ← checked_div parent_gas_limit (elasticity_multiplier params);
  if parent_gas_used =? parent_gas_target then Some parent_base_fee
  else if parent_gas_target <? parent_gas_used then
    scaled ← checked_div
      (saturating_mul u128_max parent_base_fee (parent_gas_used - parent_gas_target))
      parent_gas_target;
    delta ← checked_div scaled (max_change_denominator params);
    Some (saturating_add u64_max parent_base_fee (wrap u64_max (Z.max delta 1)))
  else
    scaled ← checked_div
      (saturating_mul u128_max parent_base_fee (parent_gas_target - parent_gas_used))
      parent_gas_target;
    delta ← checked_div scaled (max_change_denominator params);
    Some (saturating_sub parent_base_fee (wrap u64_max delta)).

(** [validate_header]. *)
Definition validate_header (cfg : ExecutionConfig) (h : Header) : result unit HeaderFault :=
  let bounds := ec_gas_limit_bounds cfg in
  if hd_gas_limit h <? gl_min bounds then Err (GasLimitBelow (hd_gas_limit h) (gl_min bounds))
  else if gl_max bounds <? hd_gas_limit h
  then Err (GasLimitAbove (hd_gas_limit h) (gl_max bounds))
  else Ok tt.

(** [validate_gas_limit]; the division panics when the divisor is zero. *)
Definition validate_gas_limit (cfg : ExecutionConfig) (gas_limit parent_gas_limit : u64)
    : option (result unit HeaderFault) :=
  let bounds := ec_gas_limit_bounds cfg in
  if gas_limit <? gl_min bounds then Some (Err (GasLimitBelow gas_limit (gl_min bounds)))
  else if gl_max bounds <? gas_limit then Some (Err (GasLimitAbove gas_limit (gl_max bounds)))
  else
    max_delta ← checked_div parent_gas_limit (max_delta_divisor bounds);
    let diff := Z.abs (gas_limit - parent_gas_limit) in
    Some (if max_delta <=? diff then Err (GasLimitDelta diff max_delta) else Ok tt).

Definition validate_base_fee (cfg : ExecutionConfig) (h : Header)
    (parent_base_fee parent_gas_used parent_gas_limit : u64)
    : option (result unit HeaderFault) :=
  expected ← calculate_base_fee parent_base_fee parent_gas_used parent_gas_limit
    (ec_base_fee_params cfg);
  Some (match hd_base_fee_per_gas h with
        | None => Err MissingBaseFee
        | Some actual =>
            if negb (actual =? expected) then Err (BaseFeeMismatch expected actual) else Ok tt
        end).

(** [validate_header_against_parent]; [parent.number + 1] wraps. *)
Definition validate_header_against_parent (cfg : ExecutionConfig) (h : Header) (p : ParentBlock)
    : option (result unit HeaderFault) :=
  let next := wrapping_add u64_max (pb_number p) 1 in
  if negb (hd_number h =? next) then Some (Err (NumberNotSequential next (hd_number h)))
  else if negb (hd_parent_hash h =? pb_hash p)
  then Some (Err (ParentHashMismatch (pb_hash p) (hd_parent_hash h)))
  else if hd_timestamp h <? pb_timestamp p
  then Some (Err (TimestampBackwards (pb_timestamp p) (hd_timestamp h)))
  else
    r ← validate_gas_limit cfg (hd_gas_limit h) (pb_gas_limit p);
    match r with
    | Err e => Some (Err e)
    | Ok _ =>
        match pb_base_fee_per_gas p with
        | Some parent_base_fee =>
            validate_base_fee cfg h parent_base_fee (pb_gas_used p) (pb_gas_limit p)
        | None => Some (Ok tt)
        end
    end.

(** ** EIP-1559 *)

(** The base fee of the standard, over the unbounded integers. *)
Definition eip1559_base_fee (fee used target denominator : Z) : Z :=
  if used =? target then fee
  else if target <? used then fee + Z.max 1 (fee * (used - target) / target / denominator)
  else fee - fee * (target - used) / target / denominator.

(** Parameters and a parent block for which the deltas stay in range. *)
Record fee_inputs_ok (fee used limit : Z) (params : BaseFeeParams) : Prop := {
  fi_fee : 0 <= fee <= u64_max;
  fi_used : 0 <= used <= limit;
  fi_limit : limit <= u64_max;
  fi_elasticity : 0 < elasticity_multiplier params <= limit;
  fi_denominator : 2 * (elasticity_multiplier params - 1) <= max_change_denominator params;
  fi_positive : 0 < max_change_denominator params;
}.

Lemma checked_div_Some a b : b <> 0 -> checked_div a b = Some (a / b).
Proof. intros Hb. unfold checked_div. by rewrite (proj2 (Z.eqb_neq b 0) Hb). Qed.

(** The products fit in 128 bits. *)
Lemma fee_mul_exact fee d :
  0 <= fee <= u64_max -> 0 <= d <= u64_max -> saturating_mul u128_max fee d = fee * d.
Proof.
  intros [Hf Hf'] [Hd Hd']. unfold saturating_mul. apply Z.min_r.
  transitivity (u64_max * u64_max); [by apply Z.mul_le_mono_nonneg|].
  vm_compute. discriminate.
Qed.

Lemma div_le_of_mul a b c : 0 < b -> a <= c * b -> a / b <= c.
Proof. intros Hb H. apply Z.div_le_upper_bound; lia. Qed.

(** A rise above the target moves the fee by at most itself. *)
Lemma fee_delta_le fee d target den :
  0 <= fee -> 0 < target -> 0 < den -> 0 <= d <= den * target ->
  0 <= fee * d / target / den <= fee.
Proof.
  intros Hf Ht Hden Hd. split.
  - apply Z.div_pos; [apply Z.div_pos; nia|done].
  - apply div_le_of_mul; [done|]. apply div_le_of_mul; [done|]. nia.
Qed.

Lemma fee_rise_bound fee used limit params :
  fee_inputs_ok fee used limit params ->
  let target := limit / elasticity_multiplier params in
  0 < target /\ used - target <= max_change_denominator params * target.
Proof.
  intros [_ [_ Hu] _ [He Hel] Hd _] target.
  assert (0 < target) as Ht by (apply Z.div_str_pos; lia). split; [done|].
  pose proof (Z.mul_succ_div_gt limit (elasticity_multiplier params) ltac:(lia)) as Hlt.
  fold target in Hlt. set (em := elasticity_multiplier params) in *. nia.
Qed.

Lemma wrap_small x : 0 <= x <= u64_max -> wrap u64_max x = x.
Proof. intros H. unfold wrap. apply Z.mod_small. lia. Qed.

(** [calculate_base_fee] is the standard's formula, saturating at 64 bits. *)
Lemma calculate_base_fee_eq fee used limit params :
  fee_inputs_ok fee used limit params ->
  calculate_base_fee fee used limit params
  = Some (Z.min u64_max (eip1559_base_fee fee used (limit / elasticity_multiplier params)
                           (max_change_denominator params))).
Proof.
  intros Hok. destruct (fee_rise_bound _ _ _ _ Hok) as [Ht Hrise].
  destruct Hok as [Hf [Hu0 Hu] Hl [He Hel] Hd Hp].
  unfold calculate_base_fee, eip1559_base_fee. rewrite checked_div_Some by lia. simpl.
  set (target := limit / elasticity_multiplier params) in *.
  assert (target <= limit) as Htl by (apply Z.div_le_upper_bound; nia).
  destruct (Z.eqb_spec used target) as [->|Hne]; [f_equal; lia|].
  destruct (Z.ltb_spec target used) as [Hlt|Hge].
  - rewrite fee_mul_exact, checked_div_Some by lia. simpl. rewrite checked_div_Some by lia. simpl.
    pose proof (fee_delta_le fee (used - target) target (max_change_denominator params)
      ltac:(lia) Ht Hp ltac:(lia)).
    rewrite wrap_small by (unfold u64_max in *; lia). unfold saturating_add. f_equal. lia.
  - rewrite fee_mul_exact, checked_div_Some by lia. simpl. rewrite checked_div_Some by lia. simpl.
    assert (target <= max_change_denominator params * target) by nia.
    pose proof (fee_delta_le fee (target - used) target (max_change_denominator params)
      ltac:(lia) Ht Hp ltac:(lia)).
    rewrite wrap_small by lia. unfold saturating_sub. f_equal. lia.
Qed.

(** ** Properties *)

(** The base fee of the next block is the one of EIP-1559.  No
    intermediate product or delta is truncated; a block above the target
    raises the fee (unless it is at the 64-bit maximum), one below lowers it
    by at most one part in the denominator; and a positive fee stays positive
    when the denominator is at least two. *)
Theorem base_fee_eip1559 fee used limit params :
  fee_inputs_ok fee used limit params ->
  let target := limit / elasticity_multiplier params in
  exists next, calculate_base_fee fee used limit params = Some next
    /\ next = Z.min u64_max
                (eip1559_base_fee fee used target (max_change_denominator params))
    /\ 0 <= next <= u64_max
    /\ (target < used -> fee < next \/ next = u64_max)
    /\ (used <= target -> fee - fee / max_change_denominator params <= next <= fee)
    /\ (0 < fee -> 2 <= max_change_denominator params -> 0 < next).
Proof.
  intros Hok target. rewrite (calculate_base_fee_eq _ _ _ _ Hok). fold target.
  eexists. split; [done|]. split; [done|].
  destruct (fee_rise_bound _ _ _ _ Hok) as [Ht _]. fold target in Ht.
  destruct Hok as [Hf [Hu0 Hu] Hl [He Hel] Hd Hp]. unfold eip1559_base_fee.
  set (den := max_change_denominator params) in *.
  assert (0 <= fee / den) as Hq by (apply Z.div_pos; lia).
  assert (2 <= den -> 0 < fee -> fee / den < fee) as Hq2 by (intros; apply Z.div_lt; lia).
  destruct (Z.eqb_spec used target) as [->|Hne]; [split_and!; lia|].
  destruct (Z.ltb_spec target used) as [Hlt|Hge].
  - split_and!; lia.
  - assert (fee * (target - used) / target / den <= fee / den) as Hle.
    { apply Z.div_le_mono; [done|]. apply div_le_of_mul; nia. }
    assert (0 <= fee * (target - used) / target / den) as Hge0
      by (apply Z.div_pos; [apply Z.div_pos; nia|done]).
    assert (fee / den <= fee) as Hqle by (apply Z.div_le_upper_bound; nia).
    split_and!; try lia.
Qed.

(** A header accepted against its parent continues it: number, parent
    hash and time follow, the gas limit is within the bounds and moved by less
    than the allowed fraction, and the base fee is the one of EIP-1559. *)
Theorem header_against_parent_sound cfg h p fee :
  validate_header_against_parent cfg h p = Some (Ok tt) ->
  pb_base_fee_per_gas p = Some fee -> pb_number p < u64_max -> 0 <= pb_number p ->
  fee_inputs_ok fee (pb_gas_used p) (pb_gas_limit p) (ec_base_fee_params cfg) ->
  let bounds := ec_gas_limit_bounds cfg in
  hd_number h = pb_number p + 1 /\ hd_parent_hash h = pb_hash p
  /\ pb_timestamp p <= hd_timestamp h
  /\ gl_min bounds <= hd_gas_limit h <= gl_max bounds
  /\ Z.abs (hd_gas_limit h - pb_gas_limit p) < pb_gas_limit p / max_delta_divisor bounds
  /\ hd_base_fee_per_gas h
     = Some (Z.min u64_max (eip1559_base_fee fee (pb_gas_used p)
         (pb_gas_limit p / elasticity_multiplier (ec_base_fee_params cfg))
         (max_change_denominator (ec_base_fee_params cfg)))).
Proof.
  intros H Hfee Hn Hn0 Hok. cbv zeta. unfold validate_header_against_parent in H.
  rewrite Hfee in H. unfold wrapping_add in H. rewrite wrap_small in H by lia.
  destruct (Z.eqb_spec (hd_number h) (pb_number p + 1)) as [->|]; [|done].
  destruct (Z.eqb_spec (hd_parent_hash h) (pb_hash p)) as [->|]; [|done].
  destruct (Z.ltb_spec (hd_timestamp h) (pb_timestamp p)); [done|]. simpl in H.
  unfold validate_gas_limit in H.
  destruct (Z.ltb_spec (hd_gas_limit h) (gl_min (ec_gas_limit_bounds cfg))); [done|].
  destruct (Z.ltb_spec (gl_max (ec_gas_limit_bounds cfg)) (hd_gas_limit h)); [done|].
  unfold checked_div in H. destruct (Z.eqb_spec (max_delta_divisor (ec_gas_limit_bounds cfg)) 0);
    [done|]. simpl in H.
  match type of H with context [?a <=? ?b] => destruct (Z.leb_spec a b) end; [done|]. simpl in H.
  unfold validate_base_fee in H. rewrite (calculate_base_fee_eq _ _ _ _ Hok) in H. simpl in H.
  destruct (hd_base_fee_per_gas h) as [actual|]; [|done].
  match type of H with context [negb (?a =? ?b)] => destruct (Z.eqb_spec a b) as [Heq|] end; [|done].
  rewrite Heq. split_and!; done.
Qed.

(** ** Witnesses *)

Lemma default_fee_inputs fee used :
  0 <= fee <= u64_max -> 0 <= used <= 250000000 ->
  fee_inputs_ok fee used 250000000 BaseFeeParams_DEFAULT.
Proof. intros. split; simpl; unfold u64_max in *; lia. Qed.

Lemma base_fee_eip1559_witness :
  calculate_base_fee 1000000000 250000000 250000000 BaseFeeParams_DEFAULT = Some 1125000000
  /\ 0 < 1125000000.
Proof.
  destruct (base_fee_eip1559 1000000000 250000000 250000000 BaseFeeParams_DEFAULT
    ltac:(apply default_fee_inputs; unfold u64_max; lia)) as (n & Hn & Hn' & _ & _ & _ & Hp).
  assert (n = 1125000000) as -> by (rewrite Hn'; vm_compute; reflexivity).
  split; [exact Hn|]. apply Hp; [lia|]. simpl. lia.
Defined.

Definition demo_parent : ParentBlock := mkParentBlock 7 41 100 250000000 0 (Some 1000000000).
Definition demo_header : Header := mkHeader 7 0 42 250000000 0 100 (Some 875000000).

Lemma header_against_parent_sound_witness :
  validate_header_against_parent (ExecutionConfig_new 1) demo_header demo_parent = Some (Ok tt)
  /\ hd_base_fee_per_gas demo_header
     = Some (Z.min u64_max (eip1559_base_fee 1000000000 0 125000000 8)).
Proof.
  assert (validate_header_against_parent (ExecutionConfig_new 1) demo_header demo_parent
          = Some (Ok tt)) as H by (vm_compute; reflexivity).
  split; [exact H|].
  destruct (header_against_parent_sound (ExecutionConfig_new 1) demo_header demo_parent 1000000000)
    as (_ & _ & _ & _ & _ & Hf);
    [exact H|reflexivity|vm_compute; reflexivity|vm_compute; discriminate
    |apply default_fee_inputs; unfold u64_max; simpl; lia|].
  exact Hf.
Defined.

(** A parent block with no gas target and some gas used stops the node: the
    division by the target panics. *)
Lemma base_fee_panics : calculate_base_fee 1000000000 1 1 BaseFeeParams_DEFAULT = None.
Proof. reflexivity. Qed.

(** A zero base fee is not stuck at zero. *)
Lemma zero_base_fee_rises :
  calculate_base_fee 0 250000000 250000000 BaseFeeParams_DEFAULT = Some 1.
Proof. reflexivity. Qed.
