(* ===== verification/Execute.v ===== *)
(** Block execution (crates/node/executor/src/revm.rs, adapter.rs, outcome.rs
    and traits.rs): decoding of transactions into REVM's environment, the
    execution loop with its gas accounting, receipts and collected changes,
    call simulation and gas estimation.  REVM itself is an interface. *)
From Stdlib Require Import FunctionalExtensionality.
From S2P Require Import Prelude TxTypes SenderQueue Pool StateDb Changes Encoding QmdbStore.
From S2P Require Import QmdbState Executor.

(** ** Outcomes *)

Record Log := mkLog { log_address : Address; log_topics : list B256; log_data : bytes }.

Record ExecutionReceipt := mkReceipt {
  er_tx_hash : B256;
  er_success : bool;
  er_gas_used : u64;
  er_cumulative_gas_used : u64;
  er_logs : list Log;
  er_contract_address : option Address;
}.

Record ExecutionOutcome := mkOutcome {
  eo_changes : ChangeSet;
  eo_receipts : list ExecutionReceipt;
  eo_gas_used : u64;
  eo_selfdestructed_addresses : list Address;
}.
Definition ExecutionOutcome_new : ExecutionOutcome := mkOutcome ChangeSet_new [] 0 [].

Inductive ExecutionError : Type :=
| ExState (e : StateDbError)
| TxDecode (msg : string)
| TxExecution (msg : string)
| ExRevert (output : bytes)
| InvalidTx (msg : string)
| BlockValidation (fault : HeaderFault)
| ExCodeNotFound (hash : B256)
| StateCommit.

(** REVM's results, with the fields the executor reads. *)
Inductive Output : Type :=
| OutCall (data : bytes)
| OutCreate (data : bytes) (address : option Address).

Inductive ExecutionResult : Type :=
| Success (gas_used : u64) (logs : list Log) (output : Output)
| Revert (gas_used : u64) (output : bytes)
| Halt (gas_used : u64) (reason : string).

Definition tx_gas_used (r : ExecutionResult) : u64 :=
  match r with Success g _ _ => g | Revert g _ => g | Halt g _ => g end.

(** ** The database adapter *)

(** REVM's [DatabaseRef]. *)
Record DatabaseRef := mkDatabaseRef {
  dbr_basic : Address -> result (option AccountInfo) ExecutionError;
  dbr_code_by_hash : B256 -> result bytes ExecutionError;
  dbr_storage : Address -> U256 -> result U256 ExecutionError;
  dbr_block_hash : u64 -> result B256 ExecutionError;
}.

Section adapter.
Context {St : Type} `{SDB : !StateDbRead St}.

Definition adapter_basic (s : St) (address : Address)
    : result (option AccountInfo) ExecutionError :=
  let r :=
    let? nonce := st_nonce s address in
    let? balance := st_balance s address in
    let? code_hash := st_code_hash s address in
    Ok (mkAccountInfo nonce balance code_hash None) in
  match r with
  | Ok info => Ok (Some info)
  | Err (AccountNotFound _) => Ok None
  | Err e => Err (ExState e)
  end.

Definition adapter_code_by_hash (s : St) (code_hash : B256) : result bytes ExecutionError :=
  if (code_hash =? KECCAK256_EMPTY) || (code_hash =? 0) then Ok []
  else map_err ExState (st_code s code_hash).

Definition adapter_storage (s : St) (address : Address) (index : U256)
    : result U256 ExecutionError :=
  match st_storage s address index with
  | Ok value => Ok value
  | Err (AccountNotFound _) => Ok 0
  | Err e => Err (ExState e)
  end.

Definition adapter_block_hash (hashes : gmap u64 B256) (number : u64)
    : result B256 ExecutionError :=
  Ok (default 0 (hashes !! number)).

(** [StateDbAdapter] as REVM sees it. *)
Definition adapter (s : St) (hashes : gmap u64 B256) : DatabaseRef :=
  mkDatabaseRef (adapter_basic s) (adapter_code_by_hash s) (adapter_storage s)
    (adapter_block_hash hashes).
End adapter.

(** [take_commit_failure] of the state: the default never fails, the handle
    reads and clears its flag. *)
Class CommitFailure (St : Type) := { take_failure : St -> St * bool }.

#[export] Instance overlay_failure {St} : CommitFailure (OverlayState St) :=
  {| take_failure := fun o => (o, false) |}.
#[export] Instance handle_failure {A S C R} : CommitFailure (QmdbHandle A S C R) :=
  {| take_failure := take_commit_failure |}.

(** ** REVM *)

Record CallParams := mkCallParams {
  cp_from : Address; cp_to : option Address; cp_value : U256; cp_data : bytes;
  cp_gas_limit : option u64; cp_gas_price : u128; cp_nonce : u64;
}.

Inductive TxKind : Type :=
| TxCall (to : Address)
| TxCreate.

Record RecoveredAuthorization := mkRecovered {
  ra_chain_id : U256; ra_address : Address; ra_nonce : u64;
  ra_authority : option Address;
}.

(** What the code sets on REVM's [TxEnvBuilder]; [None] is a setter that is
    not called. *)
Record TxEnvBuilder := mkTxEnvBuilder {
  tb_caller : Address;
  tb_gas_limit : u64;
  tb_gas_price : u128;
  tb_gas_priority_fee : option u128;
  tb_value : U256;
  tb_data : bytes;
  tb_nonce : u64;
  tb_chain_id : option u64;
  tb_kind : TxKind;
  tb_access_list : option (list AccessListItem);
  tb_max_fee_per_blob_gas : option u128;
  tb_blob_hashes : option (list B256);
  tb_authorization_list : option (list RecoveredAuthorization);
}.

Record BlockEnv := mkBlockEnv {
  be_number : U256; be_timestamp : U256; be_beneficiary : Address; be_gas_limit : u64;
  be_basefee : u64; be_prevrandao : option B256;
  be_blob_price : option (u64 * u128);
}.

Record CfgEnv := mkCfgEnv {
  ce_chain_id : u64; ce_spec_id : SpecId;
  ce_disable_nonce_check : bool; ce_disable_balance_check : bool; ce_disable_base_fee : bool;
}.

(** The parts of REVM and of the signature library the executor calls:
    [Db] is REVM's [State] over a [DatabaseRef], [replay] runs the current
    transaction (it may fill caches of the database), [db_commit] applies a
    state to the cache. *)
Class Revm := {
  TxEnv : Type;
  te_gas_limit : TxEnv -> u64;
  tx_env_build : TxEnvBuilder -> result TxEnv string;
  recover_authority : SignedAuthorization -> option Address;
  Db : Type;
  db_build : DatabaseRef -> Db;
  replay : CfgEnv -> BlockEnv -> TxEnv -> Db
           -> Db * result (ExecutionResult * gmap Address EvmAccount) string;
  db_commit : Db -> gmap Address EvmAccount -> Db;
}.

Section execute.
Context `{EXT : !External} `{RV : !Revm}.

(** ** Decoding *)

Definition convert_tx_kind (kind : option Address) : TxKind :=
  match kind with Some addr => TxCall addr | None => TxCreate end.

Definition convert_access_list (l : list AccessListItem) : list AccessListItem :=
  (fun item => mkAccessListItem (al_address item) (al_storage_keys item)) <$> l.

Definition convert_authorization_list (l : list SignedAuthorization)
    : list RecoveredAuthorization :=
  (fun auth => mkRecovered (sa_chain_id auth) (sa_address auth) (sa_nonce auth)
                 (recover_authority auth)) <$> l.

(** The builder of each kind of envelope. *)
Definition tx_env_builder (caller : Address) (envelope : TxEnvelope) : TxEnvBuilder :=
  match envelope with
  | Legacy tx _ =>
      mkTxEnvBuilder caller (leg_gas_limit tx) (leg_gas_price tx) None (leg_value tx)
        (leg_input tx) (leg_nonce tx) (leg_chain_id tx) (convert_tx_kind (leg_to tx))
        None None None None
  | Eip2930 tx _ =>
      mkTxEnvBuilder caller (e2930_gas_limit tx) (e2930_gas_price tx) None (e2930_value tx)
        (e2930_input tx) (e2930_nonce tx) (Some (e2930_chain_id tx))
        (convert_tx_kind (e2930_to tx)) (Some (convert_access_list (e2930_access_list tx)))
        None None None
  | Eip1559 tx _ =>
      mkTxEnvBuilder caller (e1559_gas_limit tx) (e1559_max_fee_per_gas tx)
        (Some (e1559_max_priority_fee_per_gas tx)) (e1559_value tx) (e1559_input tx)
        (e1559_nonce tx) (Some (e1559_chain_id tx)) (convert_tx_kind (e1559_to tx))
        (Some (convert_access_list (e1559_access_list tx))) None None None
  | Eip4844 tx _ =>
      mkTxEnvBuilder caller (e4844_gas_limit tx) (e4844_max_fee_per_gas tx)
        (Some (e4844_max_priority_fee_per_gas tx)) (e4844_value tx) (e4844_input tx)
        (e4844_nonce tx) (Some (e4844_chain_id tx)) (TxCall (e4844_to tx))
        (Some (convert_access_list (e4844_access_list tx)))
        (Some (e4844_max_fee_per_blob_gas tx)) (Some (e4844_blob_versioned_hashes tx)) None
  | Eip7702 tx _ =>
      mkTxEnvBuilder caller (e7702_gas_limit tx) (e7702_max_fee_per_gas tx)
        (Some (e7702_max_priority_fee_per_gas tx)) (e7702_value tx) (e7702_input tx)
        (e7702_nonce tx) (Some (e7702_chain_id tx)) (TxCall (e7702_to tx))
        (Some (convert_access_list (e7702_access_list tx))) None None
        (Some (convert_authorization_list (e7702_authorization_list tx)))
  end.

(** [decode_tx_env]; the messages keep the cause the library reports. *)
Definition decode_tx_env (tx_bytes : bytes) : result TxEnv ExecutionError :=
  let? envelope := map_err TxDecode (decode_2718 tx_bytes) in
  match recover_address envelope with
  | None => Err (TxDecode "failed to recover signer")
  | Some caller =>
      map_err (fun e => TxDecode ("failed to build tx env: " ++ e)%string)
        (tx_env_build (tx_env_builder caller envelope))
  end.

(** ** Receipts and changes *)

Definition build_skipped_receipt (tx_hash : B256) (cumulative_gas_used : u64)
    : ExecutionReceipt :=
  mkReceipt tx_hash false 0 cumulative_gas_used [] None.

Definition build_receipt (r : ExecutionResult) (tx_hash : B256)
    (gas_used cumulative_gas_used : u64) : ExecutionReceipt :=
  let '(success, logs, contract_address) :=
    match r with
    | Success _ logs output =>
        (true, logs, match output with OutCreate _ addr => addr | OutCall _ => None end)
    | Revert _ _ => (false, [], None)
    | Halt _ _ => (false, [], None)
    end in
  mkReceipt tx_hash success gas_used cumulative_gas_used logs contract_address.

(** [extract_changes]: REVM's state is a map, visited in any order. *)
Definition extract_changes (state : gmap Address EvmAccount) : ChangeSet :=
  foldl (fun changes '(address, account) =>
           if ea_touched account then cs_insert changes address (evm_update account)
           else changes)
    ChangeSet_new (map_to_list state).

Definition selfdestructed_of (state : gmap Address EvmAccount) : list Address :=
  omap (fun '(address, account) => if ea_selfdestructed account then Some address else None)
    (map_to_list state).

(** ** The environment of a block *)

Definition block_env (context : BlockContext) : BlockEnv :=
  let h := bc_header context in
  mkBlockEnv (hd_number h) (hd_timestamp h) (hd_beneficiary h) (hd_gas_limit h)
    (default 0 (hd_base_fee_per_gas h)) (Some (bc_prevrandao context))
    ((fun fee => (0, fee)) <$> bc_blob_base_fee context).

Definition exec_cfg (cfg : ExecutionConfig) : CfgEnv :=
  mkCfgEnv (ec_chain_id cfg) (ec_spec_id cfg) false false false.
Definition call_cfg (cfg : ExecutionConfig) : CfgEnv :=
  mkCfgEnv (ec_chain_id cfg) (ec_spec_id cfg) true true true.

(** ** Execution *)

Definition push_receipt (o : ExecutionOutcome) (r : ExecutionReceipt) : ExecutionOutcome :=
  mkOutcome (eo_changes o) (eo_receipts o ++ [r]) (eo_gas_used o)
    (eo_selfdestructed_addresses o).

(** The loop over the transactions: an undecodable or unexecutable transaction
    is skipped with a placeholder receipt, one that could exceed the block gas
    limit ends the block. *)
Fixpoint execute_loop (cfg : CfgEnv) (env : BlockEnv) (gas_limit : u64) (txs : list bytes)
    (db : Db) (cumulative_gas : u64) (outcome : ExecutionOutcome) : u64 * ExecutionOutcome :=
  match txs with
  | [] => (cumulative_gas, outcome)
  | tx_bytes :: rest =>
      let tx_hash := keccak256 tx_bytes in
      match decode_tx_env tx_bytes with
      | Err _ =>
          execute_loop cfg env gas_limit rest db cumulative_gas
            (push_receipt outcome (build_skipped_receipt tx_hash cumulative_gas))
      | Ok tx_env =>
          if gas_limit <? saturating_add u64_max cumulative_gas (te_gas_limit tx_env)
          then (cumulative_gas, outcome)
          else
            match replay cfg env tx_env db with
            | (db', Err _) =>
                execute_loop cfg env gas_limit rest db' cumulative_gas
                  (push_receipt outcome (build_skipped_receipt tx_hash cumulative_gas))
            | (db', Ok (r, evm_state)) =>
                let gas_used := tx_gas_used r in
                let cumulative := saturating_add u64_max cumulative_gas gas_used in
                let o := push_receipt outcome (build_receipt r tx_hash gas_used cumulative) in
                execute_loop cfg env gas_limit rest (db_commit db' evm_state) cumulative
                  (mkOutcome (cs_merge (eo_changes o) (extract_changes evm_state))
                     (eo_receipts o) (eo_gas_used o)
                     (eo_selfdestructed_addresses o ++ selfdestructed_of evm_state))
            end
      end
  end.

Definition set_gas_used (o : ExecutionOutcome) (gas : u64) : ExecutionOutcome :=
  mkOutcome (eo_changes o) (eo_receipts o) gas (eo_selfdestructed_addresses o).

Definition merge_outcome (o : ExecutionOutcome) (c : ChangeSet) : ExecutionOutcome :=
  mkOutcome (cs_merge (eo_changes o) c) (eo_receipts o) (eo_gas_used o)
    (eo_selfdestructed_addresses o).

Section state.
Context {St : Type} `{SDB : !StateDbRead St} `{CF : !CommitFailure St}.

(** The hooks the REVM executor leaves at their defaults. *)
Definition pre_execute (context : BlockContext) (state : St) : result ChangeSet ExecutionError :=
  Ok ChangeSet_new.
Definition post_execute (context : BlockContext) (state : St) (receipts : list ExecutionReceipt)
    : result ChangeSet ExecutionError :=
  Ok ChangeSet_new.

(** [BlockExecutor::execute]; reading the failure flag clears it. *)
Definition execute (cfg : ExecutionConfig) (state : St) (context : BlockContext)
    (txs : list bytes) : St * result ExecutionOutcome ExecutionError :=
  match pre_execute context state with
  | Err e => (state, Err e)
  | Ok pre_changes =>
      let outcome := merge_outcome ExecutionOutcome_new pre_changes in
      let outcome :=
        match txs with
        | [] => outcome
        | _ =>
            let db := db_build (adapter state (bc_recent_block_hashes context)) in
            let '(gas, o) := execute_loop (exec_cfg cfg) (block_env context)
              (hd_gas_limit (bc_header context)) txs db 0 outcome in
            set_gas_used o gas
        end in
      match take_failure state with
      | (state', true) => (state', Err StateCommit)
      | (state', false) =>
          match post_execute context state (eo_receipts outcome) with
          | Err e => (state', Err e)
          | Ok post_changes => (state', Ok (merge_outcome outcome post_changes))
          end
      end
  end.

(** ** Calls *)

Definition call_params_to_tx_env (params : CallParams) (chain_id default_gas_limit : u64)
    : result TxEnv ExecutionError :=
  map_err (fun e => InvalidTx ("build call tx env: " ++ e)%string) (tx_env_build
    (mkTxEnvBuilder (cp_from params) (default default_gas_limit (cp_gas_limit params))
       (cp_gas_price params) None (cp_value params) (cp_data params) (cp_nonce params)
       (Some chain_id) (convert_tx_kind (cp_to params)) None None None None)).

Definition simulate_call (cfg : ExecutionConfig) (state : St) (params : CallParams)
    (context : BlockContext) : result bytes ExecutionError :=
  let db := db_build (adapter state (bc_recent_block_hashes context)) in
  let? tx_env := call_params_to_tx_env params (ec_chain_id cfg)
                   (hd_gas_limit (bc_header context)) in
  match replay (call_cfg cfg) (block_env context) tx_env db with
  | (_, Err e) => Err (TxExecution e)
  | (_, Ok (Success _ _ (OutCall data), _)) => Ok data
  | (_, Ok (Success _ _ (OutCreate data _), _)) => Ok data
  | (_, Ok (Revert _ output, _)) => Err (ExRevert output)
  | (_, Ok (Halt _ reason, _)) => Err (TxExecution ("halt: " ++ reason)%string)
  end.

Definition with_gas (params : CallParams) (gas : u64) : CallParams :=
  mkCallParams (cp_from params) (cp_to params) (cp_value params) (cp_data params) (Some gas)
    (cp_gas_price params) (cp_nonce params).

(** The binary search of [estimate_gas], [n] iterations left. *)
Fixpoint estimate_loop (try : u64 -> bool) (n : nat) (lo hi best : u64) : u64 :=
  match n with
  | O => best
  | S n' =>
      if lo + 1 <? hi then
        let mid := lo + (hi - lo) / 2 in
        if try mid then estimate_loop try n' lo mid mid else estimate_loop try n' mid hi best
      else best
  end.

Definition estimate_gas (cfg : ExecutionConfig) (state : St) (params : CallParams)
    (context : BlockContext) : result u64 ExecutionError :=
  let block_limit := hd_gas_limit (bc_header context) in
  let upper := Z.min (default block_limit (cp_gas_limit params)) block_limit in
  let? _ := simulate_call cfg state (with_gas params upper) context in
  Ok (estimate_loop (fun gas => is_ok (simulate_call cfg state (with_gas params gas) context))
        25 21000 upper upper).
End state.
End execute.

(** ** Gas and receipts *)

(** What the executor relies on of REVM: a transaction uses at most its gas
    limit, and the builder keeps the gas limit it was given. *)
Class RevmLaws `{!Revm} := {
  replay_gas cfg env tx db db' r st :
    replay cfg env tx db = (db', Ok (r, st)) -> 0 <= tx_gas_used r <= te_gas_limit tx;
  tx_env_gas b e : tx_env_build b = Ok e -> te_gas_limit e = tb_gas_limit b;
}.

(** The cumulative gas of each receipt is the running total from [c]. *)
Fixpoint running_gas (c : Z) (rs : list ExecutionReceipt) : Prop :=
  match rs with
  | [] => True
  | r :: rs' => er_cumulative_gas_used r = c + er_gas_used r /\ running_gas (c + er_gas_used r) rs'
  end.

Definition gas_of (rs : list ExecutionReceipt) : Z := sum_Z (er_gas_used <$> rs).

Section theory.
Context `{EXT : !External} `{RV : !Revm} `{RL : !RevmLaws}.
#[local] Set Default Proof Using "Type*".

(** What a run of the loop adds to the receipts. *)
Definition loop_receipts (limit : Z) (txs : list bytes) (c c' : Z) (rs : list ExecutionReceipt)
    : Prop :=
  er_tx_hash <$> rs = keccak256 <$> take (length rs) txs
  /\ c' = c + gas_of rs /\ c <= c' <= limit /\ running_gas c rs
  /\ match drop (length rs) txs with
     | [] => length rs = length txs
     | tx :: _ => exists env, decode_tx_env tx = Ok env /\ limit < c' + te_gas_limit env
     end.

Lemma loop_receipts_cons limit tx txs c g c' r rs :
  er_tx_hash r = keccak256 tx -> er_gas_used r = g -> er_cumulative_gas_used r = c + g -> 0 <= g ->
  loop_receipts limit txs (c + g) c' rs -> loop_receipts limit (tx :: txs) c c' (r :: rs).
Proof.
  intros Hh Hg Hc Hg0 (H1 & H2 & H3 & H4 & H5). unfold loop_receipts, gas_of in *.
  cbn [length take drop running_gas]. rewrite !fmap_cons, sum_Z_cons, H1, Hh, Hg, Hc.
  split_and!; try lia; try done. destruct (drop (length rs) txs); [lia|done].
Qed.

Lemma loop_receipts_nil limit txs c :
  c <= limit ->
  match txs with
  | [] => True
  | tx :: _ => exists env, decode_tx_env tx = Ok env /\ limit < c + te_gas_limit env
  end -> loop_receipts limit txs c c [].
Proof.
  intros Hc Ht. unfold loop_receipts, gas_of. cbn. split_and!; [done|lia|lia|lia|done|].
  by destruct txs.
Qed.

Lemma execute_loop_spec cfg env limit txs db c o :
  0 <= c <= limit -> limit < u64_max ->
  let '(c', o') := execute_loop cfg env limit txs db c o in
  exists rs, eo_receipts o' = eo_receipts o ++ rs /\ loop_receipts limit txs c c' rs.
Proof.
  intros Hc Hl. revert db c o Hc. induction txs as [|tx txs IH]; intros db c o Hc;
    cbn [execute_loop].
  { exists []. rewrite app_nil_r. split; [done|]. apply loop_receipts_nil; [lia|done]. }
  assert (forall db o1 g r, er_tx_hash r = keccak256 tx -> er_gas_used r = g ->
    er_cumulative_gas_used r = c + g -> 0 <= g -> c + g <= limit ->
    eo_receipts o1 = eo_receipts o ++ [r] ->
    let '(c', o') := execute_loop cfg env limit txs db (c + g) o1 in
    exists rs, eo_receipts o' = eo_receipts o ++ rs /\ loop_receipts limit (tx :: txs) c c' rs)
    as Hstep.
  { intros db1 o1 g r Hh Hg Hcum Hg0 Hle Ho1. specialize (IH db1 (c + g) o1 ltac:(lia)).
    destruct (execute_loop _ _ _ _ _ _ _) as [c' o']. destruct IH as (rs & Hrs & Hl').
    exists (r :: rs). split; [|by eapply loop_receipts_cons].
    rewrite Hrs, Ho1, <- app_assoc. done. }
  assert (forall db, let '(c', o') := execute_loop cfg env limit txs db c
      (push_receipt o (build_skipped_receipt (keccak256 tx) c)) in
    exists rs, eo_receipts o' = eo_receipts o ++ rs /\ loop_receipts limit (tx :: txs) c c' rs)
    as Hskip.
  { intros db1. pose proof (Hstep db1 (push_receipt o (build_skipped_receipt (keccak256 tx) c)) 0
      (build_skipped_receipt (keccak256 tx) c)) as Hs. rewrite Z.add_0_r in Hs.
    apply Hs; simpl; (done || lia). }
  destruct (decode_tx_env tx) as [tx_env|e] eqn:Ed; [|apply Hskip].
  destruct (Z.ltb_spec limit (saturating_add u64_max c (te_gas_limit tx_env))) as [Hlt|Hge].
  { exists []. rewrite app_nil_r. split; [done|]. apply loop_receipts_nil; [lia|].
    exists tx_env. split; [done|]. unfold saturating_add in Hlt. lia. }
  destruct (replay cfg env tx_env db) as [db' [[r st]|e]] eqn:Er; [|apply Hskip].
  destruct (replay_gas _ _ _ _ _ _ _ Er) as [Hg0 Hg1]. unfold saturating_add in Hge.
  assert (saturating_add u64_max c (tx_gas_used r) = c + tx_gas_used r) as ->
    by (unfold saturating_add; lia).
  eapply Hstep; [..|done]; [by destruct r|by destruct r|by destruct r|lia|lia].
Qed.

Section state.
Context {St : Type} `{SDB : !StateDbRead St} `{CF : !CommitFailure St}.

(** The outcome of a successful execution, by the run of the loop. *)
Lemma execute_Ok cfg (s s' : St) ctx txs o :
  execute cfg s ctx txs = (s', Ok o) ->
  s' = (take_failure s).1 /\ (take_failure s).2 = false
  /\ o = merge_outcome (match txs with
        | [] => merge_outcome ExecutionOutcome_new ChangeSet_new
        | _ => let '(gas, o') := execute_loop (exec_cfg cfg) (block_env ctx)
                 (hd_gas_limit (bc_header ctx)) txs
                 (db_build (adapter s (bc_recent_block_hashes ctx))) 0
                 (merge_outcome ExecutionOutcome_new ChangeSet_new) in
               set_gas_used o' gas
        end) ChangeSet_new.
Proof.
  unfold execute, pre_execute, post_execute.
  destruct (take_failure s) as [s1 []] eqn:Et; intros H; by simplify_eq/=.
Qed.

(** C39: the accounting of a block.  Receipts follow the transactions one to
    one from the first (a skipped transaction keeps its place), the gas of the
    block is the sum over the receipts and stays within the block gas limit,
    the cumulative gas of a receipt is the running total, and a transaction
    without a receipt is only found after one that could not fit. *)
Theorem execute_accounting cfg (s s' : St) ctx txs o :
  0 <= hd_gas_limit (bc_header ctx) < u64_max ->
  execute cfg s ctx txs = (s', Ok o) ->
  let limit := hd_gas_limit (bc_header ctx) in
  let n := length (eo_receipts o) in
  er_tx_hash <$> eo_receipts o = keccak256 <$> take n txs
  /\ eo_gas_used o = gas_of (eo_receipts o) /\ 0 <= eo_gas_used o <= limit
  /\ running_gas 0 (eo_receipts o)
  /\ match drop n txs with
     | [] => n = length txs
     | tx :: _ => exists env, decode_tx_env tx = Ok env
                   /\ limit < eo_gas_used o + te_gas_limit env
     end.
Proof.
  intros Hl (_ & _ & ->)%execute_Ok. cbv zeta. destruct txs as [|tx txs].
  { unfold gas_of. simpl. split_and!; [done|done|lia|lia|done|done]. }
  pose proof (execute_loop_spec (exec_cfg cfg) (block_env ctx) (hd_gas_limit (bc_header ctx))
    (tx :: txs) (db_build (adapter s (bc_recent_block_hashes ctx))) 0
    (merge_outcome ExecutionOutcome_new ChangeSet_new) ltac:(lia) ltac:(lia)) as Hspec.
  destruct (execute_loop _ _ _ _ _ _ _) as [c' o'].
  destruct Hspec as (rs & Hrs & H1 & H2 & H3 & H4 & H5).
  cbn [merge_outcome set_gas_used eo_receipts eo_gas_used ExecutionOutcome_new app] in *.
  rewrite Hrs. split_and!; try done; lia.
Qed.
End state.
End theory.

(** ** Determinism *)

Lemma adapter_same_reads {St Tt} `{!StateDbRead St} `{!StateDbRead Tt} (s : St) (t : Tt) hashes :
  same_reads s t -> adapter s hashes = adapter t hashes.
Proof.
  intros (Hn & Hb & Hh & Hc & Hs). unfold adapter.
  f_equal; repeat (apply functional_extensionality; intros ?);
    unfold adapter_basic, adapter_code_by_hash, adapter_storage.
  - by rewrite Hn, Hb, Hh.
  - by rewrite Hc.
  - by rewrite Hs.
Qed.

Section determinism.
Context `{EXT : !External} `{RV : !Revm}.

Lemma execute_reads {St Tt} `{!StateDbRead St} `{!StateDbRead Tt}
    `{!CommitFailure St} `{!CommitFailure Tt} cfg (s : St) (t : Tt) ctx txs :
  same_reads s t -> (take_failure s).2 = (take_failure t).2 ->
  (execute cfg s ctx txs).2 = (execute cfg t ctx txs).2.
Proof.
  intros Hr Hf. unfold execute, pre_execute, post_execute. rewrite (adapter_same_reads s t _ Hr).
  destruct (take_failure s) as [s' f], (take_failure t) as [t' f']. simpl in Hf. subst f'.
  by destruct f.
Qed.

(** Execution is a function of what the state answers.  Two nodes whose
    states answer every read alike (whatever overlays and databases they are
    made of) compute the same outcome, receipts, gas and changes, or the same
    error; so do calls and gas estimates. *)
Theorem execute_same_reads {St Tt} `{!StateDbRead St} `{!StateDbRead Tt}
    `{!CommitFailure St} `{!CommitFailure Tt} cfg (s : St) (t : Tt) ctx txs params :
  same_reads s t -> (take_failure s).2 = (take_failure t).2 ->
  (execute cfg s ctx txs).2 = (execute cfg t ctx txs).2
  /\ simulate_call cfg s params ctx = simulate_call cfg t params ctx
  /\ estimate_gas cfg s params ctx = estimate_gas cfg t params ctx.
Proof.
  intros Hr Hf.
  assert (forall ps, simulate_call cfg s ps ctx = simulate_call cfg t ps ctx) as Hsim.
  { intros ps. unfold simulate_call. by rewrite (adapter_same_reads s t _ Hr). }
  split_and!; [by apply execute_reads|apply Hsim|].
  unfold estimate_gas. rewrite Hsim.
  replace (fun gas => is_ok (simulate_call cfg s (with_gas params gas) ctx))
    with (fun gas => is_ok (simulate_call cfg t (with_gas params gas) ctx)); [done|].
  apply functional_extensionality. intros g. by rewrite Hsim.
Qed.
End determinism.

(** ** Gas estimation *)

(** The search keeps a failing (or untried) lower end and a succeeding upper
    end, and halves their distance. *)
Lemma estimate_loop_spec try n lo hi :
  0 <= lo < hi -> try hi = true ->
  exists lo', lo <= lo' < estimate_loop try n lo hi hi
    /\ estimate_loop try n lo hi hi <= hi
    /\ try (estimate_loop try n lo hi hi) = true
    /\ (lo' = lo \/ try lo' = false)
    /\ (estimate_loop try n lo hi hi - lo' - 1) * 2 ^ Z.of_nat n <= hi - lo - 1.
Proof.
  revert lo hi. induction n as [|n IH]; intros lo hi Hlh Hhi; cbn [estimate_loop].
  { exists lo. split_and!; [lia|lia|lia|done|by left|lia]. }
  destruct (Z.ltb_spec (lo + 1) hi) as [Hlt|Hge].
  2:{ exists lo. split_and!; [lia|lia|lia|done|by left|].
      replace (hi - lo - 1) with 0 by lia. lia. }
  set (mid := lo + (hi - lo) / 2).
  assert (lo < mid < hi) as Hm.
  { unfold mid. pose proof (Z.div_lt (hi - lo) 2 ltac:(lia) ltac:(lia)).
    pose proof (Z.div_str_pos (hi - lo) 2 ltac:(lia)). lia. }
  assert (2 * (mid - lo) <= hi - lo /\ 2 * (hi - mid) <= hi - lo + 1) as [Hm1 Hm2].
  { unfold mid. pose proof (Z.mul_div_le (hi - lo) 2 ltac:(lia)).
    pose proof (Z.mul_succ_div_gt (hi - lo) 2 ltac:(lia)). lia. }
  rewrite Nat2Z.inj_succ, Z.pow_succ_r by lia.
  destruct (try mid) eqn:Em.
  - destruct (IH lo mid ltac:(lia) Em) as (lo' & H1 & H2 & H3 & H4 & H5).
    exists lo'. split_and!; [lia|lia|lia|done|done|nia].
  - destruct (IH mid hi ltac:(lia) Hhi) as (lo' & H1 & H2 & H3 & H4 & H5).
    exists lo'. split_and!; [lia|lia|lia|done| |nia].
    destruct H4 as [->|?]; by right.
Qed.

Section calls.
Context `{EXT : !External} `{RV : !Revm}.
Context {St : Type} `{SDB : !StateDbRead St}.

(** C40: a gas estimate is sufficient and close to minimal.  The call runs
    with the estimate, which is within the block and request limits; and when
    more gas never makes a call fail, no amount of gas above 21000 that
    suffices is smaller than the estimate by more than the range divided by
    2^25, so none at all when the range is at most 2^25. *)
Theorem estimate_gas_minimal cfg (s : St) params ctx best :
  let limit := hd_gas_limit (bc_header ctx) in
  let upper := Z.min (default limit (cp_gas_limit params)) limit in
  let runs g := is_ok (simulate_call cfg s (with_gas params g) ctx) in
  21000 < upper -> estimate_gas cfg s params ctx = Ok best ->
  runs best = true /\ 21000 < best <= upper
  /\ ((forall g g', g <= g' <= upper -> runs g = true -> runs g' = true) ->
      forall g, 21000 < g -> runs g = true -> best - g <= (upper - 21001) / 2 ^ 25).
Proof.
  intros limit upper runs Hu He. unfold estimate_gas in He. fold limit in He. fold upper in He.
  destruct (simulate_call cfg s (with_gas params upper) ctx) as [out|e] eqn:Es; [|done].
  assert (runs upper = true) as Hr by (unfold runs; by rewrite Es).
  fold runs in He.
  destruct (estimate_loop_spec runs 25 21000 upper ltac:(lia) Hr) as (lo & H1 & H2 & H3 & H4 & H5).
  generalize dependent (estimate_loop runs 25 21000 upper upper). intros b He H1 H2 H3 H5.
  simplify_eq/=.
  split_and!; [done|lia|done|]. intros Hmono g Hg Hrg.
  assert (lo < g) as Hlo.
  { destruct H4 as [->|Hf]; [lia|]. apply Z.nle_gt. intros Hle.
    by rewrite (Hmono g lo ltac:(lia) Hrg) in Hf. }
  etransitivity; [|apply (Z.div_le_lower_bound _ _ (best - lo - 1))]; lia.
Qed.

(** The fields of the builder that come from the transaction's own accessors. *)
Lemma tx_env_builder_fields caller e :
  let b := tx_env_builder caller e in
  tb_caller b = caller /\ tb_nonce b = env_nonce e /\ tb_gas_limit b = env_gas_limit e
  /\ tb_gas_price b = effective_gas_price e /\ tb_value b = env_value e
  /\ tb_data b = env_input e /\ tb_kind b = convert_tx_kind (env_to e)
  /\ tb_chain_id b = env_chain_id e.
Proof. by destruct e. Qed.

(** The executor runs what the pool ordered.  A transaction accepted by
    the mempool interface, and its re-encoding when the pool hands it to a
    block, are both executed with the sender, nonce and price by which the
    pool ordered it, and with the gas limit, value, input and target of the
    envelope; neither is skipped for its signature. *)
Theorem executor_runs_ordered now tx x :
  tx_to_ordered now tx = Some x ->
  decode_2718 (encode_2718 (ot_envelope x)) = Ok (ot_envelope x) ->
  exists b, decode_tx_env (tx_bytes tx)
      = map_err (fun e => TxDecode ("failed to build tx env: " ++ e)%string) (tx_env_build b)
    /\ decode_tx_env (tx_bytes (ordered_to_tx x)) = decode_tx_env (tx_bytes tx)
    /\ tb_caller b = ot_sender x /\ tb_nonce b = ot_nonce x /\ tb_gas_price b = ot_price x
    /\ tb_gas_limit b = env_gas_limit (ot_envelope x) /\ tb_value b = env_value (ot_envelope x)
    /\ tb_data b = env_input (ot_envelope x)
    /\ tb_kind b = convert_tx_kind (env_to (ot_envelope x)).
Proof.
  intros Hx Hrt. unfold tx_to_ordered in Hx.
  destruct (decode_2718 (tx_bytes tx)) as [e|] eqn:Ed; [|done]. simpl in Hx.
  destruct (recover_address e) as [sender|] eqn:Er; [|done]. simpl in Hx. simplify_eq.
  exists (tx_env_builder sender e).
  pose proof (tx_env_builder_fields sender e) as Hf. cbv zeta in Hf. destruct_and!.
  unfold ordered_to_tx, decode_tx_env.
  cbn [tx_bytes ot_envelope ot_sender ot_nonce ot_price] in *.
  rewrite Hrt, Ed. cbn [map_err]. rewrite Er. split_and!; done.
Qed.
End calls.

(** ** Witnesses *)

#[local] Instance exec_ext : External := {|
  keccak256 := foldl (fun h b => h * 257 + b + 1) 0;
  rlp_encode := fun e => [9; env_nonce e];
  encode_2718 := fun e => match e with Legacy tx _ => [leg_nonce tx; leg_value tx] | _ => [] end;
  decode_2718 := fun b =>
    match b with
    | [n; v] => Ok (Legacy (mkTxLegacy (Some 1) n 1000000000 50000 (Some 7) v [])
                      (mkSignature 1 1 false))
    | _ => Err "bad length"
    end;
  codec_bytes := fun b => len b :: b;
  recover_address := fun _ => Some 42;
|}.

(** A machine that charges 30000 gas and bumps the nonce of the caller. *)
#[local] Instance exec_revm : Revm := {|
  TxEnv := TxEnvBuilder;
  te_gas_limit := tb_gas_limit;
  tx_env_build := Ok;
  recover_authority := fun _ => None;
  Db := DatabaseRef;
  db_build := fun r => r;
  replay := fun cfg env tx db =>
    (db, if tb_gas_limit tx <? 30000 then Err "out of gas"%string
         else Ok (Success 30000 [] (OutCall [1]),
                  {[tb_caller tx := mkEvmAccount true false false (tb_nonce tx + 1) 0 0 None ∅]}));
  db_commit := fun db _ => db;
|}.

#[local] Instance exec_laws : RevmLaws.
Proof.
  split; [|by intros b e [= ->]]. intros cfg env tx db db' r st H. simpl in H.
  destruct (Z.ltb_spec (tb_gas_limit tx) 30000); simplify_eq/=. lia.
Qed.

#[local] Instance exec_state : StateDbRead Z := {|
  st_nonce := fun n _ => Ok n; st_balance := fun _ _ => Ok 0;
  st_code_hash := fun _ _ => Ok 0; st_code := fun _ _ => Ok [];
  st_storage := fun _ _ _ => Ok 0 |}.
#[local] Instance exec_failure : CommitFailure Z := {| take_failure := fun s => (s, false) |}.

Definition exec_context : BlockContext :=
  BlockContext_new (mkHeader 0 0 1 100000 0 12 (Some 1000000000)) 0 5.
Definition exec_txs : list bytes := [[0; 3]; [1]; [1; 4]; [2; 5]].
Definition exec_outcome : ExecutionOutcome :=
  match (execute (ExecutionConfig_new 1) 0 exec_context exec_txs).2 with
  | Ok o => o | Err _ => ExecutionOutcome_new
  end.

(** Two transactions run, one is skipped, the last does not fit any more. *)
Lemma execute_accounting_witness :
  execute (ExecutionConfig_new 1) 0 exec_context exec_txs = (0, Ok exec_outcome)
  /\ length (eo_receipts exec_outcome) = 3%nat /\ eo_gas_used exec_outcome = 60000
  /\ running_gas 0 (eo_receipts exec_outcome).
Proof.
  assert (execute (ExecutionConfig_new 1) 0 exec_context exec_txs = (0, Ok exec_outcome)) as H
    by reflexivity.
  split; [exact H|]. split; [reflexivity|]. split; [reflexivity|].
  assert (0 <= hd_gas_limit (bc_header exec_context) < u64_max) as Hl
    by (split; vm_compute; [discriminate|reflexivity]).
  exact (proj1 (proj2 (proj2 (proj2
    (execute_accounting (ExecutionConfig_new 1) 0 0 exec_context exec_txs exec_outcome Hl H))))).
Defined.

Definition exec_call : CallParams := mkCallParams 42 (Some 7) 0 [] None 0 0.

Lemma execute_same_reads_witness :
  (execute (ExecutionConfig_new 1) 0 exec_context exec_txs).2
  = (execute (ExecutionConfig_new 1) (mkOverlay 0 ChangeSet_new) exec_context exec_txs).2.
Proof.
  apply (execute_same_reads (ExecutionConfig_new 1) 0 (mkOverlay 0 ChangeSet_new) exec_context
    exec_txs exec_call); [|reflexivity].
  unfold same_reads. split_and!; reflexivity.
Defined.

Lemma estimate_gas_minimal_witness :
  exists best, estimate_gas (ExecutionConfig_new 1) 0 exec_call exec_context = Ok best
    /\ 21000 < best <= 100000
    /\ is_ok (simulate_call (ExecutionConfig_new 1) 0 (with_gas exec_call best) exec_context)
       = true.
Proof.
  exists 30000.
  assert (estimate_gas (ExecutionConfig_new 1) 0 exec_call exec_context = Ok 30000) as H
    by (vm_compute; reflexivity).
  split; [exact H|].
  destruct (estimate_gas_minimal (ExecutionConfig_new 1) 0 exec_call exec_context 30000
    ltac:(simpl; lia) H) as (Hr & Hb & _).
  split; [exact Hb|exact Hr].
Defined.

Definition exec_ordered : OrderedTransaction :=
  mkOT (keccak256 [0; 3]) 42 0 1000000000 9
    (Legacy (mkTxLegacy (Some 1) 0 1000000000 50000 (Some 7) 3 []) (mkSignature 1 1 false)).

Lemma executor_runs_ordered_witness :
  tx_to_ordered 9 (mkTx [0; 3]) = Some exec_ordered
  /\ exists b, decode_tx_env [0; 3] = Ok b /\ tb_caller b = 42 /\ tb_nonce b = 0.
Proof.
  assert (tx_to_ordered 9 (mkTx [0; 3]) = Some exec_ordered) as H by reflexivity.
  split; [exact H|].
  destruct (executor_runs_ordered 9 (mkTx [0; 3]) exec_ordered H eq_refl)
    as (b & Hd & _ & Hc & Hn & _).
  exists b. split; [exact Hd|]. split; [exact Hc|exact Hn].
Defined.

(** A plain transfer that needs exactly 21000 gas is estimated at 21001: the
    lower end of the search is never tried. *)
Lemma transfer_overestimated :
  estimate_loop (fun gas => 21000 <=? gas) 25 21000 1000000 1000000 = 21001.
Proof. vm_compute. reflexivity. Qed.

(** With the default block gas limit the 25 iterations do not reach the
    minimum. *)
Lemma estimate_not_converged :
  estimate_loop (fun gas => 100000 <=? gas) 25 21000 250000000 250000000 = 100004.
Proof. vm_compute. reflexivity. Qed.
