(* ===== verification/Codec.v ===== *)
(** The commonware codec the consensus types are encoded with, as an
    interface, and the fixed-size fields the code reads and writes itself
    (crates/node/domain/src/idents.rs, commitment.rs, tx.rs). *)
From S2P Require Import Prelude Bytes TxTypes.

Inductive CodecError : Type :=
| EndOfBuffer
| InvalidEnum (tag : Z)
| InvalidLength (length : Z)
| CodecFault (msg : string).

(** [Read]: a value and the rest of the buffer. *)
Definition Reader (T : Type) : Type := bytes -> result (T * bytes) CodecError.

(** ** The library

    Integers, booleans, lengths with a limit, vectors with a limit on their
    length, and byte vectors (written by [codec_bytes]); each with the size
    the library announces. *)
Class Codec `{EXT : !External} := {
  write_u64 : u64 -> bytes;
  read_u64 : Reader u64;
  write_bool : bool -> bytes;
  read_bool : Reader bool;
  write_usize : usize -> bytes;
  read_usize (max : usize) : Reader usize;
  write_vec {T} (write : T -> bytes) : list T -> bytes;
  read_vec {T} (max : usize) (read : Reader T) : Reader (list T);
  read_bytes (max : usize) : Reader bytes;
  u64_size : usize;
  bool_size : usize;
  usize_size : usize -> usize;
  vec_size {T} (size : T -> usize) : list T -> usize;
  bytes_size : bytes -> usize;
}.

(** [read] gives back what [write] wrote and leaves the rest. *)
Definition reads_back {T} (read : Reader T) (write : T -> bytes) (x : T) : Prop :=
  forall rest, read (write x ++ rest) = Ok (x, rest).

(** [read] rejects what [write] wrote. *)
Definition rejects {T} (read : Reader T) (write : T -> bytes) (x : T) : Prop :=
  forall rest, is_ok (read (write x ++ rest)) = false.

(** Lengths are encoded as 32-bit integers. *)
Class CodecLaws `{CD : Codec} := {
  u64_law x : in_width 64 x -> reads_back read_u64 write_u64 x;
  bool_law b : reads_back read_bool write_bool b;
  usize_law max n : in_width 32 n -> n <= max -> reads_back (read_usize max) write_usize n;
  usize_limit max n : in_width 32 n -> max < n -> rejects (read_usize max) write_usize n;
  vec_law {T} max (read : Reader T) write l :
    in_width 32 (len l) -> len l <= max -> Forall (reads_back read write) l ->
    reads_back (read_vec max read) (write_vec write) l;
  vec_limit {T} max (read : Reader T) write l :
    in_width 32 (len l) -> max < len l -> rejects (read_vec max read) (write_vec write) l;
  bytes_law max b :
    in_width 32 (len b) -> bytes_ok b -> len b <= max ->
    reads_back (read_bytes max) codec_bytes b;
  bytes_limit max b :
    in_width 32 (len b) -> max < len b -> rejects (read_bytes max) codec_bytes b;
  u64_size_law x : in_width 64 x -> len (write_u64 x) = u64_size;
  bool_size_law b : len (write_bool b) = bool_size;
  usize_size_law n : 0 <= n -> len (write_usize n) = usize_size n;
  vec_size_law {T} (write : T -> bytes) size l :
    Forall (fun x => len (write x) = size x) l -> len (write_vec write l) = vec_size size l;
  bytes_size_law b : len (codec_bytes b) = bytes_size b;
}.

(** ** Fixed-size fields *)

(** [copy_to_slice] after the check of the remaining bytes. *)
Definition read_fixed (n : nat) : Reader Z := fun buf =>
  if (length buf <? n)%nat then Err EndOfBuffer else Ok (be_value (take n buf), drop n buf).

Definition write_b256 (value : B256) : bytes := be_bytes 32 value.
Definition read_b256 : Reader B256 := read_fixed 32.
Definition write_address (value : Address) : bytes := be_bytes 20 value.
Definition read_address : Reader Address := read_fixed 20.
Definition write_u256 (value : U256) : bytes := be_bytes 32 value.
Definition read_u256 : Reader U256 := read_fixed 32.

Lemma read_fixed_back n x :
  0 <= x < 256 ^ Z.of_nat n -> reads_back (read_fixed n) (be_bytes n) x.
Proof.
  intros Hx rest. unfold read_fixed.
  rewrite length_app, be_bytes_length, take_app_length', drop_app_length'
    by (by rewrite be_bytes_length).
  rewrite be_value_bytes_id by done. by rewrite (proj2 (Nat.ltb_ge _ _)) by lia.
Qed.

Lemma b256_back x : in_width 256 x -> reads_back read_b256 write_b256 x.
Proof. intros H. apply read_fixed_back. by eapply in_width_bytes. Qed.
Lemma u256_back x : in_width 256 x -> reads_back read_u256 write_u256 x.
Proof. intros H. apply read_fixed_back. by eapply in_width_bytes. Qed.
Lemma address_back x : in_width 160 x -> reads_back read_address write_address x.
Proof. intros H. apply read_fixed_back. by eapply in_width_bytes. Qed.

#[export] Hint Resolve b256_back u256_back address_back : kora.

(** Reading a field of a concatenation. *)
Lemma reads_back_app {T} (read : Reader T) write x (l rest : bytes) :
  reads_back read write x -> read ((write x ++ l) ++ rest) = Ok (x, l ++ rest).
Proof. intros H. rewrite <- app_assoc. apply H. Qed.

(** A value is determined by an encoding that reads back. *)
Lemma reads_back_inj {T} (read : Reader T) write x y :
  reads_back read write x -> reads_back read write y -> write x = write y -> x = y.
Proof.
  intros Hx Hy H. specialize (Hx []). specialize (Hy []). rewrite H, Hy in Hx. by simplify_eq.
Qed.

(** ** Transactions (tx.rs) *)

(** A transaction of bytes that can be encoded. *)
Definition wire_tx_ok (tx : Tx) : Prop := in_width 32 (len (tx_bytes tx)) /\ bytes_ok (tx_bytes tx).

Section tx.
Context `{EXT : !External} `{CD : !Codec}.

Definition tx_write (tx : Tx) : bytes := codec_bytes (tx_bytes tx).
Definition tx_encode_size (tx : Tx) : usize := bytes_size (tx_bytes tx).
Definition tx_read_cfg (max_tx_bytes : usize) : Reader Tx := fun buf =>
  let? (data, rest) := read_bytes max_tx_bytes buf in Ok (mkTx data, rest).

Context `{CL : !CodecLaws}.
#[local] Set Default Proof Using "Type*".

Lemma tx_back max tx :
  wire_tx_ok tx -> len (tx_bytes tx) <= max -> reads_back (tx_read_cfg max) tx_write tx.
Proof.
  intros [Hw Hb] Hl rest. unfold tx_read_cfg, tx_write.
  rewrite (bytes_law max _ Hw Hb Hl rest). by destruct tx.
Qed.

Lemma tx_limit max tx :
  wire_tx_ok tx -> max < len (tx_bytes tx) -> rejects (tx_read_cfg max) tx_write tx.
Proof.
  intros [Hw _] Hl rest. unfold tx_read_cfg, tx_write.
  pose proof (bytes_limit max (tx_bytes tx) Hw Hl rest) as H.
  by destruct (read_bytes max _) as [[]|].
Qed.

Lemma tx_size tx : len (tx_write tx) = tx_encode_size tx.
Proof. apply bytes_size_law. Qed.
End tx.

(** ** A codec that satisfies the laws *)

#[local] Instance simple_ext (K : bytes -> B256) : External := {|
  keccak256 := K;
  rlp_encode := fun e => [];
  encode_2718 := fun e => [];
  decode_2718 := fun b => Err "unsupported";
  codec_bytes := fun b => be_bytes 4 (len b) ++ b;
  recover_address := fun _ => None;
|}.

Definition read_len (max : Z) : Reader Z := fun buf =>
  let? (n, rest) := read_fixed 4 buf in
  if max <? n then Err (CodecFault "length") else Ok (n, rest).

Fixpoint read_items {T} (read : Reader T) (n : nat) : Reader (list T) := fun buf =>
  match n with
  | O => Ok ([], buf)
  | S n' =>
      let? (x, buf) := read buf in
      let? (l, buf) := read_items read n' buf in
      Ok (x :: l, buf)
  end.

Definition simple_codec (K : bytes -> B256) : @Codec (simple_ext K) := {|
  write_u64 := be_bytes 8;
  read_u64 := read_fixed 8;
  write_bool := fun b => [if b then 1 else 0];
  read_bool := fun buf =>
    match buf with b :: rest => Ok (negb (b =? 0), rest) | [] => Err EndOfBuffer end;
  write_usize := be_bytes 4;
  read_usize := read_len;
  write_vec T write l := be_bytes 4 (len l) ++ (x ← l; write x);
  read_vec T max read := fun buf =>
    let? (n, rest) := read_len max buf in read_items read (Z.to_nat n) rest;
  read_bytes max := fun buf =>
    let? (n, rest) := read_len max buf in
    if (length rest <? Z.to_nat n)%nat then Err EndOfBuffer
    else Ok (take (Z.to_nat n) rest, drop (Z.to_nat n) rest);
  u64_size := 8;
  bool_size := 1;
  usize_size := fun _ => 4;
  vec_size T size l := 4 + sum_Z (size <$> l);
  bytes_size := fun b => 4 + len b;
|}.

Lemma read_len_back max n rest :
  in_width 32 n -> n <= max -> read_len max (be_bytes 4 n ++ rest) = Ok (n, rest).
Proof.
  intros Hn Hle. unfold read_len. rewrite read_fixed_back by (by eapply in_width_bytes).
  by rewrite (proj2 (Z.ltb_ge _ _) Hle).
Qed.

Lemma read_len_limit max n rest :
  in_width 32 n -> max < n -> read_len max (be_bytes 4 n ++ rest) = Err (CodecFault "length").
Proof.
  intros Hn Hle. unfold read_len. rewrite read_fixed_back by (by eapply in_width_bytes).
  by rewrite (proj2 (Z.ltb_lt _ _) Hle).
Qed.

Lemma read_items_back {T} (read : Reader T) write l rest :
  Forall (reads_back read write) l ->
  read_items read (length l) ((x ← l; write x) ++ rest) = Ok (l, rest).
Proof.
  induction 1 as [|x l Hx _ IH]; [done|]. rewrite bind_cons, <- app_assoc.
  cbn [length read_items]. by rewrite Hx, IH.
Qed.

#[local] Existing Instance simple_codec.

Lemma simple_laws (K : bytes -> B256) : @CodecLaws (simple_ext K) (simple_codec K).
Proof.
  split.
  - intros x Hx. apply read_fixed_back. by eapply in_width_bytes.
  - by intros [] rest.
  - intros max n Hn Hle rest. by apply read_len_back.
  - intros max n Hn Hlt rest. cbn [read_usize write_usize simple_codec]. by rewrite read_len_limit.
  - intros T max read write l Hw Hl Hf rest. cbn [read_vec write_vec read_bytes codec_bytes simple_codec simple_ext]. rewrite <- app_assoc, read_len_back by done.
    unfold len. rewrite Nat2Z.id. by apply read_items_back.
  - intros T max read write l Hw Hl rest. cbn [read_vec write_vec read_bytes codec_bytes simple_codec simple_ext]. by rewrite <- app_assoc, read_len_limit.
  - intros max b Hw Hb Hl rest. cbn [read_vec write_vec read_bytes codec_bytes simple_codec simple_ext]. rewrite <- app_assoc, read_len_back by done.
    unfold len. rewrite Nat2Z.id, length_app, (proj2 (Nat.ltb_ge _ _)) by lia.
    by rewrite take_app_length, drop_app_length.
  - intros max b Hw Hl rest. cbn [read_vec write_vec read_bytes codec_bytes simple_codec simple_ext]. by rewrite <- app_assoc, read_len_limit.
  - intros x _. apply be_bytes_len.
  - done.
  - intros n _. apply be_bytes_len.
  - intros T write size l Hf. cbn [write_vec vec_size simple_codec]. rewrite len_app, be_bytes_len. f_equal.
    induction Hf as [|x l Hx _ IH]; [done|]. rewrite bind_cons, fmap_cons, len_app, sum_Z_cons. lia.
  - intros b. cbn [codec_bytes bytes_size simple_codec simple_ext]. by rewrite len_app, be_bytes_len.
Qed.
