(* ===== verification/Block.v ===== *)
(** Blocks (crates/node/domain/src/block.rs): the codec, the identifier and
    the consensus digest, and the choice of timestamps. *)
From S2P Require Import Prelude Bytes TxTypes Codec.

(** A block.  The cached identifier of the source is the value of [block_id],
    kept once computed; it takes no part in comparison or encoding. *)
Record Block := mkBlock {
  b_parent : B256;
  b_height : u64;
  b_timestamp : u64;
  b_prevrandao : B256;
  b_state_root : B256;
  b_txs : list Tx;
}.

Record BlockCfg := mkBlockCfg { cfg_max_txs : usize; cfg_max_tx_bytes : usize }.

(** SHA-256 of commonware. *)
Class Sha256 := { sha256 : bytes -> B256 }.

(** [Block::next_timestamp]. *)
Definition next_timestamp (now_secs parent_timestamp : u64) : option u64 :=
  if parent_timestamp <? now_secs then Some now_secs else Some parent_timestamp.

Section block.
Context `{EXT : !External} `{CD : !Codec} `{SH : !Sha256}.

(** [Write], [EncodeSize] and [Read] of a block. *)
Definition block_write (b : Block) : bytes :=
  write_b256 (b_parent b) ++ write_u64 (b_height b) ++ write_u64 (b_timestamp b)
  ++ write_b256 (b_prevrandao b) ++ write_b256 (b_state_root b) ++ write_vec tx_write (b_txs b).

Definition block_encode_size (b : Block) : usize :=
  32 + u64_size + u64_size + 32 + 32 + vec_size tx_encode_size (b_txs b).

Definition block_read_cfg (cfg : BlockCfg) : Reader Block := fun buf =>
  let? (parent, buf) := read_b256 buf in
  let? (height, buf) := read_u64 buf in
  let? (timestamp, buf) := read_u64 buf in
  let? (prevrandao, buf) := read_b256 buf in
  let? (state_root, buf) := read_b256 buf in
  let? (txs, buf) := read_vec (cfg_max_txs cfg) (tx_read_cfg (cfg_max_tx_bytes cfg)) buf in
  Ok (mkBlock parent height timestamp prevrandao state_root txs, buf).

(** [Block::id]. *)
Definition block_id (b : Block) : B256 := keccak256 (block_write b).

Definition digest_for_block_id (id : B256) : B256 := sha256 (be_bytes 32 id).

(** [Digestible::digest] and [Committable::commitment]. *)
Definition commitment (b : Block) : B256 := digest_for_block_id (block_id b).

(** [commonware_consensus::Block::parent]. *)
Definition parent_digest (b : Block) : B256 := digest_for_block_id (b_parent b).
End block.

(** ** Well-formed blocks *)

Record block_ok (b : Block) : Prop := {
  bk_parent : in_width 256 (b_parent b);
  bk_height : in_width 64 (b_height b);
  bk_timestamp : in_width 64 (b_timestamp b);
  bk_prevrandao : in_width 256 (b_prevrandao b);
  bk_state_root : in_width 256 (b_state_root b);
  bk_txs : Forall wire_tx_ok (b_txs b);
  bk_count : in_width 32 (len (b_txs b));
}.

(** The limits of a decoder admit the block. *)
Record within_cfg (cfg : BlockCfg) (b : Block) : Prop := {
  wc_txs : len (b_txs b) <= cfg_max_txs cfg;
  wc_bytes : Forall (fun tx => len (tx_bytes tx) <= cfg_max_tx_bytes cfg) (b_txs b);
}.

(** A decoder that admits two blocks. *)
Definition cfg_for (b b' : Block) : BlockCfg :=
  let sizes := (fun tx => len (tx_bytes tx)) <$> b_txs b ++ b_txs b' in
  mkBlockCfg (len (b_txs b) + len (b_txs b')) (sum_Z sizes).

Lemma within_cfg_for b b' : within_cfg (cfg_for b b') b /\ within_cfg (cfg_for b b') b'.
Proof.
  pose proof (len_nonneg (b_txs b)). pose proof (len_nonneg (b_txs b')).
  assert (forall tx, tx ∈ b_txs b ++ b_txs b' ->
    len (tx_bytes tx) <= cfg_max_tx_bytes (cfg_for b b')) as Hsz.
  { intros tx Htx. unfold cfg_for. cbn [cfg_max_tx_bytes]. apply elem_le_sum.
    - apply Forall_fmap, Forall_forall. intros y _. apply len_nonneg.
    - by apply (list_elem_of_fmap_2 (fun tx => len (tx_bytes tx))). }
  split; (split; [unfold cfg_for; simpl; lia|]); apply Forall_forall; intros tx Htx;
    apply Hsz; set_solver.
Qed.

Section theory.
Context `{EXT : !External} `{CD : !Codec} `{CL : !CodecLaws} `{SH : !Sha256}.
#[local] Set Default Proof Using "Type*".

Lemma block_back cfg b :
  block_ok b -> within_cfg cfg b -> reads_back (block_read_cfg cfg) block_write b.
Proof.
  intros [Hp Hh Ht Hr Hs Hx Hc] [Hn Hb] rest. unfold block_read_cfg, block_write.
  rewrite (reads_back_app _ _ _ _ _ (b256_back _ Hp)). cbn [fst snd].
  rewrite (reads_back_app _ _ _ _ _ (u64_law _ Hh)).
  rewrite (reads_back_app _ _ _ _ _ (u64_law _ Ht)).
  rewrite (reads_back_app _ _ _ _ _ (b256_back _ Hr)).
  rewrite (reads_back_app _ _ _ _ _ (b256_back _ Hs)).
  rewrite vec_law; [by destruct b|done|done|].
  apply Forall_forall. intros tx Htx. rewrite Forall_forall in Hx, Hb. apply tx_back; auto.
Qed.

Lemma block_write_inj b b' : block_ok b -> block_ok b' -> block_write b = block_write b' -> b = b'.
Proof.
  intros Hb Hb'. destruct (within_cfg_for b b') as [Hw Hw'].
  apply (reads_back_inj (block_read_cfg (cfg_for b b'))); by apply block_back.
Qed.

Lemma block_size b : block_ok b -> len (block_write b) = block_encode_size b.
Proof.
  intros Hb. unfold block_write, block_encode_size, write_b256.
  rewrite !len_app, !be_bytes_len, !u64_size_law by apply Hb.
  rewrite (vec_size_law tx_write tx_encode_size);
    [lia|apply Forall_forall; intros; apply tx_size].
Qed.

Lemma block_limit cfg b :
  block_ok b -> cfg_max_txs cfg < len (b_txs b) -> rejects (block_read_cfg cfg) block_write b.
Proof.
  intros [Hp Hh Ht Hr Hs Hx Hc] Hn rest. unfold block_read_cfg, block_write.
  rewrite (reads_back_app _ _ _ _ _ (b256_back _ Hp)).
  rewrite (reads_back_app _ _ _ _ _ (u64_law _ Hh)), (reads_back_app _ _ _ _ _ (u64_law _ Ht)).
  rewrite (reads_back_app _ _ _ _ _ (b256_back _ Hr)), (reads_back_app _ _ _ _ _ (b256_back _ Hs)).
  pose proof (vec_limit (cfg_max_txs cfg) (tx_read_cfg (cfg_max_tx_bytes cfg)) tx_write
    (b_txs b) Hc Hn rest) as H.
  by destruct (read_vec _ _ _) as [[]|].
Qed.

(** ** Properties *)

(** Blocks survive the wire.  A block within the limits of the decoder
    decodes to itself and leaves the rest of the buffer; its encoding has the
    announced size; a block with more transactions than the limit is
    rejected. *)
Theorem block_roundtrip cfg b rest :
  block_ok b ->
  (within_cfg cfg b -> block_read_cfg cfg (block_write b ++ rest) = Ok (b, rest))
  /\ len (block_write b) = block_encode_size b
  /\ (cfg_max_txs cfg < len (b_txs b) ->
      is_ok (block_read_cfg cfg (block_write b ++ rest)) = false).
Proof.
  intros Hb. split_and!; [intros Hw; by apply block_back|by apply block_size|].
  intros Hn. by apply block_limit.
Qed.

(** The consensus digest commits to the whole block.  Two blocks with the
    same digest are equal, or a collision of keccak256 or SHA-256 is at hand;
    and a block whose parent identifier is that of [p] has the digest of [p]
    as its parent digest, only [p] (or a collision) having it. *)
Theorem commitment_binding b b' :
  block_ok b -> block_ok b' ->
  in_width 256 (block_id b) -> in_width 256 (block_id b') -> commitment b = commitment b' ->
  b = b'
  \/ (block_write b <> block_write b' /\ keccak256 (block_write b) = keccak256 (block_write b'))
  \/ (be_bytes 32 (block_id b) <> be_bytes 32 (block_id b')
      /\ sha256 (be_bytes 32 (block_id b)) = sha256 (be_bytes 32 (block_id b'))).
Proof.
  intros Hb Hb' Hi Hi' Hc. unfold commitment, digest_for_block_id in Hc.
  destruct (decide (be_bytes 32 (block_id b) = be_bytes 32 (block_id b'))) as [He|Hne];
    [|by right; right].
  apply be_bytes_inj in He; [|by eapply in_width_bytes|by eapply in_width_bytes].
  destruct (decide (block_write b = block_write b')) as [Hw|Hw]; [|by right; left].
  left. by apply block_write_inj.
Qed.
End theory.

(** Block time.  The chosen timestamp is the clock or the parent's,
    whichever is later; there is always one, so time never goes back and
    follows the clock when it is ahead. *)
Lemma next_timestamp_spec now parent :
  next_timestamp now parent = Some (Z.max now parent).
Proof. unfold next_timestamp. destruct (Z.ltb_spec parent now); f_equal; lia. Qed.

(** ** Witnesses *)

Definition demo_keccak (l : bytes) : B256 := be_value l `mod` 2 ^ 256.
#[local] Instance block_ext : External := simple_ext demo_keccak.
#[local] Instance block_codec : Codec := simple_codec demo_keccak.
#[local] Instance block_laws : CodecLaws := simple_laws demo_keccak.
#[local] Instance block_sha : Sha256 := {| sha256 := be_value |}.

Definition demo_block : Block := mkBlock 7 3 100 9 11 [mkTx [1; 2]; mkTx []].
Definition demo_block_cfg : BlockCfg := mkBlockCfg 4 16.

Lemma demo_block_ok : block_ok demo_block.
Proof.
  split; [unfold in_width; simpl; lia..| |unfold in_width, len; simpl; lia].
  assert (forall l, (length l < 3)%nat -> bytes_ok l -> wire_tx_ok (mkTx l)) as Htx
    by (intros l Hl Hb; split; [unfold in_width, len; simpl; lia|done]).
  constructor; [|constructor; [|constructor]]; apply Htx; simpl; try lia; [|constructor].
  constructor; [lia|constructor; [lia|constructor]].
Qed.

Lemma block_roundtrip_witness :
  block_read_cfg demo_block_cfg (block_write demo_block ++ [5]) = Ok (demo_block, [5])
  /\ len (block_write demo_block) = 126.
Proof.
  destruct (block_roundtrip demo_block_cfg demo_block [5] demo_block_ok) as (Hr & Hs & _).
  split; [apply Hr|rewrite Hs; reflexivity].
  split; [vm_compute; discriminate|]. repeat constructor; vm_compute; discriminate.
Defined.

Lemma commitment_binding_witness :
  block_ok demo_block /\ in_width 256 (block_id demo_block)
  /\ (demo_block = demo_block
      \/ (block_write demo_block <> block_write demo_block
          /\ keccak256 (block_write demo_block) = keccak256 (block_write demo_block))
      \/ (be_bytes 32 (block_id demo_block) <> be_bytes 32 (block_id demo_block)
          /\ sha256 (be_bytes 32 (block_id demo_block))
             = sha256 (be_bytes 32 (block_id demo_block)))).
Proof.
  assert (in_width 256 (block_id demo_block)) as Hw
    by (unfold in_width, block_id; apply Z.mod_pos_bound; reflexivity).
  split; [apply demo_block_ok|]. split; [exact Hw|].
  apply (commitment_binding demo_block demo_block);
    [apply demo_block_ok|apply demo_block_ok|exact Hw|exact Hw|reflexivity].
Defined.
