(* ===== verification/Commitment.v ===== *)
(** The canonical encoding of state changes
    (crates/node/domain/src/commitment.rs). *)
From S2P Require Import Prelude Bytes TxTypes Codec.

Record AccountChange := mkAccountChange {
  ac_touched : bool;
  ac_created : bool;
  ac_selfdestructed : bool;
  ac_nonce : u64;
  ac_balance : U256;
  ac_code_hash : B256;
  ac_storage : gmap U256 U256;
}.

Record StateChanges := mkStateChanges { sc_accounts : gmap Address AccountChange }.
Record StateChangesCfg := mkStateChangesCfg { max_accounts : usize; max_storage_slots : usize }.

Definition sc_is_empty (c : StateChanges) : bool := bool_decide (sc_accounts c = ∅).

Section codec.
Context `{EXT : !External} `{CD : !Codec}.

(** [Write] and [EncodeSize]; the maps are visited in key order. *)
Definition slot_write (kv : U256 * U256) : bytes := write_u256 kv.1 ++ write_u256 kv.2.

Definition ac_write (c : AccountChange) : bytes :=
  write_bool (ac_touched c) ++ write_bool (ac_created c) ++ write_bool (ac_selfdestructed c)
  ++ write_u64 (ac_nonce c) ++ write_u256 (ac_balance c) ++ write_b256 (ac_code_hash c)
  ++ write_usize (Z.of_nat (size (ac_storage c))) ++ (kv ← btree (ac_storage c); slot_write kv).

Definition ac_encode_size (c : AccountChange) : usize :=
  bool_size + bool_size + bool_size + u64_size + 32 + 32
  + usize_size (Z.of_nat (size (ac_storage c))) + Z.of_nat (size (ac_storage c)) * (32 + 32).

Definition entry_write (kv : Address * AccountChange) : bytes :=
  write_address kv.1 ++ ac_write kv.2.

Definition sc_write (c : StateChanges) : bytes :=
  write_usize (Z.of_nat (size (sc_accounts c))) ++ (kv ← btree (sc_accounts c); entry_write kv).

Definition sc_encode_size (c : StateChanges) : usize :=
  usize_size (Z.of_nat (size (sc_accounts c)))
  + sum_Z ((fun kv => 20 + ac_encode_size kv.2) <$> btree (sc_accounts c)).

(** The loops of [Read]: [n] entries inserted into [m] one after the other. *)
Fixpoint read_entries {V} (read : Reader (Z * V)) (n : nat) (m : gmap Z V) : Reader (gmap Z V) :=
  fun buf =>
  match n with
  | O => Ok (m, buf)
  | S n' =>
      let? (kv, buf) := read buf in
      read_entries read n' (<[kv.1 := kv.2]> m) buf
  end.

Definition slot_read : Reader (U256 * U256) := fun buf =>
  let? (slot, buf) := read_u256 buf in
  let? (value, buf) := read_u256 buf in
  Ok ((slot, value), buf).

Definition ac_read_cfg (cfg : StateChangesCfg) : Reader AccountChange := fun buf =>
  let? (touched, buf) := read_bool buf in
  let? (created, buf) := read_bool buf in
  let? (selfdestructed, buf) := read_bool buf in
  let? (nonce, buf) := read_u64 buf in
  let? (balance, buf) := read_u256 buf in
  let? (code_hash, buf) := read_b256 buf in
  let? (slots, buf) := read_usize (max_storage_slots cfg) buf in
  let? (storage, buf) := read_entries slot_read (Z.to_nat slots) ∅ buf in
  Ok (mkAccountChange touched created selfdestructed nonce balance code_hash storage, buf).

Definition entry_read (cfg : StateChangesCfg) : Reader (Address * AccountChange) := fun buf =>
  let? (address, buf) := read_address buf in
  let? (change, buf) := ac_read_cfg cfg buf in
  Ok ((address, change), buf).

Definition sc_read_cfg (cfg : StateChangesCfg) : Reader StateChanges := fun buf =>
  let? (accounts, buf) := read_usize (max_accounts cfg) buf in
  let? (map, buf) := read_entries (entry_read cfg) (Z.to_nat accounts) ∅ buf in
  Ok (mkStateChanges map, buf).
End codec.

(** ** Well-formed changes *)

Record ac_ok (max_slots : Z) (c : AccountChange) : Prop := {
  aco_nonce : in_width 64 (ac_nonce c);
  aco_balance : in_width 256 (ac_balance c);
  aco_code_hash : in_width 256 (ac_code_hash c);
  aco_storage : map_Forall (fun k v => in_width 256 k /\ in_width 256 v) (ac_storage c);
  aco_size : in_width 32 (Z.of_nat (size (ac_storage c)));
  aco_limit : Z.of_nat (size (ac_storage c)) <= max_slots;
}.

Record sc_ok (cfg : StateChangesCfg) (c : StateChanges) : Prop := {
  sco_accounts :
    map_Forall (fun a x => in_width 160 a /\ ac_ok (max_storage_slots cfg) x) (sc_accounts c);
  sco_size : in_width 32 (Z.of_nat (size (sc_accounts c)));
  sco_limit : Z.of_nat (size (sc_accounts c)) <= max_accounts cfg;
}.

(** Sizes of concatenated entries. *)
Lemma bind_len {A} (f : A -> bytes) (g : A -> Z) l :
  (forall x, x ∈ l -> len (f x) = g x) -> len (x ← l; f x) = sum_Z (g <$> l).
Proof.
  induction l as [|x l IH]; intros Hl; [done|].
  rewrite bind_cons, fmap_cons, len_app, sum_Z_cons, Hl by set_solver. f_equal. set_solver.
Qed.

Lemma sum_Z_const {A} (n : Z) (l : list A) : sum_Z ((fun _ => n) <$> l) = len l * n.
Proof.
  induction l as [|x l IH]; [done|]. rewrite fmap_cons, sum_Z_cons, IH, len_cons. lia.
Qed.

Section theory.
Context `{EXT : !External} `{CD : !Codec} `{CL : !CodecLaws}.
#[local] Set Default Proof Using "Type*".

(** Reading the entries of a list inserts them in order. *)
Lemma read_entries_back {V} (read : Reader (Z * V)) write l m rest :
  Forall (reads_back read write) l ->
  read_entries read (length l) m ((kv ← l; write kv) ++ rest)
  = Ok (foldl (fun m kv => <[kv.1 := kv.2]> m) m l, rest).
Proof.
  intros Hl. revert m. induction Hl as [|x l Hx _ IH]; intros m; [done|].
  rewrite bind_cons, <- app_assoc. cbn [length read_entries foldl]. by rewrite Hx.
Qed.

(** The entries of a map rebuild it. *)
Lemma btree_rebuild {V} (m : gmap Z V) : foldl (fun m kv => <[kv.1 := kv.2]> m) ∅ (btree m) = m.
Proof.
  apply map_eq. intros k. rewrite (foldl_keyed_lookup _ (fun _ v => Some v)).
  - rewrite btree_to_map, lookup_empty. by destruct (m !! k).
  - intros m' j v. apply lookup_insert_eq.
  - intros m' j v i Hne. by apply lookup_insert_ne.
  - apply btree_NoDup_fst.
Qed.

Lemma map_back {V} (read : Reader (Z * V)) write (m : gmap Z V) rest :
  map_Forall (fun k v => reads_back read write (k, v)) m ->
  read_entries read (Z.to_nat (Z.of_nat (size m))) ∅ ((kv ← btree m; write kv) ++ rest)
  = Ok (m, rest).
Proof.
  intros Hm. rewrite Nat2Z.id, <- btree_length, (read_entries_back _ write), btree_rebuild; [done|].
  apply Forall_forall. intros [k v] Hkv%elem_of_btree. by apply Hm.
Qed.

Lemma slot_back k v :
  in_width 256 k -> in_width 256 v -> reads_back slot_read slot_write (k, v).
Proof.
  intros Hk Hv rest. unfold slot_read, slot_write. cbn [fst snd].
  rewrite (reads_back_app _ _ _ _ _ (u256_back _ Hk)). by rewrite (u256_back _ Hv).
Qed.

Lemma ac_back cfg c :
  ac_ok (max_storage_slots cfg) c -> reads_back (ac_read_cfg cfg) ac_write c.
Proof.
  intros [Hn Hb Hh Hs Hw Hl] rest. unfold ac_read_cfg, ac_write.
  rewrite !(reads_back_app _ _ _ _ _ (bool_law _)).
  rewrite (reads_back_app _ _ _ _ _ (u64_law _ Hn)), (reads_back_app _ _ _ _ _ (u256_back _ Hb)).
  rewrite (reads_back_app _ _ _ _ _ (b256_back _ Hh)).
  rewrite (reads_back_app _ _ _ _ _ (usize_law _ _ Hw Hl)), (map_back slot_read slot_write);
    [by destruct c|].
  intros k v Hkv. destruct (Hs k v Hkv). by apply slot_back.
Qed.

Lemma entry_back cfg a c :
  in_width 160 a -> ac_ok (max_storage_slots cfg) c ->
  reads_back (entry_read cfg) entry_write (a, c).
Proof.
  intros Ha Hc rest. unfold entry_read, entry_write. cbn [fst snd].
  rewrite (reads_back_app _ _ _ _ _ (address_back _ Ha)). by rewrite (ac_back _ _ Hc).
Qed.

Lemma sc_back cfg c : sc_ok cfg c -> reads_back (sc_read_cfg cfg) sc_write c.
Proof.
  intros [Ha Hw Hl] rest. unfold sc_read_cfg, sc_write.
  rewrite (reads_back_app _ _ _ _ _ (usize_law _ _ Hw Hl)).
  rewrite (map_back (entry_read cfg) entry_write); [by destruct c|].
  intros a x Hx. destruct (Ha a x Hx). by apply entry_back.
Qed.

Lemma ac_size c max : ac_ok max c -> len (ac_write c) = ac_encode_size c.
Proof.
  intros [Hn _ _ _ Hw _]. unfold ac_write, ac_encode_size, write_u256, write_b256.
  rewrite !len_app, !be_bytes_len, !bool_size_law, u64_size_law by done.
  rewrite usize_size_law by apply Hw.
  rewrite (bind_len slot_write (fun _ => 64)), sum_Z_const.
  - unfold len. rewrite btree_length. lia.
  - intros x _. unfold slot_write, write_u256. by rewrite len_app, !be_bytes_len.
Qed.

(** ** Properties *)

(** State changes survive the wire.  Changes within the limits of the
    decoder decode to themselves and the encoding has the announced size; the
    encoding is canonical, equal changes and only they having equal
    encodings; and changes with too many accounts are rejected. *)
Theorem state_changes_roundtrip cfg c c' rest :
  sc_ok cfg c ->
  sc_read_cfg cfg (sc_write c ++ rest) = Ok (c, rest)
  /\ len (sc_write c) = sc_encode_size c
  /\ (sc_ok cfg c' -> sc_write c = sc_write c' <-> c = c')
  /\ (forall small, max_accounts small < Z.of_nat (size (sc_accounts c)) ->
        is_ok (sc_read_cfg small (sc_write c ++ rest)) = false).
Proof.
  intros Hc. split_and!.
  - by apply sc_back.
  - unfold sc_write, sc_encode_size. rewrite len_app, usize_size_law by apply Hc. f_equal.
    apply bind_len. intros [a x] Hx%elem_of_btree. cbn [snd].
    destruct (sco_accounts _ _ Hc a x Hx) as [_ Hx'].
    unfold entry_write, write_address. cbn [fst snd].
    by rewrite len_app, be_bytes_len, (ac_size _ _ Hx').
  - intros Hc'. split; [|by intros ->].
    apply (reads_back_inj (sc_read_cfg cfg)); by apply sc_back.
  - intros small Hs. unfold sc_read_cfg, sc_write. rewrite <- app_assoc.
    pose proof (usize_limit _ _ (sco_size _ _ Hc) Hs
      ((kv ← btree (sc_accounts c); entry_write kv) ++ rest)) as H.
    by destruct (read_usize _ _) as [[]|].
Qed.
End theory.

(** ** Witness *)

Definition sc_keccak (l : bytes) : B256 := be_value l.
#[local] Instance sc_ext : External := simple_ext sc_keccak.
#[local] Instance sc_codec : Codec := simple_codec sc_keccak.
#[local] Instance sc_laws : CodecLaws := simple_laws sc_keccak.

Definition demo_sc : StateChanges :=
  mkStateChanges {[7 := mkAccountChange true false false 3 1000 0 {[1 := 99]}]}.
Definition demo_sc_cfg : StateChangesCfg := mkStateChangesCfg 4 4.

Lemma demo_sc_ok : sc_ok demo_sc_cfg demo_sc.
Proof.
  split.
  - intros a x Hx. unfold demo_sc in Hx. cbn [sc_accounts] in Hx.
    apply lookup_singleton_Some in Hx as [<- <-]. split; [unfold in_width; lia|].
    split; cbn [ac_nonce ac_balance ac_code_hash ac_storage]; try (unfold in_width; lia);
      [|vm_compute; split; [discriminate|reflexivity]|vm_compute; discriminate].
    cbn [ac_storage]. intros k v Hk. apply lookup_singleton_Some in Hk as [<- <-]. split; unfold in_width; lia.
  - vm_compute. split; [discriminate|reflexivity].
  - vm_compute. discriminate.
Qed.

Lemma state_changes_roundtrip_witness :
  sc_read_cfg demo_sc_cfg (sc_write demo_sc ++ [5]) = Ok (demo_sc, [5])
  /\ len (sc_write demo_sc) = 167.
Proof.
  destruct (state_changes_roundtrip demo_sc_cfg demo_sc demo_sc [5] demo_sc_ok) as (Hr & Hs & _).
  split; [exact Hr|]. rewrite Hs. vm_compute. reflexivity.
Defined.
