(* ===== verification/Layers.v ===== *)
(** States as their answers: a state database seen as the functions that
    answer its reads, change sets as layers over it, and when merging change
    sets and layering them agree.  The ledger's theorems are stated with
    these. *)
From Stdlib Require Import FunctionalExtensionality.
From S2P Require Import Prelude StateDb Changes.

Record ReadFns := mkReadFns {
  rf_nonce : Address -> result u64 StateDbError;
  rf_balance : Address -> result U256 StateDbError;
  rf_code_hash : Address -> result B256 StateDbError;
  rf_code : B256 -> result bytes StateDbError;
  rf_storage : Address -> U256 -> result U256 StateDbError;
}.

#[export] Instance fns_read : StateDbRead ReadFns := {|
  st_nonce := rf_nonce;
  st_balance := rf_balance;
  st_code_hash := rf_code_hash;
  st_code := rf_code;
  st_storage := rf_storage;
|}.

(** The answers of a database. *)
Definition reads_of {St} `{!StateDbRead St} (s : St) : ReadFns :=
  mkReadFns (st_nonce s) (st_balance s) (st_code_hash s) (st_code s) (st_storage s).

(** A change set laid over answers, and several of them, oldest first. *)
Definition layer (r : ReadFns) (c : ChangeSet) : ReadFns := reads_of (mkOverlay r c).
Definition layers (r : ReadFns) (cs : list ChangeSet) : ReadFns := foldl layer r cs.

(** Change sets merged one after the other, oldest first. *)
Definition merge_all (cs : list ChangeSet) : ChangeSet := foldl cs_merge ChangeSet_new cs.

Lemma reads_of_fns r : reads_of r = r.
Proof. by destruct r. Qed.

Lemma read_fns_eq r r' :
  (forall a, rf_nonce r a = rf_nonce r' a) -> (forall a, rf_balance r a = rf_balance r' a) ->
  (forall a, rf_code_hash r a = rf_code_hash r' a) -> (forall h, rf_code r h = rf_code r' h) ->
  (forall a k, rf_storage r a k = rf_storage r' a k) -> r = r'.
Proof.
  destruct r, r'. simpl. intros H1 H2 H3 H4 H5.
  f_equal; repeat (apply functional_extensionality; intros ?); done.
Qed.

Lemma same_reads_of {St Tt} `{!StateDbRead St} `{!StateDbRead Tt} (s : St) (t : Tt) :
  same_reads s t <-> reads_of s = reads_of t.
Proof.
  split.
  - intros (H1 & H2 & H3 & H4 & H5). by apply read_fns_eq.
  - intros [= H1 H2 H3 H4 H5]. unfold same_reads. rewrite H1, H2, H3, H4, H5. by split_and!.
Qed.

(** An overlay answers as the layer over the answers of its base. *)
Lemma layer_overlay {St} `{!StateDbRead St} (s : St) c :
  reads_of (mkOverlay s c) = layer (reads_of s) c.
Proof. done. Qed.

Lemma layers_app r cs ds : layers r (cs ++ ds) = layers (layers r cs) ds.
Proof. apply foldl_app. Qed.

(** ** Codes *)

(** Every code in the change set is the one its hash names. *)
Definition coherent (f : B256 -> bytes) (c : ChangeSet) : Prop :=
  forall a u x, accounts c !! a = Some u -> au_code u = Some x -> x = f (au_code_hash u).

Definition has_code (c : ChangeSet) (h : B256) : Prop :=
  exists a u, accounts c !! a = Some u /\ au_code_hash u = h /\ is_Some (au_code u).

Lemma find_code_spec f c h :
  coherent f c ->
  match find_code c h with Some x => x = f h /\ has_code c h | None => ~ has_code c h end.
Proof.
  intros Hc. unfold find_code.
  assert (forall l, (forall kv, kv ∈ l -> accounts c !! kv.1 = Some kv.2) ->
    match foldr (fun kv acc => if au_code_hash kv.2 =? h
             then match au_code kv.2 with Some code => Some code | None => acc end
             else acc) None l with
    | Some x => x = f h /\ has_code c h
    | None => forall kv, kv ∈ l -> au_code_hash kv.2 = h -> au_code kv.2 = None
    end) as Hl.
  { induction l as [|[a u] l IH]; intros Hin; [set_solver|].
    pose proof (Hin (a, u) ltac:(by left)) as Hu. simpl in Hu.
    specialize (IH ltac:(intros kv Hkv; apply Hin; by right)). cbn [foldr snd].
    destruct (Z.eqb_spec (au_code_hash u) h) as [<-|Hne].
    - destruct (au_code u) as [x|] eqn:Ex.
      + split; [by eapply Hc|]. exists a, u. by rewrite Ex.
      + destruct (foldr _ None l); [done|]. intros kv [->|Hkv]%elem_of_cons Hh; [done|by apply IH].
    - destruct (foldr _ None l); [done|].
      intros kv [->|Hkv]%elem_of_cons Hh; [done|by apply IH]. }
  specialize (Hl (btree (accounts c)) ltac:(intros [k v] Hk; by apply elem_of_btree in Hk)).
  destruct (foldr _ _ _); [done|]. intros (a & u & Hu & Hh & [x Hx]).
  pose proof (Hl (a, u) ltac:(by apply elem_of_btree) Hh) as Hn. simpl in Hn. congruence.
Qed.

(** ** When merging is layering *)

(** What the newer change set must respect of the older one: the storage of
    selfdestructed accounts ([merge_ok]), and a code the older set introduced
    at an account stays with it. *)
Record mergeable (f : B256 -> bytes) (older newer : ChangeSet) : Prop := {
  mg_ok : merge_ok older newer;
  mg_older : coherent f older;
  mg_newer : coherent f newer;
  mg_kept : forall a u v, accounts older !! a = Some u -> accounts newer !! a = Some v ->
    is_Some (au_code u) -> au_code_hash v = au_code_hash u \/ has_code newer (au_code_hash u);
}.

Lemma au_merge_code u v :
  au_code (au_merge u v)
  = if negb (au_code_hash u =? au_code_hash v) || bool_decide (is_Some (au_code v))
    then au_code v else au_code u.
Proof. done. Qed.

Lemma merge_coherent f older newer :
  coherent f older -> coherent f newer -> coherent f (cs_merge older newer).
Proof.
  intros Ho Hn a w x Hw Hx. rewrite cs_merge_lookup in Hw.
  destruct (accounts newer !! a) as [v|] eqn:Ev; [|by eapply Ho].
  destruct (accounts older !! a) as [u|] eqn:Eu; unfold merge_entry in Hw; simplify_eq;
    [|by eapply Hn].
  rewrite au_merge_code in Hx. change (au_code_hash (au_merge u v)) with (au_code_hash v).
  destruct (Z.eqb_spec (au_code_hash u) (au_code_hash v)) as [Hh|]; [|by eapply Hn].
  simpl in Hx. destruct (bool_decide _); [by eapply Hn|]. rewrite <- Hh. by eapply Ho.
Qed.

Lemma merge_has_code f older newer h :
  mergeable f older newer ->
  has_code (cs_merge older newer) h <-> has_code newer h \/ has_code older h.
Proof.
  intros Hm. split.
  - intros (a & w & Hw & Hh & Hx). rewrite cs_merge_lookup in Hw.
    destruct (accounts newer !! a) as [v|] eqn:Ev; [|right; by exists a, w].
    destruct (accounts older !! a) as [u|] eqn:Eu; unfold merge_entry in Hw; simplify_eq;
      [|left; by exists a, w].
    rewrite au_merge_code in Hx. change (au_code_hash (au_merge u v)) with (au_code_hash v).
    destruct (Z.eqb_spec (au_code_hash u) (au_code_hash v)) as [Hh|]; [|left; by exists a, v].
    simpl in Hx. destruct (bool_decide _); [left; by exists a, v|right; by exists a, u].
  - assert (has_code newer h -> has_code (cs_merge older newer) h) as Hnew.
    { intros (a & v & Hv & Hh & Hx). eexists a, _. rewrite cs_merge_lookup, Hv.
      split; [done|]. destruct (accounts older !! a) as [u|]; [|done].
      rewrite au_merge_code. rewrite (bool_decide_eq_true_2 _ Hx), orb_true_r. done. }
    intros [Hn|(a & u & Hu & Hh & Hx)]; [by apply Hnew|].
    destruct (accounts newer !! a) as [v|] eqn:Ev.
    2:{ exists a, u. by rewrite cs_merge_lookup, Ev. }
    destruct (mg_kept _ _ _ Hm a u v Hu Ev Hx) as [He|Hn]; [|subst h; by apply Hnew].
    eexists a, _. rewrite cs_merge_lookup, Ev, Hu. split; [done|]. rewrite au_merge_code.
    split; [by rewrite <- Hh|]. rewrite He, Z.eqb_refl. simpl. by case_bool_decide.
Qed.

(** Reading through the merge is reading through the layers. *)
Lemma layer_merge f older newer r :
  mergeable f older newer -> layer r (cs_merge older newer) = layer (layer r older) newer.
Proof.
  intros Hm. apply read_fns_eq.
  1-3: intros a; simpl; rewrite cs_merge_lookup; destruct (accounts newer !! a) as [v|]; [|done];
    by destruct (accounts older !! a).
  - intros h. simpl.
    pose proof (find_code_spec f _ h (merge_coherent f _ _ (mg_older _ _ _ Hm) (mg_newer _ _ _ Hm)))
      as H1.
    pose proof (find_code_spec f _ h (mg_newer _ _ _ Hm)) as H2.
    pose proof (find_code_spec f _ h (mg_older _ _ _ Hm)) as H3.
    pose proof (merge_has_code f older newer h Hm) as H4.
    destruct (find_code (cs_merge older newer) h), (find_code newer h), (find_code older h);
      naive_solver.
  - intros a k. apply (overlay_merge_storage r older newer a k (mg_ok _ _ _ Hm)).
Qed.

(** Laying the same change set twice changes nothing. *)
Lemma layer_idem r c : layer (layer r c) c = layer r c.
Proof.
  apply read_fns_eq.
  1-3: intros a; simpl; by destruct (accounts c !! a).
  - intros h. simpl. by destruct (find_code c h).
  - intros a k. simpl. unfold overlay_storage. simpl.
    destruct (accounts c !! a) as [u|] eqn:Eu; [|unfold overlay_storage; simpl; by rewrite Eu].
    destruct (au_selfdestructed u) eqn:Es; [done|]. destruct (au_storage u !! k) eqn:Ek; [done|].
    destruct (au_created u) eqn:Ec; [done|]. unfold overlay_storage. simpl. by rewrite Eu, Es, Ek, Ec.
Qed.

Lemma layer_empty r : layer r ChangeSet_new = r.
Proof. by apply read_fns_eq. Qed.

(** ** Sequences *)

(** Each change set of the list may be merged onto those before it. *)
Fixpoint merges_ok (f : B256 -> bytes) (acc : ChangeSet) (cs : list ChangeSet) : Prop :=
  match cs with
  | [] => True
  | c :: cs' => mergeable f acc c /\ merges_ok f (cs_merge acc c) cs'
  end.

Lemma merges_ok_app f acc cs ds :
  merges_ok f acc (cs ++ ds)
  <-> merges_ok f acc cs /\ merges_ok f (foldl cs_merge acc cs) ds.
Proof.
  revert acc. induction cs as [|c cs IH]; intros acc; simpl; [naive_solver|].
  rewrite IH. naive_solver.
Qed.

Lemma layers_merge_acc f acc cs r :
  merges_ok f acc cs -> layer r (foldl cs_merge acc cs) = layers (layer r acc) cs.
Proof.
  revert acc. induction cs as [|c cs IH]; intros acc; [done|]. intros [Hm Hcs]. simpl.
  rewrite IH by done. by rewrite (layer_merge f).
Qed.

(** The merge of a list of change sets reads as its layers. *)
Lemma layers_merge f cs r :
  merges_ok f ChangeSet_new cs -> layer r (merge_all cs) = layers r cs.
Proof. intros H. unfold merge_all. rewrite (layers_merge_acc f) by done. by rewrite layer_empty. Qed.

Lemma merge_all_snoc cs c : merge_all (cs ++ [c]) = cs_merge (merge_all cs) c.
Proof. unfold merge_all. by rewrite foldl_app. Qed.

(** Reading through [pre] and [cs] over a state that already has [pre]. *)
Lemma layers_skip f r pre cs :
  merges_ok f ChangeSet_new (pre ++ cs) -> layer r (merge_all pre) = r ->
  layer r (merge_all (pre ++ cs)) = layers r cs.
Proof.
  intros Hok Hr. rewrite (layers_merge f) by done. rewrite layers_app. f_equal.
  rewrite <- (layers_merge f); [done|]. by apply merges_ok_app in Hok as [? _].
Qed.

(** A state that already contains [pre], then gets [cs], contains both. *)
Lemma layers_absorb f r pre cs :
  merges_ok f ChangeSet_new (pre ++ cs) -> layer r (merge_all pre) = r ->
  layer (layers r cs) (merge_all (pre ++ cs)) = layers r cs.
Proof.
  intros Hok Hr.
  rewrite <- (layers_skip f r pre cs Hok Hr). apply layer_idem.
Qed.
