(* ===== verification/QmdbLedger.v ===== *)
(** The QMDB ledger service (crates/storage/qmdb-ledger/src/ledger.rs): opening
    the partitions with their consistency check, genesis, commits and roots;
    and the interface through which the ledger uses it. *)
From S2P Require Import Prelude Bytes TxTypes StateDb Changes Encoding QmdbStore QmdbState.
From S2P Require Import StateRoot Restart Backend Layers.

Inductive QlError : Type :=
| QlBackend (e : BackendError)
| QlHandler (e : HandleError)
| QlStateDb (e : StateDbError)
| QlMissingRuntime.

Section ledger.
Context `{EXT : !External} `{ED : !ErrorDisplay}.
Context {DA DS DC R : Type} `{CA : !CwDb DA Address bytes} `{CS : !CwDb DS StorageKey U256}
        `{CC : !CwDb DC B256 bytes} `{RP : !RootProvider R}.

(** [QmdbLedger], the wrapper of one handle. *)
Definition QmdbLedger : Type := QmdbHandle (AccountStore DA) (StorageStore DS) (CodeStore DC) R.

Definition ql_init_with_genesis (dbs : Databases (DA := DA) (DS := DS) (DC := DC)) (provider : R)
    (genesis_alloc : list (Address * U256)) (apply_genesis : bool) : result QmdbLedger QlError :=
  let? backend := map_err QlBackend (open_stores dbs) in
  let? seqs := map_err QlBackend (verify_partition_consistency backend) in
  let starting_seq := default 0 (seq_accounts seqs) in
  let store := set_commit_seq (qmdb_new (s_accounts backend) (s_storage backend) (s_code backend))
                 starting_seq in
  let handle := with_root_provider (from_store store) provider in
  if apply_genesis then
    match init_genesis handle genesis_alloc with
    | (handle, Ok _) => Ok handle
    | (_, Err e) => Err (QlHandler e)
    end
  else Ok handle.

Definition ql_init (dbs : Databases (DA := DA) (DS := DS) (DC := DC)) (provider : R)
    (genesis_alloc : list (Address * U256)) : result QmdbLedger QlError :=
  ql_init_with_genesis dbs provider genesis_alloc true.

(** [compute_root]: the placeholder root is that of three empty partitions. *)
Definition ql_compute_root (l : QmdbLedger) (changes : ChangeSet)
    : QmdbLedger * result B256 QlError :=
  let '(l', r) := state_compute_root (root_compute 0 0 0) l changes in (l', map_err QlStateDb r).

(** [commit_changes]: the commit and then the root of the three partitions. *)
Definition ql_commit_changes (l : QmdbLedger) (changes : ChangeSet)
    : QmdbLedger * result B256 QlError :=
  let '(store, r) := commit_changes (h_store l) changes in
  (set_store l store,
   let? _ := map_err (fun e => QlStateDb (Storage (qmdb_error_string e))) r in
   let? st := map_err (fun e => QlStateDb (Storage (qmdb_error_string e))) (stores store) in
   let? a := map_err QlBackend (part_root (K := Address) (V := bytes) (s_accounts st)) in
   let? s := map_err QlBackend (part_root (K := StorageKey) (V := U256) (s_storage st)) in
   let? c := map_err QlBackend (part_root (K := B256) (V := bytes) (s_code st)) in
   Ok (root_compute a s c)).

Definition ql_root (l : QmdbLedger) : result B256 QlError := map_err QlStateDb (state_state_root l).

(** ** Restarts *)

Context `{LA : !CwLaws DA Address bytes} `{LS : !CwLaws DS StorageKey U256}
        `{LC : !CwLaws DC B256 bytes}.

#[local] Set Default Proof Using "Type*".

(** The databases the next process opens. *)
Definition on_disk (st : CommonwareBackend (DA := DA) (DS := DS) (DC := DC))
    : Databases (DA := DA) (DS := DS) (DC := DC) :=
  mkDatabases (Ok (cw_reopen (K := Address) (V := bytes) (ps_disk (s_accounts st))))
    (Ok (cw_reopen (K := StorageKey) (V := U256) (ps_disk (s_storage st))))
    (Ok (cw_reopen (K := B256) (V := bytes) (ps_disk (s_code st)))).

Lemma open_on_disk s st :
  q_stores s = Some st ->
  exists b, open_stores (on_disk st) = Ok b /\ q_stores (reopen_store s) = Some b.
Proof. intros Hst. eexists. split; [done|]. unfold reopen_store. by rewrite Hst. Qed.

Lemma consistency_of_seqs (b : CommonwareBackend (DA := DA) (DS := DS) (DC := DC)) s seqs :
  q_stores s = Some b -> read_partition_commit_seqs s = Ok seqs ->
  if is_consistent seqs then verify_partition_consistency b = Ok seqs
  else exists msg, verify_partition_consistency b = Err (BInconsistentPartitions msg).
Proof.
  intros Hb Hs. assert (backend_commit_seqs b = Ok seqs) as Hr.
  { apply backend_seqs_store. unfold read_partition_commit_seqs, stores in *. by rewrite Hb in Hs. }
  unfold verify_partition_consistency, inconsistency_message. rewrite Hr. simpl.
  destruct (is_consistent seqs); eauto.
Qed.

(** C14: a node restarts from a whole commit or not at all.  After any commit,
    successful or interrupted, the next start either refuses with
    [InconsistentPartitions] or opens a ledger that reads as before or as
    after the commit, as after it if it succeeded, with the sequence number of
    its markers. *)
Theorem ledger_restart (l l' : QmdbLedger) v c r provider :
  sound_view (h_store l) v -> view_ok v -> changes_ok c ->
  markers_at v (q_commit_seq (h_store l)) -> q_commit_seq (h_store l) < u64_max ->
  accounts c <> ∅ -> ql_commit_changes l c = (l', r) ->
  let v' := commit_view (q_commit_seq (h_store l) + 1) v c in
  exists st, q_stores (h_store l') = Some st /\
  match ql_init_with_genesis (on_disk st) provider [] false with
  | Err (QlBackend (BInconsistentPartitions _)) => forall root, r <> Ok root
  | Err _ => False
  | Ok l'' =>
      (sound_view (h_store l'') v' /\ markers_at v' (q_commit_seq (h_store l'')))
      \/ ((forall root, r <> Ok root)
          /\ sound_view (h_store l'') v /\ markers_at v (q_commit_seq (h_store l'')))
  end.
Proof.
  intros Hs Hv Hc Hm Hq Hne Hcm. cbv zeta. unfold ql_commit_changes in Hcm.
  destruct (commit_changes (h_store l) c) as [s' rc] eqn:Ec. injection Hcm as <- Hr.
  destruct (crash_outcome _ _ _ _ _ Hs Hv Hc Hm Hq Hne Ec) as (seqs & Hseqs & Hcons & Hok).
  assert (forall root, r = Ok root -> rc = Ok tt) as Hrc
    by (intros root ->; by destruct rc as [[]|]).
  destruct (q_stores s') as [st|] eqn:Est.
  2:{ unfold read_partition_commit_seqs, stores, reopen_store in Hseqs. by rewrite Est in Hseqs. }
  exists st. split; [done|]. destruct (open_on_disk s' st Est) as (b & Hb & Hb').
  unfold ql_init_with_genesis. rewrite Hb. simpl.
  pose proof (consistency_of_seqs b _ seqs Hb' Hseqs) as Hver.
  destruct (is_consistent seqs) eqn:Ecs.
  - rewrite Hver. simpl.
    assert (forall v0, sound_view (reopen_store s') v0 ->
      sound_view (mkQmdb (Some (mkStores (s_accounts b) (s_storage b) (s_code b)))
                    (default 0 (seq_accounts seqs))) v0) as Hsv.
    { intros v0 (st0 & Hst0 & Hp). rewrite Hb' in Hst0. injection Hst0 as <-. by eexists. }
    destruct (Hcons eq_refl) as [[H1 H2]|(Hne' & H1 & H2)]; [left|right]; split_and!;
      [by apply Hsv|exact H2| |by apply Hsv|exact H2].
    intros root ->. apply Hne'. by eapply Hrc.
  - destruct Hver as [msg ->]. simpl. intros root ->. by destruct (Hok (Hrc root eq_refl)) as [? _].
Qed.
End ledger.

(** ** Witness *)

#[local] Instance ledger_ext : External := {|
  keccak256 := fun _ => 0; rlp_encode := fun _ => []; encode_2718 := fun _ => [];
  decode_2718 := fun _ => Err "none"; codec_bytes := id; recover_address := fun _ => None;
|}.
#[local] Instance ledger_display : ErrorDisplay := {|
  qmdb_error_string := fun _ => "qmdb"; handle_error_string := fun _ => "handle";
|}.
#[local] Instance ledger_provider : RootProvider unit := {|
  rp_state_root := fun _ => Ok 0;
  rp_compute_root := fun p _ => (p, Ok 0);
  rp_commit_and_get_root := fun p => (p, Ok 0);
|}.

Definition mem_part {K V} `{Countable K} : PartitionStore (gmap K V) := mkPartition (Some ∅) ∅.

Definition mem_ledger : QmdbLedger (DA := gmap Address bytes) (DS := gmap StorageKey U256)
    (DC := gmap B256 bytes) (R := unit) :=
  handle_new mem_part mem_part mem_part.

Lemma mem_ledger_view : sound_view (h_store mem_ledger) empty_view.
Proof.
  eexists. split; [reflexivity|].
  split_and!; (split; [intros d [= <-]; done|]); intros k; vm_compute; reflexivity.
Qed.

Lemma mem_ledger_commits : is_ok (ql_commit_changes mem_ledger demo_commit).2 = true.
Proof. vm_compute. reflexivity. Qed.

(** The first commit of a new ledger, and its restart. *)
Lemma ledger_restart_witness :
  exists l'' st, q_stores (h_store (ql_commit_changes mem_ledger demo_commit).1) = Some st
    /\ ql_init_with_genesis (on_disk st) tt [] false = Ok l''
    /\ sound_view (h_store l'') (commit_view 1 empty_view demo_commit).
Proof.
  pose proof mem_ledger_commits as Hr.
  destruct (ql_commit_changes mem_ledger demo_commit) as [l' r] eqn:E.
  destruct r as [root|e]; [|discriminate Hr].
  destruct (ledger_restart mem_ledger l' empty_view demo_commit (Ok root) tt mem_ledger_view
    empty_view_ok (cm_ok _ _ demo_commit_ok) empty_markers demo_seq_lt
    (cm_nonempty _ _ demo_commit_ok) E) as (st & Hst & H).
  destruct (ql_init_with_genesis (on_disk st) tt [] false) as [l''|[[]| | |]] eqn:Ei;
    try contradiction H; [|by destruct (H root)].
  exists l'', st. split; [exact Hst|split; [exact Ei|]].
  destruct H as [[H _]|[H _]]; [exact H|by destruct (H root)].
Defined.
