(* ===== verification/Snapshots.v ===== *)
(** Execution snapshots (crates/node/consensus/src/traits.rs, error.rs and
    components/snapshot.rs): the in-memory store of snapshots, the walk from a
    block to its last persisted ancestor, and the eviction of persisted
    snapshots. *)
From S2P Require Import Prelude StateDb Changes Layers.

Abbreviation Digest := Z (only parsing).

Inductive ConsensusError : Type :=
| ParentNotFound (d : Digest)
| SnapshotNotFound (d : Digest)
| CExecution (msg : string)
| CStateDb (e : StateDbError)
| CValidation (msg : string)
| StateRootMismatch (expected actual : B256)
| TimestampOverflow (parent_timestamp : u64).

Record Snapshot (St : Type) := mkSnapshot {
  sn_parent : option Digest;
  sn_state : St;
  sn_state_root : B256;
  sn_changes : ChangeSet;
  sn_tx_ids : gset B256;
}.
Arguments mkSnapshot {St}.
Arguments sn_parent {St}.
Arguments sn_state {St}.
Arguments sn_state_root {St}.
Arguments sn_changes {St}.
Arguments sn_tx_ids {St}.

(** [InMemorySnapshotStore]: its four locked fields and the limit. *)
Record SnapshotStore (St : Type) := mkStore {
  ss_snapshots : gmap Digest (Snapshot St);
  ss_persisted : gset Digest;
  ss_persisting : gset Digest;
  ss_order : list Digest;
  ss_max_persisted_retained : usize;
}.
Arguments mkStore {St}.
Arguments ss_snapshots {St}.
Arguments ss_persisted {St}.
Arguments ss_persisting {St}.
Arguments ss_order {St}.
Arguments ss_max_persisted_retained {St}.

Definition DEFAULT_MAX_PERSISTED_RETAINED : usize := 256.

Section store.
Context {St : Type}.
Implicit Types (s : SnapshotStore St) (sn : Snapshot St).

Definition ss_with_max_persisted_retained (max : usize) : SnapshotStore St :=
  mkStore ∅ ∅ ∅ [] max.
Definition ss_new : SnapshotStore St :=
  ss_with_max_persisted_retained DEFAULT_MAX_PERSISTED_RETAINED.

Definition ss_len s : usize := Z.of_nat (size (ss_snapshots s)).
Definition ss_is_empty s : bool := bool_decide (ss_snapshots s = ∅).
Definition ss_persisted_count s : usize := Z.of_nat (size (ss_persisted s)).
Definition ss_unpersisted_count s : usize :=
  len (filter (fun d => d ∉ ss_persisted s) ((map_to_list (ss_snapshots s)).*1)).

Definition can_persist_chain s (chain : list Digest) : bool :=
  forallb (fun d => negb (bool_decide (d ∈ ss_persisted s))
                    && negb (bool_decide (d ∈ ss_persisting s))) chain.

Definition mark_persisting_chain s (chain : list Digest) : SnapshotStore St :=
  mkStore (ss_snapshots s) (ss_persisted s) (foldl (fun p d => {[d]} ∪ p) (ss_persisting s) chain)
    (ss_order s) (ss_max_persisted_retained s).

Definition clear_persisting_chain s (chain : list Digest) : SnapshotStore St :=
  mkStore (ss_snapshots s) (ss_persisted s) (foldl (fun p d => p ∖ {[d]}) (ss_persisting s) chain)
    (ss_order s) (ss_max_persisted_retained s).

(** The loop of [evict_persisted]: pop the oldest while there are too many. *)
Fixpoint evict_loop (max : usize) (persisted : gset Digest) (order : list Digest)
    (snapshots : gmap Digest (Snapshot St)) (evicted : usize)
    : gmap Digest (Snapshot St) * list Digest * usize :=
  match order with
  | [] => (snapshots, [], evicted)
  | oldest :: rest =>
      if max <? len order then
        if bool_decide (oldest ∈ persisted) && bool_decide (is_Some (snapshots !! oldest))
        then evict_loop max persisted rest (delete oldest snapshots) (evicted + 1)
        else evict_loop max persisted rest snapshots evicted
      else (snapshots, order, evicted)
  end.

Definition evict_persisted s : SnapshotStore St * usize :=
  if len (ss_order s) <=? ss_max_persisted_retained s then (s, 0)
  else
    let '(snapshots, order, evicted) :=
      evict_loop (ss_max_persisted_retained s) (ss_persisted s) (ss_order s) (ss_snapshots s) 0 in
    (mkStore snapshots (ss_persisted s) (ss_persisting s) order (ss_max_persisted_retained s),
     evicted).

Definition ss_get s (d : Digest) : option (Snapshot St) := ss_snapshots s !! d.

Definition ss_insert s (d : Digest) sn : SnapshotStore St :=
  mkStore (<[d := sn]> (ss_snapshots s)) (ss_persisted s) (ss_persisting s) (ss_order s)
    (ss_max_persisted_retained s).

Definition ss_is_persisted s (d : Digest) : bool := bool_decide (d ∈ ss_persisted s).

Definition mark_persisted s (digests : list Digest) : SnapshotStore St :=
  let '(persisted, order) :=
    foldl (fun '(p, o) d => if bool_decide (d ∈ p) then (p, o) else ({[d]} ∪ p, o ++ [d]))
      (ss_persisted s, ss_order s) digests in
  mkStore (ss_snapshots s) persisted (ss_persisting s) order (ss_max_persisted_retained s).

(** The walk from [current] back to the last persisted ancestor (or the root),
    newest first.  The loop of the source has no bound; [None] is running out
    of fuel. *)
Fixpoint walk (fuel : nat) s (current : option Digest)
    : option (result (list (Digest * Snapshot St)) ConsensusError) :=
  match current with
  | None => Some (Ok [])
  | Some d =>
      if bool_decide (d ∈ ss_persisted s) then Some (Ok [])
      else
        match fuel with
        | O => None
        | S n =>
            match ss_snapshots s !! d with
            | None => Some (Err (SnapshotNotFound d))
            | Some sn =>
                rest ← walk n s (sn_parent sn);
                Some (let? l := rest in Ok ((d, sn) :: l))
            end
        end
  end.

(** One step more than there are snapshots: see [walk_enough]. *)
Definition walk_fuel s : nat := S (size (ss_snapshots s)).

(** [merged_changes]: the changes of the unpersisted ancestors, oldest first,
    and then the new ones. *)
Definition merged_changes s (parent : Digest) (new_changes : ChangeSet)
    : option (result ChangeSet ConsensusError) :=
  r ← walk (walk_fuel s) s (Some parent);
  Some (let? l := r in
        let chain := (fun x => sn_changes x.2) <$> l in
        Ok (cs_merge (foldl cs_merge ChangeSet_new (reverse chain)) new_changes)).

(** [changes_for_persist]: the unpersisted digests and their merged changes,
    oldest first. *)
Definition changes_for_persist s (d : Digest)
    : option (result (list Digest * ChangeSet) ConsensusError) :=
  r ← walk (walk_fuel s) s (Some d);
  Some (let? l := r in
        let chain := reverse (l.*1) in
        let changes_chain := reverse ((fun x => sn_changes x.2) <$> l) in
        Ok (chain, foldl cs_merge ChangeSet_new changes_chain)).

(** [collect_pending_tx_ids] of the proposal builder: a gap is an error. *)
Definition collect_pending_tx_ids s (from : Digest)
    : option (result (gset B256) ConsensusError) :=
  r ← walk (walk_fuel s) s (Some from);
  Some (let? l := r in Ok (foldl (fun acc x => acc ∪ sn_tx_ids x.2) ∅ l)).

(** [collect_ancestor_tx_ids] of the ledger view: a gap ends the walk. *)
Fixpoint collect_ancestor_loop (fuel : nat) s (current : option Digest) (excluded : gset B256)
    : option (gset B256) :=
  match current with
  | None => Some excluded
  | Some d =>
      if bool_decide (d ∈ ss_persisted s) then Some excluded
      else
        match fuel with
        | O => None
        | S n =>
            match ss_snapshots s !! d with
            | None => Some excluded
            | Some sn => collect_ancestor_loop n s (sn_parent sn) (excluded ∪ sn_tx_ids sn)
            end
        end
  end.

Definition collect_ancestor_tx_ids s (parent : option Digest) : option (gset B256) :=
  collect_ancestor_loop (walk_fuel s) s parent ∅.
End store.

(** ** The walk as a relation *)

(** [walks s c l g]: from [c] the walk visits [l] and stops at a persisted
    block or the root ([g = None]), or at the missing snapshot [g]. *)
Inductive walks {St} (s : SnapshotStore St)
    : option Digest -> list (Digest * Snapshot St) -> option Digest -> Prop :=
| walks_root : walks s None [] None
| walks_persisted d : d ∈ ss_persisted s -> walks s (Some d) [] None
| walks_gap d : d ∉ ss_persisted s -> ss_snapshots s !! d = None -> walks s (Some d) [] (Some d)
| walks_step d sn l g :
    d ∉ ss_persisted s -> ss_snapshots s !! d = Some sn -> walks s (sn_parent sn) l g ->
    walks s (Some d) ((d, sn) :: l) g.

Section walk_theory.
Context {St : Type}.
Implicit Types (s : SnapshotStore St) (sn : Snapshot St).

(** A complete walk stays when snapshots are added. *)
Lemma walks_grow s s' c l :
  (forall d sn, ss_snapshots s !! d = Some sn -> ss_snapshots s' !! d = Some sn) ->
  ss_persisted s' = ss_persisted s -> walks s c l None -> walks s' c l None.
Proof.
  intros Hs Hp Hw. remember None as g eqn:Hg.
  induction Hw as [|d Hd|d Hd Hn|d sn l g Hd Hsn _ IH]; [| |done|].
  - constructor.
  - apply walks_persisted. by rewrite Hp.
  - apply walks_step; [by rewrite Hp|by apply Hs|by apply IH].
Qed.

Lemma walks_det s c l g l' g' : walks s c l g -> walks s c l' g' -> l = l' /\ g = g'.
Proof.
  intros H. revert l' g'. induction H as [|d Hd|d Hd Hs|d sn l g Hd Hs _ IH]; intros l' g' H';
    inversion H'; simplify_eq; try done.
  destruct (IH l0 g') as [-> ->]; done.
Qed.

(** Every visited block starts a shorter walk of its own. *)
Lemma walks_suffix s c l g d sn :
  walks s c l g -> (d, sn) ∈ l ->
  exists l', walks s (Some d) ((d, sn) :: l') g /\ (length l' < length l)%nat.
Proof.
  induction 1 as [|d' Hd|d' Hd Hs|d' sn' l g Hd Hs Hw IH]; intros Hin;
    try (by apply not_elem_of_nil in Hin).
  apply elem_of_cons in Hin as [[= -> ->]|Hin].
  - exists l. split; [by constructor|simpl; lia].
  - destruct (IH Hin) as (l' & Hl' & Hlt). exists l'. split; [done|simpl; lia].
Qed.

Lemma walks_NoDup s c l g : walks s c l g -> NoDup l.*1.
Proof.
  induction 1 as [|d Hd|d Hd Hs|d sn l g Hd Hs Hw IH]; [constructor..|].
  rewrite fmap_cons. constructor; [|done]. intros Hin. simpl in Hin.
  apply list_elem_of_fmap in Hin as ([d' sn'] & -> & Hin). simpl in *.
  destruct (walks_suffix _ _ _ _ _ _ Hw Hin) as (l' & Hl' & Hlt).
  assert (walks s (Some d') ((d', sn) :: l) g) as H by (by constructor).
  destruct (walks_det _ _ _ _ _ _ H Hl') as [[= _ ->] _]. lia.
Qed.

Lemma walks_stored s c l g :
  walks s c l g -> Forall (fun x => ss_snapshots s !! x.1 = Some x.2 /\ x.1 ∉ ss_persisted s) l.
Proof. induction 1; constructor; done. Qed.

(** No walk visits more blocks than there are snapshots. *)
Lemma walks_length s c l g : walks s c l g -> (length l <= size (ss_snapshots s))%nat.
Proof.
  intros H. rewrite <- (length_fmap fst), <- size_dom.
  rewrite <- (size_list_to_set (C := gset Z)) by (by eapply walks_NoDup).
  apply subseteq_size. intros d Hd%elem_of_list_to_set.
  apply list_elem_of_fmap in Hd as ([d' sn] & -> & Hin).
  pose proof (walks_stored _ _ _ _ H) as Hf. rewrite Forall_forall in Hf.
  destruct (Hf _ Hin) as [Hs _]. apply elem_of_dom. by eexists.
Qed.

Definition walk_result (l : list (Digest * Snapshot St)) (g : option Digest)
    : result (list (Digest * Snapshot St)) ConsensusError :=
  match g with None => Ok l | Some d => Err (SnapshotNotFound d) end.

(** With enough fuel the function follows the relation; in the other direction
    every result is one of a walk. *)
Lemma walk_complete s c l g n :
  walks s c l g -> (length l < n)%nat -> walk n s c = Some (walk_result l g).
Proof.
  intros H. revert n. induction H as [|d Hd|d Hd Hs|d sn l g Hd Hs Hw IH]; intros n Hn; simpl.
  - by destruct n.
  - destruct n; [lia|]. simpl. by rewrite bool_decide_eq_true_2.
  - destruct n; [simpl in Hn; lia|]. simpl. rewrite bool_decide_eq_false_2 by done. by rewrite Hs.
  - destruct n; [simpl in Hn; lia|]. simpl in Hn. simpl. rewrite bool_decide_eq_false_2 by done.
    rewrite Hs, IH by lia. simpl. by destruct g.
Qed.

Lemma walk_sound s c n r :
  walk n s c = Some r -> exists l g, walks s c l g /\ r = walk_result l g.
Proof.
  revert c r. induction n as [|n IH]; intros [d|] r Hr; simpl in Hr.
  - destruct (bool_decide_reflect (d ∈ ss_persisted s)); simplify_eq.
    exists [], None. split; [by constructor|done].
  - simplify_eq. exists [], None. split; [constructor|done].
  - destruct (bool_decide_reflect (d ∈ ss_persisted s)) as [Hd|Hd].
    { simplify_eq. exists [], None. split; [by constructor|done]. }
    destruct (ss_snapshots s !! d) as [sn|] eqn:Es; simplify_eq.
    + destruct (walk n s (sn_parent sn)) as [r'|] eqn:Ew; simplify_eq/=.
      destruct (IH _ _ Ew) as (l & g & Hw & ->). exists ((d, sn) :: l), g.
      split; [by constructor|]. by destruct g.
    + exists [], (Some d). split; [by constructor|done].
  - simplify_eq. exists [], None. split; [constructor|done].
Qed.

(** The chosen fuel suffices whenever any does. *)
Lemma walk_enough s c n r : walk n s c = Some r -> walk (walk_fuel s) s c = Some r.
Proof.
  intros Hr. destruct (walk_sound _ _ _ _ Hr) as (l & g & Hw & ->).
  apply walk_complete; [done|]. pose proof (walks_length _ _ _ _ Hw). unfold walk_fuel. lia.
Qed.

(** The parent of a stored snapshot that is not persisted is older by some
    rank. *)
Definition ranked (rank : Digest -> Z) s : Prop :=
  forall d sn p, d ∉ ss_persisted s -> ss_snapshots s !! d = Some sn -> sn_parent sn = Some p ->
    0 <= rank p < rank d.

Lemma walks_exists rank s c : ranked rank s -> exists l g, walks s c l g.
Proof.
  intros Hr. destruct c as [d|]; [|exists [], None; constructor].
  remember (rank d) as r eqn:Er. revert d Er.
  induction (Z.lt_wf 0 r) as [r _ IH]. intros d ->.
  destruct (decide (d ∈ ss_persisted s)); [exists [], None; by constructor|].
  destruct (ss_snapshots s !! d) as [sn|] eqn:Es; [|exists [], (Some d); by constructor].
  destruct (sn_parent sn) as [p|] eqn:Ep.
  - destruct (IH (rank p) (Hr d sn p ltac:(done) Es Ep) p eq_refl) as (l & g & Hw).
    exists ((d, sn) :: l), g. constructor; [done|done|]. by rewrite Ep.
  - exists [(d, sn)], None. constructor; [done|done|]. rewrite Ep. constructor.
Qed.

(** The blocks of a walk are linked parent to child. *)
Lemma walks_linked s d l g :
  walks s (Some d) l g ->
  match l with
  | [] => d ∈ ss_persisted s /\ g = None \/ g = Some d
  | (e, sn) :: l' => e = d /\ walks s (sn_parent sn) l' g
  end.
Proof. inversion 1; simplify_eq; naive_solver. Qed.
End walk_theory.

(** ** Persistence chains *)

(** A chain, oldest first, of stored blocks that are not persisted: the oldest
    stands on a persisted block or is a root, every other one on the block
    before it. *)
Definition chain_ok {St} (s : SnapshotStore St) (chain : list Digest) : Prop :=
  forall i d, chain !! i = Some d ->
    d ∉ ss_persisted s
    /\ exists sn, ss_snapshots s !! d = Some sn
         /\ match i with
            | O => forall p, sn_parent sn = Some p -> p ∈ ss_persisted s
            | S j => sn_parent sn = chain !! j
            end.

(** From a block that is not persisted to the parent its snapshot names. *)
Definition steps_back {St} (s : SnapshotStore St) (d p : Digest) : Prop :=
  d ∉ ss_persisted s /\ exists sn, ss_snapshots s !! d = Some sn /\ sn_parent sn = Some p.

Section chain_theory.
Context {St : Type}.
Implicit Types (s : SnapshotStore St) (sn : Snapshot St).

Lemma walks_gap_reached s d l g :
  walks s (Some d) l (Some g) ->
  rtc (steps_back s) d g /\ g ∉ ss_persisted s /\ ss_snapshots s !! g = None.
Proof.
  remember (Some d) as c eqn:Ec. remember (Some g) as o eqn:Eo. intros H. revert d Ec.
  induction H as [|e He|e He Hs|e sn l' g' He Hs Hw IH]; intros d Ec; simplify_eq.
  - done.
  - inversion Hw; simplify_eq.
    + destruct (IH eq_refl g) as (Hr & ? & ?); [congruence|]. split_and!; [|done|done].
      eapply rtc_l; [|done]. split; [done|]. exists sn. by split.
    + destruct (IH eq_refl d0) as (Hr & ? & ?); [congruence|]. split_and!; [|done|done].
      eapply rtc_l; [|done]. split; [done|]. exists sn. by split.
Qed.

Lemma walks_last s d l g : walks s (Some d) l g -> l <> [] -> last (reverse l.*1) = Some d.
Proof. inversion 1; [done..|]. intros _. rewrite fmap_cons, reverse_cons, last_snoc. done. Qed.

Lemma walks_chain_ok s c l : walks s c l None -> chain_ok s (reverse l.*1).
Proof.
  remember None as g eqn:Eg. intros H. revert Eg.
  induction H as [|d Hd|d Hd Hs|d sn l g Hd Hs Hw IH]; intros Eg;
    try (intros i d' Hi; by destruct i).
  specialize (IH Eg). subst g. rewrite fmap_cons, reverse_cons. intros i e Hi.
  apply lookup_app_Some in Hi as [Hi|[Hlen Hi]].
  - destruct (IH i e Hi) as (? & sn' & ? & Hp). split; [done|]. exists sn'. split; [done|].
    destruct i as [|i]; [done|]. rewrite Hp, lookup_app_l; [done|].
    apply lookup_lt_Some in Hi. lia.
  - destruct (i - length (reverse l.*1))%nat as [|k] eqn:Ei; [|by destruct k].
    simpl in Hi. simplify_eq. split; [done|]. exists sn. split; [done|].
    assert (i = length (reverse l.*1)) as -> by lia. clear Hlen Ei IH.
    inversion Hw as [H1 H2|p Hp H1 H2| |p sp l' g Hp Hsp Hw' H1 H2]; subst; simpl.
    + intros p. congruence.
    + intros p' ?. congruence.
    + rewrite reverse_cons, length_app. simpl. rewrite Nat.add_1_r.
      rewrite lookup_app_l by (rewrite length_app; simpl; lia).
      by rewrite lookup_app_r, Nat.sub_diag by lia.
Qed.

(** The result of [changes_for_persist] is read off the walk. *)
Lemma changes_for_persist_walks s d l g :
  walks s (Some d) l g ->
  changes_for_persist s d
  = Some (match g with
          | None => Ok (reverse l.*1, merge_all (reverse ((fun x => sn_changes x.2) <$> l)))
          | Some e => Err (SnapshotNotFound e)
          end).
Proof.
  intros Hw. unfold changes_for_persist.
  rewrite (walk_complete s (Some d) l g) by
    (done || (pose proof (walks_length _ _ _ _ Hw); unfold walk_fuel; lia)).
  by destruct g.
Qed.

Lemma merged_changes_walks s p l g c :
  walks s (Some p) l g ->
  merged_changes s p c
  = Some (match g with
          | None => Ok (cs_merge (merge_all (reverse ((fun x => sn_changes x.2) <$> l))) c)
          | Some e => Err (SnapshotNotFound e)
          end).
Proof.
  intros Hw. unfold merged_changes.
  rewrite (walk_complete s (Some p) l g) by
    (done || (pose proof (walks_length _ _ _ _ Hw); unfold walk_fuel; lia)).
  by destruct g.
Qed.
End chain_theory.

(** ** Eviction *)

(** The retention queue holds each persisted snapshot in memory once. *)
Record retention_ok {St} (s : SnapshotStore St) : Prop := {
  ro_nodup : NoDup (ss_order s);
  ro_persisted : forall d, d ∈ ss_order s -> d ∈ ss_persisted s;
  ro_held : forall d, d ∈ ss_persisted s -> is_Some (ss_snapshots s !! d) -> d ∈ ss_order s;
}.

Section eviction.
Context {St : Type}.
Implicit Types (s : SnapshotStore St) (sn : Snapshot St).

Lemma evict_loop_spec max persisted order (m : gmap Digest (Snapshot St)) n :
  0 <= max -> NoDup order -> Forall (fun d => d ∈ persisted) order ->
  let '(m', order', n') := evict_loop max persisted order m n in
  exists gone, order = gone ++ order' /\ len order' <= max
    /\ (gone <> [] -> len order' = max)
    /\ (forall d, m' !! d = if decide (d ∈ gone) then None else m !! d)
    /\ n' = n + Z.of_nat (size m) - Z.of_nat (size m').
Proof.
  intros Hmax. revert m n. induction order as [|d order IH]; intros m n Hnd Hp; cbn [evict_loop].
  { exists []. split_and!; [done|rewrite len_nil; lia|done|intros d; done|lia]. }
  apply NoDup_cons in Hnd as [Hd Hnd]. apply Forall_cons in Hp as [Hpd Hp].
  destruct (Z.ltb_spec max (len (d :: order))) as [Hlt|Hge].
  2:{ exists []. split_and!; [done|lia|done|intros e; done|lia]. }
  assert (forall m1 n1, m1 = delete d m -> n1 = n + Z.of_nat (size m) - Z.of_nat (size m1) ->
    let '(m', order', n') := evict_loop max persisted order m1 n1 in
    exists gone, d :: order = gone ++ order' /\ len order' <= max
      /\ (gone <> [] -> len order' = max)
      /\ (forall e, m' !! e = if decide (e ∈ gone) then None else m !! e)
      /\ n' = n + Z.of_nat (size m) - Z.of_nat (size m')) as Hstep.
  { intros m1 n1 -> ->. specialize (IH (delete d m) (n + Z.of_nat (size m) - Z.of_nat (size (delete d m))) Hnd Hp).
    destruct (evict_loop _ _ _ _ _) as [[m' order'] n'].
    destruct IH as (gone & Ho & Hle & Heq & Hm & Hn). exists (d :: gone).
    split_and!; [by rewrite Ho|done| | |lia].
    - intros _. destruct gone as [|e gone]; [|by apply Heq].
      simpl in Ho. subst order'. rewrite len_cons in Hlt. lia.
    - intros e. rewrite Hm. destruct (decide (e = d)) as [->|Hne].
      + rewrite (decide_True (P := d ∈ d :: gone)) by (by left). rewrite lookup_delete_eq.
        by destruct (decide _).
      + rewrite lookup_delete_ne by done.
        destruct (decide (e ∈ gone)), (decide (e ∈ d :: gone)); set_solver. }
  rewrite bool_decide_eq_true_2 by done. simpl.
  destruct (m !! d) as [sn|] eqn:Em.
  - rewrite bool_decide_eq_true_2 by (by eexists). apply Hstep; [done|].
    rewrite (map_size_delete_Some d m) by (by eexists).
    assert (size m <> O) by (rewrite map_size_ne_0_lookup; by exists d; eexists). lia.
  - rewrite bool_decide_eq_false_2 by (intros [? ?]; congruence).
    apply Hstep; [by rewrite delete_id|lia].
Qed.

Lemma mark_persisted_fold ds (p : gset Digest) o :
  let '(p', o') := foldl (fun '(p, o) d => if bool_decide (d ∈ p) then (p, o)
                                           else ({[d]} ∪ p, o ++ [d])) (p, o) ds in
  p' = p ∪ list_to_set ds
  /\ exists new, o' = o ++ new /\ NoDup new /\ (forall d, d ∈ new <-> d ∈ ds /\ d ∉ p).
Proof.
  revert p o. induction ds as [|d ds IH]; intros p o; simpl.
  { split; [set_solver|]. exists []. rewrite app_nil_r. split_and!; [done|constructor|set_solver]. }
  destruct (bool_decide_reflect (d ∈ p)) as [Hd|Hd].
  - specialize (IH p o). destruct (foldl _ _ _) as [p' o'].
    destruct IH as (-> & new & -> & Hnd & Hnew). split; [set_solver|].
    exists new. split_and!; [done|done|]. intros e. rewrite Hnew. set_solver.
  - specialize (IH ({[d]} ∪ p) (o ++ [d])). destruct (foldl _ _ _) as [p' o'].
    destruct IH as (-> & new & -> & Hnd & Hnew). split; [set_solver|].
    exists (d :: new). rewrite <- app_assoc. split_and!; [done| |].
    + constructor; [|done]. rewrite Hnew. set_solver.
    + intros e. rewrite elem_of_cons, Hnew. destruct (decide (e = d)) as [->|]; set_solver.
Qed.

Lemma mark_persisted_fields s ds :
  let s' := mark_persisted s ds in
  ss_snapshots s' = ss_snapshots s /\ ss_persisting s' = ss_persisting s
  /\ ss_max_persisted_retained s' = ss_max_persisted_retained s
  /\ ss_persisted s' = ss_persisted s ∪ list_to_set ds
  /\ exists new, ss_order s' = ss_order s ++ new /\ NoDup new
       /\ (forall d, d ∈ new <-> d ∈ ds /\ d ∉ ss_persisted s).
Proof.
  unfold mark_persisted. pose proof (mark_persisted_fold ds (ss_persisted s) (ss_order s)) as H.
  destruct (foldl _ _ _) as [p' o']. by destruct H.
Qed.

Lemma mark_persisted_retention s ds : retention_ok s -> retention_ok (mark_persisted s ds).
Proof.
  intros [Hnd Hp Hh]. destruct (mark_persisted_fields s ds) as (Hs & _ & _ & Hpe & new & Ho & Hn & Hnew).
  split.
  - rewrite Ho. apply NoDup_app. split_and!; [done| |done]. intros d Hd. rewrite Hnew. naive_solver.
  - intros d. rewrite Ho, Hpe, elem_of_app, Hnew. set_solver.
  - intros d. rewrite Hs, Hpe, Ho, elem_of_app, Hnew. intros Hd Hsd.
    destruct (decide (d ∈ ss_persisted s)); [left; by apply Hh|right; set_solver].
Qed.

Lemma insert_retention s d sn :
  retention_ok s -> (d ∈ ss_persisted s -> d ∈ ss_order s) -> retention_ok (ss_insert s d sn).
Proof.
  intros [Hnd Hp Hh] Hd. split; [done|done|]. intros e He. simpl in *.
  destruct (decide (e = d)) as [->|]; [auto|]. rewrite lookup_insert_ne by done. auto.
Qed.

(** Whatever the queue, eviction drops persisted snapshots only. *)
Lemma evict_loop_keeps max persisted order (m : gmap Digest (Snapshot St)) n :
  let '(m', _, _) := evict_loop max persisted order m n in
  (forall d, d ∉ persisted -> m' !! d = m !! d)
  /\ (forall d sn, m' !! d = Some sn -> m !! d = Some sn).
Proof.
  revert m n. induction order as [|o order IH]; intros m n; cbn [evict_loop]; [done|].
  destruct (_ <? _); [|done].
  destruct (bool_decide_reflect (o ∈ persisted)) as [Ho|Ho]; simpl; [|apply IH].
  destruct (bool_decide _); [|apply IH].
  specialize (IH (delete o m) (n + 1)). destruct (evict_loop _ _ _ _ _) as [[m' ?] ?].
  destruct IH as [IH1 IH2]. split.
  - intros d Hd. rewrite IH1 by done. rewrite lookup_delete_ne; [done|congruence].
  - intros d sn Hs. apply IH2 in Hs. by apply lookup_delete_Some in Hs as [_ ?].
Qed.

Lemma evict_persisted_keeps s :
  let s' := (evict_persisted s).1 in
  ss_persisted s' = ss_persisted s /\ ss_persisting s' = ss_persisting s
  /\ (forall d, d ∉ ss_persisted s -> ss_snapshots s' !! d = ss_snapshots s !! d)
  /\ (forall d sn, ss_snapshots s' !! d = Some sn -> ss_snapshots s !! d = Some sn).
Proof.
  unfold evict_persisted. destruct (_ <=? _); [done|].
  pose proof (evict_loop_keeps (ss_max_persisted_retained s) (ss_persisted s) (ss_order s)
    (ss_snapshots s) 0) as Hk.
  destruct (evict_loop _ _ _ _ _) as [[m order] n]. simpl. by split_and!; [..|apply Hk|apply Hk].
Qed.

Lemma mark_persisting_set s chain :
  ss_persisting (mark_persisting_chain s chain) = list_to_set chain ∪ ss_persisting s.
Proof.
  simpl. generalize (ss_persisting s). induction chain as [|d chain IH]; intros p; simpl; [set_solver|].
  rewrite IH. set_solver.
Qed.

Lemma clear_persisting_set s chain :
  ss_persisting (clear_persisting_chain s chain) = ss_persisting s ∖ list_to_set chain.
Proof.
  simpl. generalize (ss_persisting s). induction chain as [|d chain IH]; intros p; simpl; [set_solver|].
  rewrite IH. set_solver.
Qed.

Lemma can_persist_spec s chain :
  can_persist_chain s chain = true
  <-> forall d, d ∈ chain -> d ∉ ss_persisted s /\ d ∉ ss_persisting s.
Proof.
  unfold can_persist_chain. rewrite forallb_forall. setoid_rewrite <- list_elem_of_In.
  split; intros Hc d Hd; specialize (Hc d Hd).
  - apply andb_true_iff in Hc as [H1 H2]. rewrite negb_true_iff in H1, H2.
    by apply bool_decide_eq_false in H1, H2.
  - destruct Hc. rewrite (bool_decide_eq_false_2 (d ∈ ss_persisted s)) by done.
    by rewrite (bool_decide_eq_false_2 (d ∈ ss_persisting s)).
Qed.

(** A walk only looks at the snapshots that are not persisted. *)
Lemma walks_agree s s' c l g :
  ss_persisted s' = ss_persisted s ->
  (forall d, d ∉ ss_persisted s -> ss_snapshots s' !! d = ss_snapshots s !! d) ->
  walks s c l g -> walks s' c l g.
Proof.
  intros Hp Hs. induction 1 as [|d Hd|d Hd Hn|d sn l g Hd Hn _ IH];
    constructor; rewrite ?Hp, ?Hs; done.
Qed.

Lemma held_bound s :
  retention_ok s -> ss_len s <= len (ss_order s) + ss_unpersisted_count s.
Proof.
  intros [_ _ Hh]. unfold ss_len, ss_unpersisted_count.
  rewrite <- length_map_to_list, <- (length_fmap fst).
  set (ks := (map_to_list (ss_snapshots s)).*1).
  pose proof (Permutation_length (filter_app_complement (fun d => d ∈ ss_persisted s) ks)) as Hk.
  rewrite length_app in Hk.
  assert (length (filter (fun d => d ∈ ss_persisted s) ks) <= length (ss_order s))%nat.
  { apply submseteq_length, NoDup_submseteq; [apply NoDup_filter, NoDup_fst_map_to_list|].
    intros d [Hd Hin]%list_elem_of_filter. apply Hh; [done|].
    apply list_elem_of_fmap in Hin as ([d' sn] & -> & Hin).
    apply elem_of_map_to_list in Hin. by eexists. }
  unfold len. lia.
Qed.

(** ** Properties *)

(** Eviction bounds the memory held by persisted snapshots and loses
    nothing else.  The oldest persisted snapshots go first, until at most the
    limit is retained; every snapshot that is not persisted stays, and so do
    all markers, so walks are as before; the returned count is the number of
    snapshots dropped. *)
Theorem evict_persisted_correct s :
  retention_ok s -> 0 <= ss_max_persisted_retained s ->
  let '(s', n) := evict_persisted s in
  retention_ok s'
  /\ n = ss_len s - ss_len s'
  /\ ss_persisted s' = ss_persisted s /\ ss_persisting s' = ss_persisting s
  /\ (exists gone, ss_order s = gone ++ ss_order s'
       /\ forall d, ss_snapshots s' !! d = if decide (d ∈ gone) then None else ss_snapshots s !! d)
  /\ (forall d, d ∉ ss_persisted s -> ss_snapshots s' !! d = ss_snapshots s !! d)
  /\ ss_len s' <= ss_max_persisted_retained s + ss_unpersisted_count s'
  /\ (forall c l g, walks s c l g <-> walks s' c l g).
Proof.
  intros Hro Hmax. destruct Hro as [Hnd Hp Hh]. unfold evict_persisted.
  destruct (Z.leb_spec (len (ss_order s)) (ss_max_persisted_retained s)) as [Hle|Hgt].
  { pose proof (held_bound s ltac:(by split)).
    split_and!; [done|lia|done|done|exists []; done|done|lia|done]. }
  pose proof (evict_loop_spec (ss_max_persisted_retained s) (ss_persisted s) (ss_order s)
    (ss_snapshots s) 0 Hmax Hnd ltac:(by apply Forall_forall)) as Hloop.
  destruct (evict_loop _ _ _ _ _) as [[m order] n].
  destruct Hloop as (gone & Ho & Hle & _ & Hm & Hn).
  set (s' := mkStore m _ _ order _).
  assert (forall d, d ∉ ss_persisted s -> m !! d = ss_snapshots s !! d) as Hkeep.
  { intros d Hd. rewrite Hm. destruct (decide (d ∈ gone)) as [Hg|]; [|done].
    destruct Hd. apply Hp. rewrite Ho. set_solver. }
  assert (retention_ok s') as Hro'.
  { rewrite Ho in Hnd. apply NoDup_app in Hnd as (_ & _ & Hnd'). split; [done| |].
    - intros d Hd. apply Hp. rewrite Ho. set_solver.
    - intros d Hd [sn Hsn]. simpl in *. rewrite Hm in Hsn.
      destruct (decide (d ∈ gone)) as [|Hg]; [done|].
      pose proof (Hh d Hd ltac:(by eexists)) as Hin. rewrite Ho in Hin. set_solver. }
  pose proof (held_bound s' Hro') as Hb.
  split_and!; [done|unfold ss_len; simpl; lia|done|done|by exists gone|done| |].
  - change (ss_order s') with order in Hb. lia.
  - intros c l g. split; apply walks_agree; [done|done|done|]. intros d Hd. by rewrite <- Hkeep.
Qed.
End eviction.

Section persist_chain.
Context {St : Type}.
Implicit Types (s : SnapshotStore St) (sn : Snapshot St).

(** C15: the walk that collects what to persist terminates and is right.
    Where parents precede their children it returns for every block; the
    answer does not depend on the bound chosen.  It is an error only when a
    missing snapshot is reached from the block; otherwise it is the chain of
    the stored blocks that are not persisted, without repetition, each on top
    of the one before, the oldest on a persisted block and the newest the
    requested one, with a change set that reads as those of the chain laid one
    over the other. *)
Theorem changes_for_persist_total rank s d :
  ranked rank s ->
  exists r, changes_for_persist s d = Some r
  /\ (forall n r', walk n s (Some d) = Some r' -> walk (walk_fuel s) s (Some d) = Some r')
  /\ match r with
     | Err e => exists g, e = SnapshotNotFound g /\ rtc (steps_back s) d g
                  /\ g ∉ ss_persisted s /\ ss_snapshots s !! g = None
     | Ok (chain, c) =>
         NoDup chain /\ chain_ok s chain
         /\ (d ∈ ss_persisted s -> chain = []) /\ (d ∉ ss_persisted s -> last chain = Some d)
         /\ exists cs,
              mapM (fun e => sn_changes <$> ss_get s e) chain = Some cs
              /\ forall f base, merges_ok f ChangeSet_new cs -> layer base c = layers base cs
     end.
Proof.
  intros Hr. destruct (walks_exists rank s (Some d) Hr) as (l & g & Hw).
  eexists. split; [by apply changes_for_persist_walks|].
  split; [intros n r'; apply walk_enough|]. destruct g as [g|].
  { exists g. split; [done|]. by eapply walks_gap_reached. }
  split; [rewrite reverse_Permutation; by eapply walks_NoDup|].
  split; [by eapply walks_chain_ok|].
  split; [intros Hd; by inversion Hw|].
  split. { intros Hd. eapply walks_last; [done|]. inversion Hw; done. }
  eexists. split; [|intros f base Hok; by apply (layers_merge f)].
  rewrite <- !fmap_reverse. apply mapM_Some, Forall2_fmap_l, Forall2_fmap_r.
  apply Forall_Forall2_diag, Forall_reverse.
  eapply Forall_impl; [by eapply walks_stored|]. intros [e sn] [Hs _]. simpl in *.
  unfold ss_get. by rewrite Hs.
Qed.
End persist_chain.

(** ** Witnesses *)

Definition sample_snapshot (p : option Digest) (n : u64) : Snapshot unit :=
  mkSnapshot p tt 0
    (mkChangeSet {[1 := mkUpdate true false n 0 0 None ∅]}) ∅.

(** Block 1 is persisted, 2 and 3 are not, 4 is missing. *)
Definition sample_store : SnapshotStore unit :=
  mkStore {[1 := sample_snapshot None 1; 2 := sample_snapshot (Some 1) 2;
            3 := sample_snapshot (Some 2) 3; 5 := sample_snapshot (Some 4) 5]}
    {[1]} ∅ [1] 0.

Lemma sample_ranked : ranked id sample_store.
Proof.
  intros d sn p _ Hd Hp. unfold sample_store in Hd. cbn [ss_snapshots] in Hd.
  repeat (apply lookup_insert_Some in Hd as [[<- <-]|[_ Hd]]; [simpl in Hp; simplify_eq; unfold id; lia|]).
  apply lookup_singleton_Some in Hd as [<- <-]. simpl in Hp. simplify_eq. unfold id. lia.
Qed.

(** The chain to persist for block 3, and the missing parent of block 5. *)
Lemma changes_for_persist_total_witness :
  (exists c, changes_for_persist sample_store 3 = Some (Ok ([2; 3], c))
     /\ forall f base, merges_ok f ChangeSet_new
            [sn_changes (sample_snapshot (Some 1) 2); sn_changes (sample_snapshot (Some 2) 3)] ->
          layer base c = layers base
            [sn_changes (sample_snapshot (Some 1) 2); sn_changes (sample_snapshot (Some 2) 3)])
  /\ changes_for_persist sample_store 5 = Some (Err (SnapshotNotFound 4)).
Proof.
  split; [|vm_compute; reflexivity].
  destruct (changes_for_persist_total id sample_store 3 sample_ranked) as (r & Hr & _ & H).
  destruct (changes_for_persist sample_store 3) as [[[chain c]|e]|] eqn:E;
    [|vm_compute in E; discriminate..].
  injection Hr as <-. destruct H as (_ & _ & _ & _ & cs & Hcs & Hl).
  assert (chain = [2; 3]) as -> by (vm_compute in E; congruence).
  exists c. split; [done|]. intros f base Hok.
  assert (cs = [sn_changes (sample_snapshot (Some 1) 2); sn_changes (sample_snapshot (Some 2) 3)])
    as -> by (vm_compute in Hcs; vm_compute; congruence).
  by apply (Hl f).
Defined.

(** With nothing to retain, block 1 is dropped and the others stay. *)
Lemma evict_persisted_correct_witness :
  (evict_persisted sample_store).2 = 1
  /\ retention_ok (evict_persisted sample_store).1.
Proof.
  split; [vm_compute; reflexivity|].
  assert (retention_ok sample_store) as Hro.
  { split; [by apply (bool_decide_unpack _); vm_compute|set_solver|set_solver]. }
  pose proof (evict_persisted_correct sample_store Hro (Z.le_refl 0)) as H.
  destruct (evict_persisted sample_store) as [s' n]. exact (proj1 H).
Defined.
