(* ===== verification/Chain.v ===== *)
(** Trees of blocks: the abstract chain the ledger refines.  Each block has a
    parent, the changes its execution makes and the state after it; paths from
    an ancestor to a block, and what the merged changes of a path read as over
    any state on it. *)
From S2P Require Import Prelude StateDb Changes Layers Snapshots.

Record world := mkWorld {
  w_parent : Digest -> option Digest;
  w_rank : Digest -> Z;
  w_changes : Digest -> ChangeSet;
  w_state : Digest -> ReadFns;
  w_code : B256 -> bytes;
}.

(** [path w a l d]: the blocks after [a] up to [d], oldest first. *)
Inductive path (w : world) (a : Digest) : list Digest -> Digest -> Prop :=
| path_nil : path w a [] a
| path_snoc l p d : path w a l p -> w_parent w d = Some p -> path w a (l ++ [d]) d.

Definition ancestor (w : world) (a d : Digest) : Prop := exists l, path w a l d.

(** Parents rank below their children, the state of a block is that of its
    parent with the block's changes, and the changes along a path may be
    merged. *)
Record world_ok (w : world) : Prop := {
  wo_rank : forall d p, w_parent w d = Some p -> 0 <= w_rank w p < w_rank w d;
  wo_state : forall d p, w_parent w d = Some p ->
    w_state w d = layer (w_state w p) (w_changes w d);
  wo_merge : forall a l d, path w a l d -> merges_ok (w_code w) ChangeSet_new (w_changes w <$> l);
}.

Section paths.
Context (w : world) (W : world_ok w).
#[local] Set Default Proof Using "W".

Lemma path_app a l b m d : path w a l b -> path w b m d -> path w a (l ++ m) d.
Proof.
  intros Hl. induction 1 as [|m p d Hm IH Hp]; [by rewrite app_nil_r|].
  rewrite app_assoc. by econstructor.
Qed.

Lemma ancestor_refl a : ancestor w a a.
Proof. exists []. constructor. Qed.

Lemma ancestor_trans a b d : ancestor w a b -> ancestor w b d -> ancestor w a d.
Proof. intros [l Hl] [m Hm]. exists (l ++ m). by eapply path_app. Qed.

Lemma ancestor_parent d p : w_parent w d = Some p -> ancestor w p d.
Proof. intros Hp. exists [d]. apply (path_snoc w p [] p d); [constructor|done]. Qed.

Lemma path_rank a l d :
  path w a l d -> (l = [] /\ a = d \/ w_rank w a < w_rank w d)
  /\ Forall (fun x => w_rank w a < w_rank w x <= w_rank w d) l.
Proof.
  induction 1 as [|l p d Hl [IH1 IH2] Hp]; [naive_solver|].
  pose proof (wo_rank w W d p Hp) as Hr.
  assert (w_rank w a < w_rank w d) by (destruct IH1 as [[_ ->]|]; lia).
  split; [by right|]. apply Forall_app. split; [|repeat constructor; lia].
  eapply Forall_impl; [exact IH2|]. simpl. intros x ?. lia.
Qed.

Lemma ancestor_antisym a b : ancestor w a b -> ancestor w b a -> a = b.
Proof.
  intros [l Hl] [m Hm]. destruct (path_rank _ _ _ Hl) as [[[_ ?]|H1] _]; [done|].
  destruct (path_rank _ _ _ Hm) as [[[_ ?]|H2] _]; [done|lia].
Qed.

Lemma path_elem a l d x : path w a l d -> x ∈ l -> ancestor w a x /\ ancestor w x d /\ x <> a.
Proof.
  intros H Hx. pose proof (path_rank _ _ _ H) as [_ Hf]. rewrite Forall_forall in Hf.
  assert (x <> a) as Hne by (intros ->; specialize (Hf _ Hx); lia). clear Hf. revert x Hx Hne.
  induction H as [|l p d Hl IH Hp]; intros x Hx Hne; [set_solver|].
  apply elem_of_app in Hx as [Hx|Hx].
  - destruct (IH x Hx Hne) as (? & ? & _). split_and!; [done| |done].
    eapply ancestor_trans; [done|by apply ancestor_parent].
  - apply list_elem_of_singleton in Hx as ->. split_and!; [|apply ancestor_refl|done].
    exists (l ++ [d]). by econstructor.
Qed.

(** The ancestors of a block form a line. *)
Lemma path_linear a l b m d :
  path w a l d -> path w b m d ->
  (exists n, path w a n b /\ l = n ++ m) \/ (exists n, path w b n a /\ m = n ++ l).
Proof.
  intros Hl. revert m. induction Hl as [|l p d Hl IH Hp]; intros m Hm.
  { right. exists m. by rewrite app_nil_r. }
  inversion Hm as [Hb|m' p' d' Hm' Hp' Hb]; subst.
  { left. exists (l ++ [d]). rewrite app_nil_r. split; [by econstructor|done]. }
  assert (p' = p) as -> by congruence.
  destruct (IH m' Hm') as [(n & Hn & ->)|(n & Hn & ->)]; [left|right]; exists n;
    by rewrite <- app_assoc.
Qed.

Lemma path_split a l b d :
  path w a l d -> ancestor w a b -> ancestor w b d ->
  exists m n, path w a m b /\ path w b n d /\ l = m ++ n.
Proof.
  intros Hl Hab [n Hn]. destruct (path_linear _ _ _ _ _ Hl Hn) as [(m & Hm & ->)|(m & Hm & ->)].
  - by exists m, n.
  - assert (a = b) as -> by (apply ancestor_antisym; [done|by exists m]).
    exists [], l. destruct (path_rank _ _ _ Hm) as [[[-> _]|] _]; [|lia].
    split_and!; [constructor|done|done].
Qed.

(** A block between the ends of a path is on it. *)
Lemma path_between a l b d :
  path w a l d -> ancestor w a b -> ancestor w b d -> b <> a -> b ∈ l.
Proof.
  intros Hl Hab Hbd Hne. destruct (path_split _ _ _ _ Hl Hab Hbd) as (m & n & Hm & _ & ->).
  inversion Hm; subst; [done|]. set_solver.
Qed.

Lemma path_state a l d : path w a l d -> w_state w d = layers (w_state w a) (w_changes w <$> l).
Proof.
  induction 1 as [|l p d Hl IH Hp]; [done|].
  rewrite fmap_app, layers_app, <- IH. simpl. by apply (wo_state w W).
Qed.

(** The merged changes of a path, read over any state on it, give the state at
    its end. *)
Lemma path_merge a l b d :
  path w a l d -> ancestor w a b -> ancestor w b d ->
  layer (w_state w b) (merge_all (w_changes w <$> l)) = w_state w d.
Proof.
  intros Hl Hab Hbd. destruct (path_split _ _ _ _ Hl Hab Hbd) as (m & n & Hm & Hn & ->).
  rewrite (path_state _ _ _ Hn), fmap_app.
  apply (layers_skip (w_code w)); [rewrite <- fmap_app; by eapply (wo_merge w W)|].
  rewrite (path_state _ _ _ Hm).
  rewrite <- (layers_merge (w_code w)) by (by eapply (wo_merge w W)). apply layer_idem.
Qed.
End paths.

(** A chain of one block [d] on [g]. *)
Definition child_world (g d : Digest) (c : ChangeSet) (r : ReadFns) : world := {|
  w_parent := fun x => if x =? d then Some g else None;
  w_rank := fun x => if x =? d then 1 else 0;
  w_changes := fun _ => c;
  w_state := fun x => if x =? d then layer r c else r;
  w_code := fun _ => [];
|}.

Lemma child_path g d c r a l x :
  g <> d -> path (child_world g d c r) a l x -> l = [] \/ l = [d].
Proof.
  intros Hne. apply Z.eqb_neq in Hne. induction 1 as [|l p x Hl IH Hp]; [by left|]. simpl in Hp.
  destruct (Z.eqb_spec x d) as [->|]; [|done]. injection Hp as <-. right.
  destruct IH as [->| ->]; [done|]. inversion Hl as [|l' p d' Hl' Hp' El Ed]; subst.
  simpl in Hp'. by rewrite Hne in Hp'.
Qed.

Lemma child_world_ok g d c r :
  g <> d -> mergeable (fun _ => []) ChangeSet_new c -> world_ok (child_world g d c r).
Proof.
  intros Hne Hm. pose proof Hne as Hgd. apply Z.eqb_neq in Hgd.
  split; cbn [child_world w_parent w_rank w_state w_changes w_code].
  - intros x p. destruct (x =? d); [|done]. intros [= <-]. rewrite Hgd. lia.
  - intros x p. destruct (x =? d); [|done]. intros [= <-]. by rewrite Hgd.
  - intros a l x Hl. destruct (child_path _ _ _ _ _ _ _ Hne Hl) as [->| ->]; [done|by split].
Qed.
