(* ===== verification/Ledger.v ===== *)
(** The ledger (crates/node/ledger/src/lib.rs and live_state.rs, the ledger
    events of crates/node/domain/src/events.rs, the seed tracker of
    crates/node/consensus/src/components/seed.rs): snapshots of executed blocks
    over one shared database, their persistence, the mempool and the seeds.

    All overlays of the ledger share one database handle, so a snapshot is
    stored here with the change set of its overlay, and [overlay_of] reads it
    over the handle as it is at that moment. *)
From S2P Require Import Prelude TxTypes SenderQueue Pool StateDb Changes StateRoot Backend Layers.
From S2P Require Import QmdbLedger Codec Block Snapshots.

Inductive LedgerError : Type :=
| LQmdb (e : QlError)
| LConsensus (e : ConsensusError)
| LStateDb (e : StateDbError).

(** What the ledger uses of [QmdbLedger]. *)
Class LedgerDb (H : Type) := {
  ldb_read :: StateDbRead H;
  ldb_commit : H -> ChangeSet -> H * result B256 QlError;
  ldb_root : H -> result B256 QlError;
}.

(** ** Seeds (components/seed.rs) *)

Definition SeedTracker : Type := gmap Digest B256.
Definition seeds_new (genesis_digest : Digest) : SeedTracker := {[genesis_digest := 0]}.
Definition seeds_empty : SeedTracker := ∅.
Definition seeds_get (s : SeedTracker) (d : Digest) : option B256 := s !! d.
Definition seeds_insert (s : SeedTracker) (d : Digest) (seed : B256) : SeedTracker :=
  <[d := seed]> s.

(** ** Events (domain/src/events.rs) *)

Inductive LedgerEvent : Type :=
| TransactionSubmitted (id : B256)
| SnapshotPersisted (d : Digest)
| SeedUpdated (d : Digest) (seed : B256).

(** A subscription: whether its receiver is still there, and what it was sent. *)
Record Listener := mkListener { ln_open : bool; ln_queue : list LedgerEvent }.
Definition LedgerEvents : Type := list Listener.

Definition events_new : LedgerEvents := [].
Definition events_publish (es : LedgerEvents) (e : LedgerEvent) : LedgerEvents :=
  omap (fun l => if ln_open l then Some (mkListener true (ln_queue l ++ [e])) else None) es.
Definition events_subscribe (es : LedgerEvents) : LedgerEvents * Listener :=
  (es ++ [mkListener true []], mkListener true []).

(** ** The view *)

Abbreviation LedgerSnapshot := (Snapshot ChangeSet) (only parsing).

Record LedgerState (H : Type) := mkLedger {
  ls_mempool : TransactionPool;
  ls_snapshots : SnapshotStore ChangeSet;
  ls_head : Digest;
  ls_seeds : SeedTracker;
  ls_qmdb : H;
}.
Arguments mkLedger {H}.
Arguments ls_mempool {H}.
Arguments ls_snapshots {H}.
Arguments ls_head {H}.
Arguments ls_seeds {H}.
Arguments ls_qmdb {H}.

Section ledger.
Context `{EXT : !External} `{CD : !Codec} `{SH : !Sha256}.
Context {H : Type} `{DB : !LedgerDb H}.
Implicit Types (ls : LedgerState H).

Definition with_mempool ls (p : TransactionPool) : LedgerState H :=
  mkLedger p (ls_snapshots ls) (ls_head ls) (ls_seeds ls) (ls_qmdb ls).
Definition with_snapshots ls (s : SnapshotStore ChangeSet) : LedgerState H :=
  mkLedger (ls_mempool ls) s (ls_head ls) (ls_seeds ls) (ls_qmdb ls).
Definition with_head ls (d : Digest) : LedgerState H :=
  mkLedger (ls_mempool ls) (ls_snapshots ls) d (ls_seeds ls) (ls_qmdb ls).
Definition with_seeds ls (s : SeedTracker) : LedgerState H :=
  mkLedger (ls_mempool ls) (ls_snapshots ls) (ls_head ls) s (ls_qmdb ls).
Definition with_qmdb ls (q : H) : LedgerState H :=
  mkLedger (ls_mempool ls) (ls_snapshots ls) (ls_head ls) (ls_seeds ls) q.

Definition tx_ids (txs : list Tx) : gset B256 := list_to_set (tx_id <$> txs).

(** [init_with_config_and_genesis_options], after the database was opened: the
    genesis block and the ledger. *)
Definition genesis_block (genesis_root : B256) (genesis_timestamp : u64) : Block :=
  mkBlock 0 0 genesis_timestamp 0 genesis_root [].

Definition ledger_init (qmdb : result H QlError) (genesis_timestamp : u64)
    : result (Block * LedgerState H) LedgerError :=
  let? qmdb := map_err LQmdb qmdb in
  let? genesis_root := map_err LQmdb (ldb_root qmdb) in
  let genesis := genesis_block genesis_root genesis_timestamp in
  let genesis_digest := commitment genesis in
  let snapshots :=
    mark_persisted
      (ss_insert ss_new genesis_digest
         (mkSnapshot None ChangeSet_new (b_state_root genesis) ChangeSet_new ∅))
      [genesis_digest] in
  Ok (genesis, mkLedger (pool_new PoolConfig_default) snapshots genesis_digest
                 (seeds_new genesis_digest) qmdb).

(** ** Queries *)

(** A snapshot's overlay over the database as it is now. *)
Definition overlay_of ls (c : ChangeSet) : OverlayState H := mkOverlay (ls_qmdb ls) c.

Definition latest_state ls : ChangeSet :=
  match ss_get (ls_snapshots ls) (ls_head ls) with
  | Some sn => sn_state sn
  | None => ChangeSet_new
  end.

Definition query_balance ls (d : Digest) (address : Address) : option U256 :=
  sn ← ss_get (ls_snapshots ls) d;
  ok (st_balance (overlay_of ls (sn_state sn)) address).

Definition query_state_root ls (d : Digest) : option B256 :=
  sn_state_root <$> ss_get (ls_snapshots ls) d.

Definition seed_for_parent ls (parent : Digest) : option B256 := seeds_get (ls_seeds ls) parent.
Definition query_seed ls (d : Digest) : option B256 := seeds_get (ls_seeds ls) d.

Definition parent_snapshot ls (parent : Digest) : option LedgerSnapshot :=
  ss_get (ls_snapshots ls) parent.

Definition is_snapshot_persisted ls (d : Digest) : bool := ss_is_persisted (ls_snapshots ls) d.

Definition snapshot_store_stats ls : usize * usize :=
  (ss_len (ls_snapshots ls), ss_unpersisted_count (ls_snapshots ls)).

(** [proposal_components]: the empty overlay, the mempool and the snapshots. *)
Definition proposal_components ls : ChangeSet * TransactionPool * SnapshotStore ChangeSet :=
  (ChangeSet_new, ls_mempool ls, ls_snapshots ls).

(** [compute_root_from_store]. *)
Definition compute_root_from_store ls (parent : Digest) (changes : ChangeSet)
    : result B256 LedgerError :=
  let? sn := map_err LConsensus
               (ok_or (ss_get (ls_snapshots ls) parent) (SnapshotNotFound parent)) in
  Ok (root_transition (sn_state_root sn) changes).

(** [wait_for_snapshot]: the ledgers seen at the successive checks, each with
    the time that remains; [None] while more checks are to come. *)
Fixpoint wait_for_snapshot (checks : list (LedgerState H * u64)) (parent : Digest)
    : option (option LedgerSnapshot) :=
  match checks with
  | [] => None
  | (ls, remaining) :: checks' =>
      match parent_snapshot ls parent with
      | Some sn => Some (Some sn)
      | None => if remaining =? 0 then Some None else wait_for_snapshot checks' parent
      end
  end.

(** ** Updates *)

Definition submit_tx ls (now : u64) (tx : Tx) : LedgerState H * bool :=
  let '(p, inserted) := mempool_insert (ls_mempool ls) now tx in (with_mempool ls p, inserted).

Definition set_seed ls (d : Digest) (seed_hash : B256) : LedgerState H :=
  with_seeds ls (seeds_insert (ls_seeds ls) d seed_hash).

Definition insert_snapshot ls (d parent : Digest) (state : ChangeSet) (root : B256)
    (qmdb_changes : ChangeSet) (txs : list Tx) : LedgerState H :=
  with_head
    (with_snapshots ls
       (ss_insert (ls_snapshots ls) d
          (mkSnapshot (Some parent) state root qmdb_changes (tx_ids txs)))) d.

Definition cache_snapshot ls (d : Digest) (sn : LedgerSnapshot) : LedgerState H :=
  with_head (with_snapshots ls (ss_insert (ls_snapshots ls) d sn)) d.

Definition restore_persisted_snapshot ls (b : Block) : LedgerState H :=
  let d := commitment b in
  let sn := mkSnapshot (Some (parent_digest b)) ChangeSet_new (b_state_root b) ChangeSet_new
              (tx_ids (b_txs b)) in
  with_head (with_snapshots ls (mark_persisted (ss_insert (ls_snapshots ls) d sn) [d])) d.

Definition prune_mempool ls (txs : list Tx) : LedgerState H :=
  with_mempool ls (mempool_prune (ls_mempool ls) (tx_id <$> txs)).

(** [prune_stale_nonces]: the senders in the order the pool lists them. *)
Definition prune_sender_nonce (qmdb : H) (p : TransactionPool) (sender : Address)
    : TransactionPool :=
  match st_nonce qmdb sender with
  | Ok finalized_nonce =>
      if 0 <? finalized_nonce then pool_remove_confirmed p sender (finalized_nonce - 1) else p
  | Err _ => p
  end.

Definition prune_stale_nonces ls : LedgerState H :=
  with_mempool ls
    (foldl (prune_sender_nonce (ls_qmdb ls)) (ls_mempool ls) (senders (ls_mempool ls))).

(** ** Persistence *)

(** The first critical section of [persist_snapshot]: what to commit, or
    nothing.  The outer option is the fuel of the walk. *)
Definition persist_begin ls (d : Digest)
    : option (LedgerState H * result (option (ChangeSet * list Digest)) LedgerError) :=
  r ← changes_for_persist (ls_snapshots ls) d;
  Some
    match r with
    | Err e => (ls, Err (LConsensus e))
    | Ok (chain, changes) =>
        if bool_decide (chain = []) then (ls, Ok None)
        else if negb (can_persist_chain (ls_snapshots ls) chain) then (ls, Ok None)
        else (with_snapshots ls (mark_persisting_chain (ls_snapshots ls) chain),
              Ok (Some (changes, chain)))
    end.

(** The commit, outside the ledger's lock. *)
Definition persist_commit ls (changes : ChangeSet) : LedgerState H * result B256 QlError :=
  let '(q, r) := ldb_commit (ls_qmdb ls) changes in (with_qmdb ls q, r).

(** The loop that replaces the persisted snapshots by compact ones. *)
Fixpoint compact_chain (s : SnapshotStore ChangeSet) (chain : list Digest)
    : SnapshotStore ChangeSet * result unit ConsensusError :=
  match chain with
  | [] => (s, Ok tt)
  | d :: chain' =>
      match ss_get s d with
      | None => (s, Err (SnapshotNotFound d))
      | Some sn =>
          compact_chain
            (ss_insert s d (mkSnapshot (sn_parent sn) ChangeSet_new (sn_state_root sn)
                              ChangeSet_new (sn_tx_ids sn))) chain'
      end
  end.

(** The second critical section. *)
Definition persist_finish ls (chain : list Digest) (r : result B256 QlError)
    : LedgerState H * result bool LedgerError :=
  let s := clear_persisting_chain (ls_snapshots ls) chain in
  match r with
  | Err e => (with_snapshots ls s, Err (LQmdb e))
  | Ok _ =>
      match compact_chain s chain with
      | (s, Err e) => (with_snapshots ls s, Err (LConsensus e))
      | (s, Ok _) => (with_snapshots ls (evict_persisted (mark_persisted s chain)).1, Ok true)
      end
  end.

(** [persist_snapshot] run without interruption. *)
Definition persist_snapshot ls (d : Digest)
    : option (LedgerState H * result bool LedgerError) :=
  r ← persist_begin ls d;
  Some
    match r with
    | (ls, Err e) => (ls, Err e)
    | (ls, Ok None) => (ls, Ok false)
    | (ls, Ok (Some (changes, chain))) =>
        let '(ls, r) := persist_commit ls changes in persist_finish ls chain r
    end.

(** ** The service *)

Record LedgerService := mkService { lsv_view : LedgerState H; lsv_events : LedgerEvents }.

Definition service_new ls : LedgerService := mkService ls events_new.

Definition service_submit_tx (sv : LedgerService) (now : u64) (tx : Tx) : LedgerService * bool :=
  let '(ls, inserted) := submit_tx (lsv_view sv) now tx in
  (mkService ls (if inserted then events_publish (lsv_events sv) (TransactionSubmitted (tx_id tx))
                 else lsv_events sv), inserted).

Definition service_set_seed (sv : LedgerService) (d : Digest) (seed_hash : B256) : LedgerService :=
  mkService (set_seed (lsv_view sv) d seed_hash)
    (events_publish (lsv_events sv) (SeedUpdated d seed_hash)).

Definition service_persist_snapshot (sv : LedgerService) (d : Digest)
    : option (LedgerService * result unit LedgerError) :=
  r ← persist_snapshot (lsv_view sv) d;
  let '(ls, r) := r in
  Some
    match r with
    | Err e => (mkService ls (lsv_events sv), Err e)
    | Ok persisted =>
        (mkService ls (if persisted : bool then events_publish (lsv_events sv) (SnapshotPersisted d)
                       else lsv_events sv), Ok tt)
    end.

(** ** [LiveState]: every read goes to the latest overlay. *)

#[export] Instance live_state : StateDbRead (LedgerState H) := {|
  st_nonce := fun ls => st_nonce (overlay_of ls (latest_state ls));
  st_balance := fun ls => st_balance (overlay_of ls (latest_state ls));
  st_code_hash := fun ls => st_code_hash (overlay_of ls (latest_state ls));
  st_code := fun ls => st_code (overlay_of ls (latest_state ls));
  st_storage := fun ls => st_storage (overlay_of ls (latest_state ls));
|}.
End ledger.

(** ** Compaction *)

(** The compact snapshot that replaces a persisted one. *)
Definition compacted (sn : LedgerSnapshot) : LedgerSnapshot :=
  mkSnapshot (sn_parent sn) ChangeSet_new (sn_state_root sn) ChangeSet_new (sn_tx_ids sn).

Lemma compact_chain_spec s chain :
  NoDup chain -> (forall d, d ∈ chain -> is_Some (ss_snapshots s !! d)) ->
  exists s', compact_chain s chain = (s', Ok tt)
    /\ ss_persisted s' = ss_persisted s /\ ss_persisting s' = ss_persisting s
    /\ ss_order s' = ss_order s /\ ss_max_persisted_retained s' = ss_max_persisted_retained s
    /\ forall d, ss_snapshots s' !! d
        = (if decide (d ∈ chain) then compacted else id) <$> ss_snapshots s !! d.
Proof.
  revert s. induction chain as [|d chain IH]; intros s Hnd Hst; simpl.
  { exists s. split_and!; [done..|]. intros d. by rewrite option_fmap_id. }
  apply NoDup_cons in Hnd as [Hd Hnd]. destruct (Hst d ltac:(by left)) as [sn Hsn].
  unfold ss_get. rewrite Hsn.
  change (mkSnapshot _ _ _ _ _) with (compacted sn).
  destruct (IH (ss_insert s d (compacted sn)) Hnd) as (s' & -> & H1 & H2 & H3 & H4 & H5).
  { intros e He. simpl. rewrite lookup_insert_ne by (intros ->; done). apply Hst. by right. }
  exists s'. split_and!; [done..|]. intros e. rewrite H5. cbn [ss_insert ss_snapshots].
  destruct (decide (e = d)) as [->|Hne].
  - rewrite lookup_insert_eq, (decide_False (P := d ∈ chain)) by done.
    rewrite (decide_True (P := d ∈ d :: chain)) by (by left). by rewrite Hsn.
  - rewrite lookup_insert_ne by done.
    destruct (decide (e ∈ chain)), (decide (e ∈ d :: chain)); set_solver.
Qed.

(** The store after the second critical section. *)
Definition finished (s : SnapshotStore ChangeSet) (chain : list Digest) (r : result B256 QlError)
    (s' : SnapshotStore ChangeSet) : Prop :=
  ss_persisting s' = ∅
  /\ match r with
     | Err _ => ss_snapshots s' = ss_snapshots s /\ ss_persisted s' = ss_persisted s
     | Ok _ => ss_persisted s' = ss_persisted s ∪ list_to_set chain
         /\ (forall d, d ∉ ss_persisted s' -> ss_snapshots s' !! d = ss_snapshots s !! d)
         /\ (forall d sn, ss_snapshots s' !! d = Some sn ->
              exists sn0, ss_snapshots s !! d = Some sn0
                /\ sn = (if decide (d ∈ chain) then compacted else id) sn0)
     end.

(** What it does, and that it does not fail on its own. *)
Lemma persist_finish_spec {H} (ls : LedgerState H) chain r :
  NoDup chain -> (forall d, d ∈ chain -> is_Some (ss_snapshots (ls_snapshots ls) !! d)) ->
  ss_persisting (ls_snapshots ls) = list_to_set chain ->
  exists s', finished (ls_snapshots ls) chain r s'
    /\ persist_finish ls chain r
      = (with_snapshots ls s', match r with Ok _ => Ok true | Err e => Err (LQmdb e) end).
Proof.
  intros Hnd Hst Hpers. unfold persist_finish, finished.
  set (s := ls_snapshots ls) in *. set (s1 := clear_persisting_chain s chain).
  assert (ss_persisting s1 = ∅) as Hp1.
  { unfold s1. rewrite clear_persisting_set, Hpers. set_solver. }
  destruct r as [root|e]; [|by exists s1].
  destruct (compact_chain_spec s1 chain Hnd Hst) as (s2 & -> & H1 & H2 & _ & _ & H5).
  destruct (mark_persisted_fields s2 chain) as (M1 & M2 & _ & M4 & _).
  destruct (evict_persisted_keeps (mark_persisted s2 chain)) as (E1 & E2 & E3 & E4).
  eexists. split; [|done]. rewrite E1, E2, M2, M4, H1, H2. split_and!; [done|done| |].
  - intros d Hd. rewrite E3 by (by rewrite M4, H1). rewrite M1, H5.
    rewrite decide_False by set_solver. by rewrite option_fmap_id.
  - intros d sn Hs. apply E4 in Hs. rewrite M1, H5 in Hs. simpl in Hs.
    destruct (ss_snapshots s !! d) as [sn0|]; [|done]. injection Hs as <-. by exists sn0.
Qed.
