(* ===== verification/LedgerSteps.v ===== *)
(** The ledger under interleaving: executions that hold a parent's overlay,
    inserts of executed blocks and persistence in its three steps, as a step
    relation; its invariant; and the refinement of the abstract chain. *)
From S2P Require Import Prelude TxTypes StateDb Changes Layers Codec Block Snapshots QmdbLedger.
From S2P Require Import Chain Ledger.

(** ** The database the ledger needs *)

(** What can be read, when a change set may be committed, and that a commit
    lays it over what was there. *)
Class LedgerDbLaws (H : Type) `{!LedgerDb H} := {
  ldb_ok : H -> Prop;
  ldb_view : H -> ReadFns;
  ldb_accepts : H -> ChangeSet -> Prop;
  ldb_commit_view : forall h c h' root,
    ldb_ok h -> ldb_accepts h c -> ldb_commit h c = (h', Ok root) ->
    ldb_ok h' /\ ldb_view h' = layer (ldb_view h) c;
}.

(** What a database promises of a commit that fails: it can be read as before,
    or it is broken, and a broken one refuses every commit from then on. *)
Class LedgerDbFailures (H : Type) `{DB : !LedgerDb H} `{DL : !LedgerDbLaws H} := {
  ldb_broken : H -> Prop;
  ldb_commit_failed : forall h c h' e,
    ldb_ok h -> ldb_commit h c = (h', Err e) ->
    (ldb_ok h' /\ ldb_view h' = ldb_view h) \/ ldb_broken h';
  ldb_broken_stays : forall h c,
    ldb_broken h -> exists h' e, ldb_commit h c = (h', Err e) /\ ldb_broken h';
}.

(** ** The system *)

(** One call of [persist_snapshot] between its critical sections: the result of
    the commit once it is there. *)
Record Flight := mkFlight {
  fl_target : Digest;
  fl_chain : list Digest;
  fl_changes : ChangeSet;
  fl_result : option (result B256 QlError);
}.

(** The ledger, the overlays that executions hold with the block they are the
    state of, the persists under way, and the block whose state the database
    holds (a ghost). *)
Record System (H : Type) := mkSystem {
  sy_ledger : LedgerState H;
  sy_held : list (Digest * ChangeSet);
  sy_flights : list Flight;
  sy_tip : Digest;
}.
Arguments mkSystem {H}.
Arguments sy_ledger {H}.
Arguments sy_held {H}.
Arguments sy_flights {H}.
Arguments sy_tip {H}.

Section steps.
Context `{EXT : !External} `{CD : !Codec} `{SH : !Sha256}.
Context {H : Type} `{DB : !LedgerDb H} `{DL : !LedgerDbLaws H}.
Context (w : world).
Implicit Types (ls : LedgerState H) (sy : System H).

(** Persistence is asked along one line of blocks, in its order: of a block
    whose persist is done or under way, or of one above all that is on disk;
    and never of a block on a branch beside one being persisted. *)
Definition may_persist sy (d : Digest) : Prop :=
  (d ∈ ss_persisted (ls_snapshots (sy_ledger sy)) \/ d ∈ ss_persisting (ls_snapshots (sy_ledger sy))
   \/ ancestor w (sy_tip sy) d)
  /\ forall fl, fl ∈ sy_flights sy -> ancestor w (fl_target fl) d \/ ancestor w d (fl_target fl).

Inductive step : System H -> System H -> Prop :=
| step_fetch sy d sn :
    parent_snapshot (sy_ledger sy) d = Some sn ->
    step sy (mkSystem (sy_ledger sy) ((d, sn_state sn) :: sy_held sy) (sy_flights sy) (sy_tip sy))
| step_insert sy p c d root txs :
    (p, c) ∈ sy_held sy -> w_parent w d = Some p ->
    step sy (mkSystem
      (insert_snapshot (sy_ledger sy) d p (cs_merge c (w_changes w d)) root (w_changes w d) txs)
      (sy_held sy) (sy_flights sy) (sy_tip sy))
| step_begin sy d ls changes chain :
    may_persist sy d ->
    persist_begin (sy_ledger sy) d = Some (ls, Ok (Some (changes, chain))) ->
    step sy (mkSystem ls (sy_held sy) (sy_flights sy ++ [mkFlight d chain changes None]) (sy_tip sy))
| step_commit_ok sy fls fls' fl ls root :
    sy_flights sy = fls ++ fl :: fls' -> fl_result fl = None ->
    ldb_accepts (ls_qmdb (sy_ledger sy)) (fl_changes fl) ->
    persist_commit (sy_ledger sy) (fl_changes fl) = (ls, Ok root) ->
    step sy (mkSystem ls (sy_held sy)
      (fls ++ mkFlight (fl_target fl) (fl_chain fl) (fl_changes fl) (Some (Ok root)) :: fls')
      (fl_target fl))
| step_commit_err sy fls fls' fl ls e :
    sy_flights sy = fls ++ fl :: fls' -> fl_result fl = None ->
    persist_commit (sy_ledger sy) (fl_changes fl) = (ls, Err e) ->
    ldb_ok (ls_qmdb ls) -> ldb_view (ls_qmdb ls) = ldb_view (ls_qmdb (sy_ledger sy)) ->
    step sy (mkSystem ls (sy_held sy)
      (fls ++ mkFlight (fl_target fl) (fl_chain fl) (fl_changes fl) (Some (Err e)) :: fls')
      (sy_tip sy))
| step_finish sy fls fls' fl r ls res :
    sy_flights sy = fls ++ fl :: fls' -> fl_result fl = Some r ->
    persist_finish (sy_ledger sy) (fl_chain fl) r = (ls, res) ->
    step sy (mkSystem ls (sy_held sy) (fls ++ fls') (sy_tip sy))
| step_restore sy b :
    commitment b = sy_tip sy -> sy_flights sy = [] ->
    step sy (mkSystem (restore_persisted_snapshot (sy_ledger sy) b) (sy_held sy) (sy_flights sy)
               (sy_tip sy))
| step_other sy ls :
    ls_snapshots ls = ls_snapshots (sy_ledger sy) -> ls_qmdb ls = ls_qmdb (sy_ledger sy) ->
    step sy (mkSystem ls (sy_held sy) (sy_flights sy) (sy_tip sy)).

(** A new ledger over a database that holds the state of [tip]. *)
Definition initial sy : Prop :=
  exists g b, ledger_init (Ok (ls_qmdb (sy_ledger sy))) g = Ok (b, sy_ledger sy)
    /\ sy_held sy = [] /\ sy_flights sy = []
    /\ ldb_ok (ls_qmdb (sy_ledger sy))
    /\ ldb_view (ls_qmdb (sy_ledger sy)) = w_state w (sy_tip sy)
    /\ ancestor w (commitment b) (sy_tip sy).

Definition reachable sy : Prop := exists sy0, initial sy0 /\ rtc step sy0 sy.

(** ** The invariant *)

(** The overlay [c] of block [d] merges the changes from an ancestor of the tip
    up to [d]. *)
Definition covers (tip d : Digest) (c : ChangeSet) : Prop :=
  exists a l, path w a l d /\ ancestor w a tip /\ c = merge_all (w_changes w <$> l).

Record flight_ok (tip : Digest) (s : SnapshotStore ChangeSet) (fl : Flight) : Prop := {
  fo_path : exists p, p ∈ ss_persisted s /\ path w p (fl_chain fl) (fl_target fl);
  fo_nonempty : fl_chain fl <> [];
  fo_changes : fl_changes fl = merge_all (w_changes w <$> fl_chain fl);
  fo_stored : forall d, d ∈ fl_chain fl -> is_Some (ss_snapshots s !! d) /\ d ∉ ss_persisted s;
  fo_persisting : ss_persisting s = list_to_set (fl_chain fl);
  fo_tip : match fl_result fl with
           | Some (Ok _) => tip = fl_target fl
           | _ => ancestor w tip (fl_target fl)
           end;
}.

Record inv sy : Prop := {
  in_db : ldb_ok (ls_qmdb (sy_ledger sy));
  in_view : ldb_view (ls_qmdb (sy_ledger sy)) = w_state w (sy_tip sy);
  in_persisted : forall p, p ∈ ss_persisted (ls_snapshots (sy_ledger sy)) ->
    ancestor w p (sy_tip sy);
  in_stored : forall d sn, ss_snapshots (ls_snapshots (sy_ledger sy)) !! d = Some sn ->
    d ∉ ss_persisted (ls_snapshots (sy_ledger sy)) ->
    is_Some (w_parent w d) /\ sn_parent sn = w_parent w d /\ sn_changes sn = w_changes w d;
  in_covers : forall d sn, ss_snapshots (ls_snapshots (sy_ledger sy)) !! d = Some sn ->
    covers (sy_tip sy) d (sn_state sn);
  in_held : forall d c, (d, c) ∈ sy_held sy -> covers (sy_tip sy) d c;
  in_flights : match sy_flights sy with
               | [] => ss_persisting (ls_snapshots (sy_ledger sy)) = ∅
               | [fl] => flight_ok (sy_tip sy) (ls_snapshots (sy_ledger sy)) fl
               | _ => False
               end;
}.

(** ** Preservation *)

Context (W : world_ok w).
#[local] Set Default Proof Using "Type*".

Lemma covers_mono tip tip' d c : ancestor w tip tip' -> covers tip d c -> covers tip' d c.
Proof.
  intros Ht (a & l & Hl & Ha & ->). exists a, l. split_and!; [done| |done].
  by eapply ancestor_trans.
Qed.

Lemma covers_insert tip p d c :
  w_parent w d = Some p -> covers tip p c -> covers tip d (cs_merge c (w_changes w d)).
Proof.
  intros Hp (a & l & Hl & Ha & ->). exists a, (l ++ [d]). split_and!; [by econstructor|done|].
  rewrite fmap_app. symmetry. apply merge_all_snoc.
Qed.

Lemma covers_empty tip d : ancestor w d tip -> covers tip d ChangeSet_new.
Proof. intros Hd. exists d, []. split_and!; [constructor|done|done]. Qed.

(** A covering overlay reads as the block's state, wherever below the block the
    database is. *)
Lemma covers_reads sy d c :
  inv sy -> covers (sy_tip sy) d c -> ancestor w (sy_tip sy) d ->
  layer (ldb_view (ls_qmdb (sy_ledger sy))) c = w_state w d.
Proof.
  intros Hi (a & l & Hl & Ha & ->) Hd. rewrite (in_view _ Hi). by eapply path_merge.
Qed.

(** The walk of the store follows the chain down to a persisted block. *)
Lemma walks_path sy c d l :
  inv sy -> walks (ls_snapshots (sy_ledger sy)) c l None -> c = Some d ->
  exists p, p ∈ ss_persisted (ls_snapshots (sy_ledger sy)) /\ path w p (reverse l.*1) d
    /\ (fun x => sn_changes x.2) <$> l = w_changes w <$> l.*1.
Proof.
  intros Hi Hw. revert d. remember None as g eqn:Eg.
  induction Hw as [|e He|e He Hs|e sn l g He Hs Hw IH]; intros d Ed; try congruence.
  - injection Ed as ->. exists d. split_and!; [done|constructor|done].
  - injection Ed as ->. destruct (in_stored _ Hi d sn Hs He) as ([q Hq] & Hpar & Hch).
    rewrite Hpar, Hq in *. destruct (IH Eg q eq_refl) as (p & Hp & Hpath & Hcs).
    exists p. rewrite fmap_cons, reverse_cons, !fmap_cons, Hcs. simpl. rewrite Hch.
    split_and!; [done|by econstructor|done].
Qed.

(** The chain that [persist_begin] picks. *)
Lemma begin_walks (ls ls' : LedgerState H) d changes chain :
  persist_begin ls d = Some (ls', Ok (Some (changes, chain))) ->
  exists l, walks (ls_snapshots ls) (Some d) l None.
Proof.
  intros Hb. unfold persist_begin, changes_for_persist in Hb.
  destruct (walk _ _ _) as [rw|] eqn:Ew; [|done].
  destruct (walk_sound _ _ _ _ Ew) as (l & [g|] & Hw & ->); [|by exists l]. done.
Qed.

Lemma begin_chain sy d ls changes chain :
  inv sy -> persist_begin (sy_ledger sy) d = Some (ls, Ok (Some (changes, chain))) ->
  let s := ls_snapshots (sy_ledger sy) in
  ls = with_snapshots (sy_ledger sy) (mark_persisting_chain s chain)
  /\ chain <> [] /\ last chain = Some d
  /\ changes = merge_all (w_changes w <$> chain)
  /\ (exists p, p ∈ ss_persisted s /\ path w p chain d)
  /\ (forall e, e ∈ chain -> is_Some (ss_snapshots s !! e) /\ e ∉ ss_persisted s
        /\ e ∉ ss_persisting s).
Proof.
  intros Hi Hb. cbv zeta. unfold persist_begin in Hb.
  destruct (changes_for_persist _ d) as [r|] eqn:Ec; [|done]. simpl in Hb.
  assert (exists l g, walks (ls_snapshots (sy_ledger sy)) (Some d) l g
     /\ r = match g with
            | None => Ok (reverse l.*1, merge_all (reverse ((fun x => sn_changes x.2) <$> l)))
            | Some e => Err (SnapshotNotFound e) end) as (l & g & Hw & ->).
  { unfold changes_for_persist in Ec. destruct (walk _ _ _) as [rw|] eqn:Ew; [|done].
    destruct (walk_sound _ _ _ _ Ew) as (l & g & Hw & ->). exists l, g. split; [done|].
    simpl in Ec. by destruct g; simplify_eq/=. }
  destruct g as [g|]; [by simplify_eq|].
  destruct (bool_decide_reflect (reverse l.*1 = [])) as [|Hne]; [by simplify_eq|].
  destruct (can_persist_chain _ _) eqn:Ecp; simpl in Hb; [|by simplify_eq].
  injection Hb as <- <- <-. destruct (walks_path _ _ d _ Hi Hw eq_refl) as (p & Hp & Hpath & Hcs).
  split_and!; [done|done| | | by exists p |].
  - eapply walks_last; [done|]. intros ->. by apply Hne.
  - by rewrite Hcs, fmap_reverse.
  - intros e He. rewrite can_persist_spec in Ecp. destruct (Ecp e He). split_and!; [|done|done].
    rewrite elem_of_reverse in He. apply list_elem_of_fmap in He as ([e' sn] & -> & He).
    pose proof (walks_stored _ _ _ _ Hw) as Hf. rewrite Forall_forall in Hf.
    destruct (Hf _ He) as [Hs _]. by eexists.
Qed.

(** No second persist starts while one is under way. *)
Lemma one_flight sy d ls changes chain :
  inv sy -> may_persist sy d ->
  persist_begin (sy_ledger sy) d = Some (ls, Ok (Some (changes, chain))) -> sy_flights sy = [].
Proof.
  intros Hi [Hm Hcmp] Hb.
  destruct (begin_chain _ _ _ _ _ Hi Hb) as (_ & Hne & Hlast & _ & (p2 & Hp2 & Hpath2) & Hch).
  assert (d ∈ chain) as Hd by (apply last_Some in Hlast as [l ->]; set_solver).
  pose proof (in_flights _ Hi) as Hf. destruct (sy_flights sy) as [|fl [|]]; [done| |done].
  exfalso. destruct Hf as [(p1 & Hp1 & Hpath1) Hne1 _ Hst1 Hpers Htip].
  destruct (Hch d Hd) as (_ & Hdp & Hdg).
  destruct Hm as [?|[?|Htd]]; [done|done|].
  assert (ancestor w (sy_tip sy) (fl_target fl)) as Htt
    by (destruct (fl_result fl) as [[]|]; [rewrite Htip; by apply (ancestor_refl w W)|done|done]).
  assert (fl_target fl ∈ fl_chain fl) as Ht
    by (inversion Hpath1 as [|l p d' Hl Hp El]; subst; [congruence|set_solver]).
  destruct (Hcmp fl ltac:(by left)) as [Hc|Hc].
  - assert (fl_target fl ∈ chain) as Hin.
    { eapply (path_between w W); [exact Hpath2| |exact Hc|].
      - eapply (ancestor_trans w W); [by apply (in_persisted _ Hi)|done].
      - intros Heq. destruct (Hst1 _ Ht) as [_ Hx]. by rewrite Heq in Hx. }
    destruct (Hch _ Hin) as (_ & _ & Hx). apply Hx. rewrite Hpers. by apply elem_of_list_to_set.
  - apply Hdg. rewrite Hpers. apply elem_of_list_to_set.
    eapply (path_between w W); [exact Hpath1| |exact Hc|by intros ->].
    eapply (ancestor_trans w W); [by apply (in_persisted _ Hi)|done].
Qed.

Lemma path_NoDup a l d : path w a l d -> NoDup l.
Proof.
  induction 1 as [|l p d Hl IH Hp]; [constructor|]. apply NoDup_app. split_and!; [done| |apply NoDup_singleton].
  intros x Hx ->%list_elem_of_singleton. destruct (path_elem w W _ _ _ _ Hl Hx) as (_ & [m Hm] & _).
  destruct (path_rank w W _ _ _ Hm) as [Hr _]. pose proof (wo_rank w W _ _ Hp).
  destruct Hr as [[_ ->]|]; lia.
Qed.

Lemma finish_spec sy fl r :
  inv sy -> sy_flights sy = [fl] -> fl_result fl = Some r ->
  exists s', finished (ls_snapshots (sy_ledger sy)) (fl_chain fl) r s'
    /\ persist_finish (sy_ledger sy) (fl_chain fl) r
      = (with_snapshots (sy_ledger sy) s', match r with Ok _ => Ok true | Err e => Err (LQmdb e) end).
Proof.
  intros Hi Hfl Hr. pose proof (in_flights _ Hi) as Hf. rewrite Hfl in Hf.
  destruct Hf as [(p & Hp & Hpath) _ _ Hst Hpers _].
  apply persist_finish_spec; [by eapply path_NoDup|intros d Hd; apply (Hst d Hd)|done].
Qed.

Lemma flight_single sy fls fls' fl :
  inv sy -> sy_flights sy = fls ++ fl :: fls' -> fls = [] /\ fls' = [] /\ sy_flights sy = [fl].
Proof.
  intros Hi Hf. pose proof (in_flights _ Hi) as Hfl. rewrite Hf in Hfl |- *.
  destruct fls as [|x [|y fls]], fls' as [|z fls']; done.
Qed.

(** A flight stays good while snapshots are only added. *)
Lemma flight_ok_grow tip s s' fl :
  (forall d, is_Some (ss_snapshots s !! d) -> is_Some (ss_snapshots s' !! d)) ->
  ss_persisted s' = ss_persisted s -> ss_persisting s' = ss_persisting s ->
  flight_ok tip s fl -> flight_ok tip s' fl.
Proof.
  intros Hg Hp Hq [(p & Hpp & Hpath) Hne Hc Hst Hpe Ht].
  split; rewrite ?Hp, ?Hq; [by exists p|done|done| |done|done].
  intros d Hd. destruct (Hst d Hd). split; [by apply Hg|done].
Qed.

Lemma inv_insert sy p c d root txs :
  inv sy -> (p, c) ∈ sy_held sy -> w_parent w d = Some p ->
  inv (mkSystem
    (insert_snapshot (sy_ledger sy) d p (cs_merge c (w_changes w d)) root (w_changes w d) txs)
    (sy_held sy) (sy_flights sy) (sy_tip sy)).
Proof.
  intros Hi Hh Hp. pose proof Hi as [Hdb Hv Hpe Hst Hcv Hhe Hf]. split; simpl; [done..| | |done|].
  - intros e sn Hs He. destruct (decide (e = d)) as [->|Hne].
    + rewrite lookup_insert_eq in Hs. injection Hs as <-. simpl. rewrite Hp. by eexists.
    + rewrite lookup_insert_ne in Hs by done. by apply Hst.
  - intros e sn Hs. destruct (decide (e = d)) as [->|Hne].
    + rewrite lookup_insert_eq in Hs. injection Hs as <-. apply (covers_insert _ p); [done|by apply Hhe].
    + rewrite lookup_insert_ne in Hs by done. by eapply Hcv.
  - destruct (sy_flights sy) as [|fl [|]]; [done| |done].
    apply (flight_ok_grow _ (ls_snapshots (sy_ledger sy))); [|done..|exact Hf]. intros e He. simpl.
    destruct (decide (e = d)) as [->|]; [rewrite lookup_insert_eq; by eexists|].
    by rewrite lookup_insert_ne.
Qed.

Lemma inv_begin sy d ls changes chain :
  inv sy -> may_persist sy d ->
  persist_begin (sy_ledger sy) d = Some (ls, Ok (Some (changes, chain))) ->
  inv (mkSystem ls (sy_held sy) (sy_flights sy ++ [mkFlight d chain changes None]) (sy_tip sy)).
Proof.
  intros Hi Hm Hb. pose proof (one_flight _ _ _ _ _ Hi Hm Hb) as Hno.
  destruct (begin_chain _ _ _ _ _ Hi Hb) as (-> & Hne & Hlast & -> & (p & Hp & Hpath) & Hch).
  pose proof Hi as [Hdb Hv Hpe Hst Hcv Hhe Hf]. rewrite Hno in Hf |- *.
  split; cbn [sy_ledger sy_tip sy_held sy_flights app]; [done..|].
  split; cbn [fl_chain fl_target fl_changes fl_result].
  - by exists p.
  - done.
  - done.
  - intros e He. destruct (Hch e He) as (? & ? & _). by split.
  - change (ls_snapshots _) with (mark_persisting_chain (ls_snapshots (sy_ledger sy)) chain).
    rewrite mark_persisting_set, Hf. set_solver.
  - destruct Hm as [[Hx|[Hx|Hx]] _]; [| |done]; exfalso;
      destruct (Hch d ltac:(apply last_Some in Hlast as [l ->]; set_solver)) as (_ & ? & ?); done.
Qed.

(** The commit moves the tip to the target, whose state the database then
    has. *)
Lemma commit_view_target sy fl ls root :
  inv sy -> sy_flights sy = [fl] -> fl_result fl = None ->
  ldb_accepts (ls_qmdb (sy_ledger sy)) (fl_changes fl) ->
  persist_commit (sy_ledger sy) (fl_changes fl) = (ls, Ok root) ->
  ls_snapshots ls = ls_snapshots (sy_ledger sy) /\ ldb_ok (ls_qmdb ls)
  /\ ldb_view (ls_qmdb ls) = w_state w (fl_target fl) /\ ancestor w (sy_tip sy) (fl_target fl).
Proof.
  intros Hi Hf Hn Hacc Hc. pose proof (in_flights _ Hi) as Hfl. rewrite Hf in Hfl.
  destruct Hfl as [(p & Hp & Hpath) _ Hch _ _ Ht]. rewrite Hn in Ht.
  unfold persist_commit in Hc. destruct (ldb_commit _ _) as [q r] eqn:Eq. injection Hc as <- ->.
  destruct (ldb_commit_view _ _ _ _ (in_db _ Hi) Hacc Eq) as [Hok Hv].
  split_and!; [done|done| |done]. simpl. rewrite Hv, (in_view _ Hi), Hch.
  eapply (path_merge w W); [exact Hpath|by apply (in_persisted _ Hi)|done].
Qed.

Lemma inv_commit sy fl ls r tip :
  inv sy -> sy_flights sy = [fl] ->
  ls_snapshots ls = ls_snapshots (sy_ledger sy) -> ldb_ok (ls_qmdb ls) ->
  ldb_view (ls_qmdb ls) = w_state w tip -> ancestor w (sy_tip sy) tip ->
  match r with Ok _ => tip = fl_target fl | Err _ => ancestor w tip (fl_target fl) end ->
  inv (mkSystem ls (sy_held sy)
    [mkFlight (fl_target fl) (fl_chain fl) (fl_changes fl) (Some r)] tip).
Proof.
  intros Hi Hf Hs Hok Hv Hanc Hr. pose proof Hi as [_ _ Hpe Hst Hcv Hhe Hfl]. rewrite Hf in Hfl.
  split; simpl; rewrite ?Hs; [done|done| |done| | |].
  - intros p Hp. eapply (ancestor_trans w W); [by apply Hpe|done].
  - intros d sn Hd. eapply covers_mono; [done|by apply Hcv].
  - intros d c Hd. eapply covers_mono; [done|by apply Hhe].
  - destruct Hfl as [Hpath Hne Hc Hsto Hpers _]. split; simpl; try done.
Qed.

Lemma inv_finish sy fl r ls res :
  inv sy -> sy_flights sy = [fl] -> fl_result fl = Some r ->
  persist_finish (sy_ledger sy) (fl_chain fl) r = (ls, res) ->
  inv (mkSystem ls (sy_held sy) [] (sy_tip sy)).
Proof.
  intros Hi Hf Hr Hfin. destruct (finish_spec sy fl r Hi Hf Hr) as (s' & [Hnone Hs'] & Heq).
  rewrite Heq in Hfin. injection Hfin as <- _.
  pose proof Hi as [Hdb Hv Hpe Hst Hcv Hhe Hfl]. rewrite Hf in Hfl.
  destruct r as [root|e].
  2:{ destruct Hs' as [H1 H2]. split; simpl; rewrite ?H1, ?H2; done. }
  destruct Hs' as (Hp & Hkeep & Hsub). destruct Hfl as [(p0 & Hp0 & Hpath) _ _ _ _ Ht].
  rewrite Hr in Ht.
  assert (forall d, d ∈ fl_chain fl -> ancestor w d (sy_tip sy)) as Hchain.
  { intros d Hd. rewrite Ht. by apply (path_elem w W _ _ _ _ Hpath Hd). }
  split; simpl; [done|done| | | |done|done].
  - intros p. rewrite Hp, elem_of_union, elem_of_list_to_set. intros [?|?]; [by apply Hpe|by apply Hchain].
  - intros d sn Hs Hd. rewrite Hkeep in Hs by done. apply Hst; [done|]. rewrite Hp in Hd. set_solver.
  - intros d sn Hs. destruct (Hsub d sn Hs) as (sn0 & Hs0 & ->).
    destruct (decide (d ∈ fl_chain fl)) as [Hd|Hd]; [|by apply Hcv].
    apply covers_empty. by apply Hchain.
Qed.

Lemma inv_restore sy b :
  inv sy -> commitment b = sy_tip sy -> sy_flights sy = [] ->
  inv (mkSystem (restore_persisted_snapshot (sy_ledger sy) b) (sy_held sy) (sy_flights sy)
         (sy_tip sy)).
Proof.
  intros Hi Hb Hno. pose proof Hi as [Hdb Hv Hpe Hst Hcv Hhe Hf]. unfold restore_persisted_snapshot.
  rewrite Hno in Hf |- *. rewrite Hb. set (sn0 := mkSnapshot _ _ _ _ _).
  set (s := ls_snapshots (sy_ledger sy)) in *.
  destruct (mark_persisted_fields (ss_insert s (sy_tip sy) sn0) [sy_tip sy])
    as (M1 & M2 & _ & M4 & _).
  set (s' := mark_persisted _ _) in *. simpl in M1, M2, M4.
  split; cbn [sy_ledger sy_tip sy_held sy_flights with_head with_snapshots ls_snapshots ls_qmdb];
    [done|done| | | |done|by rewrite M2].
  - intros p. rewrite M4, elem_of_union, elem_of_union, elem_of_singleton.
    intros [?|[->|?]]; [by apply Hpe|apply (ancestor_refl w W)|set_solver].
  - intros d sn Hs Hd. rewrite M4 in Hd. rewrite M1, lookup_insert_ne in Hs by set_solver.
    apply Hst; [done|set_solver].
  - intros d sn Hs. rewrite M1 in Hs. destruct (decide (d = sy_tip sy)) as [->|Hne].
    + rewrite lookup_insert_eq in Hs. injection Hs as <-. apply covers_empty, (ancestor_refl w W).
    + rewrite lookup_insert_ne in Hs by done. by eapply Hcv.
Qed.

Lemma step_inv sy sy' : inv sy -> step sy sy' -> inv sy' /\ ancestor w (sy_tip sy) (sy_tip sy').
Proof.
  intros Hi Hs. pose proof (ancestor_refl w W (sy_tip sy)) as Hrefl.
  destruct Hs as [sy d sn Hsn|sy p c d root txs Hh Hp|sy d ls changes chain Hm Hb
    |sy fls fls' fl ls root Hf Hn Ha Hc|sy fls fls' fl ls e Hf Hn Hc Hok Hv
    |sy fls fls' fl r ls res Hf Hr Hfin|sy b Hb Hno|sy ls Hs Hq]; cbn [sy_tip].
  - split; [|done]. pose proof Hi as [Hdb Hv Hpe Hst Hcv Hhe Hf]. split; simpl; try done.
    intros e c [[= -> ->]|He]%elem_of_cons; [by apply Hcv|by apply Hhe].
  - split; [by apply inv_insert|done].
  - split; [by eapply inv_begin|done].
  - destruct (flight_single _ _ _ _ Hi Hf) as (-> & -> & Hf1).
    destruct (commit_view_target _ _ _ _ Hi Hf1 Hn Ha Hc) as (? & ? & ? & ?).
    split; [by apply (inv_commit sy fl ls (Ok root))|done].
  - destruct (flight_single _ _ _ _ Hi Hf) as (-> & -> & Hf1). split; [|done].
    pose proof (in_flights _ Hi) as Hfl. rewrite Hf1 in Hfl. pose proof (fo_tip _ _ _ Hfl) as Ht.
    rewrite Hn in Ht. apply (inv_commit sy fl ls (Err e)); try done.
    + unfold persist_commit in Hc. destruct (ldb_commit _ _). by injection Hc as <- _.
    + by rewrite Hv, (in_view _ Hi).
  - destruct (flight_single _ _ _ _ Hi Hf) as (-> & -> & Hf1).
    split; [by apply (inv_finish sy fl r ls res)|done].
  - split; [by apply inv_restore|done].
  - split; [|done]. pose proof Hi as [Hdb Hv Hpe Hst Hcv Hhe Hf].
    split; simpl; rewrite ?Hs, ?Hq; done.
Qed.

Lemma initial_inv sy : initial sy -> inv sy.
Proof.
  destruct sy as [ls held fls tip]. intros (g & b & Hinit & Hh & Hf & Hok & Hv & Hanc).
  cbn [sy_ledger sy_held sy_flights sy_tip] in *. subst held fls. unfold ledger_init in Hinit.
  cbn [map_err] in Hinit. destruct (ldb_root (ls_qmdb ls)) as [root|]; [|done].
  cbn -[mark_persisted ss_insert commitment genesis_block] in Hinit.
  injection Hinit as <- Hl. remember (ls_qmdb ls) as q eqn:Eq. clear Eq. subst ls.
  set (gd := commitment _) in *. set (sn0 := mkSnapshot _ _ _ _ _).
  destruct (mark_persisted_fields (ss_insert ss_new gd sn0) [gd]) as (M1 & M2 & _ & M4 & _).
  set (s := mark_persisted _ _) in *. simpl in M1, M2, M4.
  split; cbn [sy_ledger sy_held sy_flights sy_tip ls_snapshots ls_qmdb] in *;
    [done|done| | | |set_solver|done].
  - intros p. rewrite M4. intros Hp. assert (p = gd) as -> by set_solver. done.
  - intros d sn. rewrite M1, M4. intros [<- _]%lookup_singleton_Some []. set_solver.
  - intros d sn. rewrite M1. intros [<- <-]%lookup_singleton_Some. by apply covers_empty.
Qed.

Lemma reachable_inv sy : reachable sy -> inv sy.
Proof.
  intros (sy0 & Hi & Hs). apply initial_inv in Hi.
  induction Hs as [|x y z Hxy _ IH]; [done|]. apply IH. by eapply step_inv.
Qed.

(** The store of a reachable ledger is ranked, so its walks end. *)
Lemma inv_ranked sy : inv sy -> ranked (w_rank w) (ls_snapshots (sy_ledger sy)).
Proof.
  intros Hi d sn p Hd Hs Hp. destruct (in_stored _ Hi d sn Hs Hd) as (_ & Hpar & _).
  apply (wo_rank w W). congruence.
Qed.

(** An uninterrupted persist, on every path. *)
Lemma persist_outcome sy d :
  inv sy -> sy_flights sy = [] ->
  exists ls' res, persist_snapshot (sy_ledger sy) d = Some (ls', res)
  /\ let s := ls_snapshots (sy_ledger sy) in
     let s' := ls_snapshots ls' in
     match res with
     | Ok true => d ∉ ss_persisted s
         /\ exists p chain root, p ∈ ss_persisted s /\ path w p chain d
            /\ ldb_commit (ls_qmdb (sy_ledger sy)) (merge_all (w_changes w <$> chain))
               = (ls_qmdb ls', Ok root)
            /\ finished s chain (Ok root) s'
     | Ok false => d ∈ ss_persisted s /\ ls' = sy_ledger sy
     | Err (LConsensus e) => exists g, e = SnapshotNotFound g /\ rtc (steps_back s) d g
         /\ g ∉ ss_persisted s /\ ss_snapshots s !! g = None /\ ls' = sy_ledger sy
     | Err (LQmdb e) => ss_snapshots s' = ss_snapshots s /\ ss_persisted s' = ss_persisted s
         /\ ss_persisting s' = ss_persisting s
         /\ exists c, ldb_commit (ls_qmdb (sy_ledger sy)) c = (ls_qmdb ls', Err e)
     | Err (LStateDb _) => False
     end.
Proof.
  intros Hi Hno. pose proof (in_flights _ Hi) as Hf.
  rewrite Hno in Hf. set (s := ls_snapshots (sy_ledger sy)) in *.
  destruct (walks_exists _ s (Some d) (inv_ranked sy Hi)) as (l & g & Hw).
  unfold persist_snapshot, persist_begin. fold s. rewrite (changes_for_persist_walks s d l g Hw). simpl.
  destruct g as [g|].
  { eexists _, _. split; [done|]. exists g. destruct (walks_gap_reached _ _ _ _ Hw) as (? & ? & ?). done. }
  destruct (decide (d ∈ ss_persisted s)) as [Hd|Hd].
  { inversion Hw; [|done]. subst l. by eexists _, _. }
  assert (reverse l.*1 <> []) as Hne.
  { intros Hx. apply (f_equal length) in Hx. rewrite length_reverse, length_fmap in Hx.
    destruct l; [by inversion Hw|done]. }
  rewrite bool_decide_eq_false_2 by done.
  destruct (walks_path _ _ d _ Hi Hw eq_refl) as (p & Hp & Hpath & Hcs).
  assert (forall e, e ∈ reverse l.*1 -> is_Some (ss_snapshots s !! e) /\ e ∉ ss_persisted s) as Hst.
  { intros e He. rewrite elem_of_reverse in He. apply list_elem_of_fmap in He as ([e' sn] & -> & He).
    pose proof (walks_stored _ _ _ _ Hw) as Hall. rewrite Forall_forall in Hall.
    destruct (Hall _ He) as [Hs ?]. split; [by eexists|done]. }
  assert (can_persist_chain s (reverse l.*1) = true) as ->.
  { apply can_persist_spec. intros e He. split; [by apply Hst|]. rewrite Hf. set_solver. }
  simpl. unfold persist_commit. rewrite Hcs, <- (fmap_reverse (w_changes w)).
  cbn [ls_qmdb with_snapshots]. destruct (ldb_commit _ _) as [q rc] eqn:Ec.
  set (ls2 := with_qmdb _ q).
  destruct (persist_finish_spec ls2 (reverse l.*1) rc) as (s' & Hfin & ->).
  { by eapply path_NoDup. }
  { intros e He. by apply Hst. }
  { unfold ls2. cbn [ls_snapshots with_qmdb with_snapshots]. rewrite mark_persisting_set, Hf. set_solver. }
  eexists _, _. split; [done|]. destruct rc as [root|e].
  - split; [done|]. exists p, (reverse l.*1), root. split_and!; [done|done|done|]. exact Hfin.
  - destruct Hfin as (Hpn & Hs1 & Hs2). simpl. rewrite Hpn, Hf. split_and!; [done|done|done|]. by eexists.
Qed.
(** ** Properties *)


(** C13: an uninterrupted persist returns, on every path with what it means.
    [Ok true]: the chain from the last persisted block up to the requested one
    was committed, exactly it became persisted, and the other snapshots are as
    they were.  [Ok false]: the block was persisted already and nothing
    changed.  A missing snapshot is reported when one is reached from the block,
    and nothing changed.  A failed commit is reported with its error and leaves
    every snapshot and mark as it was, so that it can be tried again. *)
Theorem persist_snapshot_outcome sy d :
  reachable sy -> sy_flights sy = [] ->
  exists ls' res, persist_snapshot (sy_ledger sy) d = Some (ls', res)
  /\ let s := ls_snapshots (sy_ledger sy) in
     let s' := ls_snapshots ls' in
     match res with
     | Ok true => d ∉ ss_persisted s
         /\ exists p chain root, p ∈ ss_persisted s /\ path w p chain d
            /\ ldb_commit (ls_qmdb (sy_ledger sy)) (merge_all (w_changes w <$> chain))
               = (ls_qmdb ls', Ok root)
            /\ finished s chain (Ok root) s'
     | Ok false => d ∈ ss_persisted s /\ ls' = sy_ledger sy
     | Err (LConsensus e) => exists g, e = SnapshotNotFound g /\ rtc (steps_back s) d g
         /\ g ∉ ss_persisted s /\ ss_snapshots s !! g = None /\ ls' = sy_ledger sy
     | Err (LQmdb e) => ss_snapshots s' = ss_snapshots s /\ ss_persisted s' = ss_persisted s
         /\ ss_persisting s' = ss_persisting s
         /\ exists c, ldb_commit (ls_qmdb (sy_ledger sy)) c = (ls_qmdb ls', Err e)
     | Err (LStateDb _) => False
     end.
Proof. intros Hr. by apply persist_outcome, reachable_inv. Qed.
End steps.
