(* ===== verification/LedgerQmdb.v ===== *)
(** The QMDB ledger as the database of the node's ledger: it satisfies the
    interface the step relation is stated against, apart from the account and
    the code hash that hold the commit sequence markers. *)
From S2P Require Import Prelude Bytes TxTypes SenderQueue Pool StateDb Changes Encoding QmdbStore.
From S2P Require Import QmdbState StateRoot Restart Backend Layers QmdbLedger Codec Block Snapshots Chain Ledger LedgerSteps.

(** Answers with the marker account and the marker code hidden. *)
Definition visible (r : ReadFns) : ReadFns :=
  let hide {T} (f : Address -> result T StateDbError) (a : Address) :=
    if decide (a = COMMIT_SEQ_ACCOUNT_KEY) then Err (AccountNotFound a) else f a in
  mkReadFns (hide (rf_nonce r)) (hide (rf_balance r)) (hide (rf_code_hash r))
    (fun h => if decide (h = COMMIT_SEQ_CODE_KEY) then Err (CodeNotFound h) else rf_code r h)
    (fun a k => hide (fun a => rf_storage r a k) a).

Section qmdb.
Context `{EXT : !External} `{ED : !ErrorDisplay}.
Context {DA DS DC R : Type} `{CA : !CwDb DA Address bytes} `{CS : !CwDb DS StorageKey U256}
        `{CC : !CwDb DC B256 bytes} `{RP : !RootProvider R}.

Notation QL := (QmdbLedger (DA := DA) (DS := DS) (DC := DC) (R := R)).

#[export] Instance qmdb_ledger_db : LedgerDb QL := {|
  ldb_read := handle_read;
  ldb_commit := ql_commit_changes;
  ldb_root := ql_root;
|}.

Context `{LA : !CwLaws DA Address bytes} `{LS : !CwLaws DS StorageKey U256}
        `{LC : !CwLaws DC B256 bytes}.
#[local] Set Default Proof Using "Type*".

(** A store with a view that commits keep. *)
Definition qmdb_ok (v : view) (l : QL) : Prop :=
  store_view (h_store l) v /\ view_ok v /\ gens_ok v /\ in_width 64 (q_commit_seq (h_store l)).

Definition qmdb_accepts (v : view) (c : ChangeSet) : Prop :=
  accounts c = ∅ \/ committable v c /\ find_code c COMMIT_SEQ_CODE_KEY = None.

Lemma layer_no_accounts r c : accounts c = ∅ -> layer r c = r.
Proof. destruct c as [m]. simpl. intros ->. apply layer_empty. Qed.

(** The answers of the handle, when its store has a view. *)
Lemma reads_of_view (l : QL) v :
  store_view (h_store l) v ->
  reads_of l = mkReadFns (view_field (fun '(n, _, _, _) => n) v) (view_field (fun '(_, b, _, _) => b) v)
                 (view_field (fun '(_, _, h, _) => h) v) (view_code v) (view_storage v).
Proof.
  intros Hv. apply read_fns_eq; intros; simpl;
    [by apply handle_field_view..|by apply handle_code_view|by apply handle_storage_view].
Qed.

Lemma committed_view (l l' : QL) v c root :
  qmdb_ok v l -> qmdb_accepts v c -> ql_commit_changes l c = (l', Ok root) ->
  (exists v', qmdb_ok v' l') /\ visible (reads_of l') = layer (visible (reads_of l)) c.
Proof.
  intros (Hs & Hv & Hg & Hq) Hacc Hc. unfold ql_commit_changes in Hc.
  destruct (commit_changes (h_store l) c) as [s' [[]|e]] eqn:Ec; [|done].
  injection Hc as <- _. destruct Hacc as [Hem|[[Hcm Hal] Hfc]].
  { unfold commit_changes, cs_is_empty in Ec. rewrite bool_decide_eq_true_2 in Ec by done.
    injection Ec as <-. rewrite layer_no_accounts by done. split; [|by destruct l].
    exists v. by split_and!. }
  destruct (commit_changes_view _ _ v c Hs Hv (cm_ok _ _ Hcm) Hq (cm_nonempty _ _ Hcm) Ec) as [Hs' Hq'].
  set (v' := commit_view _ v c) in *.
  split.
  { exists v'. split_and!; [done|by apply commit_view_ok|by apply commit_view_gens|].
    simpl. rewrite Hq'. unfold saturating_add, in_width, u64_max in *. lia. }
  rewrite (reads_of_view (set_store l s') v' Hs'), (reads_of_view l v Hs).
  pose proof (cm_marker _ _ Hcm) as Hmk.
  apply read_fns_eq.
  1-3: intros a; simpl; destruct (decide (a = COMMIT_SEQ_ACCOUNT_KEY)) as [->|Ha]; [by rewrite Hmk|];
    unfold v'; first [rewrite (commit_view_field _ au_nonce) by done
      |rewrite (commit_view_field _ au_balance) by done
      |rewrite (commit_view_field _ au_code_hash) by done];
    destruct (accounts c !! a) as [u|] eqn:Eu; [|done]; by rewrite (Hal a u Eu).
  - intros h. simpl. destruct (decide (h = COMMIT_SEQ_CODE_KEY)) as [->|Hh]; [by rewrite Hfc|].
    unfold v'. apply commit_view_code; [done| |done]. intros a u Hu Hsd. by rewrite (Hal a u Hu) in Hsd.
  - intros a k. simpl. unfold overlay_storage. simpl.
    destruct (decide (a = COMMIT_SEQ_ACCOUNT_KEY)) as [->|Ha]; [by rewrite Hmk|].
    unfold v'. rewrite commit_view_storage by done. by destruct (accounts c !! a).
Qed.

#[export] Instance qmdb_ledger_laws : LedgerDbLaws QL.
Proof.
  refine {|
    ldb_ok := fun l => exists v, qmdb_ok v l;
    ldb_view := fun l => visible (reads_of l);
    ldb_accepts := fun l c => exists v, qmdb_ok v l /\ qmdb_accepts v c;
  |}.
  intros l c l' root _ (v & Hok & Hacc) Hc. by eapply committed_view.
Defined.
(** *** Failed commits *)

(** A failed write has emptied the slot of some partition. *)
Definition stores_broken (st : CommonwareBackend (DA := DA) (DS := DS) (DC := DC)) : Prop :=
  ps_inner (s_accounts st) = None \/ ps_inner (s_storage st) = None \/ ps_inner (s_code st) = None.

Definition qmdb_broken (l : QL) : Prop :=
  exists st, q_stores (h_store l) = Some st /\ stores_broken st.

Lemma write_slot {D K V} `{!EqDecision K} `{CW : !CwDb D K V} `{!CwLaws D K V} (p p' : PartitionStore D) (ops : list (K * option V)) r :
  p_write_batch p ops = (p', r) ->
  if is_ok r then is_Some (ps_inner p) /\ is_Some (ps_inner p') else ps_inner p' = None.
Proof using Type.
  simpl. destruct (part_write_batch p ops) as [p1 r1] eqn:Ew. intros [= -> <-].
  pose proof (part_write_cases _ _ _ _ Ew) as Hc. destruct (ps_inner p) as [d|]; [|naive_solver].
  destruct (cw_merkleize d ops) as [m|e]; [|naive_solver].
  destruct (cw_apply d m) as [d' [[]|e]]; [|naive_solver].
  destruct (cw_commit d') as [d'' [[]|e]]; naive_solver.
Qed.

(** Batches are applied with every partition in place before and after, or leave
    the store broken. *)
Lemma apply_broken (s s' : QmdbStore (AccountStore DA) (StorageStore DS) (CodeStore DC)) st b r :
  q_stores s = Some st -> apply_batches s b = (s', r) ->
  exists st', q_stores s' = Some st'
    /\ if is_ok r then ~ stores_broken st /\ ~ stores_broken st' else stores_broken st'.
Proof.
  intros Hst Hap. unfold apply_batches in Hap. rewrite Hst in Hap. unfold stores_broken.
  destruct (p_write_batch (s_accounts st) _) as [a' [[]|e]] eqn:Ea; apply write_slot in Ea; simpl in Ea.
  2:{ injection Hap as <- <-. eexists. split; [done|]. by left. }
  destruct (p_write_batch (s_storage st) _) as [t' [[]|e]] eqn:Es; apply write_slot in Es; simpl in Es.
  2:{ injection Hap as <- <-. eexists. split; [done|]. by right; left. }
  destruct (p_write_batch (s_code st) _) as [c' [[]|e]] eqn:Ec; apply write_slot in Ec; simpl in Ec.
  2:{ injection Hap as <- <-. eexists. split; [done|]. by right; right. }
  injection Hap as <- <-. eexists. split; [done|]. simpl.
  destruct Ea as [[? ->] [? ->]], Es as [[? ->] [? ->]], Ec as [[? ->] [? ->]]. naive_solver.
Qed.

(** The root of the three partitions can be taken when none is missing. *)
Lemma roots_broken (st : CommonwareBackend (DA := DA) (DS := DS) (DC := DC)) :
  let roots : result B256 QlError :=
    let? a := map_err QlBackend (part_root (K := Address) (V := bytes) (s_accounts st)) in
    let? s := map_err QlBackend (part_root (K := StorageKey) (V := U256) (s_storage st)) in
    let? c := map_err QlBackend (part_root (K := B256) (V := bytes) (s_code st)) in
    Ok (root_compute a s c) in
  is_ok roots = false <-> stores_broken st.
Proof using Type.
  unfold part_root, slot_get, stores_broken.
  destruct (ps_inner (s_accounts st)), (ps_inner (s_storage st)), (ps_inner (s_code st)); naive_solver.
Qed.

Lemma view_whole st v : has_view st v -> ~ stores_broken st.
Proof using Type.
  intros [Ha Hs Hc] [H|[H|H]].
  - specialize (Ha 0). simpl in Ha. unfold part_get in Ha. rewrite H in Ha. simpl in Ha.
    destruct (v_acct v 0); naive_solver.
  - specialize (Hs (mkStorageKey 0 0 0)). simpl in Hs. unfold part_get in Hs. by rewrite H in Hs.
  - specialize (Hc 0). simpl in Hc. unfold part_get in Hc. by rewrite H in Hc.
Qed.

(** A commit that fails on a store that can be read breaks it; a broken store
    fails every commit, an empty one at the roots, and stays broken. *)
#[export] Instance qmdb_ledger_failures : LedgerDbFailures QL.
Proof.
  refine {| ldb_broken := qmdb_broken |}.
  - intros l c l' e (v & (st & Hst & Hv) & _) Hc. right. simpl in Hc. unfold ql_commit_changes in Hc.
    destruct (decide (accounts c = ∅)) as [Hem|Hne].
    { unfold commit_changes, cs_is_empty in Hc. rewrite bool_decide_eq_true_2 in Hc by done.
      injection Hc as <- Hr. unfold stores in Hr. rewrite Hst in Hr. simpl in Hr.
      exists st. split; [done|]. apply roots_broken. cbv zeta. by rewrite Hr. }
    rewrite (commit_batches _ _ _ _ Hst Hv Hne) in Hc.
    destruct (apply_batches _ _) as [s' r] eqn:Ea. injection Hc as <- Hr.
    destruct (apply_broken _ _ _ _ _ Hst Ea) as (st' & Hst' & Hb). exists st'. split; [done|].
    destruct r as [[]|e']; [|done]. destruct Hb as [_ Hb]. unfold stores in Hr. rewrite Hst' in Hr.
    simpl in Hr. apply roots_broken. cbv zeta. by rewrite Hr.
  - intros l c (st & Hst & Hb). simpl. unfold ql_commit_changes, commit_changes.
    assert (exists s' r, (if cs_is_empty c then (h_store l, Ok tt)
        else match build_batches (h_store l) c with
             | Err e => (h_store l, Err e)
             | Ok batches => apply_batches (h_store l) batches
             end) = (s', r)
      /\ exists st', q_stores s' = Some st' /\ stores_broken st') as (s' & r & -> & st' & Hst' & Hb').
    { destruct (cs_is_empty c); [by eexists _, _; split; [|by exists st]|].
      destruct (build_batches _ _) as [b|e]; [|by eexists _, _; split; [|by exists st]].
      destruct (apply_batches _ _) as [s' r] eqn:Ea. eexists _, _. split; [done|].
      destruct (apply_broken _ _ _ _ _ Hst Ea) as (st' & Hst' & H). exists st'. split; [done|].
      by destruct r as [[]|]; [destruct H|]. }
    assert (forall x : result B256 QlError, is_ok x = false -> exists e, x = Err e) as Herr
      by (intros [?|e]; [done|by exists e]).
    destruct (Herr (let? _ := map_err (fun e => QlStateDb (Storage (qmdb_error_string e))) r in
      let? st := map_err (fun e => QlStateDb (Storage (qmdb_error_string e))) (stores s') in
      let? a := map_err QlBackend (part_root (K := Address) (V := bytes) (s_accounts st)) in
      let? s := map_err QlBackend (part_root (K := StorageKey) (V := U256) (s_storage st)) in
      let? c := map_err QlBackend (part_root (K := B256) (V := bytes) (s_code st)) in
      Ok (root_compute a s c))) as (e & He).
    { destruct r; [|done]. simpl. unfold stores. rewrite Hst'. simpl. by apply roots_broken. }
    exists (set_store l s'), e. rewrite He. split; [done|by exists st'].
Defined.
End qmdb.

(** ** A run of the ledger *)

#[local] Instance run_ext : External := simple_ext (fun _ => 0).
#[local] Instance run_codec : Codec := simple_codec (fun _ => 0).
#[local] Instance run_sha : Sha256 := {| sha256 := fun _ => 0 |}.
#[local] Instance run_display : ErrorDisplay := {|
  qmdb_error_string := fun _ => "qmdb"; handle_error_string := fun _ => "handle";
|}.
#[local] Instance run_provider : RootProvider unit := {|
  rp_state_root := fun _ => Ok 0;
  rp_compute_root := fun p _ => (p, Ok 0);
  rp_commit_and_get_root := fun p => (p, Ok 0);
|}.

(** Block 1 on the genesis block 0, with the changes of [demo_commit]. *)
Definition run_world : world := {|
  w_parent := fun d => if d =? 1 then Some 0 else None;
  w_rank := id;
  w_changes := fun _ => demo_commit;
  w_state := fun d => if d =? 1 then layer (visible (reads_of mem_ledger)) demo_commit
                      else visible (reads_of mem_ledger);
  w_code := fun _ => [];
|}.

Lemma demo_update_only a u :
  accounts demo_commit !! a = Some u -> u = demo_update true false None {[1 := 99; 2 := 0]}.
Proof. unfold demo_commit, demo_changes. cbn [accounts]. by intros [_ <-]%lookup_singleton_Some. Qed.

Lemma run_mergeable : mergeable (fun _ => []) ChangeSet_new demo_commit.
Proof.
  split.
  - intros a u v Hu. discriminate Hu.
  - intros a u x Hu. discriminate Hu.
  - intros a u x Hu Hx. apply demo_update_only in Hu as ->. discriminate Hx.
  - intros a u v Hu. discriminate Hu.
Qed.

Lemma run_path a l d : path run_world a l d -> l = [] \/ l = [1].
Proof.
  induction 1 as [|l p d Hl IH Hp]; [by left|]. simpl in Hp.
  destruct (Z.eqb_spec d 1) as [->|]; [|done]. injection Hp as <-.
  destruct IH as [->| ->]; [by right|]. inversion Hl as [|l' p d Hl' Hp' El Ed]. simpl in Hp'. done.
Qed.

Lemma run_world_ok : world_ok run_world.
Proof.
  split.
  - intros d p. simpl. destruct (Z.eqb_spec d 1) as [->|]; [|done]. intros [= <-]. unfold id. lia.
  - intros d p. simpl. destruct (Z.eqb_spec d 1) as [->|]; [|done]. by intros [= <-].
  - intros a l d Hl. destruct (run_path _ _ _ Hl) as [->| ->]; [done|].
    split; [apply run_mergeable|done].
Qed.

Notation RunLedger := (QmdbLedger (DA := gmap Address bytes) (DS := gmap StorageKey U256)
    (DC := gmap B256 bytes) (R := unit)).

Lemma run_qmdb_ok : qmdb_ok empty_view mem_ledger.
Proof.
  split_and!; [apply sound_store_view, mem_ledger_view|exact empty_view_ok|exact empty_gens_ok|].
  exact demo_seq_ok.
Qed.

Lemma run_accepts : ldb_accepts mem_ledger demo_commit.
Proof.
  exists empty_view. split; [exact run_qmdb_ok|]. right. split; [exact demo_committable|].
  vm_compute. reflexivity.
Qed.

Definition run_start : LedgerState RunLedger :=
  mkLedger (pool_new PoolConfig_default)
    (mark_persisted (ss_insert ss_new 0 (mkSnapshot None ChangeSet_new 0 ChangeSet_new ∅)) [0])
    0 (seeds_new 0) mem_ledger.

Lemma run_initial : initial run_world (mkSystem run_start [] [] 0).
Proof.
  exists 0, (genesis_block 0 0). split_and!; [vm_compute; reflexivity|done|done| |done|].
  - exists empty_view. exact run_qmdb_ok.
  - exists []. constructor.
Qed.

(** Execute block 1 on the genesis state, insert it and persist it. *)
Definition run_inserted : LedgerState RunLedger :=
  insert_snapshot run_start 1 0 (cs_merge ChangeSet_new demo_commit) 7 demo_commit [].

Lemma run_begins : exists ls,
  persist_begin run_inserted 1 = Some (ls, Ok (Some (demo_commit, [1]))) /\ ls_qmdb ls = mem_ledger.
Proof. eexists. split; [vm_compute; reflexivity|reflexivity]. Qed.

Lemma run_commits :
  is_ok (ql_commit_changes (R := unit) mem_ledger demo_commit).2 = true.
Proof. vm_compute. reflexivity. Qed.

Lemma run_reaches : exists sy : System RunLedger, reachable run_world sy /\ sy_tip sy = 1
  /\ is_snapshot_persisted (sy_ledger sy) 1 = true.
Proof.
  destruct run_begins as (ls3 & Hb & Hq).
  assert (exists ls4 root, persist_commit ls3 demo_commit = (ls4, Ok root)) as (ls4 & root & Hc).
  { unfold persist_commit. rewrite Hq. pose proof run_commits as H.
    change (ldb_commit mem_ledger demo_commit)
      with (ql_commit_changes (R := unit) mem_ledger demo_commit).
    destruct (ql_commit_changes mem_ledger demo_commit) as [q [root|e]]; [|discriminate H].
    by exists (with_qmdb ls3 q), root. }
  set (fl := mkFlight 1 [1] demo_commit (Some (Ok root))).
  set (sy4 := mkSystem ls4 [(0, ChangeSet_new)] [fl] 1).
  assert (reachable run_world sy4) as H4.
  { exists (mkSystem run_start [] [] 0). split; [exact run_initial|].
    eapply rtc_l; [apply (step_fetch run_world _ 0
      (mkSnapshot None ChangeSet_new 0 ChangeSet_new ∅)); vm_compute; reflexivity|].
    eapply rtc_l; [apply (step_insert run_world _ 0 ChangeSet_new 1 7 []); [by left|done]|].
    eapply rtc_l; [apply (step_begin run_world _ 1 ls3 demo_commit [1]); [|exact Hb]|].
    { split; [|set_solver]. right; right. apply (ancestor_parent run_world run_world_ok). done. }
    eapply rtc_l; [eapply (step_commit_ok run_world _ [] [] (mkFlight 1 [1] demo_commit None) ls4 root);
      [done|done| |exact Hc]|apply rtc_refl].
    cbn [sy_ledger fl_changes]. rewrite Hq. exact run_accepts. }
  pose proof (reachable_inv run_world run_world_ok sy4 H4) as Hi.
  destruct (finish_spec run_world run_world_ok sy4 fl (Ok root) Hi eq_refl eq_refl)
    as (s' & [_ [Hp _]] & Hf).
  exists (mkSystem (with_snapshots ls4 s') [(0, ChangeSet_new)] [] 1). split_and!; [|done|].
  - destruct H4 as (sy0 & Hi0 & Hs0). exists sy0. split; [done|]. eapply rtc_r; [exact Hs0|].
    exact (step_finish run_world sy4 [] [] fl (Ok root) _ _ eq_refl eq_refl Hf).
  - apply bool_decide_eq_true_2. cbn [sy_ledger ls_snapshots with_snapshots]. rewrite Hp. set_solver.
Qed.


(** A persist of the genesis block, which is persisted from the start. *)
Lemma persist_snapshot_outcome_witness :
  exists ls' res, persist_snapshot run_start 0 = Some (ls', res) /\ res = Ok false.
Proof.
  destruct (persist_snapshot_outcome run_world run_world_ok (mkSystem run_start [] [] 0) 0)
    as (ls' & res & Hp & _).
  - exists (mkSystem run_start [] [] 0). split; [exact run_initial|apply rtc_refl].
  - reflexivity.
  - exists ls', res. split; [exact Hp|].
    assert (Some (run_start, Ok false) = Some (ls', res)) as Heq
      by (rewrite <- Hp; vm_compute; reflexivity).
    injection Heq as _ <-. reflexivity.
Defined.
