(* ===== verification/NodeState.v ===== *)
(** The node state behind the RPC endpoints (crates/node/rpc/src/state.rs):
    counters the consensus components update, leadership by view, the
    partition status and the catch-up window.  The uptime is a clock reading
    and is an argument of [status]. *)
From S2P Require Import Prelude.

Definition DEFAULT_VALIDATOR_COUNT : u32 := 4.
Definition CATCH_UP_THRESHOLD : u64 := 64.

Inductive PartitionStatus : Type :=
| Healthy
| Degraded
| Partitioned.

Definition from_peer_counts (connected_peers total_expected_peers : u64) : PartitionStatus :=
  if total_expected_peers <=? connected_peers then Healthy
  else
    let total_validators := wrapping_add u64_max total_expected_peers 1 in
    let f := saturating_sub total_validators 1 `div` 3 in
    let quorum_peers_needed := total_validators - f - 1 in
    if quorum_peers_needed <=? connected_peers then Degraded else Partitioned.

Record NodeState := mkNodeState {
  ns_chain_id : u64;
  ns_validator_index : u32;
  ns_validator_count : u32;
  ns_current_view : u64;
  ns_finalized_count : u64;
  ns_finalized_height : u64;
  ns_proposed_count : u64;
  ns_nullified_count : u64;
  ns_equivocation_count : u64;
  ns_peer_count : u64;
  ns_is_leader : bool;
  ns_recovered_height : u64;
  ns_last_verified_height : u64;
}.

(** [with_validator_count]; [None] is the panic. *)
Definition ns_with_validator_count (chain_id : u64) (validator_index validator_count : u32)
    : option NodeState :=
  if validator_count =? 0 then None
  else if negb (validator_index <? validator_count) then None
  else Some (mkNodeState chain_id validator_index validator_count 0 0 0 0 0 0 0 false 0 0).

Definition ns_new (chain_id : u64) (validator_index : u32) : option NodeState :=
  ns_with_validator_count chain_id validator_index DEFAULT_VALIDATOR_COUNT.

Definition set_view (s : NodeState) (view : u64) : NodeState :=
  let leader_index := view `mod` ns_validator_count s in
  mkNodeState (ns_chain_id s) (ns_validator_index s) (ns_validator_count s) view
    (ns_finalized_count s) (ns_finalized_height s) (ns_proposed_count s) (ns_nullified_count s)
    (ns_equivocation_count s) (ns_peer_count s) (leader_index =? ns_validator_index s)
    (ns_recovered_height s) (ns_last_verified_height s).

(** The counters wrap, as [fetch_add] does. *)
Definition inc_finalized (s : NodeState) : NodeState :=
  mkNodeState (ns_chain_id s) (ns_validator_index s) (ns_validator_count s) (ns_current_view s)
    (wrapping_add u64_max (ns_finalized_count s) 1) (ns_finalized_height s) (ns_proposed_count s)
    (ns_nullified_count s) (ns_equivocation_count s) (ns_peer_count s) (ns_is_leader s)
    (ns_recovered_height s) (ns_last_verified_height s).

Definition set_finalized_height (s : NodeState) (height : u64) : NodeState :=
  mkNodeState (ns_chain_id s) (ns_validator_index s) (ns_validator_count s) (ns_current_view s)
    (ns_finalized_count s) (Z.max (ns_finalized_height s) height) (ns_proposed_count s)
    (ns_nullified_count s) (ns_equivocation_count s) (ns_peer_count s) (ns_is_leader s)
    (ns_recovered_height s) (ns_last_verified_height s).

Definition inc_proposed (s : NodeState) : NodeState :=
  mkNodeState (ns_chain_id s) (ns_validator_index s) (ns_validator_count s) (ns_current_view s)
    (ns_finalized_count s) (ns_finalized_height s) (wrapping_add u64_max (ns_proposed_count s) 1)
    (ns_nullified_count s) (ns_equivocation_count s) (ns_peer_count s) (ns_is_leader s)
    (ns_recovered_height s) (ns_last_verified_height s).

Definition inc_nullified (s : NodeState) : NodeState :=
  mkNodeState (ns_chain_id s) (ns_validator_index s) (ns_validator_count s) (ns_current_view s)
    (ns_finalized_count s) (ns_finalized_height s) (ns_proposed_count s)
    (wrapping_add u64_max (ns_nullified_count s) 1) (ns_equivocation_count s) (ns_peer_count s)
    (ns_is_leader s) (ns_recovered_height s) (ns_last_verified_height s).

Definition inc_equivocations (s : NodeState) : NodeState :=
  mkNodeState (ns_chain_id s) (ns_validator_index s) (ns_validator_count s) (ns_current_view s)
    (ns_finalized_count s) (ns_finalized_height s) (ns_proposed_count s) (ns_nullified_count s)
    (wrapping_add u64_max (ns_equivocation_count s) 1) (ns_peer_count s) (ns_is_leader s)
    (ns_recovered_height s) (ns_last_verified_height s).

Definition set_peer_count (s : NodeState) (count : u64) : NodeState :=
  mkNodeState (ns_chain_id s) (ns_validator_index s) (ns_validator_count s) (ns_current_view s)
    (ns_finalized_count s) (ns_finalized_height s) (ns_proposed_count s) (ns_nullified_count s)
    (ns_equivocation_count s) count (ns_is_leader s) (ns_recovered_height s)
    (ns_last_verified_height s).

Definition set_recovered_height (s : NodeState) (height : u64) : NodeState :=
  mkNodeState (ns_chain_id s) (ns_validator_index s) (ns_validator_count s) (ns_current_view s)
    (ns_finalized_count s) (ns_finalized_height s) (ns_proposed_count s) (ns_nullified_count s)
    (ns_equivocation_count s) (ns_peer_count s) (ns_is_leader s) height height.

Definition set_last_verified_height (s : NodeState) (height : u64) : NodeState :=
  mkNodeState (ns_chain_id s) (ns_validator_index s) (ns_validator_count s) (ns_current_view s)
    (ns_finalized_count s) (ns_finalized_height s) (ns_proposed_count s) (ns_nullified_count s)
    (ns_equivocation_count s) (ns_peer_count s) (ns_is_leader s) (ns_recovered_height s)
    (Z.max (ns_last_verified_height s) height).

Definition ns_is_catching_up (s : NodeState) : bool :=
  if ns_recovered_height s =? 0 then false
  else ns_last_verified_height s
         <? saturating_add u64_max (ns_recovered_height s) CATCH_UP_THRESHOLD.

Record NodeStatus := mkNodeStatus {
  st_chain_id : u64;
  st_validator_index : u32;
  st_uptime_secs : u64;
  st_current_view : u64;
  st_finalized_count : u64;
  st_proposed_count : u64;
  st_nullified_count : u64;
  st_equivocation_count : u64;
  st_peer_count : u64;
  st_total_expected_peers : u64;
  st_partition_status : PartitionStatus;
  st_is_leader : bool;
}.

Definition status (s : NodeState) (uptime_secs : u64) : NodeStatus :=
  let total_expected_peers := saturating_sub (ns_validator_count s) 1 in
  mkNodeStatus (ns_chain_id s) (ns_validator_index s) uptime_secs (ns_current_view s)
    (ns_finalized_count s) (ns_proposed_count s) (ns_nullified_count s) (ns_equivocation_count s)
    (ns_peer_count s) total_expected_peers
    (from_peer_counts (ns_peer_count s) total_expected_peers) (ns_is_leader s).

(** With [n] validators of which [f] may fail, a node with its peers is a
    quorum of [n - f] exactly when it is not partitioned. *)
Lemma status_quorum s uptime :
  0 < ns_validator_count s < 2 ^ 32 -> 0 <= ns_peer_count s ->
  st_partition_status (status s uptime) = Partitioned
  <-> ns_peer_count s + 1 < ns_validator_count s - (ns_validator_count s - 1) `div` 3.
Proof.
  intros Hn Hp. unfold status, from_peer_counts. cbn [st_partition_status].
  assert (saturating_sub (ns_validator_count s) 1 = ns_validator_count s - 1) as ->
    by (unfold saturating_sub; lia).
  assert (wrapping_add u64_max (ns_validator_count s - 1) 1 = ns_validator_count s) as ->.
  { unfold wrapping_add, wrap, u64_max in *. rewrite Z.mod_small; lia. }
  assert (saturating_sub (ns_validator_count s) 1 = ns_validator_count s - 1) as ->
    by (unfold saturating_sub; lia).
  destruct (Z.leb_spec (ns_validator_count s - 1) (ns_peer_count s)).
  - split; [done|]. pose proof (Z.div_pos (ns_validator_count s - 1) 3). lia.
  - destruct (Z.leb_spec (ns_validator_count s - (ns_validator_count s - 1) `div` 3 - 1)
      (ns_peer_count s)); split; done || lia.
Qed.
