(* ===== verification/App.v ===== *)
(** The consensus application (crates/node/runner/src/app.rs and
    crates/node/consensus/src/execution.rs): proposing a block on a parent,
    verifying blocks by execution, and the catch-up window after a recovery.
    Logging, timing and metrics are left out. *)
From S2P Require Import Prelude TxTypes SenderQueue Pool StateDb Changes StateRoot Executor Execute.
From S2P Require Import Layers Codec Block Snapshots QmdbLedger Ledger NodeState.

(** The trait [BlockExecutor]. *)
Class BlockExecutor (E St : Type) := {
  be_execute : E -> St -> BlockContext -> list bytes -> result ExecutionOutcome ExecutionError;
}.

Definition MAX_FUTURE_TIMESTAMP_DRIFT : u64 := 15.
Definition MAX_PROPOSAL_LAG : u64 := 64.
Definition APP_CATCH_UP_THRESHOLD : u64 := 64.
Definition DEFAULT_GAS_LIMIT : u64 := 250000000.
Definition INITIAL_BASE_FEE : u64 := 1000000000.

(** [RevmApplication]. *)
Record App (E H : Type) := mkApp {
  ap_ledger : LedgerState H;
  ap_executor : E;
  ap_max_txs : usize;
  ap_gas_limit : u64;
  ap_fee_recipient : Address;
  ap_node_state : option NodeState;
  ap_recovered_height : u64;
  ap_last_verified_height : u64;
  ap_block_fees : gmap Digest (u64 * u64);
}.
Arguments mkApp {E H}.
Arguments ap_ledger {E H}.
Arguments ap_executor {E H}.
Arguments ap_max_txs {E H}.
Arguments ap_gas_limit {E H}.
Arguments ap_fee_recipient {E H}.
Arguments ap_node_state {E H}.
Arguments ap_recovered_height {E H}.
Arguments ap_last_verified_height {E H}.
Arguments ap_block_fees {E H}.

Section app.
Context `{EXT : !External} `{CD : !Codec} `{SH : !Sha256}.
Context {E H : Type} `{DB : !LedgerDb H} `{BE : !BlockExecutor E (OverlayState H)}.
Implicit Types (app : App E H).

Definition app_new (ledger : LedgerState H) (genesis : Block) (executor : E) (max_txs : usize)
    (gas_limit : u64) (fee_recipient : Address) : App E H :=
  mkApp ledger executor max_txs gas_limit fee_recipient None 0 0
    {[commitment genesis := (0, INITIAL_BASE_FEE)]}.

Definition with_node_state app (s : NodeState) : App E H :=
  mkApp (ap_ledger app) (ap_executor app) (ap_max_txs app) (ap_gas_limit app)
    (ap_fee_recipient app) (Some s) (ap_recovered_height app) (ap_last_verified_height app)
    (ap_block_fees app).

Definition with_recovered_height app (height : u64) : App E H :=
  mkApp (ap_ledger app) (ap_executor app) (ap_max_txs app) (ap_gas_limit app)
    (ap_fee_recipient app) (ap_node_state app) height height (ap_block_fees app).

Definition app_with_ledger app (l : LedgerState H) : App E H :=
  mkApp l (ap_executor app) (ap_max_txs app) (ap_gas_limit app) (ap_fee_recipient app)
    (ap_node_state app) (ap_recovered_height app) (ap_last_verified_height app)
    (ap_block_fees app).

Definition with_fees app (fees : gmap Digest (u64 * u64)) : App E H :=
  mkApp (ap_ledger app) (ap_executor app) (ap_max_txs app) (ap_gas_limit app)
    (ap_fee_recipient app) (ap_node_state app) (ap_recovered_height app)
    (ap_last_verified_height app) fees.

Definition seed_block_fees app (entries : list (Digest * u64 * u64)) : App E H :=
  with_fees app
    (foldl (fun fees '(d, gas_used, base_fee) => <[d := (gas_used, base_fee)]> fees)
       (ap_block_fees app) entries).

(** [compute_base_fee]; [None] is the panic of the division. *)
Definition compute_base_fee app (parent : Digest) : option u64 :=
  match ap_block_fees app !! parent with
  | Some (parent_gas_used, parent_base_fee) =>
      calculate_base_fee parent_base_fee parent_gas_used (ap_gas_limit app) BaseFeeParams_DEFAULT
  | None => Some INITIAL_BASE_FEE
  end.

Definition record_block_fees app (d : Digest) (gas_used base_fee : u64) : App E H :=
  with_fees app (<[d := (gas_used, base_fee)]> (ap_block_fees app)).

Definition app_block_context app (height timestamp : u64) (prevrandao : B256) (parent : Digest)
    : option BlockContext :=
  base_fee ← compute_base_fee app parent;
  Some (BlockContext_new
          (mkHeader 0 (ap_fee_recipient app) height (ap_gas_limit app) 0 timestamp (Some base_fee))
          0 prevrandao).

Definition get_prevrandao app (parent : Digest) : B256 :=
  default 0 (seed_for_parent (ap_ledger app) parent).

(** [collect_pending_tx_ids]: a gap in the snapshots gives nothing; the outer
    option is the fuel of the walk. *)
Definition app_pending_tx_ids (s : SnapshotStore ChangeSet) (from : Digest)
    : option (option (gset B256)) :=
  r ← walk (walk_fuel s) s (Some from);
  Some (match r with
        | Ok l => Some (foldl (fun acc x => acc ∪ sn_tx_ids x.2) ∅ l)
        | Err _ => None
        end).

(** [build_block], from the parent snapshot that [wait_for_snapshot] returned.
    The outer option is the panic of the base fee, or missing fuel. *)
Definition build_block app (waited : option LedgerSnapshot) (parent : Block) (timestamp : u64)
    : option (App E H * option Block) :=
  let parent_d := commitment parent in
  match waited with
  | None => Some (app, None)
  | Some parent_sn =>
      let '(_, mempool, snapshots) := proposal_components (ap_ledger app) in
      pending ← app_pending_tx_ids snapshots parent_d;
      match pending with
      | None => Some (app, None)
      | Some excluded =>
          let txs := mempool_build mempool (ap_max_txs app) excluded in
          let prevrandao := get_prevrandao app parent_d in
          let height := wrapping_add u64_max (b_height parent) 1 in
          context ← app_block_context app height timestamp prevrandao parent_d;
          let base_fee := default INITIAL_BASE_FEE (hd_base_fee_per_gas (bc_header context)) in
          match be_execute (ap_executor app) (overlay_of (ap_ledger app) (sn_state parent_sn))
                  context (tx_bytes <$> txs) with
          | Err _ => Some (app, None)
          | Ok outcome =>
              match compute_root_from_store (ap_ledger app) parent_d (eo_changes outcome) with
              | Err _ => Some (app, None)
              | Ok state_root =>
                  let block := mkBlock (block_id parent) height timestamp prevrandao state_root txs in
                  Some (record_block_fees app (commitment block) (eo_gas_used outcome) base_fee,
                        Some block)
              end
          end
      end
  end.

(** [propose]: the parent is the head of the ancestry, [checks] what the wait
    for its snapshot sees. *)
Definition propose app (checks : list (LedgerState H * u64)) (ancestry : list Block) (now_secs : u64)
    : option (App E H * option Block) :=
  match ancestry with
  | [] => Some (app, None)
  | parent :: _ =>
      let lagging := match ap_node_state app with
                     | Some s => wrapping_add u64_max (ns_finalized_height s) MAX_PROPOSAL_LAG
                                 <? b_height parent
                     | None => false
                     end in
      if lagging then Some (app, None)
      else
        match next_timestamp now_secs (b_timestamp parent) with
        | None => Some (app, None)
        | Some timestamp =>
            waited ← wait_for_snapshot checks (commitment parent);
            r ← build_block app waited parent timestamp;
            let '(app, block) := r in
            Some (match block, ap_node_state app with
                  | Some _, Some s => with_node_state app (inc_proposed s)
                  | _, _ => app
                  end, block)
        end
  end.

(** ** Verification *)

Definition is_catching_up app (block_height : u64) : bool :=
  let recovered := ap_recovered_height app in
  if recovered =? 0 then false
  else if block_height <=? recovered then false
  else ap_last_verified_height app <? saturating_add u64_max recovered APP_CATCH_UP_THRESHOLD.

(** The verified height, here and in the node state, only grows. *)
Definition advance_verified app (height : u64) : App E H :=
  mkApp (ap_ledger app) (ap_executor app) (ap_max_txs app) (ap_gas_limit app)
    (ap_fee_recipient app) ((fun s => set_last_verified_height s height) <$> ap_node_state app)
    (ap_recovered_height app) (Z.max (ap_last_verified_height app) height) (ap_block_fees app).

(** Trusting the finality certificate of a block. *)
Definition trust_block app (block : Block) : App E H :=
  app_with_ledger app (restore_persisted_snapshot (ap_ledger app) block).

(** [BlockExecution::execute]. *)
Definition block_execution app (parent_sn : LedgerSnapshot) (context : BlockContext)
    (txs : list Tx) : result ExecutionOutcome ExecutionError :=
  be_execute (ap_executor app) (overlay_of (ap_ledger app) (sn_state parent_sn)) context
    (tx_bytes <$> txs).

(** The timestamp checks, skipped during catch-up. *)
Definition timestamps_ok (block : Block) (parent_timestamp : option u64) (now_secs : u64) : bool :=
  match parent_timestamp with Some ts => ts <=? b_timestamp block | None => true end
  && (b_timestamp block <=? saturating_add u64_max now_secs MAX_FUTURE_TIMESTAMP_DRIFT).

(** A failure of the execution: trusted during catch-up, rejected otherwise. *)
Definition fall_back app (block : Block) : App E H * bool :=
  if is_catching_up app (b_height block) then (trust_block app block, true) else (app, false).

(** [verify_block]; [None] is the panic of the base fee. *)
Definition verify_block app (block : Block) (parent_timestamp : option u64) (now_secs : u64)
    : option (App E H * bool) :=
  let d := commitment block in
  let parent_d := parent_digest block in
  match query_state_root (ap_ledger app) d with
  | Some _ => Some (advance_verified app (b_height block), true)
  | None =>
      if negb (is_catching_up app (b_height block))
         && negb (timestamps_ok block parent_timestamp now_secs)
      then Some (app, false)
      else
        match parent_snapshot (ap_ledger app) parent_d with
        | None => Some (fall_back app block)
        | Some parent_sn =>
            context ← app_block_context app (b_height block) (b_timestamp block)
                        (b_prevrandao block) parent_d;
            let base_fee := default INITIAL_BASE_FEE (hd_base_fee_per_gas (bc_header context)) in
            match block_execution app parent_sn context (b_txs block) with
            | Err _ => Some (fall_back app block)
            | Ok outcome =>
                match compute_root_from_store (ap_ledger app) parent_d (eo_changes outcome) with
                | Err _ => Some (fall_back app block)
                | Ok state_root =>
                    if negb (state_root =? b_state_root block) then Some (fall_back app block)
                    else
                      let app := record_block_fees app d (eo_gas_used outcome) base_fee in
                      let merged := overlay_merge_changes
                                      (overlay_of (ap_ledger app) (sn_state parent_sn))
                                      (eo_changes outcome) in
                      let ledger := insert_snapshot (ap_ledger app) d parent_d merged state_root
                                      (eo_changes outcome) (b_txs block) in
                      Some (advance_verified (app_with_ledger app ledger) (b_height block), true)
                end
            end
        end
  end.

(** The blocks of the ancestry (newest first) up to one that is known, and the
    timestamp of that one. *)
Fixpoint unverified_prefix app (ancestry : list Block) : list Block * option u64 :=
  match ancestry with
  | [] => ([], None)
  | block :: rest =>
      match query_state_root (ap_ledger app) (commitment block) with
      | Some _ => ([], Some (b_timestamp block))
      | None => let '(blocks, ts) := unverified_prefix app rest in (block :: blocks, ts)
      end
  end.

(** The loop of [verify], oldest block first. *)
Fixpoint verify_loop app (blocks : list Block) (parent_ts : option u64) (now_secs : u64)
    : option (App E H * bool) :=
  match blocks with
  | [] => Some (app, true)
  | block :: rest =>
      r ← verify_block app block parent_ts now_secs;
      let '(app, valid) := r in
      if valid : bool then verify_loop app rest (Some (b_timestamp block)) now_secs
      else Some (app, false)
  end.

(** [verify]. *)
Definition verify app (ancestry : list Block) (now_secs : u64) : option (App E H * bool) :=
  let '(blocks, parent_ts) := unverified_prefix app ancestry in
  verify_loop app (reverse blocks) parent_ts now_secs.
End app.
