(* ===== verification/AppProps.v ===== *)
(** Properties of the consensus application: what verification accepts, that an
    honest proposal is accepted by every node with the same chain, and the
    catch-up window. *)
From S2P Require Import Prelude TxTypes SenderQueue Pool StateDb Changes StateRoot Executor Execute.
From S2P Require Import Layers Codec Block Snapshots QmdbLedger Chain Ledger LedgerSteps NodeState App.

(** ** Executors *)

(** The outcome depends on what can be read through the overlay. *)
Class ExecutorViews (E H : Type) `{!LedgerDb H} `{!LedgerDbLaws H}
    `{!BlockExecutor E (OverlayState H)} : Prop := {
  be_view : forall e (o1 o2 : OverlayState H) ctx txs,
    layer (ldb_view (ov_base o1)) (ov_changes o1) = layer (ldb_view (ov_base o2)) (ov_changes o2) ->
    be_execute e o1 ctx txs = be_execute e o2 ctx txs;
}.

(** [RevmExecutor]. *)
#[export] Instance revm_executor `{EXT : !External} `{RV : !Revm} {H : Type}
    `{SDB : !StateDbRead H} : BlockExecutor ExecutionConfig (OverlayState H) :=
  {| be_execute := fun cfg s ctx txs => (execute cfg s ctx txs).2 |}.

(** It is such an executor over a database that hides nothing. *)
Lemma revm_views `{EXT : !External} `{RV : !Revm} {H : Type} `{DB : !LedgerDb H}
    `{DL : !LedgerDbLaws H} :
  (forall h : H, ldb_view h = reads_of h) -> ExecutorViews ExecutionConfig H.
Proof.
  intros Hv. split. intros cfg o1 o2 ctx txs Heq. cbn [be_execute revm_executor]. apply execute_reads; [|done].
  apply same_reads_of. destruct o1 as [h1 c1], o2 as [h2 c2]. simpl in Heq.
  by rewrite !Hv, <- !layer_overlay in Heq.
Qed.

Section verification.
Context `{EXT : !External} `{CD : !Codec} `{SH : !Sha256}.
Context {E H : Type} `{DB : !LedgerDb H} `{BE : !BlockExecutor E (OverlayState H)}.
Implicit Types (app : App E H).

(** ** What verification decides *)

(** A block is valid on a node: its parent was executed here, its timestamp is
    neither before its parent's nor too far ahead, and executing its
    transactions in its context on the parent's state gives its state root. *)
Record valid_block app (b : Block) (parent_ts : option u64) (now : u64)
    (sn : LedgerSnapshot) (ctx : BlockContext) (o : ExecutionOutcome) : Prop := {
  vb_parent : parent_snapshot (ap_ledger app) (parent_digest b) = Some sn;
  vb_timestamps : timestamps_ok b parent_ts now = true;
  vb_context : app_block_context app (b_height b) (b_timestamp b) (b_prevrandao b)
                 (parent_digest b) = Some ctx;
  vb_execution : block_execution app sn ctx (b_txs b) = Ok o;
  vb_root : b_state_root b = root_transition (sn_state_root sn) (eo_changes o);
}.

(** What accepting it does. *)
Definition accepted app (b : Block) (sn : LedgerSnapshot) (ctx : BlockContext)
    (o : ExecutionOutcome) : App E H :=
  let d := commitment b in
  advance_verified
    (app_with_ledger
       (record_block_fees app d (eo_gas_used o)
          (default INITIAL_BASE_FEE (hd_base_fee_per_gas (bc_header ctx))))
       (insert_snapshot (ap_ledger app) d (parent_digest b) (cs_merge (sn_state sn) (eo_changes o))
          (b_state_root b) (eo_changes o) (b_txs b)))
    (b_height b).

Lemma root_from_parent app p c sn :
  parent_snapshot (ap_ledger app) p = Some sn ->
  compute_root_from_store (ap_ledger app) p c = Ok (root_transition (sn_state_root sn) c).
Proof. unfold parent_snapshot, compute_root_from_store. by intros ->. Qed.

(** The whole of [verify_block] on a block that is new to the node. *)
Lemma verify_block_cases app b ts now :
  query_state_root (ap_ledger app) (commitment b) = None ->
  is_Some (compute_base_fee app (parent_digest b)) ->
  (exists sn ctx o, (is_catching_up app (b_height b) = true \/ timestamps_ok b ts now = true)
     /\ parent_snapshot (ap_ledger app) (parent_digest b) = Some sn
     /\ app_block_context app (b_height b) (b_timestamp b) (b_prevrandao b) (parent_digest b) = Some ctx
     /\ block_execution app sn ctx (b_txs b) = Ok o
     /\ b_state_root b = root_transition (sn_state_root sn) (eo_changes o)
     /\ verify_block app b ts now = Some (accepted app b sn ctx o, true))
  \/ (~ exists sn ctx o, valid_block app b ts now sn ctx o)
     /\ verify_block app b ts now = Some (fall_back app b).
Proof.
  intros Hnew [fee Hfee].
  assert (exists ctx, app_block_context app (b_height b) (b_timestamp b) (b_prevrandao b)
    (parent_digest b) = Some ctx) as [ctx Hctx] by (unfold app_block_context; rewrite Hfee; by eexists).
  unfold verify_block. rewrite Hnew.
  destruct (negb (is_catching_up app (b_height b)) && negb (timestamps_ok b ts now)) eqn:Et.
  { apply andb_true_iff in Et as [Ec Et]. rewrite negb_true_iff in Ec, Et. right.
    split; [intros (sn & c & o & [_ Ht _ _ _]); congruence|]. unfold fall_back. by rewrite Ec. }
  assert (is_catching_up app (b_height b) = true \/ timestamps_ok b ts now = true) as Ht
    by (destruct (is_catching_up _ _), (timestamps_ok _ _ _); auto).
  destruct (parent_snapshot (ap_ledger app) (parent_digest b)) as [sn|] eqn:Esn.
  2:{ right. split; [|done]. intros (sn & c & o & [Hp _ _ _ _]). congruence. }
  rewrite Hctx. simpl.
  destruct (block_execution app sn ctx (b_txs b)) as [o|e] eqn:Eo.
  2:{ right. split; [|done]. intros (sn' & c & o & [Hp _ Hc He _]). congruence. }
  rewrite (root_from_parent app _ _ sn Esn).
  destruct (Z.eqb_spec (root_transition (sn_state_root sn) (eo_changes o)) (b_state_root b)) as [Hr|Hr].
  - left. exists sn, ctx, o. split_and!; [done|done|done|done|done|]. simpl. rewrite Hr. done.
  - right. split; [|done]. intros (sn' & c & o' & [Hp _ Hc He Hroot]).
    assert (sn' = sn) as -> by congruence. assert (c = ctx) as -> by congruence.
    assert (o' = o) as -> by congruence. congruence.
Qed.

(** The catch-up window only closes. *)
Lemma advance_catching_up app h h' :
  is_catching_up (advance_verified app h) h' = true -> is_catching_up app h' = true.
Proof.
  unfold is_catching_up. cbn [advance_verified ap_recovered_height ap_last_verified_height].
  destruct (ap_recovered_height app =? 0); [done|].
  destruct (h' <=? ap_recovered_height app); [done|]. rewrite !Z.ltb_lt. lia.
Qed.

(** The ledger and the fees do not matter for it. *)
Lemma catching_up_fields app app' h :
  ap_recovered_height app' = ap_recovered_height app ->
  ap_last_verified_height app' = ap_last_verified_height app ->
  is_catching_up app' h = is_catching_up app h.
Proof. unfold is_catching_up. by intros -> ->. Qed.

(** ** Properties *)

(** C10: verification decides validity.  On a node that is not catching up,
    [verify_block] returns true for a new block exactly when its parent was
    executed here, its timestamp is within bounds and executing it gives its
    state root, and it then adds exactly the snapshot of that execution and its
    fees; on false nothing changes.  A block already in the store is accepted
    and advances the verified height.  During catch-up a new block is accepted
    in every case, executed or trusted. *)
Theorem verify_block_decides app b ts now :
  is_Some (compute_base_fee app (parent_digest b)) ->
  exists app' v, verify_block app b ts now = Some (app', v)
  /\ match query_state_root (ap_ledger app) (commitment b) with
     | Some _ => v = true /\ app' = advance_verified app (b_height b)
     | None =>
         if is_catching_up app (b_height b) then
           v = true /\ (app' = trust_block app b \/ exists sn ctx o, app' = accepted app b sn ctx o
                         /\ b_state_root b = root_transition (sn_state_root sn) (eo_changes o))
         else if v then exists sn ctx o, valid_block app b ts now sn ctx o
                          /\ app' = accepted app b sn ctx o
         else app' = app /\ ~ exists sn ctx o, valid_block app b ts now sn ctx o
     end.
Proof.
  intros Hfee. destruct (query_state_root _ _) eqn:Eq.
  { eexists _, _. split; [unfold verify_block; by rewrite Eq|done]. }
  destruct (verify_block_cases app b ts now Eq Hfee)
    as [(sn & ctx & o & Ht & Hsn & Hctx & Hex & Hroot & ->)|[Hno ->]].
  - eexists _, _. split; [done|]. destruct (is_catching_up app (b_height b)).
    + split; [done|]. right. by exists sn, ctx, o.
    + exists sn, ctx, o. split; [|done]. by split; try done; destruct Ht.
  - unfold fall_back. destruct (is_catching_up app (b_height b)); eexists _, _; (split; [done|]).
    + split; [done|]. by left.
    + done.
Qed.

(** The catch-up window.  While it is open every new block is accepted;
    verification never opens it again for any height; and a block that was only
    trusted closes it as an executed one does, when it is seen again. *)
Theorem catch_up_window app b ts now :
  is_Some (compute_base_fee app (parent_digest b)) ->
  exists app' v, verify_block app b ts now = Some (app', v)
  /\ (is_catching_up app (b_height b) = true -> v = true)
  /\ (forall h, is_catching_up app' h = true -> is_catching_up app h = true)
  /\ (ap_recovered_height app + APP_CATCH_UP_THRESHOLD <= b_height b -> v = true ->
      exists app'', verify_block app' b ts now = Some (app'', true)
      /\ forall h, is_catching_up app'' h = false).
Proof.
  intros Hfee.
  assert (forall a, query_state_root (ap_ledger a) (commitment b) <> None ->
    ap_recovered_height a = ap_recovered_height app ->
    ap_recovered_height app + APP_CATCH_UP_THRESHOLD <= b_height b ->
    exists a', verify_block a b ts now = Some (a', true) /\ forall h, is_catching_up a' h = false)
    as Hclose.
  { intros a Hq Hr Hb. unfold verify_block. destruct (query_state_root _ _); [|done].
    eexists. split; [done|]. intros h. unfold is_catching_up, saturating_add.
    cbn [advance_verified ap_recovered_height ap_last_verified_height]. rewrite Hr.
    destruct (ap_recovered_height app =? 0); [done|].
    destruct (h <=? ap_recovered_height app); [done|]. apply Z.ltb_ge. lia. }
  destruct (query_state_root (ap_ledger app) (commitment b)) eqn:Eq.
  { eexists _, _. split; [unfold verify_block; by rewrite Eq|]. split_and!; [done| |].
    - intros h. apply advance_catching_up.
    - intros Hb _. apply Hclose; [|done|done]. change (ap_ledger (advance_verified _ _)) with (ap_ledger app). congruence. }
  destruct (verify_block_cases app b ts now Eq Hfee)
    as [(sn & ctx & o & _ & _ & _ & _ & _ & ->)|[_ ->]].
  - eexists _, _. split; [done|]. split_and!; [done| |].
    + intros h Hh. unfold accepted in Hh. apply advance_catching_up in Hh. by erewrite catching_up_fields in Hh.
    + intros Hb _. apply Hclose; [|done|done]. unfold query_state_root, ss_get, accepted. simpl.
      by rewrite lookup_insert_eq.
  - unfold fall_back. destruct (is_catching_up app (b_height b)) eqn:Ec; eexists _, _;
      (split; [done|]); split_and!; try done.
    intros Hb _. apply Hclose; [|done|done]. unfold query_state_root, ss_get, trust_block,
      restore_persisted_snapshot. cbn [app_with_ledger ap_ledger with_head with_snapshots ls_snapshots].
    destruct (mark_persisted_fields (ss_insert (ls_snapshots (ap_ledger app)) (commitment b)
      (mkSnapshot (Some (parent_digest b)) ChangeSet_new (b_state_root b) ChangeSet_new
         (tx_ids (b_txs b)))) [commitment b]) as (-> & _).
    simpl. by rewrite lookup_insert_eq.
Qed.
End verification.

Section liveness.
Context `{EXT : !External} `{CD : !Codec} `{SH : !Sha256}.
Context {E H : Type} `{DB : !LedgerDb H} `{DL : !LedgerDbLaws H}
        `{BE : !BlockExecutor E (OverlayState H)} `{BV : !ExecutorViews E H}.
Implicit Types (app : App E H).

(** Two nodes that run by the same rules and know the same fees of a block. *)
Record same_rules app1 app2 (parent : Digest) : Prop := {
  sr_executor : ap_executor app2 = ap_executor app1;
  sr_gas_limit : ap_gas_limit app2 = ap_gas_limit app1;
  sr_fee_recipient : ap_fee_recipient app2 = ap_fee_recipient app1;
  sr_fees : ap_block_fees app2 !! parent = ap_block_fees app1 !! parent;
}.

Lemma same_context app1 app2 h ts r p :
  same_rules app1 app2 p -> app_block_context app2 h ts r p = app_block_context app1 h ts r p.
Proof.
  intros [_ Hg Hf Hb]. unfold app_block_context, compute_base_fee. by rewrite Hg, Hf, Hb.
Qed.

(** What a proposal consists of. *)
Lemma proposal_inv app checks parent rest now app' b :
  propose app checks (parent :: rest) now = Some (app', Some b) ->
  exists sn ctx o,
    wait_for_snapshot checks (commitment parent) = Some (Some sn)
    /\ parent_digest b = commitment parent
    /\ b_timestamp parent <= b_timestamp b
    /\ app_block_context app (b_height b) (b_timestamp b) (b_prevrandao b) (commitment parent) = Some ctx
    /\ be_execute (ap_executor app) (overlay_of (ap_ledger app) (sn_state sn)) ctx
         (tx_bytes <$> b_txs b) = Ok o
    /\ compute_root_from_store (ap_ledger app) (commitment parent) (eo_changes o) = Ok (b_state_root b)
    /\ ap_block_fees app' !! commitment b
       = Some (eo_gas_used o, default INITIAL_BASE_FEE (hd_base_fee_per_gas (bc_header ctx))).
Proof.
  unfold propose. destruct (match ap_node_state app with Some _ => _ | None => _ end); [done|].
  destruct (next_timestamp now (b_timestamp parent)) as [t|] eqn:Et; [|done].
  destruct (wait_for_snapshot checks _) as [waited|]; [|done]. cbn [mbind option_bind].
  destruct (build_block app waited parent t) as [[app1 ob]|] eqn:Eb; [|done]. cbn [mbind option_bind].
  intros [= Happ ->]. unfold build_block in Eb. destruct waited as [sn|]; [|done]. simpl in Eb.
  destruct (app_pending_tx_ids _ _) as [[excluded|]|]; [|done|done]. simpl in Eb.
  destruct (app_block_context app _ _ _ _) as [ctx|] eqn:Ec; [|done]. simpl in Eb.
  destruct (be_execute _ _ _ _) as [o|] eqn:Eo; [|done].
  destruct (compute_root_from_store _ _ _) as [root|] eqn:Er; [|done].
  injection Eb as <- <-. exists sn, ctx, o. split_and!; try done.
  - simpl. unfold next_timestamp in Et. destruct (Z.ltb_spec (b_timestamp parent) now); simplify_eq; lia.
  - rewrite <- Happ. destruct (ap_node_state _); simpl; by rewrite lookup_insert_eq.
Qed.

(** C9: honest proposals are accepted.  Two nodes refine the same chain, each
    at its own point of executing and persisting it, and run by the same rules.
    Whatever block one of them proposes on a parent both have executed, the
    other accepts when its clock is at most the allowed drift behind the
    block's timestamp; and both then know the same fees of the block, so that
    they agree on the base fee of the next one. *)
Theorem honest_proposal_accepted (w : world) (sy1 sy2 : System H) app1 app2 app1' parent rest r
    now1 now2 b sn1 sn2 :
  world_ok w -> reachable w sy1 -> reachable w sy2 ->
  ap_ledger app1 = sy_ledger sy1 -> ap_ledger app2 = sy_ledger sy2 ->
  same_rules app1 app2 (commitment parent) ->
  ancestor w (sy_tip sy1) (commitment parent) -> ancestor w (sy_tip sy2) (commitment parent) ->
  parent_snapshot (ap_ledger app1) (commitment parent) = Some sn1 ->
  parent_snapshot (ap_ledger app2) (commitment parent) = Some sn2 ->
  sn_state_root sn1 = sn_state_root sn2 ->
  propose app1 [(ap_ledger app1, r)] (parent :: rest) now1 = Some (app1', Some b) ->
  b_timestamp b <= saturating_add u64_max now2 MAX_FUTURE_TIMESTAMP_DRIFT ->
  query_state_root (ap_ledger app2) (commitment b) = None ->
  exists app2' sn, verify_block app2 b (Some (b_timestamp parent)) now2 = Some (app2', true)
    /\ ap_block_fees app2' !! commitment b = ap_block_fees app1' !! commitment b
    /\ parent_snapshot (ap_ledger app2') (commitment b) = Some sn
    /\ sn_state_root sn = b_state_root b /\ sn_tx_ids sn = tx_ids (b_txs b).
Proof using Type BV.
  intros W Hr1 Hr2 Hl1 Hl2 Hsame Ha1 Ha2 Hs1 Hs2 Hroot Hprop Hclock Hnew.
  destruct (proposal_inv _ _ _ _ _ _ _ Hprop) as (sn & ctx & o & Hw & Hpd & Hts & Hctx & Hex & Hst & Hfees).
  assert (sn = sn1) as -> by (unfold wait_for_snapshot in Hw; rewrite Hs1 in Hw; congruence).
  rewrite (root_from_parent app1 _ _ sn1 Hs1) in Hst. injection Hst as Hst.
  rewrite <- (same_context app1 app2 _ _ _ _ Hsame), <- Hpd in Hctx.
  assert (forall sy d (s : LedgerSnapshot), reachable w sy -> parent_snapshot (sy_ledger sy) d = Some s ->
    ancestor w (sy_tip sy) d ->
    layer (ldb_view (ls_qmdb (sy_ledger sy))) (sn_state s) = w_state w d) as Hreads.
  { intros sy d s Hr Hs Ha. pose proof (reachable_inv w W sy Hr) as Hi.
    apply (covers_reads w W sy); [done|by apply (in_covers _ _ Hi)|done]. }
  assert (block_execution app2 sn2 ctx (b_txs b) = Ok o) as Hex2.
  { unfold block_execution. rewrite (sr_executor _ _ _ Hsame), <- Hex. apply be_view. simpl.
    rewrite Hl1 in Hs1 |- *. rewrite Hl2 in Hs2 |- *.
    rewrite (Hreads sy1 (commitment parent) sn1), (Hreads sy2 (commitment parent) sn2); done. }
  assert (is_Some (compute_base_fee app2 (parent_digest b))) as Hfee.
  { unfold app_block_context in Hctx. destruct (compute_base_fee _ _); [by eexists|done]. }
  assert (valid_block app2 b (Some (b_timestamp parent)) now2 sn2 ctx o) as Hvalid.
  { split; rewrite ?Hpd; [done| |by rewrite <- Hpd|done|congruence].
    unfold timestamps_ok. apply andb_true_iff. split; by apply Z.leb_le. }
  destruct (verify_block_cases app2 b (Some (b_timestamp parent)) now2 Hnew Hfee)
    as [(sn' & c' & o' & _ & Hsn' & Hc' & He' & _ & ->)|[[] _]]; [|by exists sn2, ctx, o].
  assert (c' = ctx) as -> by congruence.
  assert (sn' = sn2) as -> by (rewrite Hpd in Hsn'; congruence).
  assert (o' = o) as -> by congruence.
  eexists _, _. split; [done|]. rewrite Hfees. split_and!.
  - simpl. by rewrite lookup_insert_eq.
  - unfold parent_snapshot, ss_get. simpl. by rewrite lookup_insert_eq.
  - done.
  - done.
Qed.
End liveness.

(** ** Witnesses *)

Definition demo_hash : bytes -> B256 := foldl (fun h b => (h * 257 + b + 1) `mod` 1000003) 0.
#[local] Instance app_ext : External := simple_ext demo_hash.
#[local] Instance app_codec : Codec := simple_codec demo_hash.
#[local] Instance app_sha : Sha256 := {| sha256 := demo_hash |}.

(** A database that lays what it commits over what it has. *)
#[local] Instance plain_db : LedgerDb ReadFns := {|
  ldb_read := fns_read;
  ldb_commit := fun h c => (layer h c, Ok 0);
  ldb_root := fun _ => Ok 0;
|}.
#[local] Instance plain_laws : LedgerDbLaws ReadFns.
Proof.
  refine {| ldb_ok := fun _ => True; ldb_view := id; ldb_accepts := fun _ _ => True |}.
  by intros h c h' root _ _ [= <- _].
Defined.

(** An executor that credits one unit to the beneficiary. *)
#[local] Instance credit_executor : BlockExecutor unit (OverlayState ReadFns) := {|
  be_execute := fun _ s ctx _ =>
    let beneficiary := hd_beneficiary (bc_header ctx) in
    let balance := default 0 (ok (st_balance s beneficiary)) in
    Ok (mkOutcome (mkChangeSet {[beneficiary := mkUpdate false false 0 (balance + 1) 0 None ∅]})
          [] 21000 []);
|}.
#[local] Instance credit_views : ExecutorViews unit ReadFns.
Proof.
  split. intros e o1 o2 ctx txs Heq. simpl.
  assert (forall a, st_balance o1 a = st_balance o2 a) as Hb.
  { intros a. change (rf_balance (layer (ldb_view (ov_base o1)) (ov_changes o1)) a
      = rf_balance (layer (ldb_view (ov_base o2)) (ov_changes o2)) a). by rewrite Heq. }
  specialize (Hb (hd_beneficiary (bc_header ctx))). simpl in Hb. by rewrite Hb.
Qed.

Definition empty_reads : ReadFns :=
  mkReadFns (fun a => Err (AccountNotFound a)) (fun a => Err (AccountNotFound a))
    (fun a => Err (AccountNotFound a)) (fun h => Err (CodeNotFound h)) (fun _ _ => Ok 0).

Definition app_genesis : Block := genesis_block 0 0.
Definition app_ledger0 : LedgerState ReadFns :=
  match ledger_init (Ok empty_reads) 0 with
  | Ok (_, l) => l
  | Err _ => mkLedger (pool_new PoolConfig_default) ss_new 0 seeds_empty empty_reads
  end.

Definition app_world : world :=
  mkWorld (fun _ => None) (fun _ => 0) (fun _ => ChangeSet_new) (fun _ => empty_reads) (fun _ => []).

Lemma app_world_ok : world_ok app_world.
Proof.
  split; [done|done|]. intros a l d Hl. inversion Hl; [done|]. simplify_eq.
Qed.

Definition app_system : System ReadFns := mkSystem app_ledger0 [] [] (commitment app_genesis).

Lemma app_reachable : reachable app_world app_system.
Proof.
  exists app_system. split; [|apply rtc_refl]. exists 0, app_genesis.
  split_and!; [reflexivity|done|done|done|done|]. exists []. constructor.
Qed.

(** The fee recipient decides about the state root. *)
Definition app_node (fee_recipient : Address) : App unit ReadFns :=
  app_new app_ledger0 app_genesis tt 100 DEFAULT_GAS_LIMIT fee_recipient.

Definition app_block : Block :=
  match propose (app_node 7) [(app_ledger0, 0)] [app_genesis] 5 with
  | Some (_, Some b) => b
  | _ => app_genesis
  end.

Definition app_genesis_snapshot : LedgerSnapshot := mkSnapshot None ChangeSet_new 0 ChangeSet_new ∅.

Lemma honest_proposal_accepted_witness :
  exists app2', verify_block (app_node 7) app_block (Some 0) 0 = Some (app2', true).
Proof.
  assert (exists app1', propose (app_node 7) [(app_ledger0, 0)] [app_genesis] 5
    = Some (app1', Some app_block)) as [app1' Hp] by (eexists; vm_compute; reflexivity).
  assert (parent_snapshot app_ledger0 (commitment app_genesis) = Some app_genesis_snapshot) as Hs
    by (vm_compute; reflexivity).
  assert (same_rules (app_node 7) (app_node 7) (commitment app_genesis)) as Hsame
    by (split; exact eq_refl).
  assert (ancestor app_world (sy_tip app_system) (commitment app_genesis)) as Ha
    by exact (ancestor_refl app_world app_world_ok _).
  assert (b_timestamp app_block <= saturating_add u64_max 0 MAX_FUTURE_TIMESTAMP_DRIFT) as Hc
    by (vm_compute; discriminate).
  assert (query_state_root (ap_ledger (app_node 7)) (commitment app_block) = None) as Hn
    by (vm_compute; reflexivity).
  destruct (honest_proposal_accepted app_world app_system app_system (app_node 7) (app_node 7) app1'
    app_genesis [] 0 5 0 app_block app_genesis_snapshot app_genesis_snapshot app_world_ok
    app_reachable app_reachable eq_refl eq_refl Hsame Ha Ha Hs Hs eq_refl Hp Hc Hn)
    as (app2' & sn & Hv & _).
  exists app2'. exact Hv.
Defined.

(** Nodes that configure different fee recipients reject each other's blocks. *)
Lemma fee_recipient_splits :
  verify_block (app_node 7) app_block (Some 0) 0 <> Some (app_node 7, false)
  /\ option_map snd (verify_block (app_node 8) app_block (Some 0) 0) = Some false.
Proof.
  split; [|vm_compute; reflexivity].
  intros Heq. apply (f_equal (option_map snd)) in Heq. vm_compute in Heq. discriminate Heq.
Qed.

Lemma base_fee_defined : is_Some (compute_base_fee (app_node 7) (parent_digest app_block)).
Proof. eexists. vm_compute. reflexivity. Qed.

Lemma verify_block_decides_witness :
  exists app', verify_block (app_node 7) app_block (Some 0) 0 = Some (app', true)
    /\ exists sn ctx o, valid_block (app_node 7) app_block (Some 0) 0 sn ctx o.
Proof.
  destruct (verify_block_decides (app_node 7) app_block (Some 0) 0 base_fee_defined)
    as (app' & v & Hv & H).
  assert (option_map snd (Some (app', v)) = Some true) as Hb
    by (rewrite <- Hv; vm_compute; reflexivity).
  injection Hb as ->. exists app'. split; [exact Hv|].
  assert (query_state_root (ap_ledger (app_node 7)) (commitment app_block) = None) as Hn
    by (vm_compute; reflexivity).
  assert (is_catching_up (app_node 7) (b_height app_block) = false) as Hc
    by (vm_compute; reflexivity).
  rewrite Hn, Hc in H. destruct H as (sn & ctx & o & Hvalid & _). exists sn, ctx, o. exact Hvalid.
Defined.

(** A node recovered at height 10 sees a block at height 80 twice. *)
Definition late_block : Block := mkBlock 3 80 1000 0 9 [].

Lemma late_fee_defined :
  is_Some (compute_base_fee (with_recovered_height (app_node 7) 10) (parent_digest late_block)).
Proof. eexists. vm_compute. reflexivity. Qed.

Lemma catch_up_window_witness :
  exists app' app'', verify_block (with_recovered_height (app_node 7) 10) late_block None 0
      = Some (app', true)
    /\ verify_block app' late_block None 0 = Some (app'', true)
    /\ is_catching_up app'' 81 = false.
Proof.
  destruct (catch_up_window (with_recovered_height (app_node 7) 10) late_block None 0
    late_fee_defined) as (app' & v & Hv & Ht & _ & Hc).
  assert (v = true) as -> by (apply Ht; vm_compute; reflexivity).
  destruct Hc as (app'' & Hv2 & Hcl); [vm_compute; discriminate|reflexivity|].
  exists app', app''. split; [exact Hv|]. split; [exact Hv2|]. exact (Hcl 81).
Defined.
