(* ===== verification/Indexer.v ===== *)
(** The block index (crates/storage/indexer/src): blocks, transactions, receipts
    and logs by their keys, pruning by height, log queries; and that it answers
    as the finite map of the retained blocks. *)
From S2P Require Import Prelude.

(** ** Types (types.rs, filter.rs) *)

Record IndexedBlock := mkIBlock {
  ib_hash : B256; ib_number : u64; ib_parent_hash : B256; ib_state_root : B256;
  ib_transactions_root : B256; ib_receipts_root : B256; ib_timestamp : u64; ib_gas_limit : u64;
  ib_gas_used : u64; ib_base_fee_per_gas : option u64; ib_mix_hash : B256; ib_logs_bloom : Z;
  ib_size : u64; ib_transaction_hashes : list B256;
}.

Record IndexedTransaction := mkITx {
  it_hash : B256; it_block_hash : B256; it_block_number : u64; it_index : u64; it_from : Address;
  it_to : option Address; it_value : U256; it_gas_limit : u64; it_gas_price : u128; it_tx_type : Z;
  it_chain_id : option u64; it_max_fee_per_gas : option u128;
  it_max_priority_fee_per_gas : option u128; it_v : u128; it_r : U256; it_s : U256;
  it_input : bytes; it_nonce : u64;
}.

Record IndexedLog := mkILog {
  il_address : Address; il_topics : list B256; il_data : bytes; il_log_index : u64;
  il_block_number : u64; il_block_hash : B256; il_transaction_hash : B256;
  il_transaction_index : u64;
}.

Record IndexedReceipt := mkIReceipt {
  ir_transaction_hash : B256; ir_block_hash : B256; ir_block_number : u64;
  ir_transaction_index : u64; ir_from : Address; ir_to : option Address;
  ir_cumulative_gas_used : u64; ir_gas_used : u64; ir_contract_address : option Address;
  ir_logs : list IndexedLog; ir_logs_bloom : Z; ir_tx_type : Z; ir_effective_gas_price : u128;
  ir_status : bool;
}.

Record IndexStats := mkStats {
  is_block_count : usize; is_transaction_count : usize; is_receipt_count : usize;
  is_head_block_number : u64;
}.

(** A filter; [lf_topics] has four positions. *)
Record LogFilter := mkFilter {
  lf_from_block : option u64;
  lf_to_block : option u64;
  lf_address : option (list Address);
  lf_topics : list (option (list B256));
}.

Definition LogFilter_new : LogFilter := mkFilter None None None [None; None; None; None].
Definition filter_from_block (f : LogFilter) (block : u64) : LogFilter :=
  mkFilter (Some block) (lf_to_block f) (lf_address f) (lf_topics f).
Definition filter_to_block (f : LogFilter) (block : u64) : LogFilter :=
  mkFilter (lf_from_block f) (Some block) (lf_address f) (lf_topics f).
Definition filter_address (f : LogFilter) (addresses : list Address) : LogFilter :=
  mkFilter (lf_from_block f) (lf_to_block f) (Some addresses) (lf_topics f).
Definition filter_topic (f : LogFilter) (index : nat) (topics : list B256) : LogFilter :=
  if Nat.ltb index 4
  then mkFilter (lf_from_block f) (lf_to_block f) (lf_address f)
         (<[index := Some topics]> (lf_topics f))
  else f.

(** ** The index (store.rs) *)

Record BlockIndex := mkIndex {
  ix_blocks_by_hash : gmap B256 IndexedBlock;
  ix_blocks_by_number : gmap u64 B256;
  ix_transactions : gmap B256 IndexedTransaction;
  ix_receipts : gmap B256 IndexedReceipt;
  ix_logs_by_block : gmap B256 (list IndexedLog);
  ix_head_block : u64;
}.

Definition MAX_RETAINED_BLOCKS : u64 := 10000.

Definition index_new : BlockIndex := mkIndex ∅ ∅ ∅ ∅ ∅ 0.

Definition all_logs (receipts : list IndexedReceipt) : list IndexedLog := receipts ≫= ir_logs.

Definition insert_block (ix : BlockIndex) (block : IndexedBlock) (txs : list IndexedTransaction)
    (receipts : list IndexedReceipt) : BlockIndex :=
  mkIndex
    (<[ib_hash block := block]> (ix_blocks_by_hash ix))
    (<[ib_number block := ib_hash block]> (ix_blocks_by_number ix))
    (foldl (fun m tx => <[it_hash tx := tx]> m) (ix_transactions ix) txs)
    (foldl (fun m r => <[ir_transaction_hash r := r]> m) (ix_receipts ix) receipts)
    (<[ib_hash block := all_logs receipts]> (ix_logs_by_block ix))
    (if ix_head_block ix <? ib_number block then ib_number block else ix_head_block ix).

Definition delete_all {A} (m : gmap Z A) (ks : list Z) : gmap Z A :=
  foldl (fun m k => delete k m) m ks.

Definition prune_before (ix : BlockIndex) (min_block_number : u64) : BlockIndex :=
  let hashes_to_remove :=
    filter (fun nh => nh.1 < min_block_number) (map_to_list (ix_blocks_by_number ix)) in
  match hashes_to_remove with
  | [] => ix
  | _ =>
      let tx_hashes :=
        omap (fun nh => ix_blocks_by_hash ix !! nh.2) hashes_to_remove
          ≫= ib_transaction_hashes in
      mkIndex (delete_all (ix_blocks_by_hash ix) hashes_to_remove.*2)
        (delete_all (ix_blocks_by_number ix) hashes_to_remove.*1)
        (delete_all (ix_transactions ix) tx_hashes) (delete_all (ix_receipts ix) tx_hashes)
        (delete_all (ix_logs_by_block ix) hashes_to_remove.*2) (ix_head_block ix)
  end.

Definition get_block_by_hash (ix : BlockIndex) (hash : B256) : option IndexedBlock :=
  ix_blocks_by_hash ix !! hash.
Definition get_block_by_number (ix : BlockIndex) (number : u64) : option IndexedBlock :=
  hash ← ix_blocks_by_number ix !! number; ix_blocks_by_hash ix !! hash.
Definition get_transaction (ix : BlockIndex) (hash : B256) : option IndexedTransaction :=
  ix_transactions ix !! hash.
Definition get_receipt (ix : BlockIndex) (hash : B256) : option IndexedReceipt :=
  ix_receipts ix !! hash.

(** The transactions of a block, sorted by their index. *)
Definition get_transactions_for_block (ix : BlockIndex) (block_hash : B256)
    : list IndexedTransaction :=
  sort_by (cmp_on it_index Z.compare)
    (filter (fun tx => it_block_hash tx = block_hash) ((map_to_list (ix_transactions ix)).*2)).

Definition head_block_number (ix : BlockIndex) : u64 := ix_head_block ix.

(** [matches_filter]: an address among those wanted, and at every position with
    topics one of them. *)
Fixpoint matches_topics (log_topics : list B256) (filters : list (option (list B256))) : bool :=
  match filters with
  | [] => true
  | f :: filters' =>
      match f with
      | Some allowed =>
          match log_topics with
          | t :: _ => bool_decide (t ∈ allowed)
          | [] => false
          end
      | None => true
      end && matches_topics (tail log_topics) filters'
  end.

Definition matches_filter (log : IndexedLog) (f : LogFilter) : bool :=
  match lf_address f with
  | Some addresses => bool_decide (il_address log ∈ addresses)
  | None => true
  end && matches_topics (il_topics log) (lf_topics f).

Definition get_logs (ix : BlockIndex) (f : LogFilter) : list IndexedLog :=
  let head := head_block_number ix in
  let from_block := default 0 (lf_from_block f) in
  let to_block := Z.min (default head (lf_to_block f)) head in
  seqZ from_block (to_block - from_block + 1) ≫= fun n =>
    match ix_blocks_by_number ix !! n with
    | None => []
    | Some hash =>
        match ix_logs_by_block ix !! hash with
        | None => []
        | Some logs => filter (fun log => matches_filter log f = true) logs
        end
    end.

Definition block_count (ix : BlockIndex) : usize := Z.of_nat (size (ix_blocks_by_hash ix)).
Definition transaction_count (ix : BlockIndex) : usize := Z.of_nat (size (ix_transactions ix)).
Definition receipt_count (ix : BlockIndex) : usize := Z.of_nat (size (ix_receipts ix)).
Definition index_is_empty (ix : BlockIndex) : bool := bool_decide (ix_blocks_by_hash ix = ∅).
Definition stats (ix : BlockIndex) : IndexStats :=
  mkStats (block_count ix) (transaction_count ix) (receipt_count ix) (head_block_number ix).

Definition recent_block_hashes (ix : BlockIndex) (head : u64) : gmap u64 B256 :=
  let depth := Z.min head 256 in
  foldl (fun m n => match ix_blocks_by_number ix !! n with
                    | Some hash => <[n := hash]> m
                    | None => m
                    end)
    ∅ (seqZ (saturating_sub head depth) (head - saturating_sub head depth)).

(** ** The specification: the map of the retained blocks *)

Record Entry := mkEntry {
  en_block : IndexedBlock; en_txs : list IndexedTransaction; en_receipts : list IndexedReceipt;
}.

Definition en_hash (e : Entry) : B256 := ib_hash (en_block e).

(** What the finalization reporter hands to [insert_block]: one receipt per
    transaction, the block's list of hashes, ascending indices. *)
Record entry_ok (e : Entry) : Prop := {
  ek_hashes : ib_transaction_hashes (en_block e) = it_hash <$> en_txs e;
  ek_nodup : NoDup (it_hash <$> en_txs e);
  ek_receipts : ir_transaction_hash <$> en_receipts e = it_hash <$> en_txs e;
  ek_block : Forall (fun tx => it_block_hash tx = en_hash e) (en_txs e);
  ek_index : StronglySorted Z.lt (it_index <$> en_txs e);
}.

(** Two entries that share neither the block hash nor a transaction. *)
Definition apart (e e' : Entry) : Prop :=
  en_hash e <> en_hash e' /\
  forall h, h ∈ it_hash <$> en_txs e -> h ∉ it_hash <$> en_txs e'.

(** The indices a run of insertions and prunings reaches, with the blocks they
    retain and the greatest number seen. *)
Inductive indexed : BlockIndex -> gmap u64 Entry -> u64 -> Prop :=
| indexed_new : indexed index_new ∅ 0
| indexed_insert ix A hd e :
    indexed ix A hd -> entry_ok e -> A !! ib_number (en_block e) = None ->
    (forall n e', A !! n = Some e' -> apart e e') ->
    indexed (insert_block ix (en_block e) (en_txs e) (en_receipts e))
      (<[ib_number (en_block e) := e]> A) (Z.max hd (ib_number (en_block e)))
| indexed_prune ix A hd m :
    indexed ix A hd -> indexed (prune_before ix m) (filter (fun ne => m <= ne.1) A) hd.

(** The logs of the blocks [from..=to] that are retained, in order. *)
Definition retained_logs (A : gmap u64 Entry) (from to : u64) : list IndexedLog :=
  seqZ from (to - from + 1) ≫= fun n =>
    from_option (fun e => all_logs (en_receipts e)) [] (A !! n).

(** ** Lemmas *)

Lemma delete_all_lookup {A} (m : gmap Z A) ks k :
  delete_all m ks !! k = if decide (k ∈ ks) then None else m !! k.
Proof.
  unfold delete_all. revert m. induction ks as [|k' ks IH]; intros m; [done|]; simpl.
  rewrite IH, lookup_delete. repeat case_decide; set_solver.
Qed.

Lemma insert_all_lookup {A} (key : A -> Z) (m : gmap Z A) l k x :
  NoDup (key <$> l) ->
  foldl (fun m x => <[key x := x]> m) m l !! k = Some x <->
  (x ∈ l /\ key x = k) \/ (k ∉ key <$> l /\ m !! k = Some x).
Proof.
  revert m. induction l as [|y l IH]; intros m Hnd; simpl; [set_solver|].
  simpl in Hnd. apply NoDup_cons in Hnd as [Hy Hnd]. rewrite IH by done.
  rewrite lookup_insert. case_decide as Hk; split.
  - intros [[? ?]|[? ?]]; set_solver.
  - intros [[Hx ?]|[? ?]]; [|set_solver]. apply elem_of_cons in Hx as [->|Hx]; [|by left].
    right. by rewrite <- Hk.
  - intros [[? ?]|[? ?]]; set_solver.
  - intros [[Hx ?]|[? ?]]; [|set_solver]. apply elem_of_cons in Hx as [->|Hx]; [congruence|by left].
Qed.

Record represents (ix : BlockIndex) (A : gmap u64 Entry) (hd : u64) : Prop := {
  rp_ok : forall n e, A !! n = Some e -> ib_number (en_block e) = n /\ entry_ok e;
  rp_apart : forall n n' e e', A !! n = Some e -> A !! n' = Some e' -> n <> n' -> apart e e';
  rp_number : ix_blocks_by_number ix = en_hash <$> A;
  rp_hash : forall h b, ix_blocks_by_hash ix !! h = Some b <->
    exists n e, A !! n = Some e /\ en_hash e = h /\ en_block e = b;
  rp_txs : forall h tx, ix_transactions ix !! h = Some tx <->
    exists n e, A !! n = Some e /\ tx ∈ en_txs e /\ it_hash tx = h;
  rp_receipts : forall h r, ix_receipts ix !! h = Some r <->
    exists n e, A !! n = Some e /\ r ∈ en_receipts e /\ ir_transaction_hash r = h;
  rp_logs : forall h l, ix_logs_by_block ix !! h = Some l <->
    exists n e, A !! n = Some e /\ en_hash e = h /\ all_logs (en_receipts e) = l;
  rp_head : ix_head_block ix = hd;
}.

Lemma represents_new : represents index_new ∅ 0.
Proof.
  split; cbn [index_new ix_blocks_by_number ix_blocks_by_hash ix_transactions ix_receipts
    ix_logs_by_block ix_head_block]; try (intros *; rewrite lookup_empty; done).
  all: try (intros *; rewrite lookup_empty; split; [done|];
    intros (?&?&Hf&_); by rewrite lookup_empty in Hf).
  - by rewrite fmap_empty.
  - done.
Qed.

(** An entry keyed by something that only it has, added to a map of such. *)
Lemma insert_keyed {X} (A : gmap u64 Entry) n e (P : Entry -> X -> Prop) :
  A !! n = None ->
  forall x, (exists n' e', <[n := e]> A !! n' = Some e' /\ P e' x) <->
    (P e x \/ exists n' e', A !! n' = Some e' /\ P e' x).
Proof.
  intros Hn x. split.
  - intros (n'&e'&[[<- <-]|[? ?]]%lookup_insert_Some&HP); eauto.
  - intros [HP|(n'&e'&HA&HP)]; [exists n, e; by rewrite lookup_insert_eq|].
    exists n', e'. split; [|done]. rewrite lookup_insert_ne; congruence.
Qed.

Lemma receipt_hash_tx e r :
  entry_ok e -> r ∈ en_receipts e -> ir_transaction_hash r ∈ it_hash <$> en_txs e.
Proof. intros He Hr. rewrite <- (ek_receipts _ He). by apply list_elem_of_fmap_2. Qed.

Lemma represents_insert ix A hd e :
  represents ix A hd -> entry_ok e -> A !! ib_number (en_block e) = None ->
  (forall n e', A !! n = Some e' -> apart e e') ->
  represents (insert_block ix (en_block e) (en_txs e) (en_receipts e))
    (<[ib_number (en_block e) := e]> A) (Z.max hd (ib_number (en_block e))).
Proof.
  intros [Hok Hap Hn Hh Ht Hr Hl Hhd] He HA Hfresh. split; cbn [insert_block ix_blocks_by_number
    ix_blocks_by_hash ix_transactions ix_receipts ix_logs_by_block ix_head_block].
  - intros n e' [[<- <-]|[? ?]]%lookup_insert_Some; eauto.
  - intros n n' e1 e2 [[<- <-]|[? H1]]%lookup_insert_Some [[<- <-]|[? H2]]%lookup_insert_Some Hne;
      [done|by eapply Hfresh| |by eapply Hap].
    destruct (Hfresh _ _ H1) as [Hf1 Hf2]. split; [congruence|set_solver].
  - by rewrite fmap_insert, Hn.
  - intros h b. rewrite (insert_keyed A _ e (fun e b => en_hash e = h /\ en_block e = b)) by done.
    rewrite lookup_insert_Some, Hh. unfold en_hash. split; [tauto|].
    intros [[? ?]|(n&e'&HA'&<-&?)]; [by left|right]. split; [|by eauto]. apply (Hfresh _ _ HA').
  - intros h tx. rewrite (insert_keyed A _ e (fun e tx => tx ∈ en_txs e /\ it_hash tx = h)) by done.
    rewrite insert_all_lookup by apply He. rewrite Ht. split; [tauto|].
    intros [?|(n&e'&HA'&Hin&<-)]; [by left|right]. split; [|by eauto].
    intros Hx. apply (proj2 (Hfresh _ _ HA') _ Hx). by apply list_elem_of_fmap_2.
  - intros h r. rewrite (insert_keyed A _ e (fun e r => r ∈ en_receipts e /\ ir_transaction_hash r = h)) by done.
    rewrite insert_all_lookup by (rewrite (ek_receipts _ He); apply He). rewrite Hr. split; [tauto|].
    intros [?|(n&e'&HA'&Hin&<-)]; [by left|right]. split; [|by eauto].
    rewrite (ek_receipts _ He). intros Hx. apply (proj2 (Hfresh _ _ HA') _ Hx).
    apply receipt_hash_tx; [by eapply Hok|done].
  - intros h l. rewrite (insert_keyed A _ e (fun e l => en_hash e = h /\ all_logs (en_receipts e) = l)) by done.
    rewrite lookup_insert_Some, Hl. unfold en_hash. split; [tauto|].
    intros [[? ?]|(n&e'&HA'&<-&?)]; [by left|right]. split; [|by eauto]. apply (Hfresh _ _ HA').
  - rewrite Hhd. destruct (Z.ltb_spec hd (ib_number (en_block e))); lia.
Qed.

(** The keys a pruning removes. *)
Definition pruned (ix : BlockIndex) (m : u64) : list (u64 * B256) :=
  filter (fun nh => nh.1 < m) (map_to_list (ix_blocks_by_number ix)).
Definition pruned_txs (ix : BlockIndex) (m : u64) : list B256 :=
  omap (fun nh => ix_blocks_by_hash ix !! nh.2) (pruned ix m) ≫= ib_transaction_hashes.

Lemma prune_before_eq ix m :
  prune_before ix m =
  mkIndex (delete_all (ix_blocks_by_hash ix) (pruned ix m).*2)
    (delete_all (ix_blocks_by_number ix) (pruned ix m).*1)
    (delete_all (ix_transactions ix) (pruned_txs ix m))
    (delete_all (ix_receipts ix) (pruned_txs ix m))
    (delete_all (ix_logs_by_block ix) (pruned ix m).*2) (ix_head_block ix).
Proof.
  unfold prune_before, pruned_txs. fold (pruned ix m).
  destruct (pruned ix m); [by destruct ix|done].
Qed.

Section Prune.
#[local] Set Default Proof Using "Type*".
Context (ix : BlockIndex) (A : gmap u64 Entry) (hd m : u64) (Hrep : represents ix A hd).

Lemma pruned_spec n h :
  (n, h) ∈ pruned ix m <-> n < m /\ exists e, A !! n = Some e /\ en_hash e = h.
Proof.
  unfold pruned. rewrite list_elem_of_filter, elem_of_map_to_list, (rp_number _ _ _ Hrep).
  rewrite lookup_fmap_Some. simpl. naive_solver.
Qed.

Lemma pruned_number n : n ∈ (pruned ix m).*1 <-> n < m /\ is_Some (A !! n).
Proof.
  rewrite list_elem_of_fmap. split.
  - intros ([n' h]&->&(Hlt&e&HA&_)%pruned_spec). simpl. split; [done|by exists e].
  - intros (Hlt&e&HA). exists (n, en_hash e). split; [done|]. apply pruned_spec. eauto.
Qed.

Lemma pruned_hash h :
  h ∈ (pruned ix m).*2 <-> exists n e, A !! n = Some e /\ en_hash e = h /\ n < m.
Proof.
  rewrite list_elem_of_fmap. split.
  - intros ([n h']&->&(Hlt&e&HA&?)%pruned_spec). eauto.
  - intros (n&e&HA&<-&Hlt). exists (n, en_hash e). split; [done|]. apply pruned_spec. eauto.
Qed.

Lemma pruned_txs_spec h :
  h ∈ pruned_txs ix m <-> exists n e, A !! n = Some e /\ h ∈ it_hash <$> en_txs e /\ n < m.
Proof.
  unfold pruned_txs. rewrite list_elem_of_bind. setoid_rewrite list_elem_of_omap. split.
  - intros (b&Hh&[n h']&(Hlt&e&HA&<-)%pruned_spec&Hb).
    exists n, e. split_and!; [done| |done].
    apply (rp_hash _ _ _ Hrep) in Hb as (n'&e'&HA'&Heq&<-).
    destruct (decide (n = n')) as [->|Hne].
    + simplify_eq. rewrite <- (ek_hashes e); [done|]. by eapply Hrep.
    + by destruct (rp_apart _ _ _ Hrep _ _ _ _ HA HA' Hne).
  - intros (n&e&HA&Hh&Hlt). exists (en_block e). split.
    + rewrite (ek_hashes e); [done|]. by eapply Hrep.
    + exists (n, en_hash e). split; [apply pruned_spec; eauto|]. apply Hrep. eauto.
Qed.

(** A key removed with the pruned blocks, where two blocks never share a key. *)
Lemma keyed_prune {X} (M : gmap Z X) (ks : list Z) (K : Entry -> Z -> Prop)
    (P : Entry -> Z -> X -> Prop) :
  (forall k x, M !! k = Some x <-> exists n e, A !! n = Some e /\ P e k x) ->
  (forall e k x, (exists n, A !! n = Some e) -> P e k x -> K e k) ->
  (forall n n' e e' k, A !! n = Some e -> A !! n' = Some e' -> K e k -> K e' k -> n = n') ->
  (forall k, k ∈ ks <-> exists n e, A !! n = Some e /\ K e k /\ n < m) ->
  forall k x, delete_all M ks !! k = Some x <->
    exists n e, filter (fun ne => m <= ne.1) A !! n = Some e /\ P e k x.
Proof.
  intros HM HPK Hinj Hks k x. rewrite delete_all_lookup.
  setoid_rewrite map_lookup_filter_Some. simpl. case_decide as Hk; rewrite ?HM.
  - split; [done|]. intros (n&e&[HA Hle]&HP). apply Hks in Hk as (n'&e'&HA'&HK&Hlt).
    assert (K e k) by (apply (HPK e k x); [by exists n|done]).
    assert (n = n') by (by apply (Hinj n n' e e' k)). lia.
  - split; [|naive_solver]. intros (n&e&HA&HP). exists n, e. split_and!; [done| |done].
    destruct (Z.le_gt_cases m n); [done|]. destruct Hk. apply Hks.
    exists n, e. split_and!; [done| |lia]. apply (HPK e k x); [by exists n|done].
Qed.

Lemma hash_unique n n' e e' :
  A !! n = Some e -> A !! n' = Some e' -> en_hash e = en_hash e' -> n = n'.
Proof.
  intros HA HA' Heq. destruct (decide (n = n')) as [|Hne]; [done|].
  by destruct (rp_apart _ _ _ Hrep _ _ _ _ HA HA' Hne).
Qed.

Lemma tx_unique n n' e e' h :
  A !! n = Some e -> A !! n' = Some e' ->
  h ∈ it_hash <$> en_txs e -> h ∈ it_hash <$> en_txs e' -> n = n'.
Proof.
  intros HA HA' H1 H2. destruct (decide (n = n')) as [|Hne]; [done|].
  by destruct (proj2 (rp_apart _ _ _ Hrep _ _ _ _ HA HA' Hne) h).
Qed.

Lemma represents_prune :
  represents (prune_before ix m) (filter (fun ne => m <= ne.1) A) hd.
Proof.
  rewrite prune_before_eq. split; cbn [ix_blocks_by_number
    ix_blocks_by_hash ix_transactions ix_receipts ix_logs_by_block ix_head_block].
  - intros n e [HA _]%map_lookup_filter_Some. by apply Hrep.
  - intros n n' e e' [HA _]%map_lookup_filter_Some [HA' _]%map_lookup_filter_Some.
    by apply (rp_apart _ _ _ Hrep).
  - apply map_eq. intros n. rewrite delete_all_lookup, (rp_number _ _ _ Hrep), !lookup_fmap.
    rewrite map_lookup_filter. case_decide as Hn; rewrite pruned_number in Hn.
    + destruct Hn as (Hlt&e&->). simpl. by rewrite option_guard_False by lia.
    + destruct (A !! n) as [e|] eqn:HA; [|done]. simpl.
      rewrite option_guard_True; [done|]. destruct (Z.le_gt_cases m n); [done|].
      destruct Hn. split; [lia|done].
  - apply keyed_prune with (K := fun e h => en_hash e = h); [apply Hrep|naive_solver| |apply pruned_hash].
    intros * ?? <- ?. by eapply hash_unique.
  - apply keyed_prune with (K := fun e h => h ∈ it_hash <$> en_txs e);
      [apply Hrep| |intros *; apply tx_unique|apply pruned_txs_spec].
    intros e k tx _ [? <-]. by apply list_elem_of_fmap_2.
  - apply keyed_prune with (K := fun e h => h ∈ it_hash <$> en_txs e);
      [apply Hrep| |intros *; apply tx_unique|apply pruned_txs_spec].
    intros e k r [n HA] [? <-]. apply receipt_hash_tx; [by eapply Hrep|done].
  - apply keyed_prune with (K := fun e h => en_hash e = h); [apply Hrep|naive_solver| |apply pruned_hash].
    intros * ?? <- ?. by eapply hash_unique.
  - apply Hrep.
Qed.
End Prune.

Lemma indexed_represents ix A hd : indexed ix A hd -> represents ix A hd.
Proof.
  induction 1; [apply represents_new|by apply represents_insert|by apply represents_prune].
Qed.

(** ** Queries *)

Lemma filter_bind {X Y} (P : Y -> Prop) `{!forall y, Decision (P y)} (f : X -> list Y) l :
  filter P (l ≫= f) = l ≫= fun x => filter P (f x).
Proof. induction l as [|x l IH]; [done|]. by rewrite !bind_cons, filter_app, IH. Qed.

Lemma sorted_key_inj {X} (f : X -> Z) l x y :
  StronglySorted Z.lt (f <$> l) -> x ∈ l -> y ∈ l -> f x = f y -> x = y.
Proof.
  induction l as [|z l IH]; [set_solver|]. simpl. intros [Hs Hz]%StronglySorted_inv.
  rewrite Forall_fmap, Forall_forall in Hz.
  intros [->|Hx]%elem_of_cons [->|Hy]%elem_of_cons Heq; [done| | |by apply IH].
  - specialize (Hz _ Hy). simpl in Hz. lia.
  - specialize (Hz _ Hx). simpl in Hz. lia.
Qed.

Section Queries.
#[local] Set Default Proof Using "Type*".
Context (ix : BlockIndex) (A : gmap u64 Entry) (hd : u64) (Hrep : represents ix A hd).

Lemma block_by_number_spec n : get_block_by_number ix n = en_block <$> A !! n.
Proof.
  unfold get_block_by_number. rewrite (rp_number _ _ _ Hrep), lookup_fmap.
  destruct (A !! n) as [e|] eqn:HA; simpl; [|done]. apply (rp_hash _ _ _ Hrep). eauto.
Qed.

Lemma block_txs_perm n e :
  A !! n = Some e ->
  filter (fun tx => it_block_hash tx = en_hash e) ((map_to_list (ix_transactions ix)).*2)
    ≡ₚ en_txs e.
Proof.
  intros HA. pose proof (proj2 (rp_ok _ _ _ Hrep _ _ HA)) as He. apply NoDup_Permutation.
  - apply NoDup_filter. apply NoDup_fmap_2_strong; [|apply NoDup_map_to_list].
    intros [h tx] [h' tx'] H1 H2 Heq. simpl in Heq. subst tx'.
    apply elem_of_map_to_list, (rp_txs _ _ _ Hrep) in H1 as (?&?&?&?&<-).
    by apply elem_of_map_to_list, (rp_txs _ _ _ Hrep) in H2 as (?&?&?&?&<-).
  - by eapply NoDup_fmap_1, ek_nodup.
  - intros tx. rewrite list_elem_of_filter, list_elem_of_fmap. split.
    + intros (Hb&[h tx']&->&(n'&e'&HA'&Hin&<-)%elem_of_map_to_list%(rp_txs _ _ _ Hrep)).
      simpl in *. pose proof (proj2 (rp_ok _ _ _ Hrep _ _ HA')) as He'.
      pose proof (proj1 (Forall_forall _ _) (ek_block _ He') _ Hin) as Hbh. simpl in Hbh.
      assert (n' = n) as -> by (eapply hash_unique; [done|exact HA'|exact HA|congruence]).
      by simplify_eq.
    + intros Hin. split; [by apply (proj1 (Forall_forall _ _) (ek_block _ He))|].
      exists (it_hash tx, tx). split; [done|]. apply elem_of_map_to_list, Hrep. eauto.
Qed.

Lemma block_txs_spec n e :
  A !! n = Some e -> get_transactions_for_block ix (en_hash e) = en_txs e.
Proof.
  intros HA. pose proof (ek_index _ (proj2 (rp_ok _ _ _ Hrep _ _ HA))) as Hs.
  unfold get_transactions_for_block.
  apply (StronglySorted_unique_strong (cmp_le (cmp_on it_index Z.compare))).
  - intros x y Hx Hy H1 H2. rewrite sort_by_perm, (block_txs_perm n) in Hx by done.
    apply (sorted_key_inj it_index (en_txs e)); [done..|]. unfold cmp_le, cmp_on in H1, H2.
    rewrite Z.compare_ngt_iff in H1, H2. lia.
  - apply sort_by_sorted, _.
  - clear HA. induction (en_txs e) as [|x l IH]; [constructor|]. simpl in Hs.
    apply StronglySorted_inv in Hs as [Hs Hx]. constructor; [by apply IH|].
    rewrite Forall_fmap in Hx. eapply Forall_impl; [exact Hx|]. intros y Hy.
    unfold cmp_le, cmp_on. simpl in Hy. rewrite Z.compare_ngt_iff. lia.
  - by rewrite sort_by_perm, (block_txs_perm n).
Qed.

Lemma logs_of_block n :
  match ix_blocks_by_number ix !! n with
  | None => []
  | Some hash => default [] (ix_logs_by_block ix !! hash)
  end = from_option (fun e => all_logs (en_receipts e)) [] (A !! n).
Proof.
  rewrite (rp_number _ _ _ Hrep), lookup_fmap. destruct (A !! n) as [e|] eqn:HA; simpl; [|done].
  by rewrite (proj2 (rp_logs _ _ _ Hrep _ (all_logs (en_receipts e)))) by eauto.
Qed.

Lemma get_logs_spec f :
  get_logs ix f = filter (fun log => matches_filter log f = true)
    (retained_logs A (default 0 (lf_from_block f)) (Z.min (default hd (lf_to_block f)) hd)).
Proof.
  unfold get_logs, retained_logs, head_block_number. rewrite (rp_head _ _ _ Hrep).
  rewrite filter_bind. apply list_bind_ext; [|done]. intros n.
  rewrite <- logs_of_block. destruct (ix_blocks_by_number ix !! n); [|done].
  by destruct (ix_logs_by_block ix !! _).
Qed.

Lemma recent_hashes_fold ns (M : gmap u64 B256) n :
  foldl (fun m n => match ix_blocks_by_number ix !! n with
                    | Some hash => <[n := hash]> m
                    | None => m
                    end) M ns !! n =
  if decide (n ∈ ns) then match A !! n with Some e => Some (en_hash e) | None => M !! n end
  else M !! n.
Proof.
  rewrite (rp_number _ _ _ Hrep). revert M. induction ns as [|k ns IH]; intros M; [done|].
  simpl. rewrite IH, lookup_fmap. destruct (A !! k) as [e|] eqn:HA; simpl.
  - rewrite lookup_insert. repeat case_decide; subst; rewrite ?HA; try done; set_solver.
  - repeat case_decide; subst; rewrite ?HA; try done; try set_solver.
    assert (n = k) as -> by set_solver. by rewrite HA.
Qed.

Lemma recent_hashes_spec head n :
  0 <= head ->
  recent_block_hashes ix head !! n =
  if bool_decide (head - 256 <= n < head /\ 0 <= n) then en_hash <$> A !! n else None.
Proof.
  intros Hh. unfold recent_block_hashes. rewrite recent_hashes_fold, lookup_empty.
  assert (n ∈ seqZ (saturating_sub head (Z.min head 256)) (head - saturating_sub head (Z.min head 256))
    <-> head - 256 <= n < head /\ 0 <= n) as Hiff.
  { rewrite elem_of_seqZ. unfold saturating_sub. lia. }
  case_decide as Hd; rewrite Hiff in Hd;
    [rewrite bool_decide_true by done|by rewrite bool_decide_false by done].
  by destruct (A !! n).
Qed.

Lemma block_count_spec : block_count ix = Z.of_nat (size A).
Proof.
  unfold block_count. f_equal. rewrite <- !length_map_to_list.
  assert (map_to_list (ix_blocks_by_hash ix) ≡ₚ
    (fun ne => (en_hash ne.2, en_block ne.2)) <$> map_to_list A) as Hp.
  { apply NoDup_Permutation; [apply NoDup_map_to_list| |].
    - apply NoDup_fmap_2_strong; [|apply NoDup_map_to_list].
      intros [n e] [n' e'] HA%elem_of_map_to_list HA'%elem_of_map_to_list [= Heq _].
      assert (n = n') as -> by (by eapply hash_unique). congruence.
    - intros [h b]. rewrite elem_of_map_to_list, (rp_hash _ _ _ Hrep), list_elem_of_fmap. split.
      + intros (n&e&HA&<-&<-). exists (n, e). by rewrite elem_of_map_to_list.
      + intros ([n e]&[= -> ->]&HA%elem_of_map_to_list). eauto. }
  by rewrite Hp, length_fmap.
Qed.
End Queries.

(** C16: the block index answers as the map of the blocks it retains, after any
    run of insertions (of blocks that share no number, hash or transaction with
    a retained one) and prunings: blocks by number and by hash, a block's
    transactions in the order of their index, transactions and receipts by
    hash, nothing for what was never inserted or has been pruned, the logs a
    filter selects in block order, the last 256 hashes below a head, and the
    counts and the head. *)
Theorem index_refines ix A hd :
  indexed ix A hd ->
  (forall n, get_block_by_number ix n = en_block <$> A !! n) /\
  (forall h b, get_block_by_hash ix h = Some b <->
    exists n e, A !! n = Some e /\ en_hash e = h /\ en_block e = b) /\
  (forall n e, A !! n = Some e -> get_transactions_for_block ix (en_hash e) = en_txs e) /\
  (forall h tx, get_transaction ix h = Some tx <->
    exists n e, A !! n = Some e /\ tx ∈ en_txs e /\ it_hash tx = h) /\
  (forall h r, get_receipt ix h = Some r <->
    exists n e, A !! n = Some e /\ r ∈ en_receipts e /\ ir_transaction_hash r = h) /\
  (forall f, get_logs ix f = filter (fun log => matches_filter log f = true)
    (retained_logs A (default 0 (lf_from_block f)) (Z.min (default hd (lf_to_block f)) hd))) /\
  (forall head n, 0 <= head -> recent_block_hashes ix head !! n =
    if bool_decide (head - 256 <= n < head /\ 0 <= n) then en_hash <$> A !! n else None) /\
  block_count ix = Z.of_nat (size A) /\ head_block_number ix = hd.
Proof.
  intros Hrep%indexed_represents. split_and!.
  - by apply block_by_number_spec with hd.
  - apply Hrep.
  - by apply block_txs_spec with hd.
  - apply Hrep.
  - apply Hrep.
  - by apply get_logs_spec.
  - by apply recent_hashes_spec with hd.
  - by apply block_count_spec with hd.
  - apply Hrep.
Qed.

(** Two blocks of one transaction each; the first pruned away. *)
Definition demo_entry (n : u64) : Entry :=
  mkEntry
    (mkIBlock (100 + n) n (99 + n) 0 0 0 n 30000000 21000 (Some 7) 0 0 0 [200 + n])
    [mkITx (200 + n) (100 + n) n 0 1 (Some 2) 5 21000 7 0 None None None 27 1 1 [] n]
    [mkIReceipt (200 + n) (100 + n) n 0 1 (Some 2) 21000 21000 None
       [mkILog 2 [300 + n] [] 0 n (100 + n) (200 + n) 0] 0 0 7 true].

Lemma demo_entry_ok n : entry_ok (demo_entry n).
Proof. split; simpl; repeat constructor; set_solver. Qed.

Lemma index_refines_witness :
  exists ix A, indexed ix A 2 /\ get_block_by_number ix 1 = None /\
    get_block_by_number ix 2 = Some (en_block (demo_entry 2)) /\
    get_logs ix (filter_topic LogFilter_new 0 [302]) = all_logs (en_receipts (demo_entry 2)).
Proof.
  assert (indexed (prune_before (insert_block (insert_block index_new
      (en_block (demo_entry 1)) (en_txs (demo_entry 1)) (en_receipts (demo_entry 1)))
      (en_block (demo_entry 2)) (en_txs (demo_entry 2)) (en_receipts (demo_entry 2))) 2)
    (filter (fun ne => 2 <= ne.1) (<[2 := demo_entry 2]> (<[1 := demo_entry 1]> ∅))) 2) as Hi.
  { apply (indexed_prune _ _ _ 2).
    apply (indexed_insert _ _ 1 (demo_entry 2)); [|apply demo_entry_ok|done|].
    - apply (indexed_insert _ _ 0 (demo_entry 1)); [apply indexed_new|apply demo_entry_ok|done|].
      intros n e. by rewrite lookup_empty.
    - intros n e [[<- <-]|[_ He]]%lookup_insert_Some; [|by rewrite lookup_empty in He].
      split; [done|]. simpl. set_solver. }
  eexists _, _. split; [exact Hi|].
  pose proof (index_refines _ _ _ Hi) as (Hn&_&_&_&_&Hl&_).
  rewrite !Hn, Hl. split_and!; vm_compute; reflexivity.
Defined.
