(* ===== verification/Reporters.v ===== *)
(** The consensus reporters (crates/node/reporters/src/lib.rs and gc_log.rs):
    seeds, node state, and the finalization of blocks, which executes and
    persists them, indexes them for the RPC, acknowledges them and prunes the
    mempool.  Also the block context of the runner
    (crates/node/runner/src/runner.rs, [RevmContextProvider]).  Logging,
    timing and metrics are left out. *)
From S2P Require Import Prelude TxTypes SenderQueue Pool StateDb Changes StateRoot Executor Execute.
From S2P Require Import Layers Codec Block Snapshots QmdbLedger Ledger NodeState App Indexer.

(** ** Third-party code of the indexing *)

Inductive ReceiptEnvelope : Type :=
| ReLegacy (status : bool) (cumulative_gas_used : u64) (logs : list Log) (bloom : Z)
| ReEip2930 (status : bool) (cumulative_gas_used : u64) (logs : list Log) (bloom : Z)
| ReEip1559 (status : bool) (cumulative_gas_used : u64) (logs : list Log) (bloom : Z)
| ReEip4844 (status : bool) (cumulative_gas_used : u64) (logs : list Log) (bloom : Z)
| ReEip7702 (status : bool) (cumulative_gas_used : u64) (logs : list Log) (bloom : Z).

(** alloy's trie roots, bloom filter and EIP-155 values. *)
Class AlloyConsensus := {
  calculate_transaction_root : list TxEnvelope -> B256;
  calculate_receipt_root : list ReceiptEnvelope -> B256;
  logs_bloom : list Log -> Z;
  to_eip155_value : bool -> option u64 -> u128;
}.

Definition env_signature (e : TxEnvelope) : Signature :=
  match e with
  | Legacy _ sg | Eip2930 _ sg | Eip1559 _ sg | Eip4844 _ sg | Eip7702 _ sg => sg
  end.

(** ** Transaction metadata *)

Record TxMetadata := mkMetadata {
  tm_from : Address; tm_to : option Address; tm_value : U256; tm_gas_limit : u64;
  tm_gas_price : u128; tm_tx_type : Z; tm_chain_id : option u64;
  tm_max_fee_per_gas : option u128; tm_max_priority_fee_per_gas : option u128;
  tm_v : u128; tm_r : U256; tm_s : U256; tm_input : bytes; tm_nonce : u64;
}.

Definition transaction_type (e : TxEnvelope) : Z :=
  match e with
  | Legacy _ _ => 0
  | Eip2930 _ _ => 1
  | Eip1559 _ _ => 2
  | Eip4844 _ _ => 3
  | Eip7702 _ _ => 4
  end.

Definition transaction_gas_price (e : TxEnvelope) : u128 :=
  match e with
  | Legacy tx _ => leg_gas_price tx
  | Eip2930 tx _ => e2930_gas_price tx
  | Eip1559 tx _ => e1559_max_fee_per_gas tx
  | Eip4844 tx _ => e4844_max_fee_per_gas tx
  | Eip7702 tx _ => e7702_max_fee_per_gas tx
  end.

Definition max_fee_per_gas (e : TxEnvelope) : option u128 :=
  match e with
  | Legacy _ _ | Eip2930 _ _ => None
  | Eip1559 tx _ => Some (e1559_max_fee_per_gas tx)
  | Eip4844 tx _ => Some (e4844_max_fee_per_gas tx)
  | Eip7702 tx _ => Some (e7702_max_fee_per_gas tx)
  end.

Definition max_priority_fee_per_gas (e : TxEnvelope) : option u128 :=
  match e with
  | Legacy _ _ | Eip2930 _ _ => None
  | Eip1559 tx _ => Some (e1559_max_priority_fee_per_gas tx)
  | Eip4844 tx _ => Some (e4844_max_priority_fee_per_gas tx)
  | Eip7702 tx _ => Some (e7702_max_priority_fee_per_gas tx)
  end.

Definition receipt_effective_gas_price (m : TxMetadata) (base_fee_per_gas : option u64) : u128 :=
  match tm_max_fee_per_gas m with
  | None => tm_gas_price m
  | Some max_fee =>
      match base_fee_per_gas with
      | None => max_fee
      | Some base_fee =>
          let priority_fee := default 0 (tm_max_priority_fee_per_gas m) in
          Z.min max_fee (saturating_add u128_max base_fee priority_fee)
      end
  end.

Section indexing.
Context `{EXT : !External} `{CD : !Codec} `{AC : !AlloyConsensus}.

Definition signature_v (e : TxEnvelope) : u128 :=
  let y_parity := sig_v (env_signature e) in
  match e with
  | Legacy tx _ => to_eip155_value y_parity (leg_chain_id tx)
  | _ => if y_parity then 1 else 0
  end.

Definition decode_tx_metadata (raw : bytes) : option TxMetadata :=
  match decode_2718 raw with
  | Err _ => None
  | Ok e =>
      match recover_address e with
      | None => None
      | Some from =>
          let sg := env_signature e in
          Some (mkMetadata from (env_to e) (env_value e) (env_gas_limit e)
                  (transaction_gas_price e) (transaction_type e) (env_chain_id e)
                  (max_fee_per_gas e) (max_priority_fee_per_gas e) (signature_v e) (sig_r sg)
                  (sig_s sg) (env_input e) (env_nonce e))
      end
  end.

Definition receipt_envelope (r : ExecutionReceipt) (m : TxMetadata) : ReceiptEnvelope :=
  let bloom := logs_bloom (er_logs r) in
  let mk (c : bool -> u64 -> list Log -> Z -> ReceiptEnvelope) :=
    c (er_success r) (er_cumulative_gas_used r) (er_logs r) bloom in
  if tm_tx_type m =? 0 then mk ReLegacy
  else if tm_tx_type m =? 1 then mk ReEip2930
  else if tm_tx_type m =? 2 then mk ReEip1559
  else if tm_tx_type m =? 3 then mk ReEip4844
  else if tm_tx_type m =? 4 then mk ReEip7702
  else mk ReLegacy.

(** The transactions that decode, from position [idx] on. *)
Fixpoint index_txs (b : Block) (idx : u64) (txs : list Tx) (metadata : list (option TxMetadata))
    : list IndexedTransaction :=
  match txs, metadata with
  | tx :: txs, m :: metadata =>
      let rest := index_txs b (idx + 1) txs metadata in
      match m with
      | None => rest
      | Some m =>
          mkITx (keccak256 (tx_bytes tx)) (block_id b) (b_height b) idx (tm_from m) (tm_to m)
            (tm_value m) (tm_gas_limit m) (tm_gas_price m) (tm_tx_type m) (tm_chain_id m)
            (tm_max_fee_per_gas m) (tm_max_priority_fee_per_gas m) (tm_v m) (tm_r m) (tm_s m)
            (tm_input m) (tm_nonce m) :: rest
      end
  | _, _ => []
  end.

(** The logs of one receipt, numbered from [next] on. *)
Fixpoint index_logs (b : Block) (transaction_hash : B256) (transaction_index next : u64)
    (logs : list Log) : list IndexedLog :=
  match logs with
  | [] => []
  | l :: logs =>
      mkILog (log_address l) (log_topics l) (log_data l) next (b_height b) (block_id b)
        transaction_hash transaction_index
      :: index_logs b transaction_hash transaction_index (next + 1) logs
  end.

(** The receipts whose transaction decodes; the log index runs through the
    block. *)
Fixpoint index_receipts (b : Block) (base_fee : option u64) (idx next : u64)
    (receipts : list ExecutionReceipt) (metadata : list (option TxMetadata))
    : list IndexedReceipt :=
  match receipts, metadata with
  | r :: receipts, m :: metadata =>
      match m with
      | None => index_receipts b base_fee (idx + 1) next receipts metadata
      | Some m =>
          mkIReceipt (er_tx_hash r) (block_id b) (b_height b) idx (tm_from m) (tm_to m)
            (er_cumulative_gas_used r) (er_gas_used r) (er_contract_address r)
            (index_logs b (er_tx_hash r) idx next (er_logs r)) (logs_bloom (er_logs r))
            (tm_tx_type m) (receipt_effective_gas_price m base_fee) (er_success r)
          :: index_receipts b base_fee (idx + 1) (next + len (er_logs r)) receipts metadata
      end
  | _, _ => []
  end.

(** What [index_finalized_block] inserts. *)
Definition block_entry (b : Block) (ctx : BlockContext) (o : ExecutionOutcome) : Entry :=
  let transaction_hashes := (fun tx => keccak256 (tx_bytes tx)) <$> b_txs b in
  let metadata := (fun tx => decode_tx_metadata (tx_bytes tx)) <$> b_txs b in
  let tx_bytes_total :=
    foldl (fun n tx => wrapping_add u64_max n (len (tx_bytes tx))) 0 (b_txs b) in
  let block_size := wrapping_add u64_max 508 tx_bytes_total in
  let transactions_root :=
    calculate_transaction_root (omap (fun tx => ok (decode_2718 (tx_bytes tx))) (b_txs b)) in
  let receipts_root :=
    calculate_receipt_root
      (omap (fun rm => m ← rm.2; Some (receipt_envelope rm.1 m)) (zip (eo_receipts o) metadata)) in
  let txs := index_txs b 0 (b_txs b) metadata in
  let receipts :=
    index_receipts b (hd_base_fee_per_gas (bc_header ctx)) 0 0 (eo_receipts o) metadata in
  let bloom := foldl (fun acc r => Z.lor acc (ir_logs_bloom r)) 0 receipts in
  mkEntry
    (mkIBlock (block_id b) (b_height b) (b_parent b) (b_state_root b) transactions_root
       receipts_root (b_timestamp b) (hd_gas_limit (bc_header ctx)) (eo_gas_used o)
       (hd_base_fee_per_gas (bc_header ctx)) (b_prevrandao b) bloom block_size transaction_hashes)
    txs receipts.

Definition index_finalized_block (ix : BlockIndex) (b : Block) (ctx : BlockContext)
    (o : ExecutionOutcome) : BlockIndex :=
  let e := block_entry b ctx o in insert_block ix (en_block e) (en_txs e) (en_receipts e).

(** [publish_mempool_inclusions]: to the subscribers, if there is a channel. *)
Definition publish_mempool_inclusions (sender : option (list MempoolEvent)) (b : Block)
    : option (list MempoolEvent) :=
  sent ← sender;
  Some (sent ++ ((fun tx => TxIncluded (keccak256 (tx_bytes tx)) (b_height b) (block_id b))
                   <$> b_txs b)).
End indexing.

(** [SelfdestructGcLog::record]: the lines of the log. *)
Definition gc_record (log : list (u64 * Address)) (block_height : u64) (addresses : list Address)
    : list (u64 * Address) :=
  log ++ ((fun a => (block_height, a)) <$> addresses).

(** ** Activity of the consensus engine

    The certificate of a proposal: its payload, its view, its encoded seed. *)
Record Certificate := mkCertificate { ce_payload : Digest; ce_view : u64; ce_seed : bytes }.

Inductive Activity : Type :=
| Notarize
| Notarization (c : Certificate)
| Certification
| Nullify
| Nullification
| Finalize
| Finalization (c : Certificate)
| ConflictingNotarize
| ConflictingFinalize
| NullifyFinalize.

(** [NodeStateReporter::report]. *)
Definition node_state_report (s : NodeState) (a : Activity) : NodeState :=
  match a with
  | Notarization n => set_view s (ce_view n)
  | Finalization f => inc_finalized (set_view s (ce_view f))
  | Nullification => inc_nullified s
  | ConflictingNotarize | ConflictingFinalize | NullifyFinalize => inc_equivocations s
  | Notarize | Certification | Nullify | Finalize => s
  end.

(** ** Finalization *)

Definition MAX_FINALIZATION_ATTEMPTS : nat := 3.
Definition DEFAULT_REPORTER_CHECKPOINT_INTERVAL : u64 := 1.
Definition MAX_PARENT_RETRIES : nat := 3.

Inductive FinalizationError : Type :=
| ExecutionFailed (e : ExecutionError)
| RootComputationFailed (e : LedgerError)
| StateRootMismatch (expected computed : B256)
| PersistTaskFailed (e : string)
| PersistFailed (e : LedgerError).

Definition is_retryable (e : FinalizationError) : bool :=
  match e with
  | StateRootMismatch _ _ => false
  | ExecutionFailed _ | RootComputationFailed _ | PersistTaskFailed _ | PersistFailed _ => true
  end.

Definition is_checkpoint (checkpoint_interval height : u64) : bool :=
  (checkpoint_interval <=? 1) || (height `mod` checkpoint_interval =? 0).

(** The trait [BlockContextProvider].  A provider that reads the block index
    shares it with the reporter, so that the index is an argument; [None] is a
    panic. *)
Class BlockContextProvider (P : Type) := {
  provider_context : P -> BlockIndex -> Block -> option BlockContext;
}.

Section finalization.
Context `{EXT : !External} `{CD : !Codec} `{SH : !Sha256} `{AC : !AlloyConsensus}.
Context {E H P Ack : Type} `{DB : !LedgerDb H} `{BE : !BlockExecutor E (OverlayState H)}
        `{BP : !BlockContextProvider P}.

Notation Service := (LedgerService (H := H)).

Definition on_view (f : LedgerState H -> LedgerState H) (sv : Service) : Service :=
  mkService (f (lsv_view sv)) (lsv_events sv).

(** [seed_report_inner]. *)
Definition seed_report (sv : Service) (a : Activity) : Service :=
  match a with
  | Notarization c | Finalization c => service_set_seed sv (ce_payload c) (keccak256 (ce_seed c))
  | _ => sv
  end.

(** What happens around an attempt: what other tasks do to the ledger during
    each sleep for the parent's snapshot, whether the runtime drops the persist
    task before it runs, and what other tasks do before the next attempt. *)
Record Around := mkAround {
  ar_sleep : nat -> Service -> Service;
  ar_dropped : option string;
  ar_backoff : Service -> Service;
}.

(** The retries of the parent's snapshot, from sleep [i] on. *)
Fixpoint await_parent (ar : Around) (n i : nat) (sv : Service) (parent : Digest)
    : Service * option LedgerSnapshot :=
  match n with
  | O => (sv, None)
  | S n =>
      let sv := ar_sleep ar i sv in
      match parent_snapshot (lsv_view sv) parent with
      | Some sn => (sv, Some sn)
      | None => await_parent ar n (S i) sv parent
      end
  end.

(** Execution on the parent's snapshot, the check of the root, and the
    snapshot of the block unless it is there. *)
Definition replay_block (ex : E) (ctx : BlockContext) (sv : Service) (sn : LedgerSnapshot)
    (b : Block) (snapshot_exists : bool)
    : Service * result ExecutionOutcome FinalizationError :=
  let parent := parent_digest b in
  let ls := lsv_view sv in
  match be_execute ex (overlay_of ls (sn_state sn)) ctx (tx_bytes <$> b_txs b) with
  | Err e => (sv, Err (ExecutionFailed e))
  | Ok o =>
      match compute_root_from_store ls parent (eo_changes o) with
      | Err e => (sv, Err (RootComputationFailed e))
      | Ok root =>
          if negb (root =? b_state_root b)
          then (sv, Err (StateRootMismatch (b_state_root b) root))
          else if snapshot_exists then (sv, Ok o)
          else
            let merged := overlay_merge_changes (overlay_of ls (sn_state sn)) (eo_changes o) in
            (on_view (fun ls => insert_snapshot ls (commitment b) parent merged root
                                  (eo_changes o) (b_txs b)) sv, Ok o)
      end
  end.

(** The part of [finalize_block] before the persist.  The option is a panic of
    the provider. *)
Definition finalize_execute (ar : Around) (ex : E) (pr : P) (ix : option BlockIndex)
    (sv : Service) (b : Block)
    : option (Service * result (option (ExecutionOutcome * BlockContext)) FinalizationError) :=
  let d := commitment b in
  let snapshot_exists := is_some (query_state_root (lsv_view sv) d) in
  if snapshot_exists && negb (is_some ix) then Some (sv, Ok None)
  else
    let parent := parent_digest b in
    let '(sv, found) :=
      match parent_snapshot (lsv_view sv) parent with
      | Some sn => (sv, Some sn)
      | None =>
          if snapshot_exists then (sv, None)
          else await_parent ar MAX_PARENT_RETRIES 1 sv parent
      end in
    match found with
    | Some sn =>
        ctx ← provider_context pr (default index_new ix) b;
        Some
          match replay_block ex ctx sv sn b snapshot_exists with
          | (sv, Err e) => (sv, Err e)
          | (sv, Ok o) => (sv, Ok (Some (o, ctx)))
          end
    | None =>
        if snapshot_exists then Some (sv, Ok None)
        else Some (on_view (fun ls => restore_persisted_snapshot ls b) sv, Ok None)
    end.

(** [finalize_block].  The option is also the fuel of the walk of the persist. *)
Definition finalize_block (ar : Around) (ex : E) (pr : P) (ix : option BlockIndex)
    (persist_checkpoint : bool) (sv : Service) (b : Block)
    : option (Service * result (option (ExecutionOutcome * BlockContext)) FinalizationError) :=
  r ← finalize_execute ar ex pr ix sv b;
  match r with
  | (sv, Err e) => Some (sv, Err e)
  | (sv, Ok executed) =>
      if negb persist_checkpoint then Some (sv, Ok executed)
      else
        match ar_dropped ar with
        | Some msg => Some (sv, Err (PersistTaskFailed msg))
        | None =>
            r ← service_persist_snapshot sv (commitment b);
            Some
              match r with
              | (sv, Err e) => (sv, Err (PersistFailed e))
              | (sv, Ok _) => (sv, Ok executed)
              end
        end
  end.

(** [finalize_with_retry], with [left] attempts to go. *)
Fixpoint finalize_with_retry (ars : nat -> Around) (ex : E) (pr : P) (ix : option BlockIndex)
    (persist_checkpoint : bool) (attempt left : nat) (sv : Service) (b : Block)
    : option (Service * result (option (ExecutionOutcome * BlockContext)) FinalizationError) :=
  match left with
  | O => None
  | S left' =>
      r ← finalize_block (ars attempt) ex pr ix persist_checkpoint sv b;
      match r with
      | (sv, Ok executed) => Some (sv, Ok executed)
      | (sv, Err e) =>
          if is_retryable e && Nat.ltb 0 left'
          then finalize_with_retry ars ex pr ix persist_checkpoint (S attempt) left'
                 (ar_backoff (ars attempt) sv) b
          else Some (sv, Err e)
      end
  end.

Record FinalizedReporter := mkReporter {
  fr_state : Service;
  fr_executor : E;
  fr_provider : P;
  fr_block_index : option BlockIndex;
  fr_mempool_broadcast : option (list MempoolEvent);
  fr_gc_log : option (list (u64 * Address));
  fr_checkpoint_interval : u64;
  fr_pending_acks : list Ack;
  fr_acknowledged : list Ack;
  fr_node_state : option NodeState;
}.

Definition reporter_new (sv : Service) (ex : E) (pr : P) : FinalizedReporter :=
  mkReporter sv ex pr None None None DEFAULT_REPORTER_CHECKPOINT_INTERVAL [] [] None.

Definition with_block_index (fr : FinalizedReporter) (ix : BlockIndex) : FinalizedReporter :=
  mkReporter (fr_state fr) (fr_executor fr) (fr_provider fr) (Some ix) (fr_mempool_broadcast fr)
    (fr_gc_log fr) (fr_checkpoint_interval fr) (fr_pending_acks fr) (fr_acknowledged fr)
    (fr_node_state fr).

Definition with_checkpoint_interval (fr : FinalizedReporter) (interval : u64)
    : FinalizedReporter :=
  mkReporter (fr_state fr) (fr_executor fr) (fr_provider fr) (fr_block_index fr)
    (fr_mempool_broadcast fr) (fr_gc_log fr) (if interval =? 0 then 1 else interval)
    (fr_pending_acks fr) (fr_acknowledged fr) (fr_node_state fr).

Definition with_mempool_broadcast (fr : FinalizedReporter) (sent : list MempoolEvent)
    : FinalizedReporter :=
  mkReporter (fr_state fr) (fr_executor fr) (fr_provider fr) (fr_block_index fr) (Some sent)
    (fr_gc_log fr) (fr_checkpoint_interval fr) (fr_pending_acks fr) (fr_acknowledged fr)
    (fr_node_state fr).

Definition with_gc_log (fr : FinalizedReporter) (log : list (u64 * Address)) : FinalizedReporter :=
  mkReporter (fr_state fr) (fr_executor fr) (fr_provider fr) (fr_block_index fr)
    (fr_mempool_broadcast fr) (Some log) (fr_checkpoint_interval fr) (fr_pending_acks fr)
    (fr_acknowledged fr) (fr_node_state fr).

Definition reporter_with_node_state (fr : FinalizedReporter) (s : NodeState) : FinalizedReporter :=
  mkReporter (fr_state fr) (fr_executor fr) (fr_provider fr) (fr_block_index fr)
    (fr_mempool_broadcast fr) (fr_gc_log fr) (fr_checkpoint_interval fr) (fr_pending_acks fr)
    (fr_acknowledged fr) (Some s).

(** [acknowledge_checkpoint]: the pending and the delivered acknowledgements. *)
Definition acknowledge_checkpoint (pending delivered : list Ack) (height checkpoint_interval : u64)
    (ack : Ack) : list Ack * list Ack :=
  if is_checkpoint checkpoint_interval height then ([], delivered ++ pending ++ [ack])
  else (pending ++ [ack], delivered).

Inductive Update : Type :=
| UTip
| UBlock (b : Block) (ack : Ack).

(** The index after a block was executed. *)
Definition index_after (ix : option BlockIndex) (b : Block)
    (executed : option (ExecutionOutcome * BlockContext)) : option BlockIndex :=
  match executed with
  | None => ix
  | Some (o, ctx) =>
      ix ← ix;
      let ix := index_finalized_block ix b ctx o in
      let min_height := saturating_sub (b_height b) MAX_RETAINED_BLOCKS in
      Some (if 0 <? min_height then prune_before ix min_height else ix)
  end.

Definition gc_log_after (log : option (list (u64 * Address))) (b : Block)
    (executed : option (ExecutionOutcome * BlockContext)) : option (list (u64 * Address)) :=
  match executed with
  | None => log
  | Some (o, _) =>
      if bool_decide (eo_selfdestructed_addresses o = []) then log
      else log ← log; Some (gc_record log (b_height b) (eo_selfdestructed_addresses o))
  end.

(** [handle_finalized_update], and whether it aborts the process. *)
Definition handle_finalized_update (ars : nat -> Around) (fr : FinalizedReporter) (u : Update)
    : option (FinalizedReporter * bool) :=
  match u with
  | UTip => Some (fr, false)
  | UBlock b ack =>
      let node_state := (fun s => set_finalized_height s (b_height b)) <$> fr_node_state fr in
      let persist_checkpoint := is_checkpoint (fr_checkpoint_interval fr) (b_height b) in
      r ← finalize_with_retry ars (fr_executor fr) (fr_provider fr) (fr_block_index fr)
            persist_checkpoint 0 MAX_FINALIZATION_ATTEMPTS (fr_state fr) b;
      let '(sv, r) := r in
      match r with
      | Err _ =>
          Some (mkReporter (on_view (fun ls => prune_mempool ls (b_txs b)) sv) (fr_executor fr)
                  (fr_provider fr) (fr_block_index fr) (fr_mempool_broadcast fr) (fr_gc_log fr)
                  (fr_checkpoint_interval fr) (fr_pending_acks fr) (fr_acknowledged fr) node_state,
                true)
      | Ok executed =>
          let '(pending, delivered) :=
            acknowledge_checkpoint (fr_pending_acks fr) (fr_acknowledged fr) (b_height b)
              (fr_checkpoint_interval fr) ack in
          let sv := on_view (fun ls => prune_mempool ls (b_txs b)) sv in
          let sv := on_view prune_stale_nonces sv in
          Some (mkReporter sv (fr_executor fr) (fr_provider fr)
                  (index_after (fr_block_index fr) b executed)
                  (publish_mempool_inclusions (fr_mempool_broadcast fr) b)
                  (gc_log_after (fr_gc_log fr) b executed) (fr_checkpoint_interval fr)
                  pending delivered node_state, false)
      end
  end.
End finalization.

(** ** The block context of the runner *)

Record RevmContextProvider := mkContextProvider {
  cp_gas_limit : u64;
  cp_fee_recipient : Address;
}.

(** [RevmContextProvider::context]; [None] is the panic of the base fee. *)
Definition revm_context (pr : RevmContextProvider) (ix : BlockIndex) (b : Block)
    : option BlockContext :=
  base_fee ←
    (if b_height b =? 0 then Some INITIAL_BASE_FEE
     else match get_block_by_number ix (b_height b - 1) with
          | None => Some INITIAL_BASE_FEE
          | Some parent =>
              calculate_base_fee (default INITIAL_BASE_FEE (ib_base_fee_per_gas parent))
                (ib_gas_used parent) (ib_gas_limit parent) BaseFeeParams_DEFAULT
          end);
  Some (with_recent_block_hashes
          (BlockContext_new
             (mkHeader 0 (cp_fee_recipient pr) (b_height b) (cp_gas_limit pr) 0 (b_timestamp b)
                (Some base_fee)) 0 (b_prevrandao b))
          (recent_block_hashes ix (b_height b))).

#[export] Instance revm_provider : BlockContextProvider RevmContextProvider :=
  {| provider_context := revm_context |}.

(** ** What is indexed *)

Section entries.
Context `{EXT : !External} `{CD : !Codec} `{AC : !AlloyConsensus}.

Definition tx_hashes (txs : list Tx) : list B256 := (fun tx => keccak256 (tx_bytes tx)) <$> txs.

Lemma index_txs_spec b idx txs ms :
  Forall is_Some ms -> length ms = length txs ->
  it_hash <$> index_txs b idx txs ms = tx_hashes txs
  /\ Forall (fun tx => it_block_hash tx = block_id b) (index_txs b idx txs ms)
  /\ StronglySorted Z.lt (it_index <$> index_txs b idx txs ms)
  /\ Forall (fun i => idx <= i) (it_index <$> index_txs b idx txs ms).
Proof.
  revert idx ms. induction txs as [|tx txs IH]; intros idx [|m ms] Hs Hl; cbn [index_txs length] in *; try lia.
  { split_and!; [done|constructor|constructor|constructor]. }
  apply Forall_cons in Hs as [[m' ->] Hs].
  destruct (IH (idx + 1) ms Hs ltac:(lia)) as (Hh & Hb & Hss & Hge).
  cbv zeta. unfold tx_hashes in *. rewrite !fmap_cons. cbn [it_hash it_index]. split_and!.
  - by rewrite Hh.
  - by constructor.
  - constructor; [done|]. eapply Forall_impl; [exact Hge|]. intros i Hi. simpl in Hi. lia.
  - constructor; [lia|]. eapply Forall_impl; [exact Hge|]. intros i Hi. simpl in Hi. lia.
Qed.

Lemma index_receipts_hashes b fee idx next rs ms :
  Forall is_Some ms -> length ms = length rs ->
  ir_transaction_hash <$> index_receipts b fee idx next rs ms = er_tx_hash <$> rs.
Proof.
  revert idx next ms. induction rs as [|r rs IH]; intros idx next [|m ms] Hs Hl;
    cbn [index_receipts length] in *; try lia; [done|].
  apply Forall_cons in Hs as [[m' ->] Hs]. rewrite !fmap_cons. cbn [ir_transaction_hash].
  by rewrite IH by (done || lia).
Qed.

(** The entry of a block whose transactions decode and differ, with one receipt
    for each, is one that the index represents. *)
Lemma block_entry_ok b ctx o :
  (forall tx, tx ∈ b_txs b -> is_Some (decode_tx_metadata (tx_bytes tx))) ->
  NoDup (tx_hashes (b_txs b)) -> er_tx_hash <$> eo_receipts o = tx_hashes (b_txs b) ->
  entry_ok (block_entry b ctx o).
Proof.
  intros Hdec Hnd Hrs. set (ms := (fun tx => decode_tx_metadata (tx_bytes tx)) <$> b_txs b).
  assert (Forall is_Some ms) as Hs by (apply Forall_fmap, Forall_forall; exact Hdec).
  destruct (index_txs_spec b 0 (b_txs b) ms Hs ltac:(unfold ms; by rewrite length_fmap))
    as (Hh & Hb & Hss & _).
  assert (length ms = length (eo_receipts o)) as Hlen.
  { apply (f_equal length) in Hrs. unfold ms, tx_hashes in *. rewrite !length_fmap in *. lia. }
  unfold block_entry. fold ms. split; cbn [en_block en_txs en_receipts ib_transaction_hashes en_hash].
  - by rewrite Hh.
  - by rewrite Hh.
  - by rewrite index_receipts_hashes, Hrs, Hh.
  - exact Hb.
  - exact Hss.
Qed.
End entries.
