(* ===== verification/Finality.v ===== *)
(** Finalization over the ledger's chain: acknowledged blocks are on disk, and
    what the finalization of a block with no parent at hand leaves out. *)
From S2P Require Import Prelude TxTypes SenderQueue Pool StateDb Changes StateRoot Executor Execute.
From S2P Require Import Layers Codec Block Snapshots Encoding Restart QmdbStore QmdbState Backend QmdbLedger.
From S2P Require Import Chain Ledger LedgerSteps LedgerQmdb NodeState App.
From S2P Require Import AppProps Indexer Reporters.

Section finality.
Context `{EXT : !External} `{CD : !Codec} `{SH : !Sha256} `{AC : !AlloyConsensus}.
Context {E H P Ack : Type} `{DB : !LedgerDb H} `{DL : !LedgerDbLaws H} `{DF : !LedgerDbFailures H}
        `{BE : !BlockExecutor E (OverlayState H)} `{BP : !BlockContextProvider P}.
Context (w : world) (W : world_ok w).

Notation Service := (LedgerService (H := H)).
Notation Reporter := (FinalizedReporter (E := E) (H := H) (P := P) (Ack := Ack)).

(** A commit of the changes of consecutive blocks of the chain that succeeds is
    one the database accepts. *)
Definition accepted_commits : Prop :=
  forall (h h' : H) p (chain : list Digest) d root, ldb_ok h -> path w p chain d ->
  ldb_commit h (merge_all (w_changes w <$> chain)) = (h', Ok root) ->
  ldb_accepts h (merge_all (w_changes w <$> chain)).

(** The chain is that of the executor: the block follows its parent, and an
    execution of it on the parent's state, in a context of the provider, that
    gives its state root makes the changes of the chain. *)
Record runs (ex : E) (pr : P) (b : Block) : Prop := {
  ru_parent : w_parent w (commitment b) = Some (parent_digest b);
  ru_changes : forall ix ctx (o : OverlayState H) out root,
    provider_context pr ix b = Some ctx ->
    layer (ldb_view (ov_base o)) (ov_changes o) = w_state w (parent_digest b) ->
    be_execute ex o ctx (tx_bytes <$> b_txs b) = Ok out ->
    root_transition root (eo_changes out) = b_state_root b ->
    eo_changes out = w_changes w (commitment b);
}.

(** A ledger between finalizations, with the block whose state is on disk. *)
Definition quiet (ls : LedgerState H) (tip : Digest) : Prop :=
  exists held, inv w (mkSystem ls held [] tip).

(** The block or its parent has a snapshot. *)
Definition avail (ls : LedgerState H) (b : Block) : Prop :=
  is_Some (parent_snapshot ls (commitment b)) \/ is_Some (parent_snapshot ls (parent_digest b)).

(** Other tasks keep the ledger quiet, commit nothing, and add snapshots
    without dropping or changing one. *)
Record friendly (f : Service -> Service) : Prop := {
  fr_quiet : forall sv tip, quiet (lsv_view sv) tip -> quiet (lsv_view (f sv)) tip;
  fr_db : forall sv, ls_qmdb (lsv_view (f sv)) = ls_qmdb (lsv_view sv);
  fr_marks : forall sv,
    ss_persisted (ls_snapshots (lsv_view (f sv))) = ss_persisted (ls_snapshots (lsv_view sv))
    /\ ss_persisting (ls_snapshots (lsv_view (f sv))) = ss_persisting (ls_snapshots (lsv_view sv));
  fr_kept : forall sv d sn, ss_snapshots (ls_snapshots (lsv_view sv)) !! d = Some sn ->
    ss_snapshots (ls_snapshots (lsv_view (f sv))) !! d = Some sn;
}.

#[local] Set Default Proof Using "Type*".

Lemma friendly_avail f sv b :
  friendly f -> avail (lsv_view sv) b -> avail (lsv_view (f sv)) b.
Proof.
  intros Hf. unfold avail, parent_snapshot, ss_get.
  intros [[sn Hs]|[sn Hs]]; [left|right]; by rewrite (fr_kept _ Hf _ _ _ Hs).
Qed.

(** ** A broken database *)

(** The database is broken and [d] is not persisted: every attempt to persist
    [d] fails and leaves the ledger so. *)
Definition stuck_on (ls : LedgerState H) (d : Digest) : Prop :=
  ldb_broken (ls_qmdb ls) /\ ss_persisting (ls_snapshots ls) = ∅
  /\ exists sn l, walks (ls_snapshots ls) (Some d) ((d, sn) :: l) None.

Lemma persist_stuck ls d :
  stuck_on ls d -> exists ls' e, persist_snapshot ls d = Some (ls', Err (LQmdb e)) /\ stuck_on ls' d.
Proof.
  clear W w. intros (Hb & Hp & sn & l & Hw). unfold persist_snapshot, persist_begin.
  rewrite (changes_for_persist_walks _ _ _ _ Hw). cbn [mbind option_bind].
  set (chain := reverse ((d, sn) :: l).*1). set (changes := merge_all _).
  pose proof (walks_stored _ _ _ _ Hw) as Hst.
  assert (forall e, e ∈ chain -> is_Some (ss_snapshots (ls_snapshots ls) !! e)
    /\ e ∉ ss_persisted (ls_snapshots ls)) as Hch.
  { intros e He. unfold chain in He. rewrite elem_of_reverse, list_elem_of_fmap in He.
    destruct He as ([e' sn'] & -> & He). rewrite Forall_forall in Hst.
    destruct (Hst _ He) as [Hs Hn]. simpl in *. by rewrite Hs. }
  rewrite bool_decide_eq_false_2.
  2:{ unfold chain. rewrite fmap_cons, reverse_cons. by destruct (reverse l.*1). }
  assert (can_persist_chain (ls_snapshots ls) chain = true) as ->.
  { apply can_persist_spec. intros e He. rewrite Hp. split; [by apply Hch|set_solver]. }
  cbn [negb]. unfold persist_commit. cbn [with_snapshots ls_qmdb].
  destruct (ldb_broken_stays (ls_qmdb ls) changes Hb) as (h' & e & -> & Hb').
  set (ls1 := with_qmdb _ h').
  destruct (persist_finish_spec ls1 chain (Err e)) as (s' & (Hp' & Hs' & Hpe') & ->).
  - unfold chain. rewrite reverse_Permutation. by eapply walks_NoDup.
  - intros e' He. apply (Hch e' He).
  - transitivity (ss_persisting (mark_persisting_chain (ls_snapshots ls) chain)); [done|].
    rewrite mark_persisting_set, Hp. set_solver.
  - eexists _, e. split; [done|]. split_and!; [done|done|]. exists sn, l.
    apply (walks_grow (ls_snapshots ls)); [|exact Hpe'|exact Hw].
    intros e' sn' He'. cbn. by rewrite Hs'.
Qed.

Lemma friendly_stuck f sv d :
  friendly f -> stuck_on (lsv_view sv) d -> stuck_on (lsv_view (f sv)) d.
Proof.
  intros Hf (Hb & Hp & sn & l & Hw). destruct (fr_marks _ Hf sv) as [H1 H2].
  split_and!; [by rewrite (fr_db _ Hf)|congruence|]. exists sn, l.
  eapply walks_grow; [|exact H1|exact Hw]. intros e sn' He. by apply (fr_kept _ Hf).
Qed.

Lemma finalize_stuck ar ex pr ix sv b :
  is_Some (provider_context pr (default index_new ix) b) ->
  stuck_on (lsv_view sv) (commitment b) ->
  exists sv' e, finalize_block ar ex pr ix true sv b = Some (sv', Err e)
    /\ stuck_on (lsv_view sv') (commitment b).
Proof.
  intros [ctx Hctx] Hst. pose proof Hst as (_ & _ & sn & l & Hw).
  assert (exists r, finalize_execute ar ex pr ix sv b = Some (sv, r)) as [r Hex].
  { assert (is_some (query_state_root (lsv_view sv) (commitment b)) = true) as Hown.
    { inversion Hw as [| | |? ? ? ? _ Hs _]; subst. unfold query_state_root, ss_get. by rewrite Hs. }
    unfold finalize_execute. rewrite Hown. cbn [andb].
    destruct (negb (is_some ix)); [by eexists|].
    destruct (parent_snapshot _ _) as [snp|]; [|by eexists]. rewrite Hctx. cbn [mbind option_bind].
    unfold replay_block. destruct (be_execute _ _ _ _) as [o|e]; [|by eexists].
    destruct (compute_root_from_store _ _ _) as [root|e]; [|by eexists].
    destruct (negb _); by eexists. }
  unfold finalize_block. rewrite Hex. cbn [mbind option_bind].
  destruct r as [executed|e]; [|by eexists _, _]. cbn [negb].
  destruct (ar_dropped ar); [by eexists _, _|].
  destruct (persist_stuck _ _ Hst) as (ls' & e & Hp & Hst').
  unfold service_persist_snapshot. rewrite Hp. by eexists _, _.
Qed.

Lemma retry_stuck ars ex pr ix attempt left sv b :
  (forall i, friendly (ar_backoff (ars i))) ->
  is_Some (provider_context pr (default index_new ix) b) ->
  stuck_on (lsv_view sv) (commitment b) -> (0 < left)%nat ->
  exists sv' e, finalize_with_retry ars ex pr ix true attempt left sv b = Some (sv', Err e).
Proof.
  intros Hf Hctx. revert attempt sv. induction left as [|left IH]; intros attempt sv Hst Hl; [lia|].
  simpl. destruct (finalize_stuck (ars attempt) ex pr ix sv b Hctx Hst) as (sv1 & e & -> & Hst1). simpl.
  destruct (is_retryable e); simpl; [|by eexists _, _].
  destruct left as [|left]; [by eexists _, _|]. apply IH; [by apply friendly_stuck|lia].
Qed.

(** ** Persisting *)

Lemma persist_begin_stays (ls ls' : LedgerState H) d r :
  persist_begin ls d = Some (ls', r) -> (exists x, r = Ok (Some x)) \/ ls' = ls.
Proof.
  unfold persist_begin. destruct (changes_for_persist _ _) as [[[chain changes]|e]|]; [|intros [= <- _]; by right|done].
  simpl. destruct (bool_decide _); [intros [= <- _]; by right|].
  destruct (negb _); intros [= <- <-]; [by right|left; by eexists].
Qed.

(** A persist whose commit broke the database. *)
Lemma begin_stuck sy d ls1 ls2 changes chain e ls3 r :
  inv w sy -> sy_flights sy = [] ->
  persist_begin (sy_ledger sy) d = Some (ls1, Ok (Some (changes, chain))) ->
  ls_snapshots ls2 = ls_snapshots ls1 -> ldb_broken (ls_qmdb ls2) ->
  persist_finish ls2 chain (Err e) = (ls3, r) -> stuck_on ls3 d.
Proof.
  intros Hi Hno Hb Hs2 Hbr Hf. pose proof (in_flights _ _ Hi) as Hfl. rewrite Hno in Hfl.
  destruct (begin_chain w W sy d ls1 changes chain Hi Hb) as (-> & _ & Hlast & _ & (p & _ & Hpath) & Hch).
  destruct (begin_walks _ _ _ _ _ Hb) as (l & Hw).
  destruct (persist_finish_spec ls2 chain (Err e)) as (s' & (Hp' & Hs' & Hpe') & Hf');
    rewrite ?Hs2.
  - by eapply path_NoDup.
  - intros x Hx. apply (Hch x Hx).
  - transitivity (ss_persisting (mark_persisting_chain (ls_snapshots (sy_ledger sy)) chain)); [done|].
    rewrite mark_persisting_set, Hfl. set_solver.
  - rewrite Hf' in Hf. injection Hf as <- _. rewrite Hs2 in Hs', Hpe'. cbn in Hs', Hpe'.
    assert (d ∈ chain) as Hd by (apply last_Some in Hlast as [? ->]; set_solver).
    destruct (Hch d Hd) as ([sn Hsn] & Hnp & _).
    inversion Hw as [|x Hx|x|x sn' l' g Hx Hsx Hw']; subst; [done|].
    split_and!; [done|done|]. exists sn', l'.
    apply (walks_grow (ls_snapshots (sy_ledger sy))); [| |exact Hw].
    + intros x y Hxy. cbn. by rewrite Hs'.
    + done.
Qed.

Lemma persist_quiet ls tip d :
  accepted_commits -> quiet ls tip -> ancestor w tip d ->
  exists ls' res, persist_snapshot ls d = Some (ls', res)
    /\ match res with
       | Ok _ => quiet ls' d
       | Err _ => (quiet ls' tip /\ ss_snapshots (ls_snapshots ls') = ss_snapshots (ls_snapshots ls))
                  \/ stuck_on ls' d
       end.
Proof.
  intros Hcl [held Hi] Hd. set (sy := mkSystem ls held [] tip) in *.
  destruct (persist_outcome w W sy d Hi eq_refl) as (ls' & res & Hp & Hres). simpl in Hp.
  exists ls', res. split; [done|]. unfold persist_snapshot in Hp.
  destruct (persist_begin ls d) as [[ls1 r]|] eqn:Hb; [|done]. simpl in Hp.
  destruct r as [[[changes chain]|]|e].
  - assert (may_persist w sy d) as Hm by (split; [by right; right|set_solver]).
    pose proof (inv_begin w W sy d ls1 changes chain Hi Hm Hb) as Hi1.
    destruct (begin_chain w W sy d ls1 changes chain Hi Hb) as (-> & _ & _ & -> & (p & _ & Hpath) & _).
    set (sy1 := mkSystem _ _ _ _) in Hi1.
    destruct (persist_commit _ _) as [ls2 rc] eqn:Hc.
    assert (ldb_commit (ls_qmdb ls) (merge_all (w_changes w <$> chain)) = (ls_qmdb ls2, rc)
      /\ ls_snapshots ls2 = ls_snapshots (sy_ledger sy1)) as [Hcm Hs2].
    { unfold persist_commit in Hc. simpl in Hc. destruct (ldb_commit _ _). by injection Hc as <- ->. }
    set (fl := mkFlight d chain (merge_all (w_changes w <$> chain)) None) in *.
    destruct rc as [root|e].
    + pose proof (Hcl _ _ _ _ _ _ (in_db _ _ Hi) Hpath Hcm) as Hsafe.
      destruct (commit_view_target w W sy1 fl ls2 root Hi1 eq_refl eq_refl Hsafe Hc) as (_ & Hok & Hv & Ha).
      pose proof (inv_commit w W sy1 fl ls2 (Ok root) d Hi1 eq_refl Hs2 Hok Hv Ha eq_refl) as Hi2.
      destruct (finish_spec w W _ _ _ Hi2 eq_refl eq_refl) as (s' & _ & Hf).
      pose proof (inv_finish w W _ _ _ _ _ Hi2 eq_refl eq_refl Hf) as Hi3.
      cbn [sy_ledger fl_chain fl] in Hf. rewrite Hf in Hp. injection Hp as <- <-. by exists held.
    + assert (res = Err (LQmdb e)) as -> by (unfold persist_finish in Hp; by injection Hp).
      destruct (ldb_commit_failed _ _ _ _ (in_db _ _ Hi) Hcm) as [[Hok Hv]|Hbr]; [left|right].
      2:{ destruct (persist_finish _ _ _) as [ls3 r3] eqn:Hf3. injection Hp as -> _.
          eapply (begin_stuck sy d _ ls2); [done|done|exact Hb|exact Hs2|done|exact Hf3]. }
      pose proof (inv_commit w W sy1 fl ls2 (Err e) tip Hi1 eq_refl Hs2 Hok
        (eq_trans Hv (in_view _ _ Hi)) (ancestor_refl w W _) Hd) as Hi2.
      destruct (finish_spec w W _ _ _ Hi2 eq_refl eq_refl) as (s' & [_ [Hs' _]] & Hf).
      pose proof (inv_finish w W _ _ _ _ _ Hi2 eq_refl eq_refl Hf) as Hi3.
      cbn [sy_ledger fl_chain fl] in Hf. rewrite Hf in Hp. injection Hp as <-. split; [by exists held|].
      simpl. rewrite Hs'. simpl. by rewrite Hs2.
  - injection Hp as -> <-. destruct Hres as [Hper ->].
    assert (d = tip) as -> by (apply (ancestor_antisym w W); [by apply (in_persisted _ _ Hi)|done]).
    by exists held.
  - injection Hp as -> <-. destruct (persist_begin_stays _ _ _ _ Hb) as [[x Hx]| ->]; [done|].
    left. split; [by exists held|done].
Qed.

(** ** Finalizing one block *)

(** What an attempt leaves: the ledger quiet at the same block on disk. *)
Definition settled (sv : Service) (tip : Digest) (b : Block) : Prop :=
  quiet (lsv_view sv) tip /\ avail (lsv_view sv) b.

Lemma insert_quiet ls tip sn b root txs :
  quiet ls tip -> parent_snapshot ls (parent_digest b) = Some sn ->
  w_parent w (commitment b) = Some (parent_digest b) ->
  quiet (insert_snapshot ls (commitment b) (parent_digest b)
           (cs_merge (sn_state sn) (w_changes w (commitment b))) root
           (w_changes w (commitment b)) txs) tip.
Proof using Type* - DF.
  intros [held Hi] Hsn Hp.
  destruct (step_inv w W _ _ Hi (step_fetch w (mkSystem ls held [] tip) _ sn Hsn)) as [Hi1 _].
  eexists. eapply (inv_insert w W _ _ _ _ root txs Hi1); [by left|done].
Qed.

Lemma replay_settled ex ctx ix pr sv tip sn b exists_ :
  runs ex pr b -> provider_context pr ix b = Some ctx ->
  quiet (lsv_view sv) tip -> ancestor w tip (parent_digest b) ->
  parent_snapshot (lsv_view sv) (parent_digest b) = Some sn ->
  exists sv' r, replay_block ex ctx sv sn b exists_ = (sv', r)
    /\ settled sv' tip b.
Proof.
  intros [Hpar Hch] Hctx Hq Hd Hsn.
  assert (settled sv tip b) as Hset by (split; [done|right; by rewrite Hsn]).
  unfold replay_block. destruct (be_execute _ _ _ _) as [o|e] eqn:Hex; [|by eexists _, _].
  unfold compute_root_from_store. unfold parent_snapshot in Hsn. rewrite Hsn. cbn [ok_or map_err].
  destruct (Z.eqb_spec (root_transition (sn_state_root sn) (eo_changes o)) (b_state_root b)) as [Hroot|];
    cbn [negb]; [|by eexists _, _].
  assert (eo_changes o = w_changes w (commitment b)) as Hc.
  { eapply Hch; [done| |exact Hex|exact Hroot]. destruct Hq as [held Hi]. simpl.
    apply (covers_reads w W _ _ _ Hi); [|done]. by apply (in_covers _ _ Hi). }
  set (root := root_transition _ _).
  destruct exists_; [by eexists _, _|]. eexists _, _. split; [done|].
  pose proof (insert_quiet (lsv_view sv) tip sn b root (b_txs b) Hq Hsn Hpar) as Hq'.
  rewrite <- Hc in Hq'.
  assert (is_Some (parent_snapshot (insert_snapshot (lsv_view sv) (commitment b) (parent_digest b)
    (cs_merge (sn_state sn) (eo_changes o)) root (eo_changes o) (b_txs b)) (commitment b))) as Hown.
  { unfold parent_snapshot, ss_get. simpl. rewrite lookup_insert_eq. by eexists. }
  split; [exact Hq'|left; exact Hown].
Qed.

Lemma execute_settled ar ex pr ix sv tip b :
  runs ex pr b -> is_Some (provider_context pr (default index_new ix) b) ->
  settled sv tip b -> ancestor w tip (parent_digest b) ->
  exists sv' r, finalize_execute ar ex pr ix sv b = Some (sv', r) /\ settled sv' tip b.
Proof.
  intros Hr [ctx Hctx] Hset Hd. pose proof Hset as [Hq Ha].
  unfold finalize_execute. set (own := is_some _).
  destruct (own && negb (is_some ix)); [by eexists _, _|].
  destruct (parent_snapshot (lsv_view sv) (parent_digest b)) as [sn|] eqn:Hsn.
  - rewrite Hctx. simpl.
    destruct (replay_settled ex ctx (default index_new ix) pr sv tip sn b own Hr Hctx Hq Hd Hsn) as (sv' & r & -> & Hs).
    destruct r; by eexists _, _.
  - assert (own = true) as ->.
    { destruct Ha as [[sn' Hs]|[sn' Hs]]; [|congruence]. unfold own, query_state_root.
      unfold parent_snapshot in Hs. by rewrite Hs. }
    by eexists _, _.
Qed.

Lemma finalize_settled ar ex pr ix persist sv tip b :
  accepted_commits -> runs ex pr b -> is_Some (provider_context pr (default index_new ix) b) ->
  settled sv tip b -> ancestor w tip (parent_digest b) ->
  exists sv' r, finalize_block ar ex pr ix persist sv b = Some (sv', r)
    /\ match r with
       | Ok _ => quiet (lsv_view sv') (if persist then commitment b else tip)
       | Err _ => settled sv' tip b \/ persist = true /\ stuck_on (lsv_view sv') (commitment b)
       end.
Proof.
  intros Hcl Hr Hctx Hset Hd. unfold finalize_block.
  destruct (execute_settled ar ex pr ix sv tip b Hr Hctx Hset Hd) as (sv1 & r1 & -> & [Hq Ha]). simpl.
  destruct r1 as [executed|e]; [|eexists _, _; split; [done|]; by left].
  destruct persist; simpl; [|by eexists _, _].
  destruct (ar_dropped ar); [eexists _, _; split; [done|]; by left|].
  assert (ancestor w tip (commitment b)) as Hdb.
  { eapply (ancestor_trans w W); [done|]. apply (ancestor_parent w W), Hr. }
  destruct (persist_quiet (lsv_view sv1) tip (commitment b) Hcl Hq Hdb) as (ls' & res & Hp & Hres).
  unfold service_persist_snapshot. rewrite Hp. simpl.
  destruct res as [persisted|e]; eexists _, _; (split; [done|]); simpl; [done|].
  destruct Hres as [[Hq' Hs]|Hst]; [left|by right]. split; [done|]. unfold avail, parent_snapshot, ss_get. simpl.
  by rewrite Hs.
Qed.

Lemma retry_settled ars ex pr ix persist attempt left sv tip b :
  accepted_commits -> (forall i, friendly (ar_backoff (ars i))) -> runs ex pr b ->
  is_Some (provider_context pr (default index_new ix) b) ->
  settled sv tip b -> ancestor w tip (parent_digest b) -> (0 < left)%nat ->
  exists sv' r, finalize_with_retry ars ex pr ix persist attempt left sv b = Some (sv', r)
    /\ (is_ok r = true -> quiet (lsv_view sv') (if persist then commitment b else tip)).
Proof.
  intros Hcl Hf Hr Hctx Hset Hd. revert attempt sv Hset.
  induction left as [|left IH]; intros attempt sv Hset Hl; [lia|]. simpl.
  destruct (finalize_settled (ars attempt) ex pr ix persist sv tip b Hcl Hr Hctx Hset Hd)
    as (sv1 & r1 & -> & H1). simpl.
  destruct r1 as [executed|e]; [by eexists _, _|].
  destruct (is_retryable e); simpl; [|by eexists _, _].
  destruct left as [|left]; [by eexists _, _|]. destruct H1 as [[Hq Ha]|[-> Hst]].
  - apply IH; [|lia]. split; [by apply Hf|]. by eapply friendly_avail.
  - destruct (retry_stuck ars ex pr ix (S attempt) (S left) (ar_backoff (ars attempt) sv1) b Hf Hctx)
      as (sv2 & e2 & -> ); [by apply friendly_stuck|lia|]. by eexists _, _.
Qed.

(** ** Properties *)

(** What holds between the finalizations of consecutive blocks, [last] being
    the latest one: delivered acknowledgements are of blocks at or below the one
    on disk, pending ones of blocks up to the latest. *)
Record fin_inv (block_of : Ack -> Digest) (fr : Reporter) (tip last : Digest) : Prop := {
  fi_quiet : quiet (lsv_view (fr_state fr)) tip;
  fi_last : ancestor w tip last;
  fi_acked : forall a, a ∈ fr_acknowledged fr -> ancestor w (block_of a) tip;
  fi_pending : forall a, a ∈ fr_pending_acks fr -> ancestor w (block_of a) last;
}.

Lemma pruned_quiet ls tip txs :
  quiet ls tip -> quiet (prune_stale_nonces (prune_mempool ls txs)) tip.
Proof using Type* SH.
  intros [held Hi]. exists held.
  by destruct (step_inv w W _ _ Hi (step_other w (mkSystem ls held [] tip)
    (prune_stale_nonces (prune_mempool ls txs)) eq_refl eq_refl)).
Qed.


End finality.

Section orphans.
Context `{EXT : !External} `{CD : !Codec} `{SH : !Sha256} `{AC : !AlloyConsensus}.
Context {E H P Ack : Type} `{DB : !LedgerDb H} `{BE : !BlockExecutor E (OverlayState H)}
        `{BP : !BlockContextProvider P}.

Notation Service := (LedgerService (H := H)).
Notation Reporter := (FinalizedReporter (E := E) (H := H) (P := P) (Ack := Ack)).

(** The parent's snapshot does not turn up during the sleeps, and the block's
    own does not either. *)
Fixpoint missing (ar : Around) (n i : nat) (sv : Service) (b : Block) : Prop :=
  parent_snapshot (lsv_view sv) (parent_digest b) = None
  /\ match n with O => True | S n => missing ar n (S i) (ar_sleep ar i sv) b end.

Lemma missing_await ar n i sv b :
  missing ar n i sv b ->
  (await_parent ar n i sv (parent_digest b)).2 = None.
Proof.
  revert i sv. induction n as [|n IH]; intros i sv; [done|]. simpl. intros [_ Hm].
  pose proof Hm as Hm'. destruct n; destruct Hm' as [-> _]; by apply IH.
Qed.

Lemma persist_restored (ls : LedgerState H) b :
  persist_snapshot (restore_persisted_snapshot ls b) (commitment b)
  = Some (restore_persisted_snapshot ls b, Ok false).
Proof.
  set (ls' := restore_persisted_snapshot ls b).
  assert (commitment b ∈ ss_persisted (ls_snapshots ls')) as Hp.
  { unfold ls', restore_persisted_snapshot. cbn [with_head with_snapshots ls_snapshots].
    set (s := ss_insert _ _ _). destruct (mark_persisted_fields s [commitment b]) as (_ & _ & _ & -> & _).
    set_solver. }
  unfold persist_snapshot, persist_begin.
  rewrite (changes_for_persist_walks _ _ [] None) by (by constructor). done.
Qed.

(** C29: a finalized block whose own snapshot and parent's snapshot are both
    missing is not executed.  It is reported as persisted with the state root it
    declares, becomes the head, and at a checkpoint it and all pending blocks
    are acknowledged; but its changes reach neither the database nor the index:
    the database handle is what the other tasks left. *)
Theorem finalized_without_parent ars (fr : Reporter) b ack :
  query_state_root (lsv_view (fr_state fr)) (commitment b) = None ->
  missing (ars 0%nat) MAX_PARENT_RETRIES 1 (fr_state fr) b -> ar_dropped (ars 0%nat) = None ->
  exists fr' sv, handle_finalized_update ars fr (UBlock b ack) = Some (fr', false)
    /\ sv = (await_parent (ars 0%nat) MAX_PARENT_RETRIES 1 (fr_state fr) (parent_digest b)).1
    /\ ls_qmdb (lsv_view (fr_state fr')) = ls_qmdb (lsv_view sv)
    /\ is_snapshot_persisted (lsv_view (fr_state fr')) (commitment b) = true
    /\ query_state_root (lsv_view (fr_state fr')) (commitment b) = Some (b_state_root b)
    /\ ls_head (lsv_view (fr_state fr')) = commitment b
    /\ fr_block_index fr' = fr_block_index fr
    /\ (is_checkpoint (fr_checkpoint_interval fr) (b_height b) = true ->
        fr_acknowledged fr' = fr_acknowledged fr ++ fr_pending_acks fr ++ [ack]).
Proof.
  intros Hown Hm Hdrop. pose proof (missing_await _ _ _ _ _ Hm) as Haw.
  assert (parent_snapshot (lsv_view (fr_state fr)) (parent_digest b) = None) as Hpar by apply Hm.
  destruct (await_parent _ _ _ _ _) as [sv found] eqn:Esv. simpl in Haw. subst found.
  set (sv1 := on_view (fun ls => restore_persisted_snapshot ls b) sv).
  assert (finalize_execute (ars 0%nat) (fr_executor fr) (fr_provider fr) (fr_block_index fr)
    (fr_state fr) b = Some (sv1, Ok None)) as Hex.
  { unfold finalize_execute. rewrite Hown, Hpar. cbn [is_some andb]. by rewrite Esv. }
  assert (forall persist, finalize_with_retry ars (fr_executor fr) (fr_provider fr)
    (fr_block_index fr) persist 0 MAX_FINALIZATION_ATTEMPTS (fr_state fr) b = Some (sv1, Ok None)) as Hfin.
  { intros persist. unfold MAX_FINALIZATION_ATTEMPTS. cbn [finalize_with_retry].
    unfold finalize_block. rewrite Hex. cbn [mbind option_bind]. destruct persist; [|done].
    cbn [negb]. rewrite Hdrop. unfold service_persist_snapshot, sv1, on_view. cbn [lsv_view].
    rewrite persist_restored. done. }
  unfold handle_finalized_update. rewrite Hfin. cbn [mbind option_bind].
  destruct (acknowledge_checkpoint _ _ _ _ _) as [pending delivered] eqn:Eack.
  eexists _, sv. split; [done|]. split; [done|].
  destruct (mark_persisted_fields (ss_insert (ls_snapshots (lsv_view sv)) (commitment b)
      (mkSnapshot (Some (parent_digest b)) ChangeSet_new (b_state_root b) ChangeSet_new
         (tx_ids (b_txs b)))) [commitment b]) as (M1 & _ & _ & M4 & _).
  split_and!; [done| | |done|done|].
  - apply bool_decide_eq_true. cbn. rewrite M4. set_solver.
  - unfold query_state_root, ss_get. cbn. rewrite M1. cbn. by rewrite lookup_insert_eq.
  - intros Hc. unfold acknowledge_checkpoint in Eack. rewrite Hc in Eack. by injection Eack as _ <-.
Qed.
End orphans.

(** ** Witnesses *)

Lemma revm_context_beneficiary pr ix b ctx :
  revm_context pr ix b = Some ctx -> hd_beneficiary (bc_header ctx) = cp_fee_recipient pr.
Proof.
  unfold revm_context. destruct (if _ =? 0 then _ else _); [|done]. simpl. by intros [= <-].
Qed.

#[local] Existing Instances app_ext app_codec app_sha plain_db plain_laws credit_executor.
#[local] Instance fin_alloy : AlloyConsensus := {|
  calculate_transaction_root := len;
  calculate_receipt_root := len;
  logs_bloom := fun logs => if bool_decide (logs = []) then 0 else 1;
  to_eip155_value := fun v _ => if v then 28 else 27;
|}.

#[local] Instance plain_failures : LedgerDbFailures ReadFns.
Proof. by refine {| ldb_broken := fun _ => False |}. Defined.

(** The first block of the application's demonstration, as a chain. *)
Definition fin_changes : ChangeSet :=
  mkChangeSet {[7 := mkUpdate false false 0 1 0 None ∅]}.
Definition fin_world : world :=
  child_world (commitment app_genesis) (commitment app_block) fin_changes empty_reads.
Definition fin_provider : RevmContextProvider := mkContextProvider DEFAULT_GAS_LIMIT 7.
Definition fin_reporter : FinalizedReporter (E := unit) (H := ReadFns) (Ack := Digest) :=
  reporter_new (service_new app_ledger0) tt fin_provider.
Definition fin_around : Around (H := ReadFns) := mkAround (fun _ => id) None id.

Lemma fin_mergeable : mergeable (fun _ => []) ChangeSet_new fin_changes.
Proof.
  split.
  - intros a u v Hu. discriminate Hu.
  - intros a u x Hu. discriminate Hu.
  - intros a u x Hu Hx. unfold fin_changes in Hu. cbn [accounts] in Hu.
    apply lookup_singleton_Some in Hu as [_ <-]. discriminate Hx.
  - intros a u v Hu. discriminate Hu.
Qed.

Lemma fin_world_ok : world_ok fin_world.
Proof. apply child_world_ok; [vm_compute; discriminate|exact fin_mergeable]. Qed.

Lemma fin_runs : runs fin_world tt fin_provider app_block.
Proof.
  split.
  - vm_compute. reflexivity.
  - intros ix ctx o out root Hctx Hview Hex _.
    assert (hd_beneficiary (bc_header ctx) = 7) as Hben.
    { exact (revm_context_beneficiary fin_provider ix app_block ctx Hctx). }
    assert (w_state fin_world (parent_digest app_block) = empty_reads) as Hs by (vm_compute; reflexivity).
    rewrite Hs in Hview.
    assert (st_balance o 7 = Err (AccountNotFound 7)) as Hb.
    { change (rf_balance (layer (ldb_view (ov_base o)) (ov_changes o)) 7 = Err (AccountNotFound 7)).
      by rewrite Hview. }
    cbn [be_execute credit_executor] in Hex. rewrite Hben, Hb in Hex. by injection Hex as <-.
Qed.

Lemma fin_quiet : quiet fin_world app_ledger0 (commitment app_genesis).
Proof.
  exists []. apply (initial_inv fin_world fin_world_ok). exists 0, app_genesis.
  split_and!; [reflexivity|done|done|done|vm_compute; reflexivity|]. exists []. constructor.
Qed.

(** The same block over the QMDB store. *)
#[local] Existing Instances run_display run_provider.
#[local] Instance credit_qmdb : BlockExecutor unit (OverlayState RunLedger) := {|
  be_execute := fun _ s ctx _ =>
    let beneficiary := hd_beneficiary (bc_header ctx) in
    let balance := default 0 (ok (st_balance s beneficiary)) in
    Ok (mkOutcome (mkChangeSet {[beneficiary := mkUpdate false false 0 (balance + 1) 0 None ∅]})
          [] 21000 []);
|}.

Definition store_ledger0 : LedgerState RunLedger :=
  match ledger_init (Ok mem_ledger) 0 with
  | Ok (_, l) => l
  | Err _ => mkLedger (pool_new PoolConfig_default) ss_new 0 seeds_empty mem_ledger
  end.
Definition store_world : world :=
  child_world (commitment app_genesis) (commitment app_block) fin_changes (visible (reads_of mem_ledger)).
Definition store_reporter : FinalizedReporter (E := unit) (H := RunLedger) (Ack := Digest) :=
  reporter_new (service_new store_ledger0) tt fin_provider.
Definition store_around : Around (H := RunLedger) := mkAround (fun _ => id) None id.

Lemma store_world_ok : world_ok store_world.
Proof. apply child_world_ok; [vm_compute; discriminate|exact fin_mergeable]. Qed.

Lemma store_accepts : accepted_commits (H := RunLedger) store_world.
Proof.
  intros h h' p chain d root (v & Hok) Hp _. exists v. split; [exact Hok|].
  assert (commitment app_genesis <> commitment app_block) as Hne by (vm_compute; discriminate).
  destruct (child_path _ _ _ _ _ _ _ Hne Hp) as [->| ->]; [by left|]. right.
  change (committable v fin_changes /\ find_code fin_changes COMMIT_SEQ_CODE_KEY = None).
  assert (forall a u, accounts fin_changes !! a = Some u -> u = mkUpdate false false 0 1 0 None ∅) as Hu
    by (intros a u; unfold fin_changes; cbn [accounts]; by intros [_ <-]%lookup_singleton_Some).
  split; [|vm_compute; reflexivity]. split; [split|].
  - intros a u ->%Hu. by split_and!.
  - vm_compute. discriminate.
  - vm_compute. reflexivity.
  - by intros a u ->%Hu.
  - intros a b u u' x y ->%Hu. done.
  - by intros a u x ->%Hu.
  - by intros a u ->%Hu.
Qed.

Lemma store_runs : runs (H := RunLedger) store_world tt fin_provider app_block.
Proof.
  split.
  - vm_compute. reflexivity.
  - intros ix ctx o out root Hctx Hview Hex _.
    assert (hd_beneficiary (bc_header ctx) = 7) as Hben.
    { exact (revm_context_beneficiary fin_provider ix app_block ctx Hctx). }
    assert (w_state store_world (parent_digest app_block) = visible (reads_of mem_ledger)) as Hs
      by (unfold store_world, child_world; cbn [w_state];
          rewrite (proj2 (Z.eqb_neq _ _)) by (vm_compute; discriminate); reflexivity).
    rewrite Hs in Hview.
    assert (st_balance o 7 = Err (AccountNotFound 7)) as Hb.
    { change (rf_balance (layer (ldb_view (ov_base o)) (ov_changes o)) 7 = Err (AccountNotFound 7)).
      rewrite Hview. vm_compute. reflexivity. }
    cbn [be_execute credit_qmdb] in Hex. rewrite Hben, Hb in Hex. by injection Hex as <-.
Qed.

Lemma store_quiet : quiet store_world store_ledger0 (commitment app_genesis).
Proof.
  exists []. apply (initial_inv store_world store_world_ok). exists 0, app_genesis.
  split_and!; [reflexivity|done|done| |vm_compute; reflexivity|].
  - exists empty_view. exact run_qmdb_ok.
  - exists []. constructor.
Qed.


(** A second block on one the node has not seen. *)
Definition orphan_block : Block := mkBlock 12345 2 9 0 77 [].

Lemma finalized_without_parent_witness :
  exists fr', handle_finalized_update (fun _ => fin_around) fin_reporter (UBlock orphan_block 5)
    = Some (fr', false)
    /\ query_state_root (lsv_view (fr_state fr')) (commitment orphan_block) = Some 77.
Proof.
  destruct (finalized_without_parent (fun _ => fin_around) fin_reporter orphan_block 5)
    as (fr' & sv & Hh & _ & _ & _ & Hroot & _).
  - vm_compute. reflexivity.
  - repeat (split; [vm_compute; reflexivity|]). exact I.
  - reflexivity.
  - exists fr'. split; [exact Hh|exact Hroot].
Defined.
