(* ===== verification/Recovery.v ===== *)
(** Starting a node (crates/node/runner/src/runner.rs and commit_marker.rs):
    the commit marker, the recovery of the ledger from the archives of
    finalized blocks, the caches it fills, and the handlers of gossiped and
    submitted transactions.  The archives of commonware are given by what they
    return; logging and task spawning are left out. *)
From S2P Require Import Prelude Bytes TxTypes SenderQueue Pool StateDb Validator Changes StateRoot.
From S2P Require Import Executor Execute Layers Codec Block Snapshots QmdbLedger Chain Ledger.
From S2P Require Import LedgerSteps NodeState App AppProps Indexer Reporters Finality.

(** ** The commit marker (commit_marker.rs)

    A file is its characters as scalar values. *)

Definition hex_digit (n : Z) : Z := if n <? 10 then 48 + n else 87 + n.
Definition hex_encode (l : bytes) : list Z := l ≫= fun b => [hex_digit (b `div` 16); hex_digit (b `mod` 16)].

Definition hex_value (c : Z) : option Z :=
  if (48 <=? c) && (c <=? 57) then Some (c - 48)
  else if (97 <=? c) && (c <=? 102) then Some (c - 87)
  else if (65 <=? c) && (c <=? 70) then Some (c - 55)
  else None.

Fixpoint hex_decode (l : list Z) : option bytes :=
  match l with
  | [] => Some []
  | [_] => None
  | h :: l :: rest =>
      h ← hex_value h; l ← hex_value l; rest ← hex_decode rest; Some (h * 16 + l :: rest)
  end.

(** [char::is_whitespace]. *)
Definition is_whitespace (c : Z) : bool :=
  ((9 <=? c) && (c <=? 13)) || (c =? 32) || (c =? 133) || (c =? 160) || (c =? 5760)
  || ((8192 <=? c) && (c <=? 8202)) || (c =? 8232) || (c =? 8233) || (c =? 8239) || (c =? 8287)
  || (c =? 12288).

Fixpoint trim_start (l : list Z) : list Z :=
  match l with
  | [] => []
  | c :: l' => if is_whitespace c then trim_start l' else l
  end.
Definition trim (l : list Z) : list Z := reverse (trim_start (reverse (trim_start l))).

(** The content that [write_commit_marker] renames into place. *)
Definition write_commit_marker (d : Digest) : list Z := hex_encode (be_bytes 32 d) ++ [10].

(** [read_commit_marker]; [None] is a file that is missing or unreadable. *)
Definition read_commit_marker (file : option (list Z)) : option Digest :=
  content ← file;
  let hex_str := trim content in
  if negb (len hex_str =? 64) then None else be_value <$> hex_decode hex_str.

(** ** Configuration *)

Definition DEFAULT_CHECKPOINT_INTERVAL : u64 := 256.

(** [str::parse::<u64>]. *)
Fixpoint parse_digits (acc : Z) (l : list Z) : option Z :=
  match l with
  | [] => Some acc
  | c :: l =>
      if (48 <=? c) && (c <=? 57) then
        let acc := acc * 10 + (c - 48) in if acc <=? u64_max then parse_digits acc l else None
      else None
  end.
Definition parse_u64 (l : list Z) : option u64 :=
  match l with
  | [] => None
  | c :: l' => if c =? 43 then (if bool_decide (l' = []) then None else parse_digits 0 l')
               else parse_digits 0 l
  end.

Definition checkpoint_interval (var : option (list Z)) : u64 :=
  default DEFAULT_CHECKPOINT_INTERVAL
    (v ← var; n ← parse_u64 v; if 0 <? n then Some n else None).

(** ** The block index at the start *)

Definition EMPTY_ROOT_HASH : B256 :=
  0x56e81f171bcc55a6ff8345e692c0f86e5b48e01b996cadc001622fb5e363b421.

Inductive RecoveryError : Type :=
| LoadFinalization (height : u64)
| LoadBlock (height : u64)
| UnknownMarker (marker : Digest) (head_height : u64)
| MissingParent (height : u64)
| ReplayFailed (height : u64) (e : ExecutionError)
| ReplayRootFailed (height : u64) (e : LedgerError)
| ReplayRootMismatch (height : u64) (expected computed : B256).

(** An archive: its ranges and what it returns for a height. *)
Record Archive (V : Type) := mkArchive {
  arc_ranges : list (u64 * u64);
  arc_get : u64 -> result (option V) unit;
}.
Arguments mkArchive {V}.
Arguments arc_ranges {V}.
Arguments arc_get {V}.

Section recovery.
Context `{EXT : !External} `{CD : !Codec} `{SH : !Sha256}.
Context {E H : Type} `{DB : !LedgerDb H} `{BE : !BlockExecutor E (OverlayState H)}.

Notation Service := (LedgerService (H := H)).

Definition seed_genesis_block_index (ix : BlockIndex) (genesis : Block) (gas_limit : u64)
    : BlockIndex :=
  insert_block ix
    (mkIBlock (block_id genesis) 0 (b_parent genesis) (b_state_root genesis) EMPTY_ROOT_HASH
       EMPTY_ROOT_HASH (b_timestamp genesis) gas_limit 0 (Some INITIAL_BASE_FEE)
       (b_prevrandao genesis) 0 508 []) [] [].

Definition consensus_digest_for_hash (block_hash : B256) : Digest := sha256 (be_bytes 32 block_hash).

(** [seed_block_fee_cache]. *)
Definition fee_entries (ix : BlockIndex) (head_height : u64) : list (Digest * u64 * u64) :=
  let start := saturating_sub head_height 4 in
  omap (fun h => indexed ← get_block_by_number ix h;
                 Some (consensus_digest_for_hash (ib_hash indexed), ib_gas_used indexed,
                       default INITIAL_BASE_FEE (ib_base_fee_per_gas indexed)))
    (seqZ start (head_height - start + 1)).
Definition seed_block_fee_cache (app : App E H) (ix : BlockIndex) (head_height : u64) : App E H :=
  let entries := fee_entries ix head_height in
  if bool_decide (entries = []) then app else seed_block_fees app entries.

(** The block as it is indexed without its execution, and with the gas it used. *)
Definition recovered_entry (b : Block) (ctx : BlockContext) (gas_used : u64) : IndexedBlock :=
  let tx_bytes_total :=
    foldl (fun n tx => wrapping_add u64_max n (len (tx_bytes tx))) 0 (b_txs b) in
  mkIBlock (block_id b) (b_height b) (b_parent b) (b_state_root b) EMPTY_ROOT_HASH EMPTY_ROOT_HASH
    (hd_timestamp (bc_header ctx)) (hd_gas_limit (bc_header ctx)) gas_used
    (hd_base_fee_per_gas (bc_header ctx)) (b_prevrandao b) 0
    (wrapping_add u64_max 508 tx_bytes_total) ((fun tx => keccak256 (tx_bytes tx)) <$> b_txs b).

Definition index_recovered_block (ix : BlockIndex) (pr : RevmContextProvider) (b : Block)
    : option BlockIndex :=
  ctx ← revm_context pr ix b; Some (insert_block ix (recovered_entry b ctx 0) [] []).

(** ** Recovery *)

(** The heights of [start..=end], for every range. *)
Definition range_heights (ranges : list (u64 * u64)) : list u64 :=
  ranges ≫= fun r => seqZ r.1 (r.2 - r.1 + 1).

(** The seeds of the certified blocks. *)
Fixpoint recover_seeds (arc : Archive Certificate) (heights : list u64) (sv : Service)
    : Service * result unit RecoveryError :=
  match heights with
  | [] => (sv, Ok tt)
  | h :: heights =>
      match arc_get arc h with
      | Err _ => (sv, Err (LoadFinalization h))
      | Ok None => recover_seeds arc heights sv
      | Ok (Some f) =>
          recover_seeds arc heights (service_set_seed sv (ce_payload f) (keccak256 (ce_seed f)))
      end
  end.

(** The archived blocks, indexed as they are read.  The option is a panic of
    the context. *)
Fixpoint load_blocks (arc : Archive Block) (pr : RevmContextProvider) (heights : list u64)
    (ix : BlockIndex) (blocks : gmap u64 Block)
    : option (BlockIndex * result (gmap u64 Block) RecoveryError) :=
  match heights with
  | [] => Some (ix, Ok blocks)
  | h :: heights =>
      match arc_get arc h with
      | Err _ => Some (ix, Err (LoadBlock h))
      | Ok None => load_blocks arc pr heights ix blocks
      | Ok (Some b) =>
          ix ← index_recovered_block ix pr b;
          load_blocks arc pr heights ix (<[h := b]> blocks)
      end
  end.

(** [replay_finalized_block]. *)
Definition replay_finalized_block (ex : E) (pr : RevmContextProvider) (sv : Service)
    (ix : BlockIndex) (b : Block) : option (Service * BlockIndex * result unit RecoveryError) :=
  let d := commitment b in
  let ls := lsv_view sv in
  if is_some (query_state_root ls d) then Some (sv, ix, Ok tt)
  else
    let parent := parent_digest b in
    match parent_snapshot ls parent with
    | None => Some (sv, ix, Err (MissingParent (b_height b)))
    | Some sn =>
        ctx ← revm_context pr ix b;
        Some
          match be_execute ex (overlay_of ls (sn_state sn)) ctx (tx_bytes <$> b_txs b) with
          | Err e => (sv, ix, Err (ReplayFailed (b_height b) e))
          | Ok o =>
              match compute_root_from_store ls parent (eo_changes o) with
              | Err e => (sv, ix, Err (ReplayRootFailed (b_height b) e))
              | Ok root =>
                  if negb (root =? b_state_root b)
                  then (sv, ix, Err (ReplayRootMismatch (b_height b) (b_state_root b) root))
                  else
                    let ix := insert_block ix (recovered_entry b ctx (eo_gas_used o)) [] [] in
                    let merged :=
                      overlay_merge_changes (overlay_of ls (sn_state sn)) (eo_changes o) in
                    (on_view (fun ls => insert_snapshot ls d parent merged root (eo_changes o)
                                          (b_txs b)) sv, ix, Ok tt)
              end
          end
    end.

(** The loop over the heights above the checkpoint: the height restored, and
    whether a block was replayed. *)
Fixpoint replay_tail (ex : E) (pr : RevmContextProvider) (blocks : gmap u64 Block)
    (heights : list u64) (restored_height : u64) (restored_digest : Digest) (replayed : bool)
    (sv : Service) (ix : BlockIndex)
    : option (Service * BlockIndex * result (u64 * bool) RecoveryError) :=
  match heights with
  | [] => Some (sv, ix, Ok (restored_height, replayed))
  | h :: heights =>
      match blocks !! h with
      | None => Some (sv, ix, Ok (restored_height, replayed))
      | Some b =>
          if negb (parent_digest b =? restored_digest)
          then Some (sv, ix, Ok (restored_height, replayed))
          else
            r ← replay_finalized_block ex pr sv ix b;
            match r with
            | (sv, ix, Err e) => Some (sv, ix, Err e)
            | (sv, ix, Ok _) =>
                replay_tail ex pr blocks heights (b_height b) (commitment b) true sv ix
            end
      end
  end.

(** [restore_checkpoint_and_replay_tail]. *)
Definition restore_checkpoint_and_replay_tail (ex : E) (pr : RevmContextProvider)
    (blocks : gmap u64 Block) (marker : option Digest) (sv : Service) (ix : BlockIndex)
    : option (Service * BlockIndex * result (u64 * bool) RecoveryError) :=
  match last (btree blocks) with
  | None => Some (sv, ix, Ok (0, false))
  | Some (_, head) =>
      let checkpoint := m ← marker; find (fun hb => commitment hb.2 =? m) (btree blocks) in
      match checkpoint with
      | Some (_, checkpoint) =>
          let sv := on_view (fun ls => restore_persisted_snapshot ls checkpoint) sv in
          let first := saturating_add u64_max (b_height checkpoint) 1 in
          replay_tail ex pr blocks (seqZ first (b_height head - first + 1)) (b_height checkpoint)
            (commitment checkpoint) false sv ix
      | None =>
          match marker with
          | Some m => Some (sv, ix, Err (UnknownMarker m (b_height head)))
          | None =>
              Some (on_view (fun ls => restore_persisted_snapshot ls head) sv, ix,
                    Ok (b_height head, false))
          end
      end
  end.

(** [recover_finalized_state]: the height of the restored head, and whether
    blocks were replayed. *)
Definition recover_finalized_state (ex : E) (pr : RevmContextProvider)
    (finalized_blocks : Archive Block) (finalizations : Archive Certificate)
    (marker : option (list Z)) (sv : Service) (ix : BlockIndex)
    : option (Service * BlockIndex * result (option (u64 * bool)) RecoveryError) :=
  match recover_seeds finalizations (range_heights (arc_ranges finalizations)) sv with
  | (sv, Err e) => Some (sv, ix, Err e)
  | (sv, Ok _) =>
      r ← load_blocks finalized_blocks pr (range_heights (arc_ranges finalized_blocks)) ix ∅;
      match r with
      | (ix, Err e) => Some (sv, ix, Err e)
      | (ix, Ok blocks) =>
          if bool_decide (blocks = ∅) then Some (sv, ix, Ok None)
          else
            r ← restore_checkpoint_and_replay_tail ex pr blocks (read_commit_marker marker) sv ix;
            let '(sv, ix, r) := r in
            Some (sv, ix, match r with Ok x => Ok (Some x) | Err e => Err e end)
      end
  end.

Definition SNAPSHOT_PREPOPULATE_COUNT : u64 := 64.

(** The loop of [prepopulate_snapshot_cache]. *)
Fixpoint prepopulate_loop (arc : Archive Block) (heights : list u64) (sv : Service) : Service :=
  match heights with
  | [] => sv
  | h :: heights =>
      match arc_get arc h with
      | Ok (Some b) =>
          if is_some (query_state_root (lsv_view sv) (commitment b))
          then prepopulate_loop arc heights sv
          else prepopulate_loop arc heights
                 (on_view (fun ls => restore_persisted_snapshot ls b) sv)
      | Ok None | Err _ => sv
      end
  end.

Definition prepopulate_snapshot_cache (arc : Archive Block) (head_height count : u64)
    (sv : Service) : Service :=
  if (head_height =? 0) || (count =? 0) then sv
  else
    let start_height := saturating_sub head_height count in
    if start_height =? head_height then sv
    else prepopulate_loop arc (seqZ start_height (head_height - start_height)) sv.
End recovery.

(** ** The marker file *)

Lemma hex_value_digit n : 0 <= n < 16 -> hex_value (hex_digit n) = Some n.
Proof.
  intros Hn. unfold hex_value, hex_digit. destruct (Z.ltb_spec n 10).
  - rewrite (proj2 (Z.leb_le _ _)), (proj2 (Z.leb_le _ _)) by lia. simpl. f_equal. lia.
  - rewrite (proj2 (Z.leb_le 48 _)), (proj2 (Z.leb_gt _ 57)) by lia. simpl.
    rewrite (proj2 (Z.leb_le 97 _)), (proj2 (Z.leb_le _ 102)) by lia. simpl. f_equal. lia.
Qed.

Lemma hex_roundtrip l : bytes_ok l -> hex_decode (hex_encode l) = Some l.
Proof.
  induction 1 as [|b l Hb Hl IH]; [done|]. unfold hex_encode in *. rewrite bind_cons. cbn [app hex_decode].
  rewrite !hex_value_digit by (pose proof (Z.div_lt_upper_bound b 16 16); pose proof (Z.div_pos b 16);
    pose proof (Z.mod_pos_bound b 16); lia).
  simpl. rewrite IH. simpl. do 2 f_equal. pose proof (Z.div_mod b 16). lia.
Qed.

Lemma hex_encode_len l : len (hex_encode l) = 2 * len l.
Proof.
  unfold hex_encode. induction l as [|b l IH]; [done|]. rewrite bind_cons. unfold len in *.
  rewrite length_app. simpl in *. lia.
Qed.

Lemma hex_not_space l c : bytes_ok l -> c ∈ hex_encode l -> is_whitespace c = false.
Proof.
  intros Hl (b & Hc & Hb)%list_elem_of_bind. unfold bytes_ok in Hl. rewrite Forall_forall in Hl.
  specialize (Hl _ Hb).
  assert (forall n, 0 <= n < 16 -> is_whitespace (hex_digit n) = false) as Hd.
  { intros n Hn.
    assert (forallb (fun n => negb (is_whitespace (hex_digit n))) (seqZ 0 16) = true) as Hf
      by (vm_compute; reflexivity).
    apply negb_true_iff, (proj1 (forallb_forall _ _) Hf), list_elem_of_In, elem_of_seqZ. lia. }
  pose proof (Z.div_lt_upper_bound b 16 16). pose proof (Z.div_pos b 16).
  pose proof (Z.mod_pos_bound b 16).
  apply elem_of_cons in Hc as [->|[->|Hc]%elem_of_cons]; [apply Hd; lia|apply Hd; lia|set_solver].
Qed.

Lemma trim_start_id c l : is_whitespace c = false -> trim_start (c :: l) = c :: l.
Proof. simpl. by intros ->. Qed.

Lemma trim_line l : l <> [] -> (forall c, c ∈ l -> is_whitespace c = false) -> trim (l ++ [10]) = l.
Proof.
  intros Hne Hl. unfold trim. destruct l as [|c l]; [done|].
  rewrite <- app_comm_cons, trim_start_id by (apply Hl; by left).
  rewrite app_comm_cons, reverse_app. change (reverse [10]) with [10]. cbn [app].
  change (trim_start (10 :: reverse (c :: l))) with (trim_start (reverse (c :: l))).
  destruct (reverse (c :: l)) as [|e r] eqn:E.
  { apply (f_equal length) in E. rewrite length_reverse in E. done. }
  rewrite trim_start_id, <- E, reverse_involutive; [done|]. apply Hl.
  rewrite <- elem_of_reverse, E. by left.
Qed.

(** The marker reads back as the digest that was written. *)
Lemma marker_roundtrip d :
  in_width 256 d -> read_commit_marker (Some (write_commit_marker d)) = Some d.
Proof.
  intros Hd. unfold read_commit_marker, write_commit_marker. cbn [mbind option_bind].
  pose proof (be_bytes_ok 32 d) as Hb.
  assert (len (hex_encode (be_bytes 32 d)) = 64) as Hlen by (rewrite hex_encode_len, be_bytes_len; lia).
  rewrite trim_line; [|intros E; rewrite E in Hlen; done|intros c; by apply hex_not_space].
  rewrite Hlen. cbn [Z.eqb negb]. rewrite (hex_roundtrip _ Hb). cbn [fmap option_fmap option_map].
  f_equal. apply be_value_bytes_id. done.
Qed.

(** ** Contexts during recovery *)

(** No block of the index has so small a gas limit that the base fee after it
    is undefined. *)
Definition limits (ix : BlockIndex) : Prop :=
  forall h blk, ix_blocks_by_hash ix !! h = Some blk -> 2 <= ib_gas_limit blk.

Lemma base_fee_defined_at fee used limit :
  2 <= limit -> is_Some (calculate_base_fee fee used limit BaseFeeParams_DEFAULT).
Proof.
  intros Hl. unfold calculate_base_fee, checked_div. cbn [BaseFeeParams_DEFAULT elasticity_multiplier
    max_change_denominator].
  assert (limit `div` 2 <> 0) as Ht by (pose proof (Z.div_le_lower_bound limit 2 1); lia).
  apply Z.eqb_neq in Ht. cbn [Z.eqb mbind option_bind].
  destruct (used =? limit `div` 2); [by eexists|].
  destruct (limit `div` 2 <? used); rewrite Ht; cbn; by eexists.
Qed.

Lemma context_defined pr ix b : limits ix -> is_Some (revm_context pr ix b).
Proof.
  intros Hl. unfold revm_context. destruct (b_height b =? 0); [by eexists|].
  unfold get_block_by_number. destruct (ix_blocks_by_number ix !! _) as [h|]; simpl; [|by eexists].
  destruct (ix_blocks_by_hash ix !! h) as [blk|] eqn:E; [|by eexists].
  destruct (base_fee_defined_at (default INITIAL_BASE_FEE (ib_base_fee_per_gas blk))
    (ib_gas_used blk) (ib_gas_limit blk) (Hl _ _ E)) as [fee ->]. by eexists.
Qed.

Lemma context_gas_limit pr ix b ctx :
  revm_context pr ix b = Some ctx -> hd_gas_limit (bc_header ctx) = cp_gas_limit pr.
Proof.
  unfold revm_context. destruct (if _ =? 0 then _ else _); [|done]. simpl. by intros [= <-].
Qed.

Section replay.
Context `{EXT : !External} `{CD : !Codec} `{SH : !Sha256}.
Context {E H : Type} `{DB : !LedgerDb H} `{DL : !LedgerDbLaws H}
        `{BE : !BlockExecutor E (OverlayState H)}.
Context (w : world) (W : world_ok w) (ex : E) (pr : RevmContextProvider).
Context (Hlimit : 2 <= cp_gas_limit pr).

Notation Service := (LedgerService (H := H)).

(** The blocks the replay reaches: heights in a row, each block on the one
    before. *)
Fixpoint tail_blocks (blocks : gmap u64 Block) (heights : list u64) (d : Digest) : list Block :=
  match heights with
  | [] => []
  | h :: heights =>
      match blocks !! h with
      | Some b => if parent_digest b =? d then b :: tail_blocks blocks heights (commitment b) else []
      | None => []
      end
  end.

(** The replay stops with an error only where executing a block fails or gives
    another root. *)
Definition replay_error (b : Block) (e : RecoveryError) : Prop :=
  (exists e', e = ReplayFailed (b_height b) e')
  \/ exists root, e = ReplayRootMismatch (b_height b) (b_state_root b) root /\ root <> b_state_root b.

Definition kept (sv sv' : Service) : Prop :=
  forall d, is_Some (parent_snapshot (lsv_view sv) d) -> is_Some (parent_snapshot (lsv_view sv') d).

Lemma kept_refl sv : kept sv sv.
Proof. by intros d. Qed.
#[local] Hint Resolve kept_refl : core.

#[local] Set Default Proof Using "Type*".

Lemma limits_insert ix b ctx gas :
  limits ix -> revm_context pr ix b = Some ctx ->
  limits (insert_block ix (recovered_entry b ctx gas) [] []).
Proof using Hlimit.
  intros Hl Hctx h blk. cbn [insert_block ix_blocks_by_hash].
  intros [[_ <-]|[_ Hb]]%lookup_insert_Some; [|by apply (Hl h)].
  simpl. by rewrite (context_gas_limit _ _ _ _ Hctx).
Qed.

Lemma replay_block_quiet sv ix tip b :
  runs w ex pr b -> quiet w (lsv_view sv) tip -> limits ix -> ancestor w tip (parent_digest b) ->
  is_Some (parent_snapshot (lsv_view sv) (parent_digest b)) ->
  exists sv' ix' r, replay_finalized_block ex pr sv ix b = Some (sv', ix', r)
    /\ quiet w (lsv_view sv') tip /\ limits ix' /\ kept sv sv'
    /\ match r with
       | Ok _ => is_Some (parent_snapshot (lsv_view sv') (commitment b))
       | Err e => replay_error b e
       end.
Proof.
  intros [Hpar Hch] Hq Hl Hd [sn Hsn]. unfold replay_finalized_block.
  destruct (query_state_root (lsv_view sv) (commitment b)) as [r|] eqn:Eown; simpl.
  { eexists _, _, _. split; [done|]. split_and!; [done|done|done|]. unfold query_state_root in Eown.
    unfold parent_snapshot. by destruct (ss_get _ _); [eexists|]. }
  rewrite Hsn. destruct (context_defined pr ix b Hl) as [ctx Hctx]. rewrite Hctx. simpl.
  destruct (be_execute _ _ _ _) as [o|e] eqn:Hex.
  2:{ eexists _, _, _. split; [done|]. split_and!; [done|done|done|]. left. by eexists. }
  unfold compute_root_from_store. unfold parent_snapshot in Hsn. rewrite Hsn. cbn [ok_or map_err].
  destruct (Z.eqb_spec (root_transition (sn_state_root sn) (eo_changes o)) (b_state_root b)) as [Hroot|Hne];
    cbn [negb].
  2:{ eexists _, _, _. split; [done|]. split_and!; [done|done|done|]. right. by eexists. }
  assert (eo_changes o = w_changes w (commitment b)) as Hc.
  { eapply Hch; [exact Hctx| |exact Hex|exact Hroot]. destruct Hq as [held Hi]. simpl.
    apply (covers_reads w W _ _ _ Hi); [|done]. by apply (in_covers _ _ Hi). }
  pose proof (insert_quiet w W (lsv_view sv) tip sn b
    (root_transition (sn_state_root sn) (eo_changes o)) (b_txs b) Hq Hsn Hpar) as Hq'.
  rewrite <- Hc in Hq'. eexists _, _, _. split; [done|]. split_and!.
  - exact Hq'.
  - by apply limits_insert.
  - intros d. unfold parent_snapshot, ss_get. simpl. destruct (decide (d = commitment b)) as [->|].
    + rewrite lookup_insert_eq. by eexists.
    + by rewrite lookup_insert_ne.
  - unfold parent_snapshot, ss_get. simpl. rewrite lookup_insert_eq. by eexists.
Qed.

Lemma replay_tail_quiet blocks heights rh rd rep sv ix tip :
  (forall b, b ∈ tail_blocks blocks heights rd -> runs w ex pr b) ->
  quiet w (lsv_view sv) tip -> limits ix -> ancestor w tip rd ->
  is_Some (parent_snapshot (lsv_view sv) rd) ->
  let l := tail_blocks blocks heights rd in
  exists sv' ix' r, replay_tail ex pr blocks heights rh rd rep sv ix = Some (sv', ix', r)
    /\ quiet w (lsv_view sv') tip /\ limits ix' /\ kept sv sv'
    /\ match r with
       | Ok (h, rep') => h = default rh (last (b_height <$> l)) /\ rep' = (rep || negb (bool_decide (l = [])))
           /\ forall b, b ∈ l -> is_Some (parent_snapshot (lsv_view sv') (commitment b))
       | Err e => exists b, b ∈ l /\ replay_error b e
       end.
Proof.
  cbv zeta. revert rh rd rep sv ix.
  induction heights as [|h heights IH]; intros rh rd rep sv ix Hruns Hq Hl Hd Hs; cbn [replay_tail tail_blocks] in *.
  { eexists _, _, _. split; [done|]. rewrite orb_false_r. split_and!; try done. intros b. set_solver. }
  destruct (blocks !! h) as [b|].
  2:{ eexists _, _, _. split; [done|]. rewrite orb_false_r. split_and!; try done. intros b. set_solver. }
  destruct (Z.eqb_spec (parent_digest b) rd) as [<-|]; cbn [negb].
  2:{ eexists _, _, _. split; [done|]. rewrite orb_false_r. split_and!; try done. intros b'. set_solver. }
  assert (runs w ex pr b) as Hr by (apply Hruns; by left).
  destruct (replay_block_quiet sv ix tip b Hr Hq Hl Hd Hs) as (sv1 & ix1 & r1 & -> & Hq1 & Hl1 & Hk1 & H1).
  cbn [mbind option_bind]. destruct r1 as [[]|e].
  2:{ eexists _, _, _. split; [done|]. split_and!; [done..|]. exists b. split; [by left|done]. }
  destruct (IH (b_height b) (commitment b) true sv1 ix1) as (sv2 & ix2 & r2 & -> & Hq2 & Hl2 & Hk2 & H2).
  { intros b' Hb'. apply Hruns. by right. }
  { done. } { done. }
  { eapply (ancestor_trans w W); [done|]. apply (ancestor_parent w W), Hr. }
  { done. }
  eexists _, _, _. split; [done|]. split_and!; [done|done|intros d Hd'; by apply Hk2, Hk1|].
  destruct r2 as [[h' rep']|e].
  - destruct H2 as (-> & -> & Hall). split_and!.
    + rewrite fmap_cons, last_cons. by destruct (last _).
    + rewrite (bool_decide_eq_false_2 (b :: _ = [])) by done. by rewrite orb_true_r.
    + intros b' [->|Hb']%elem_of_cons; [by apply Hk2|by apply Hall].
  - destruct H2 as (b' & Hb' & He). exists b'. split; [by right|done].
Qed.

Lemma recover_seeds_spec arc heights (sv : Service) tip :
  (forall h, h ∈ heights -> is_ok (arc_get arc h) = true) -> quiet w (lsv_view sv) tip ->
  exists sv', recover_seeds arc heights sv = (sv', Ok tt) /\ quiet w (lsv_view sv') tip.
Proof using Type* SH.
  revert sv. induction heights as [|h heights IH]; intros sv Hok Hq; [by eexists|]. simpl.
  pose proof (Hok h ltac:(by left)) as Hh. destruct (arc_get arc h) as [[f|]|]; [| |done];
    (apply IH; [intros h' ?; apply Hok; by right|]); [|done].
  destruct Hq as [held Hi]. exists held.
  by destruct (step_inv w W _ _ Hi (step_other w (mkSystem (lsv_view sv) held [] tip)
    (set_seed (lsv_view sv) (ce_payload f) (keccak256 (ce_seed f))) eq_refl eq_refl)).
Qed.

(** The archived blocks by height. *)
Definition archived (arc : Archive Block) (blocks : gmap u64 Block) : Prop :=
  forall h, blocks !! h = if decide (h ∈ range_heights (arc_ranges arc))
                          then default None (ok (arc_get arc h)) else None.

Lemma load_blocks_spec arc heights ix acc :
  limits ix -> (forall h, h ∈ heights -> is_ok (arc_get arc h) = true) ->
  exists ix' blocks, load_blocks arc pr heights ix acc = Some (ix', Ok blocks) /\ limits ix'
    /\ forall h, blocks !! h = match (if decide (h ∈ heights) then default None (ok (arc_get arc h)) else None) with
                               | Some b => Some b
                               | None => acc !! h
                               end.
Proof using Hlimit.
  revert ix acc. induction heights as [|h heights IH]; intros ix acc Hl Hok; [by eexists _, _|]. simpl.
  pose proof (Hok h ltac:(by left)) as Hh.
  assert (forall h', h' ∈ heights -> is_ok (arc_get arc h') = true) as Hok' by (intros h' ?; apply Hok; by right).
  destruct (arc_get arc h) as [[b|]|] eqn:Eh; [| |done].
  - unfold index_recovered_block. destruct (context_defined pr ix b Hl) as [ctx Hctx]. rewrite Hctx.
    cbn [mbind option_bind].
    destruct (IH (insert_block ix (recovered_entry b ctx 0) [] []) (<[h := b]> acc)) as (ix' & blocks & -> & Hl' & Hb);
      [by apply limits_insert|done|].
    eexists _, _. split; [done|]. split; [done|]. intros h'. rewrite Hb.
    destruct (decide (h' = h)) as [->|Hne].
    + rewrite (decide_True (P := h ∈ h :: heights)) by (by left). rewrite Eh, lookup_insert_eq. simpl.
      by case_decide.
    + rewrite lookup_insert_ne by done. by rewrite (decide_ext (h' ∈ heights) (h' ∈ h :: heights))
        by (by rewrite elem_of_cons; intuition).
  - destruct (IH ix acc Hl Hok') as (ix' & blocks & -> & Hl' & Hb).
    eexists _, _. split; [done|]. split; [done|]. intros h'. rewrite Hb.
    destruct (decide (h' = h)) as [->|Hne].
    + rewrite (decide_True (P := h ∈ h :: heights)) by (by left). rewrite Eh. simpl. by case_decide.
    + by rewrite (decide_ext (h' ∈ heights) (h' ∈ h :: heights)) by (by rewrite elem_of_cons; intuition).
Qed.

Lemma tail_ancestor blocks heights d b :
  (forall b, b ∈ tail_blocks blocks heights d -> runs w ex pr b) ->
  b ∈ tail_blocks blocks heights d -> ancestor w d (commitment b).
Proof.
  revert d. induction heights as [|h heights IH]; intros d Hruns Hb; simpl in *; [by apply elem_of_nil in Hb|].
  destruct (blocks !! h) as [b'|]; [|by apply elem_of_nil in Hb].
  destruct (Z.eqb_spec (parent_digest b') d) as [<-|]; [|by apply elem_of_nil in Hb].
  assert (ancestor w (parent_digest b') (commitment b')) as Ha.
  { apply (ancestor_parent w W). apply (Hruns b'). by left. }
  apply elem_of_cons in Hb as [->|Hb]; [done|]. eapply (ancestor_trans w W); [done|].
  apply IH; [|done]. intros b'' ?. apply Hruns. by right.
Qed.

Lemma restored_snapshot (ls : LedgerState H) b :
  is_Some (parent_snapshot (restore_persisted_snapshot ls b) (commitment b)).
Proof.
  unfold parent_snapshot, ss_get, restore_persisted_snapshot. cbn.
  set (s := ss_insert _ _ _). destruct (mark_persisted_fields s [commitment b]) as (-> & _).
  unfold s. cbn. rewrite lookup_insert_eq. by eexists.
Qed.

Lemma find_checkpoint (blocks : gmap u64 Block) hc c :
  blocks !! hc = Some c ->
  (forall h b, blocks !! h = Some b -> commitment b = commitment c -> b = c) ->
  exists h, find (fun hb => commitment hb.2 =? commitment c) (btree blocks) = Some (h, c).
Proof.
  intros Hc Hinj. destruct (find _ _) as [[h b]|] eqn:Ef.
  - apply find_some in Ef as [Hin Heq]. apply Z.eqb_eq in Heq. simpl in Heq.
    apply list_elem_of_In, elem_of_btree in Hin. exists h. by rewrite (Hinj _ _ Hin Heq).
  - exfalso. eapply find_none in Ef; [|apply list_elem_of_In, elem_of_btree; exact Hc].
    simpl in Ef. by rewrite Z.eqb_refl in Ef.
Qed.

(** ** Properties *)

(** C12: recovery resumes the chain.  After a restart over a database that holds
    the state of the block the marker file names, with archives that can be
    read: the marker is read back, that block is restored, and the archived
    blocks that follow it in a row are executed, each on the state of the one
    before; the ledger then has a snapshot of each of them, which reads as the
    state of its block in the chain, while the database still holds the
    checkpoint; the height returned is that of the last one.  Recovery fails
    only at a block whose execution fails or gives a root other than the one it
    declares. *)
Theorem recovery_replays (arc : Archive Block) (fin : Archive Certificate)
    (blocks : gmap u64 Block) (sv : Service) ix hc c head :
  archived arc blocks -> (forall h, is_ok (arc_get arc h) = true) ->
  (forall h, is_ok (arc_get fin h) = true) ->
  quiet w (lsv_view sv) (commitment c) -> limits ix ->
  blocks !! hc = Some c -> in_width 256 (commitment c) ->
  (forall h b, blocks !! h = Some b -> commitment b = commitment c -> b = c) ->
  last (btree blocks) = Some head ->
  let first := saturating_add u64_max (b_height c) 1 in
  let l := tail_blocks blocks (seqZ first (b_height head.2 - first + 1)) (commitment c) in
  (forall b, b ∈ l -> runs w ex pr b) ->
  exists sv' ix' r,
    recover_finalized_state ex pr arc fin (Some (write_commit_marker (commitment c))) sv ix
    = Some (sv', ix', r)
    /\ ldb_view (ls_qmdb (lsv_view sv')) = w_state w (commitment c)
    /\ match r with
       | Ok (Some (h, replayed)) =>
           h = default (b_height c) (last (b_height <$> l)) /\ replayed = negb (bool_decide (l = []))
           /\ forall b, b ∈ c :: l -> exists sn,
                parent_snapshot (lsv_view sv') (commitment b) = Some sn
                /\ layer (ldb_view (ls_qmdb (lsv_view sv'))) (sn_state sn) = w_state w (commitment b)
       | Ok None => False
       | Err e => exists b, b ∈ l /\ replay_error b e
       end.
Proof.
  intros Harc Hok Hfin Hq Hl Hc Hwid Hinj Hhead. cbv zeta. intros Hruns.
  unfold recover_finalized_state.
  destruct (recover_seeds_spec fin (range_heights (arc_ranges fin)) sv _ (fun h _ => Hfin h) Hq)
    as (sv1 & -> & Hq1).
  destruct (load_blocks_spec arc (range_heights (arc_ranges arc)) ix ∅ Hl (fun h _ => Hok h))
    as (ix1 & blocks' & -> & Hl1 & Hb). cbn [mbind option_bind].
  assert (blocks' = blocks) as ->.
  { apply map_eq. intros h. rewrite Hb, (Harc h), lookup_empty. by destruct (if decide _ then _ else _). }
  rewrite bool_decide_eq_false_2 by (intros ->; by rewrite lookup_empty in Hc).
  unfold restore_checkpoint_and_replay_tail. rewrite Hhead, marker_roundtrip by done.
  destruct head as [hh head]. cbn [mbind option_bind].
  destruct (find_checkpoint blocks hc c Hc Hinj) as [h0 ->].
  set (sv2 := on_view _ sv1).
  assert (quiet w (lsv_view sv2) (commitment c)) as Hq2.
  { destruct Hq1 as [held Hi]. exists held. by apply (inv_restore w W (mkSystem _ held [] (commitment c)) c). }
  pose proof (restored_snapshot (lsv_view sv1) c) as Hs2.
  destruct (replay_tail_quiet blocks _ (b_height c) (commitment c) false sv2 ix1 (commitment c)
    Hruns Hq2 Hl1 (ancestor_refl w W _) Hs2) as (sv3 & ix3 & r & Hr & Hq3 & _ & Hk & Hres).
  cbn [snd] in *. rewrite Hr. cbn [mbind option_bind].
  eexists _, _, _. split; [done|]. destruct Hq3 as [held Hi]. split; [apply (in_view _ _ Hi)|].
  destruct r as [[h rep]|e]; [|done]. destruct Hres as (-> & -> & Hall). split_and!; [done|done|].
  intros b Hin. assert (is_Some (parent_snapshot (lsv_view sv3) (commitment b))) as [sn Hb'].
  { apply elem_of_cons in Hin as [->|Hin]; [by apply Hk|by apply Hall]. }
  exists sn. split; [done|]. apply (covers_reads w W _ _ _ Hi); [by apply (in_covers _ _ Hi)|].
  apply elem_of_cons in Hin as [->|Hin]; [apply (ancestor_refl w W)|by eapply tail_ancestor].
Qed.
End replay.

(** ** Witness *)

#[local] Existing Instances app_ext app_codec app_sha plain_db plain_laws credit_executor.

(** The genesis block and the block on it, both archived. *)
Definition rec_archive : Archive Block :=
  mkArchive [(0, 1)] (fun h => Ok (if h =? 0 then Some app_genesis
                                   else if h =? 1 then Some app_block else None)).
Definition rec_certs : Archive Certificate := mkArchive [] (fun _ => Ok None).
Definition rec_blocks : gmap u64 Block := {[0 := app_genesis; 1 := app_block]}.

Lemma rec_archived : archived rec_archive rec_blocks.
Proof.
  intros h. unfold rec_blocks, rec_archive, range_heights. cbn [arc_ranges arc_get ok].
  change ([(0, 1)] ≫= _) with (seqZ 0 2 ++ []). rewrite app_nil_r.
  destruct (decide (h ∈ seqZ 0 2)) as [Hin|Hin]; rewrite elem_of_seqZ in Hin; simpl.
  - destruct (Z.eqb_spec h 0) as [->|]; [by rewrite lookup_insert_eq|].
    rewrite lookup_insert_ne by done. destruct (Z.eqb_spec h 1) as [->|]; [by rewrite lookup_singleton_eq|lia].
  - rewrite lookup_insert_ne, lookup_singleton_ne by lia. done.
Qed.

Lemma recovery_replays_witness :
  exists sv' ix' sn,
    recover_finalized_state tt fin_provider rec_archive rec_certs
      (Some (write_commit_marker (commitment app_genesis))) (service_new app_ledger0) index_new
    = Some (sv', ix', Ok (Some (1, true)))
    /\ parent_snapshot (lsv_view sv') (commitment app_block) = Some sn
    /\ layer (ldb_view (ls_qmdb (lsv_view sv'))) (sn_state sn) = w_state fin_world (commitment app_block).
Proof.
  destruct (recovery_replays fin_world fin_world_ok tt fin_provider ltac:(vm_compute; discriminate)
    rec_archive rec_certs rec_blocks (service_new app_ledger0) index_new 0 app_genesis (1, app_block))
    as (sv' & ix' & r & Hrec & _ & Hr).
  - exact rec_archived.
  - intros h. reflexivity.
  - intros h. reflexivity.
  - exact fin_quiet.
  - intros h blk Hb. discriminate Hb.
  - reflexivity.
  - split; vm_compute; [discriminate|reflexivity].
  - intros h b Hb Heq. unfold rec_blocks in Hb.
    apply lookup_insert_Some in Hb as [[_ <-]|[_ Hb]]; [reflexivity|].
    apply lookup_singleton_Some in Hb as [_ <-]. exfalso. revert Heq. vm_compute. discriminate.
  - vm_compute. reflexivity.
  - intros b Hb. assert (tail_blocks rec_blocks (seqZ 1 1) (commitment app_genesis) = [app_block]) as Ht
      by (vm_compute; reflexivity).
    change (b ∈ tail_blocks rec_blocks (seqZ 1 1) (commitment app_genesis)) in Hb.
    rewrite Ht in Hb. apply list_elem_of_singleton in Hb as ->. exact fin_runs.
  - assert (option_map snd (Some (sv', ix', r)) = Some (Ok (Some (1, true)))) as Hs
      by (rewrite <- Hrec; vm_compute; reflexivity).
    injection Hs as ->. destruct Hr as (_ & _ & Hall).
    destruct (Hall app_block) as (sn & Hsn & Hv).
    { change (app_block ∈ app_genesis :: tail_blocks rec_blocks (seqZ 1 1) (commitment app_genesis)).
      right. assert (tail_blocks rec_blocks (seqZ 1 1) (commitment app_genesis) = [app_block]) as ->
        by (vm_compute; reflexivity). by left. }
    exists sv', ix', sn. split; [exact Hrec|]. split; [exact Hsn|exact Hv].
Defined.
