(* ===== verification/Divergence.v ===== *)
(** Where the parts of the node disagree: the contexts in which a block is
    verified, finalized and replayed, and what follows for blocks whose
    execution depends on the difference. *)
From S2P Require Import Prelude Bytes TxTypes SenderQueue Pool StateDb Changes StateRoot.
From S2P Require Import Executor Execute Layers Codec Block Snapshots QmdbLedger Chain Ledger.
From S2P Require Import LedgerSteps NodeState App AppProps Indexer Reporters Finality Recovery.

(** Verification runs without the hashes of recent blocks, finalization with
    those of the index. *)
Lemma contexts_differ `{EXT : !External} `{CD : !Codec} `{SH : !Sha256} {E H} (app : App E H) pr ix b ctx ctx' :
  app_block_context app (b_height b) (b_timestamp b) (b_prevrandao b) (parent_digest b) = Some ctx ->
  revm_context pr ix b = Some ctx' ->
  bc_recent_block_hashes ctx = ∅
  /\ (Z.of_nat (size (recent_block_hashes ix (b_height b))) <= MAX_BLOCK_HASHES ->
      bc_recent_block_hashes ctx' = recent_block_hashes ix (b_height b)).
Proof.
  unfold app_block_context, revm_context. destruct (compute_base_fee _ _); [|done].
  destruct (if _ =? 0 then _ else _); [|done]. simpl. intros [= <-] [= <-]. split; [done|].
  intros Hs. simpl. by rewrite (proj2 (Z.ltb_ge _ _)).
Qed.

#[local] Existing Instances app_ext app_codec app_sha plain_db plain_laws fin_alloy.

(** An executor whose blocks store the hash of the block before, and one whose
    blocks store the base fee and use four fifths of the gas. *)
Inductive Probe : Type := ProbeHash | ProbeFee.
Definition probe (p : Probe) (ctx : BlockContext) : U256 :=
  match p with
  | ProbeHash => default 0 (bc_recent_block_hashes ctx !! (hd_number (bc_header ctx) - 1))
  | ProbeFee => default 0 (hd_base_fee_per_gas (bc_header ctx))
  end.
#[local] Instance probe_executor : BlockExecutor Probe (OverlayState ReadFns) := {|
  be_execute := fun p _ ctx _ =>
    Ok (mkOutcome (mkChangeSet {[7 := mkUpdate false false 0 (probe p ctx) 0 None ∅]}) []
          200000000 []);
|}.

Definition probe_node (p : Probe) : App Probe ReadFns :=
  app_new app_ledger0 app_genesis p 100 DEFAULT_GAS_LIMIT 7.

(** The block a node proposes next, and the node after it verified it. *)
Definition propose_next (app : App Probe ReadFns) (parent : Block) : Block :=
  match propose app [(ap_ledger app, 0)] [parent] 5 with
  | Some (_, Some b) => b
  | _ => parent
  end.
Definition verify_next (app : App Probe ReadFns) (b : Block) : App Probe ReadFns * bool :=
  match verify_block app b (Some 0) 5 with Some r => r | None => (app, false) end.

Definition probe_provider : RevmContextProvider := mkContextProvider DEFAULT_GAS_LIMIT 7.

(** A block that reads the hash of its parent block is proposed and verified;
    finalizing it aborts the process. *)
Definition hash_block : Block := propose_next (probe_node ProbeHash) app_genesis.
Definition hash_reporter : FinalizedReporter (E := Probe) (H := ReadFns) (Ack := Z) :=
  with_block_index (reporter_new (service_new app_ledger0) ProbeHash probe_provider)
    (seed_genesis_block_index index_new app_genesis DEFAULT_GAS_LIMIT).

Lemma blockhash_aborts :
  b_height hash_block = 1 /\ (verify_next (probe_node ProbeHash) hash_block).2 = true
  /\ option_map snd (handle_finalized_update (fun _ => fin_around) hash_reporter
       (UBlock hash_block 0)) = Some true.
Proof. split_and!; vm_compute; reflexivity. Qed.

(** Two blocks that use gas are verified; a node that restarts from the first
    cannot replay the second, because recovery indexed the first with no gas
    used. *)
Definition fee_block1 : Block := propose_next (probe_node ProbeFee) app_genesis.
Definition fee_node1 : App Probe ReadFns := (verify_next (probe_node ProbeFee) fee_block1).1.
Definition fee_block2 : Block := propose_next fee_node1 fee_block1.

Definition fee_archive : Archive Block :=
  mkArchive [(1, 2)] (fun h => Ok (if h =? 1 then Some fee_block1
                                   else if h =? 2 then Some fee_block2 else None)).

(** The ledger a restarted node opens over the state of the first block. *)
Definition fee_restarted : LedgerState ReadFns :=
  match ledger_init (Ok (layer empty_reads (mkChangeSet {[7 := mkUpdate false false 0
                           (match compute_base_fee (probe_node ProbeFee) (commitment app_genesis)
                            with Some f => f | None => 0 end) 0 None ∅]}))) 0 with
  | Ok (_, l) => l
  | Err _ => app_ledger0
  end.

Definition is_root_mismatch (r : result (option (u64 * bool)) RecoveryError) (h : u64) : bool :=
  match r with Err (ReplayRootMismatch h' _ _) => h' =? h | _ => false end.

Lemma restart_base_fee_differs :
  b_height fee_block2 = 2 /\ (verify_next fee_node1 fee_block2).2 = true
  /\ option_map (fun r => is_root_mismatch r.2 2)
       (recover_finalized_state ProbeFee probe_provider fee_archive rec_certs
          (Some (write_commit_marker (commitment fee_block1))) (service_new fee_restarted)
          (seed_genesis_block_index index_new app_genesis DEFAULT_GAS_LIMIT)) = Some true.
Proof. split_and!; vm_compute; reflexivity. Qed.
