(* ===== verification/Gossip.v ===== *)
(** Transactions from peers and from the RPC (crates/node/runner/src/runner.rs):
    the bounded set of seen hashes, the handlers of gossip in both directions,
    the submission callback, and the blocker of peers. *)
From S2P Require Import Prelude TxTypes SenderQueue Pool StateDb Validator Changes Layers.
From S2P Require Import Snapshots QmdbLedger Ledger.

Definition TX_GOSSIP_SEEN_SET_CAPACITY : usize := 65536.

Definition SeenSet : Type := gset B256.
Definition new_seen_set : SeenSet := ∅.

(** [mark_seen]: whether the hash is new. *)
Definition mark_seen (seen : SeenSet) (hash : B256) : SeenSet * bool :=
  let seen := if TX_GOSSIP_SEEN_SET_CAPACITY <=? Z.of_nat (size seen) then ∅ else seen in
  ({[hash]} ∪ seen, bool_decide (hash ∉ seen)).

(** [GraduatedBlocker::block]: whether the request reaches the oracle. *)
Definition blocker_block (catching_up : bool) : bool := negb catching_up.

Section gossip.
Context `{EXT : !External}.
Context {H : Type} `{DB : !LedgerDb H} (state_error_string : StateDbError -> string).

Notation Service := (LedgerService (H := H)).

(** The validator against the latest state of the ledger, with its pool. *)
Definition latest_validator (chain_id : u64) (sv : Service) : TransactionValidator (OverlayState H) :=
  let ls := lsv_view sv in
  mkValidator chain_id (overlay_of ls (latest_state ls)) PoolConfig_default (Some (ls_mempool ls)).

(** The outbound task on one transaction: the message to all peers, if any. *)
Definition gossip_out (seen : SeenSet) (raw : bytes) : SeenSet * option bytes :=
  match mark_seen seen (keccak256 raw) with
  | (seen, false) => (seen, None)
  | (seen, true) => (seen, Some raw)
  end.

(** The inbound task on one message. *)
Definition gossip_in (chain_id now : u64) (seen : SeenSet) (sv : Service) (raw : bytes)
    : SeenSet * Service :=
  match mark_seen seen (keccak256 raw) with
  | (seen, false) => (seen, sv)
  | (seen, true) =>
      let tx := mkTx raw in
      match validate state_error_string (latest_validator chain_id sv) tx with
      | Err _ => (seen, sv)
      | Ok _ => (seen, (service_submit_tx sv now tx).1)
      end
  end.

(** The callback of the RPC: the ledger, the seen set and the outbound queue
    when gossip is enabled, and the answer.  [room] is whether the queue has
    room. *)
Definition tx_submit (chain_id now : u64) (room : bool) (gossip : option (SeenSet * list bytes))
    (sv : Service) (data : bytes)
    : option (SeenSet * list bytes) * Service * result unit (option TxPoolError) :=
  let tx := mkTx data in
  match validate state_error_string (latest_validator chain_id sv) tx with
  | Err e => (gossip, sv, Err (Some e))
  | Ok _ =>
      match service_submit_tx sv now tx with
      | (sv, false) => (gossip, sv, Err None)
      | (sv, true) =>
          let gossip := '(seen, queue) ← gossip;
            Some ((mark_seen seen (keccak256 data)).1, if room then queue ++ [data] else queue) in
          (gossip, sv, Ok tt)
      end
  end.

(** ** Lemmas *)

(** The set stays bounded, and a hash is new at most once until it is cleared. *)
Lemma mark_seen_bounded seen hash :
  Z.of_nat (size seen) <= TX_GOSSIP_SEEN_SET_CAPACITY ->
  Z.of_nat (size (mark_seen seen hash).1) <= TX_GOSSIP_SEEN_SET_CAPACITY
  /\ hash ∈ (mark_seen seen hash).1.
Proof.
  intros Hs. unfold mark_seen. cbn [fst]. split; [|set_solver].
  assert (forall s : SeenSet, Z.of_nat (size s) < TX_GOSSIP_SEEN_SET_CAPACITY ->
    Z.of_nat (size ({[hash]} ∪ s)) <= TX_GOSSIP_SEEN_SET_CAPACITY) as Hadd.
  { intros s Hlt. rewrite size_union_alt, size_singleton.
    pose proof (subseteq_size (s ∖ {[hash]}) s ltac:(set_solver)). lia. }
  destruct (Z.leb_spec TX_GOSSIP_SEEN_SET_CAPACITY (Z.of_nat (size seen))); apply Hadd; [|lia].
  rewrite size_empty. unfold TX_GOSSIP_SEEN_SET_CAPACITY. lia.
Qed.

(** Only transactions that the validator accepts against the latest state reach
    the pool. *)
Lemma gossip_in_validates chain_id now seen sv raw :
  (gossip_in chain_id now seen sv raw).2 <> sv ->
  is_ok (validate state_error_string (latest_validator chain_id sv) (mkTx raw)) = true.
Proof.
  unfold gossip_in. destruct (mark_seen _ _) as [s []]; [|done]. by destruct (validate _ _ _).
Qed.

(** Hashes are kept while the set is not cleared. *)
Lemma marked_kept seen hashes h :
  h ∈ seen -> Z.of_nat (size seen) + len hashes <= TX_GOSSIP_SEEN_SET_CAPACITY ->
  h ∈ foldl (fun s x => (mark_seen s x).1) seen hashes
  /\ Z.of_nat (size (foldl (fun s x => (mark_seen s x).1) seen hashes)) <= Z.of_nat (size seen) + len hashes.
Proof.
  revert seen. induction hashes as [|x hashes IH]; intros seen Hh Hs; [unfold len; simpl; split; [done|lia]|].
  assert (len (x :: hashes) = len hashes + 1) as Hlen by (unfold len; simpl; lia). rewrite Hlen in *.
  pose proof (len_nonneg hashes). cbn [foldl]. set (seen' := (mark_seen seen x).1).
  assert (h ∈ seen' /\ Z.of_nat (size seen') <= Z.of_nat (size seen) + 1) as [Hh' Hs'].
  { unfold seen', mark_seen. cbn [fst]. rewrite (proj2 (Z.leb_gt _ _)) by lia. split; [set_solver|].
    rewrite size_union_alt, size_singleton. pose proof (subseteq_size (seen ∖ {[x]}) seen ltac:(set_solver)). lia. }
  destruct (IH seen' Hh') as [? ?]; [lia|]. split; [done|lia].
Qed.

(** ** Properties *)

(** C30: what is submitted here is not broadcast.  A transaction the callback
    accepts is marked as seen before it is queued for the outbound task, which
    skips what is marked; whatever else is marked in between, nothing is sent,
    unless the set was cleared for being full. *)
Theorem submitted_never_broadcast chain_id now room seen queue sv data sv' seen' queue' between :
  tx_submit chain_id now room (Some (seen, queue)) sv data = (Some (seen', queue'), sv', Ok tt) ->
  Z.of_nat (size seen') + len between < TX_GOSSIP_SEEN_SET_CAPACITY ->
  (room = true -> queue' = queue ++ [data])
  /\ (gossip_out (foldl (fun s h => (mark_seen s h).1) seen' between) data).2 = None.
Proof.
  unfold tx_submit. destruct (validate _ _ _); [|done]. destruct (service_submit_tx _ _ _) as [? []]; [|done].
  simpl. intros [= Hseen <- _] Hsz. split; [by intros ->|].
  assert (keccak256 data ∈ seen') as Hin by (rewrite <- Hseen; unfold mark_seen; set_solver).
  destruct (marked_kept seen' between _ Hin ltac:(lia)) as [Hk Hs].
  set (s := foldl _ _ _) in *. unfold gossip_out, mark_seen. rewrite (proj2 (Z.leb_gt _ _)) by lia.
  by rewrite bool_decide_eq_false_2 by (intros Hn; by apply Hn).
Qed.
End gossip.

(** ** Witness *)

#[local] Existing Instances val_ext val_state.
#[local] Instance gos_db : LedgerDb unit := {|
  ldb_read := val_state;
  ldb_commit := fun h c => (h, Ok 0);
  ldb_root := fun _ => Ok 0;
|}.

Definition gos_service : LedgerService (H := unit) :=
  service_new (mkLedger (pool_new PoolConfig_default) ss_new 0 seeds_empty tt).

Lemma submitted_never_broadcast_witness :
  exists seen' queue' sv',
    tx_submit (fun _ => "state error") 1 0 true (Some (new_seen_set, [])) gos_service [0; 5]
    = (Some (seen', queue'), sv', Ok tt)
    /\ queue' = [[0; 5]] /\ (gossip_out seen' [0; 5]).2 = None.
Proof.
  assert (exists sv', tx_submit (fun _ => "state error") 1 0 true (Some (new_seen_set, [])) gos_service [0; 5]
    = (Some ((mark_seen new_seen_set (keccak256 [0; 5])).1, [[0; 5]]), sv', Ok tt)) as [sv' Hs]
    by (eexists; vm_compute; reflexivity).
  destruct (submitted_never_broadcast (fun _ => "state error") 1 0 true new_seen_set [] gos_service [0; 5]
    _ _ _ [] Hs) as [Hq Hn]; [vm_compute; reflexivity|].
  eexists _, _, _. split; [exact Hs|]. split; [exact (Hq eq_refl)|exact Hn].
Defined.
