(* ===== verification/Consensus.v ===== *)
(** The generic consensus components (crates/node/consensus/src): the mempool
    over a map, the ledger view and the proposal builder over any state
    database, mempool and executor. *)
From S2P Require Import Prelude TxTypes SenderQueue Pool StateDb Changes StateRoot Executor Execute.
From S2P Require Import Layers Codec Block Snapshots QmdbLedger Ledger App.

(** ** Interfaces (traits.rs, and the write half of the state database) *)

Class MempoolOps (M : Type) := {
  mp_insert : M -> Tx -> M * bool;
  mp_build : M -> usize -> gset B256 -> list Tx;
  mp_prune : M -> list B256 -> M;
  mp_len : M -> usize;
}.

Class StateDbCommit (S : Type) := {
  sd_commit : S -> ChangeSet -> S * result B256 StateDbError;
  sd_compute_root : S -> ChangeSet -> result B256 StateDbError;
  sd_state_root : S -> result B256 StateDbError;
}.

(** ** The mempool (components/mempool.rs) *)

Section mempool.
Context `{EXT : !External}.

Definition InMemoryMempool : Type := gmap B256 Tx.
Definition mem_new : InMemoryMempool := ∅.

Definition tx_order_key (tx : Tx) : Z * Address * u64 :=
  match decode_2718 (tx_bytes tx) with
  | Err _ => (1, 0, u64_max)
  | Ok e =>
      match recover_address e with
      | None => (1, 0, u64_max)
      | Some sender => (0, sender, env_nonce e)
      end
  end.

(** The order of [sort_by_key]: the key, then the identifier. *)
Definition mem_cmp : (Z * Address * u64) * B256 * Tx -> (Z * Address * u64) * B256 * Tx -> comparison :=
  cmp_lex (cmp_on (fun c => c.1.1.1.1) Z.compare)
    (cmp_lex (cmp_on (fun c => c.1.1.1.2) Z.compare)
       (cmp_lex (cmp_on (fun c => c.1.1.2) Z.compare) (cmp_on (fun c => c.1.2) Z.compare))).

Definition mem_insert (m : InMemoryMempool) (tx : Tx) : InMemoryMempool * bool :=
  let id := tx_id tx in (<[id := tx]> m, negb (is_some (m !! id))).

Definition mem_candidates (m : InMemoryMempool) (excluded : gset B256)
    : list ((Z * Address * u64) * B256 * Tx) :=
  (fun e => (tx_order_key e.2, e.1, e.2)) <$> filter (fun e => e.1 ∉ excluded) (btree m).

Definition mem_build (m : InMemoryMempool) (max_txs : usize) (excluded : gset B256) : list Tx :=
  snd <$> take (Z.to_nat max_txs) (sort_by mem_cmp (mem_candidates m excluded)).

Definition mem_prune (m : InMemoryMempool) (tx_ids : list B256) : InMemoryMempool :=
  foldl (fun m id => delete id m) m tx_ids.

Definition mem_len (m : InMemoryMempool) : usize := Z.of_nat (size m).

#[export] Instance mem_mempool : MempoolOps InMemoryMempool :=
  {| mp_insert := mem_insert; mp_build := mem_build; mp_prune := mem_prune; mp_len := mem_len |}.
End mempool.

(** ** The ledger view (ledger.rs) *)

Record LedgerView (S M : Type) := mkView {
  lv_state : S;
  lv_mempool : M;
  lv_snapshots : SnapshotStore S;
  lv_seeds : SeedTracker;
}.
Arguments mkView {S M}.
Arguments lv_state {S M}.
Arguments lv_mempool {S M}.
Arguments lv_snapshots {S M}.
Arguments lv_seeds {S M}.

Section view.
Context `{EXT : !External} {S M : Type} `{MP : !MempoolOps M} `{SC : !StateDbCommit S}.
Implicit Types (v : LedgerView S M).

(** The outer option is the fuel of the walk. *)
Definition build_proposal_txs v (parent : option Digest) (max_txs : usize) : option (list Tx) :=
  excluded ← collect_ancestor_tx_ids (lv_snapshots v) parent;
  Some (mp_build (lv_mempool v) max_txs excluded).

Definition get_parent_snapshot v (parent : option Digest)
    : result (option (Snapshot S)) ConsensusError :=
  match parent with
  | Some d => let? sn := ok_or (ss_get (lv_snapshots v) d) (SnapshotNotFound d) in Ok (Some sn)
  | None => Ok None
  end.

Definition lv_insert_snapshot v (d : Digest) (sn : Snapshot S) : LedgerView S M :=
  mkView (lv_state v) (lv_mempool v) (ss_insert (lv_snapshots v) d sn) (lv_seeds v).

Definition get_seed v (d : Digest) : result B256 ConsensusError :=
  ok_or (seeds_get (lv_seeds v) d) (SnapshotNotFound d).

Definition insert_seed v (d : Digest) (seed : B256) : LedgerView S M :=
  mkView (lv_state v) (lv_mempool v) (lv_snapshots v) (seeds_insert (lv_seeds v) d seed).

Definition lv_persist_snapshot v (d : Digest)
    : option (LedgerView S M * result B256 ConsensusError) :=
  r ← changes_for_persist (lv_snapshots v) d;
  Some
    match r with
    | Err e => (v, Err e)
    | Ok (chain, merged) =>
        if bool_decide (chain = []) then (v, map_err CStateDb (sd_state_root (lv_state v)))
        else
          match sd_commit (lv_state v) merged with
          | (s, Err e) => (mkView s (lv_mempool v) (lv_snapshots v) (lv_seeds v), Err (CStateDb e))
          | (s, Ok root) =>
              (mkView s (lv_mempool v) (mark_persisted (lv_snapshots v) chain) (lv_seeds v), Ok root)
          end
    end.

Definition lv_merged_changes v (parent : Digest) (new_changes : ChangeSet)
    : option (result ChangeSet ConsensusError) :=
  merged_changes (lv_snapshots v) parent new_changes.

Definition lv_is_persisted v (d : Digest) : bool := ss_is_persisted (lv_snapshots v) d.
End view.

(** ** The proposal builder (proposal.rs) *)

Record ProposalBuilder (S M E : Type) := mkBuilder {
  pb_state : S;
  pb_mempool : M;
  pb_snapshots : SnapshotStore S;
  pb_executor : E;
  pb_max_txs : usize;
  pb_fee_recipient : Address;
}.
Arguments mkBuilder {S M E}.
Arguments pb_state {S M E}.
Arguments pb_mempool {S M E}.
Arguments pb_snapshots {S M E}.
Arguments pb_executor {S M E}.
Arguments pb_max_txs {S M E}.
Arguments pb_fee_recipient {S M E}.

Definition proposal_context (height timestamp : u64) (prevrandao : B256) (fee_recipient : Address)
    : BlockContext :=
  BlockContext_new
    (mkHeader 0 fee_recipient height DEFAULT_GAS_LIMIT 0 timestamp (Some INITIAL_BASE_FEE)) 0
    prevrandao.

Section builder.
Context `{EXT : !External} `{CD : !Codec} `{SH : !Sha256}.
Context {S M E : Type} `{MP : !MempoolOps M} `{SC : !StateDbCommit S} `{BE : !BlockExecutor E S}.
(** [Display] of an execution error. *)
Variable exec_error_string : ExecutionError -> string.
Implicit Types (pb : ProposalBuilder S M E).

Definition builder_new (state : S) (mempool : M) (snapshots : SnapshotStore S) (executor : E)
    : ProposalBuilder S M E :=
  mkBuilder state mempool snapshots executor 1000 0.
Definition with_fee_recipient pb (fee_recipient : Address) : ProposalBuilder S M E :=
  mkBuilder (pb_state pb) (pb_mempool pb) (pb_snapshots pb) (pb_executor pb) (pb_max_txs pb)
    fee_recipient.
Definition with_max_txs pb (max_txs : usize) : ProposalBuilder S M E :=
  mkBuilder (pb_state pb) (pb_mempool pb) (pb_snapshots pb) (pb_executor pb) max_txs
    (pb_fee_recipient pb).

(** [build_proposal]; the outer option is the fuel of the walks. *)
Definition build_proposal pb (parent : Block) (prevrandao : B256) (now_secs : u64)
    : option (result (Block * Snapshot S) ConsensusError) :=
  let parent_d := commitment parent in
  match ss_get (pb_snapshots pb) parent_d with
  | None => Some (Err (SnapshotNotFound parent_d))
  | Some parent_sn =>
      excluded ← collect_pending_tx_ids (pb_snapshots pb) parent_d;
      match excluded with
      | Err e => Some (Err e)
      | Ok excluded =>
          let txs := mp_build (pb_mempool pb) (pb_max_txs pb) excluded in
          let height := wrapping_add u64_max (b_height parent) 1 in
          match next_timestamp now_secs (b_timestamp parent) with
          | None => Some (Err (TimestampOverflow (b_timestamp parent)))
          | Some timestamp =>
              let context := proposal_context height timestamp prevrandao (pb_fee_recipient pb) in
              match be_execute (pb_executor pb) (sn_state parent_sn) context (tx_bytes <$> txs) with
              | Err e => Some (Err (CExecution (exec_error_string e)))
              | Ok outcome =>
                  merged ← merged_changes (pb_snapshots pb) parent_d (eo_changes outcome);
                  Some
                    (let? merged := merged in
                     let? root := map_err CStateDb (sd_compute_root (pb_state pb) merged) in
                     let block := mkBlock (block_id parent) height timestamp prevrandao root txs in
                     Ok (block, mkSnapshot (Some parent_d) (sn_state parent_sn) root
                                  (eo_changes outcome) (tx_ids (b_txs block))))
              end
          end
      end
  end.
End builder.

(** ** Lemmas *)

Section lemmas.
Context `{EXT : !External}.

#[export] Instance mem_cmp_order : CmpOrder mem_cmp.
Proof. unfold mem_cmp. apply _. Qed.

(** A build has at most the number asked for, from the pool, nothing excluded,
    and in the order of senders and nonces. *)
Lemma mem_build_spec m max_txs excluded :
  0 <= max_txs ->
  len (mem_build m max_txs excluded) <= max_txs
  /\ (forall tx, tx ∈ mem_build m max_txs excluded -> exists id, m !! id = Some tx /\ id ∉ excluded)
  /\ exists l, snd <$> l = mem_build m max_txs excluded /\ StronglySorted (cmp_le mem_cmp) l
     /\ forall c, c ∈ l -> c.1.1 = tx_order_key c.2.
Proof.
  intros Hmax. unfold mem_build. set (l := sort_by _ _).
  assert (forall c, c ∈ l -> exists id tx, c = (tx_order_key tx, id, tx) /\ m !! id = Some tx /\ id ∉ excluded) as Hc.
  { intros c. unfold l. rewrite sort_by_perm. unfold mem_candidates.
    intros ([id tx]&->&[Hx Hin]%list_elem_of_filter)%list_elem_of_fmap. exists id, tx.
    split_and!; [done|by apply elem_of_btree|done]. }
  assert (forall c, c ∈ take (Z.to_nat max_txs) l -> c ∈ l) as Htake.
  { intros c Hin. rewrite <- (take_drop (Z.to_nat max_txs) l). apply elem_of_app. by left. }
  split_and!.
  - unfold len. rewrite length_fmap, length_take. lia.
  - intros tx (c&->&Hin)%list_elem_of_fmap. destruct (Hc c (Htake c Hin)) as (id&tx&->&?&?). eauto.
  - exists (take (Z.to_nat max_txs) l). split_and!; [done| |].
    + eapply StronglySorted_app_1_l. rewrite take_drop. by apply sort_by_sorted, mem_cmp_order.
    + intros c Hin. by destruct (Hc c (Htake c Hin)) as (id&tx&->&_).
Qed.

(** Of two transactions of one sender the one with the lower nonce comes first. *)
Lemma mem_cmp_nonces a b s n n' :
  tx_order_key a.2 = (0, s, n) -> tx_order_key b.2 = (0, s, n') ->
  a.1.1 = tx_order_key a.2 -> b.1.1 = tx_order_key b.2 -> cmp_le mem_cmp a b -> n <= n'.
Proof.
  intros Ha Hb Ea Eb. rewrite Ha in Ea. rewrite Hb in Eb. unfold cmp_le, mem_cmp, cmp_lex, cmp_on.
  rewrite Ea, Eb. simpl. rewrite Z.compare_refl. simpl. destruct (Z.compare_spec n n'); simpl; [lia|lia|done].
Qed.
End lemmas.
