(* ===== verification/Dkg.v ===== *)
(** The distributed key generation of crates/node/dkg: the library it runs on
    as an interface, configuration, errors, sessions and the wire format of
    the protocol messages (config.rs, error.rs, protocol.rs). *)
From stdpp Require Import pretty.
From S2P Require Import Prelude Bytes Hex TxTypes Codec Block.

(** ** The library

    The joint-Feldman key generation of commonware-cryptography with its
    ed25519 identities, the encodings of its messages, the hexadecimal
    encoding of the hex crate and the quorum rule of commonware-utils.
    A public key is its 32 bytes, read as an integer. *)
Abbreviation PublicKey := Z (only parsing).

Class DkgLib := {
  PrivateKey : Type;
  Info : Type;
  Player : Type;
  Dealer : Type;
  DealerPubMsg : Type;
  DealerPrivMsg : Type;
  PlayerAck : Type;
  SignedDealerLog : Type;
  DealerLog : Type;
  Output : Type;
  Share : Type;
  Rng : Type;
  public_key : PrivateKey -> PublicKey;
  quorum : usize -> u32;
  info_new : bytes -> u64 -> list PublicKey -> list PublicKey -> result Info string;
  player_new : Info -> PrivateKey -> result Player string;
  dealer_start : Rng -> Info -> PrivateKey ->
    result (Dealer * DealerPubMsg * list (PublicKey * DealerPrivMsg)) string;
  dealer_message : Player -> PublicKey -> DealerPubMsg -> DealerPrivMsg ->
    Player * option PlayerAck;
  receive_player_ack : Dealer -> PublicKey -> PlayerAck -> Dealer * result unit string;
  dealer_finalize : Dealer -> SignedDealerLog;
  log_check : Info -> SignedDealerLog -> option (PublicKey * DealerLog);
  player_finalize : Rng -> Player -> Info -> list (PublicKey * DealerLog) ->
    result (Output * Share) string;
  write_group_key : Output -> bytes;
  write_polynomial : Output -> bytes;
  write_share : Share -> bytes;
  share_index : Share -> u32;
  write_pk : PublicKey -> bytes;
  read_pk : Reader PublicKey;
  write_pub : DealerPubMsg -> bytes;
  read_pub (max_degree : u32) : Reader DealerPubMsg;
  write_priv : DealerPrivMsg -> bytes;
  read_priv : Reader DealerPrivMsg;
  write_ack : PlayerAck -> bytes;
  read_ack : Reader PlayerAck;
  write_log : SignedDealerLog -> bytes;
  read_log (max_degree : u32) : Reader SignedDealerLog;
  write_u32 : u32 -> bytes;
  read_u32 : Reader u32;
  hex_encode : bytes -> string;
  hex_decode : string -> result bytes string;
}.

(** What the library documents of its encodings and of a round.  [pk_ok] holds
    of the keys on the curve, [pub_fits d] and [log_fits d] of polynomials
    within the limit [d] of the decoder; [holds i k p] says that [p] is the
    player of key [k] in the round [i], [took p d] that it accepted the dealing
    of [d]; [dealing i k pub d] that [d] is the dealer of key [k] with the public
    message [pub], [dealt i k d pub priv] that the messages are those an honest
    dealer [d] sends to [k]; [ack_valid i d pub k a] that [a] is the
    acknowledgement by [k] of the dealing [pub] of [d], [dealer_acked d k] that
    the dealer recorded one of [k]; [log_good i dl] that a log passes the
    validation that precedes the output, which fails for a log with too few
    acknowledgements. *)
Class DkgLaws `{LIB : DkgLib} := {
  pk_ok : PublicKey -> Prop;
  pub_fits : u32 -> DealerPubMsg -> Prop;
  log_fits : u32 -> SignedDealerLog -> Prop;
  holds : Info -> PublicKey -> Player -> Prop;
  took : Player -> PublicKey -> Prop;
  dealing : Info -> PublicKey -> DealerPubMsg -> Dealer -> Prop;
  dealt : Info -> PublicKey -> PublicKey -> DealerPubMsg -> DealerPrivMsg -> Prop;
  ack_valid : Info -> PublicKey -> DealerPubMsg -> PublicKey -> PlayerAck -> Prop;
  dealer_acked : Dealer -> PublicKey -> Prop;
  log_good : Info -> DealerLog -> Prop;
  pk_law pk : pk_ok pk -> reads_back read_pk write_pk pk;
  pub_law d m : pub_fits d m -> reads_back (read_pub d) write_pub m;
  priv_law m : reads_back read_priv write_priv m;
  ack_law a : reads_back read_ack write_ack a;
  log_law d l : log_fits d l -> reads_back (read_log d) write_log l;
  u32_law x : in_width 32 x -> reads_back read_u32 write_u32 x;
  hex_law b : bytes_ok b -> hex_decode (hex_encode b) = Ok b;
  log_bytes l : bytes_ok (write_log l);
  pk_bytes pk : bytes_ok (write_pk pk);
  pk_length pk : length (write_pk pk) = 32%nat;
  output_bytes o : bytes_ok (write_group_key o) /\ bytes_ok (write_polynomial o);
  share_bytes s : bytes_ok (write_share s);
  (** A dealer makes one message for each player of the round, all of them
      consistent with its public message. *)
  dealer_start_players ns r ds ps i rng k d pub privs :
    info_new ns r ds ps = Ok i -> dealer_start rng i k = Ok (d, pub, privs) ->
    forall q, q ∈ privs.*1 <-> q ∈ ps;
  dealer_start_deals rng i k d pub privs :
    dealer_start rng i k = Ok (d, pub, privs) ->
    dealing i (public_key k) pub d
    /\ forall q m, (q, m) ∈ privs -> dealt i q (public_key k) pub m;
  (** A dealer records the valid acknowledgements it receives, and forgets none. *)
  receive_ack_dealing i k pub d q ack :
    dealing i k pub d -> dealing i k pub (receive_player_ack d q ack).1;
  receive_ack_valid i k pub d q ack :
    dealing i k pub d -> ack_valid i k pub q ack ->
    dealer_acked (receive_player_ack d q ack).1 q;
  receive_ack_keeps d q ack q' :
    dealer_acked d q' -> dealer_acked (receive_player_ack d q ack).1 q';
  (** The log of a dealer of the round carries its signature; it passes the
      validation if a quorum of the players acknowledged the dealing. *)
  dealer_finalize_valid i k pub d :
    dealing i k pub d -> exists dl, log_check i (dealer_finalize d) = Some (k, dl);
  dealer_finalize_good ns r ds ps i k pub d dl (qs : list PublicKey) :
    info_new ns r ds ps = Ok i -> dealing i k pub d ->
    log_check i (dealer_finalize d) = Some (k, dl) ->
    NoDup qs -> (forall q, q ∈ qs -> q ∈ ps /\ dealer_acked d q) -> quorum (len ps) <= len qs ->
    log_good i dl;
  player_new_holds i k p : player_new i k = Ok p -> holds i (public_key k) p;
  (** A player accepts and acknowledges consistent messages. *)
  dealer_message_holds i k p d pub priv :
    holds i k p -> holds i k (dealer_message p d pub priv).1;
  dealer_message_acks i k p d pub priv :
    holds i k p -> dealt i k d pub priv ->
    is_some (dealer_message p d pub priv).2 = true /\ took (dealer_message p d pub priv).1 d;
  dealer_message_keeps p d pub priv d' :
    took p d' -> took (dealer_message p d pub priv).1 d';
  (** A player that accepted the dealings of all dealers obtains an output from
      their logs if these pass the validation. *)
  player_finalize_ok ns r ds ps i rng k p logs :
    info_new ns r ds ps = Ok i -> holds i k p -> (forall d, d ∈ ds -> took p d) ->
    (forall d, d ∈ ds -> d ∈ logs.*1) ->
    Forall (fun e => (exists l, log_check i l = Some e) /\ log_good i e.2) logs ->
    is_ok (player_finalize rng p i logs) = true;
}.

(** ** Configuration, phases and errors *)

Inductive DkgPhase :=
| AwaitingStart | DealerStarted | CollectingMessages | DealerFinalized
| CollectingLogs | Completed | Failed.

#[export] Instance DkgPhase_eq_dec : EqDecision DkgPhase.
Proof. solve_decision. Defined.

Inductive DkgError :=
| CeremonyFailed (msg : string)
| InvalidParticipantCount (expected actual : usize)
| InvalidThreshold (threshold : u32) (participants : usize)
| DkgNetworkError (msg : string)
| Crypto (msg : string)
| Serialization (msg : string)
| DkgIo (msg : string)
| DkgTimeout
| MissingShare
| InvalidDealerLog (dealer : PublicKey)
| UnknownSender (sender : PublicKey)
| SenderMismatch (expected actual : PublicKey)
| UnauthorizedSender
| DuplicateDealer (dealer : PublicKey)
| TooManyDealers (count max : usize)
| SessionMismatch (expected received : B256)
| InvalidMessage (e : CodecError).

(** ** Sessions (protocol.rs) *)

Record CeremonySession := mkSession {
  ceremony_id : B256;
  cs_chain_id : u64;
  cs_round : u32;
}.

#[export] Instance CeremonySession_eq_dec : EqDecision CeremonySession.
Proof. solve_decision. Defined.

Definition le_bytes (n : nat) (x : Z) : bytes := reverse (be_bytes n x).
Definition le_value (l : bytes) : Z := be_value (reverse l).

(** The bytes of a string literal or of a formatted string. *)
Definition string_bytes (s : string) : bytes :=
  (fun c => Z.of_N (Ascii.N_of_ascii c)) <$> String.list_ascii_of_string s.

Definition session_prefix : bytes := string_bytes "kora-dkg-ceremony-v1".

(** The bytes hashed into the ceremony identifier. *)
Definition session_preimage (chain_id : u64) (participants : list PublicKey)
    (timestamp_nanos : u64) : bytes :=
  session_prefix ++ le_bytes 8 chain_id ++ le_bytes 8 (len participants)
  ++ (pk ← sort_by Z.compare participants; be_bytes 32 pk)
  ++ le_bytes 8 timestamp_nanos.

Definition session_new `{SH : !Sha256} (chain_id : u64) (participants : list PublicKey)
    (timestamp_nanos : u64) : CeremonySession :=
  mkSession (sha256 (session_preimage chain_id participants timestamp_nanos)) chain_id 0.

Definition session_to_bytes (s : CeremonySession) : bytes :=
  be_bytes 32 (ceremony_id s) ++ le_bytes 8 (cs_chain_id s) ++ le_bytes 4 (cs_round s).

Definition session_from_bytes (b : bytes) : result CeremonySession CodecError :=
  if len b <? 44 then Err EndOfBuffer
  else Ok (mkSession (be_value (slice b 0 32)) (le_value (slice b 32 40))
             (le_value (slice b 40 44))).

Definition compute_message_hash `{SH : !Sha256} (b : bytes) : B256 := sha256 b.

(** ** Messages (protocol.rs) *)

Section messages.
Context `{LIB : DkgLib}.

Record DkgConfig := mkDkgConfig {
  identity_key : PrivateKey;
  validator_index : usize;
  dk_participants : list PublicKey;
  dk_chain_id : u64;
  bootstrap_peers : list (PublicKey * string);
}.

Definition dk_n (c : DkgConfig) : usize := len (dk_participants c).
Definition dk_t (c : DkgConfig) : u32 := quorum (len (dk_participants c)).
Definition my_public_key (c : DkgConfig) : PublicKey := public_key (identity_key c).

Inductive ProtocolMessageKind :=
| DealerPublic (dealer : PublicKey) (msg : DealerPubMsg)
| DealerPrivate (dealer : PublicKey) (msg : DealerPrivMsg)
| PlayerAckMsg (player dealer : PublicKey) (ack : PlayerAck)
| DealerLogMsg (log : SignedDealerLog)
| RequestLogs
| AllLogs (logs : list (PublicKey * SignedDealerLog))
| Ready (player : PublicKey).

Record ProtocolMessage := mkMessage {
  session_id : option B256;
  kind : ProtocolMessageKind;
}.

Definition message_new (session_id : B256) (k : ProtocolMessageKind) : ProtocolMessage :=
  mkMessage (Some session_id) k.
Definition message_legacy (k : ProtocolMessageKind) : ProtocolMessage := mkMessage None k.

Definition write_entry (e : PublicKey * SignedDealerLog) : bytes :=
  write_pk e.1 ++ write_log e.2.
Definition read_entry (max_degree : u32) : Reader (PublicKey * SignedDealerLog) := fun buf =>
  let? (pk, buf) := read_pk buf in
  let? (log, buf) := read_log max_degree buf in
  Ok ((pk, log), buf).

Definition kind_to_bytes (k : ProtocolMessageKind) : bytes :=
  match k with
  | DealerPublic dealer msg => 0 :: write_pk dealer ++ write_pub msg
  | DealerPrivate dealer msg => 1 :: write_pk dealer ++ write_priv msg
  | PlayerAckMsg player dealer ack => 2 :: write_pk player ++ write_pk dealer ++ write_ack ack
  | DealerLogMsg log => 3 :: write_log log
  | RequestLogs => [4]
  | AllLogs logs => 5 :: write_u32 (len logs) ++ (e ← logs; write_entry e)
  | Ready player => 6 :: write_pk player
  end.

Definition to_bytes (m : ProtocolMessage) : bytes :=
  match session_id m with
  | Some sid => 255 :: 2 :: be_bytes 32 sid
  | None => []
  end ++ kind_to_bytes (kind m).

Definition read_u8 : Reader Z := fun buf =>
  match buf with [] => Err EndOfBuffer | b :: buf => Ok (b, buf) end.

(** The session and the tag of the message. *)
Definition read_header : Reader (option B256 * Z) := fun buf =>
  let? (first_byte, buf) := read_u8 buf in
  if first_byte =? 255 then
    let? (version, buf) := read_u8 buf in
    if negb (version =? 2) then Err (InvalidEnum version)
    else
      let? (sid, buf) := read_fixed 32 buf in
      let? (tag, buf) := read_u8 buf in
      Ok ((Some sid, tag), buf)
  else Ok ((None, first_byte), buf).

Definition read_kind (tag : Z) (max_degree : u32) (buf : bytes)
    : result ProtocolMessageKind CodecError :=
  if tag =? 0 then
    let? (dealer, buf) := read_pk buf in
    let? (msg, buf) := read_pub max_degree buf in
    Ok (DealerPublic dealer msg)
  else if tag =? 1 then
    let? (dealer, buf) := read_pk buf in
    let? (msg, buf) := read_priv buf in
    Ok (DealerPrivate dealer msg)
  else if tag =? 2 then
    let? (player, buf) := read_pk buf in
    let? (dealer, buf) := read_pk buf in
    let? (ack, buf) := read_ack buf in
    Ok (PlayerAckMsg player dealer ack)
  else if tag =? 3 then
    let? (log, buf) := read_log max_degree buf in
    Ok (DealerLogMsg log)
  else if tag =? 4 then Ok RequestLogs
  else if tag =? 5 then
    let? (count, buf) := read_u32 buf in
    let? (logs, buf) := read_items (read_entry max_degree) (Z.to_nat count) buf in
    Ok (AllLogs logs)
  else if tag =? 6 then
    let? (player, buf) := read_pk buf in
    Ok (Ready player)
  else Err (InvalidEnum tag).

(** Bytes after the message are ignored. *)
Definition from_bytes (b : bytes) (max_degree : u32) : result ProtocolMessage CodecError :=
  let? (header, buf) := read_header b in
  if max_degree =? 0 then Err (InvalidLength 0)
  else
    let? k := read_kind header.2 max_degree buf in
    Ok (mkMessage header.1 k).

(** ** Theorems *)

Context `{LAWS : !DkgLaws}.

(** The messages the wire format can carry under the limit [d]. *)
Definition kind_ok (d : u32) (k : ProtocolMessageKind) : Prop :=
  match k with
  | DealerPublic dealer msg => pk_ok dealer /\ pub_fits d msg
  | DealerPrivate dealer _ => pk_ok dealer
  | PlayerAckMsg player dealer _ => pk_ok player /\ pk_ok dealer
  | DealerLogMsg log => log_fits d log
  | RequestLogs => True
  | AllLogs logs =>
      in_width 32 (len logs) /\ Forall (fun e => pk_ok e.1 /\ log_fits d e.2) logs
  | Ready player => pk_ok player
  end.

Definition message_ok (d : u32) (m : ProtocolMessage) : Prop :=
  match session_id m with Some sid => in_width 256 sid | None => True end /\ kind_ok d (kind m).

Lemma log_pair_back d e :
  pk_ok e.1 -> log_fits d e.2 -> reads_back (read_entry d) write_entry e.
Proof using LAWS.
  intros Hp Hl rest. unfold read_entry, write_entry. rewrite <- app_assoc.
  rewrite (pk_law _ Hp), (log_law _ _ Hl). by destruct e.
Qed.

Lemma kind_back d k rest :
  kind_ok d k ->
  exists tag buf, kind_to_bytes k ++ rest = tag :: buf /\ tag < 255 /\ read_kind tag d buf = Ok k.
Proof using LAWS.
  destruct k as [dealer msg|dealer msg|player dealer ack|log| |logs|player];
    cbn [kind_ok kind_to_bytes]; intros H; eexists _, (_ ++ rest); (split; [reflexivity|split; [lia|]]);
    unfold read_kind; cbn [Z.eqb Pos.eqb]; rewrite <- ?app_assoc.
  - destruct H as [Hp Hm]. by rewrite (pk_law _ Hp), (pub_law _ _ Hm).
  - by rewrite (pk_law _ H), priv_law.
  - destruct H as [Hp Hd]. by rewrite (pk_law _ Hp), (pk_law _ Hd), ack_law.
  - by rewrite (log_law _ _ H).
  - done.
  - destruct H as [Hl Hf]. rewrite (u32_law _ Hl). unfold len. rewrite Nat2Z.id.
    rewrite (read_items_back _ write_entry); [done|].
    eapply Forall_impl; [exact Hf|]. intros e [??]. by apply log_pair_back.
  - by rewrite (pk_law _ H).
Qed.

Lemma from_to_bytes d m rest :
  0 < d -> message_ok d m -> from_bytes (to_bytes m ++ rest) d = Ok m.
Proof using LAWS.
  intros Hd [Hs Hk]. destruct m as [s k]; cbn [session_id kind] in *. unfold to_bytes; cbn [session_id kind].
  rewrite <- app_assoc. destruct (kind_back d k rest Hk) as (tag & buf & -> & Ht & Hr).
  unfold from_bytes, read_header. destruct s as [sid|]; cbn [app read_u8 Z.eqb Pos.eqb negb].
  - rewrite read_fixed_back by (by eapply in_width_bytes).
    cbn [read_u8 fst snd]. rewrite (proj2 (Z.eqb_neq d 0)) by lia. by rewrite Hr.
  - rewrite (proj2 (Z.eqb_neq tag 255)) by lia. cbn [fst snd].
    rewrite (proj2 (Z.eqb_neq d 0)) by lia. by rewrite Hr.
Qed.

(** C21: Every protocol message is read back from its bytes, with its session
    or as a legacy message, whatever bytes follow; so distinct messages have
    distinct encodings. *)
Theorem message_roundtrip (d : u32) (m : ProtocolMessage) (Hd : 0 < d) (Hm : message_ok d m) :
  (forall rest, from_bytes (to_bytes m ++ rest) d = Ok m)
  /\ (forall m', message_ok d m' -> to_bytes m' = to_bytes m -> m' = m).
Proof using LAWS.
  split; [intros rest; by apply from_to_bytes|].
  intros m' Hm' E. pose proof (from_to_bytes d m' [] Hd Hm') as H'.
  pose proof (from_to_bytes d m [] Hd Hm) as H. rewrite E, H in H'. by simplify_eq.
Qed.

End messages.

(** ** Sessions: theorems *)

Lemma le_bytes_length n x : length (le_bytes n x) = n.
Proof. unfold le_bytes. by rewrite length_reverse, be_bytes_length. Qed.

Lemma le_value_bytes n x : 0 <= x < 256 ^ Z.of_nat n -> le_value (le_bytes n x) = x.
Proof. intros H. unfold le_value, le_bytes. rewrite reverse_involutive. by apply be_value_bytes_id. Qed.

Lemma le_bytes_inj n x y :
  0 <= x < 256 ^ Z.of_nat n -> 0 <= y < 256 ^ Z.of_nat n -> le_bytes n x = le_bytes n y -> x = y.
Proof.
  intros Hx Hy E. rewrite <- (le_value_bytes n x Hx), <- (le_value_bytes n y Hy). by rewrite E.
Qed.

(** A session is read back from its 44 bytes. *)
Lemma session_back s rest :
  in_width 256 (ceremony_id s) -> in_width 64 (cs_chain_id s) -> in_width 32 (cs_round s) ->
  session_from_bytes (session_to_bytes s ++ rest) = Ok s.
Proof.
  intros Hi Hc Hr. destruct s as [i c r]; cbn [ceremony_id cs_chain_id cs_round] in *.
  unfold session_from_bytes, session_to_bytes; cbn [ceremony_id cs_chain_id cs_round].
  rewrite (proj2 (Z.ltb_ge _ _))
    by (unfold len; rewrite !length_app, be_bytes_length, !le_bytes_length; lia).
  unfold slice. rewrite <- !app_assoc, drop_0.
  rewrite (take_app_length' (be_bytes 32 i)) by (by rewrite be_bytes_length).
  rewrite (drop_app_length' (be_bytes 32 i)) by (by rewrite be_bytes_length).
  rewrite (take_app_length' (le_bytes 8 c)) by (by rewrite le_bytes_length).
  rewrite (drop_app_ge (be_bytes 32 i)), be_bytes_length by (rewrite be_bytes_length; lia).
  rewrite (drop_app_length' (le_bytes 8 c)) by (by rewrite le_bytes_length).
  rewrite (take_app_length' (le_bytes 4 r)) by (by rewrite le_bytes_length).
  rewrite be_value_bytes_id by (by eapply in_width_bytes).
  by rewrite !le_value_bytes by (by eapply in_width_bytes).
Qed.

Lemma sort_perm_Z (l l' : list Z) : l ≡ₚ l' -> sort_by Z.compare l = sort_by Z.compare l'.
Proof.
  intros H. apply sort_by_perm_eq; [apply _| |done]. intros x y _ _. apply Z.compare_eq.
Qed.

(** The preimage determines chain, participants and time. *)
Lemma session_preimage_inj c c' l l' t t' :
  in_width 64 c -> in_width 64 c' -> in_width 64 t -> in_width 64 t' ->
  in_width 64 (len l) -> in_width 64 (len l') ->
  Forall (in_width 256) l -> Forall (in_width 256) l' ->
  session_preimage c l t = session_preimage c' l' t' -> c = c' /\ l ≡ₚ l' /\ t = t'.
Proof.
  intros Hc Hc' Ht Ht' Hn Hn' Hl Hl' E. unfold session_preimage in E.
  apply app_inv_head in E.
  apply app_same_length in E as [E1 E]; [|by rewrite !le_bytes_length].
  apply app_same_length in E as [E2 E]; [|by rewrite !le_bytes_length].
  apply le_bytes_inj in E1; [|by eapply in_width_bytes..].
  apply le_bytes_inj in E2; [|by eapply in_width_bytes..].
  assert (forall k, Forall (in_width 256) k -> Forall (in_width 256) (sort_by Z.compare k)) as Hs.
  { intros k Hk. by rewrite sort_by_perm. }
  destruct (bind_prefix (in_width 256) (be_bytes 32) (sort_by Z.compare l) (sort_by Z.compare l')
    (le_bytes 8 t) (le_bytes 8 t')) as [E3 E4]; try done; auto.
  { apply (be_bytes_prefix 32). }
  { rewrite !sort_by_perm. unfold len in E2. lia. }
  apply le_bytes_inj in E4; [|by eapply in_width_bytes..].
  split_and!; [done| |done]. rewrite <- (sort_by_perm Z.compare l), E3. apply sort_by_perm.
Qed.

(** ** A library that satisfies the laws

    Keys are their own public keys; a share is a bit that says whether it is
    good; a log is the key of its dealer and a bit that says whether a quorum
    acknowledged; a player knows the dealers it accepted, a dealer the players
    and those that acknowledged. *)
Definition toy_bit (b : bool) : bytes := [if b then 1 else 0].
Definition read_toy_bit : Reader bool := fun buf =>
  match buf with b :: rest => Ok (b =? 1, rest) | [] => Err EndOfBuffer end.
Definition toy_quorum (n : Z) : Z := n - (n - 1) `div` 3.

Definition toy_acked (players acks : list Z) : bool :=
  toy_quorum (len players) <=? len (filter (fun q => q ∈ acks) (remove_dups players)).

#[export] Instance toy_lib : DkgLib := {|
  PrivateKey := Z; Info := list Z * list Z; Player := Z * list Z;
  Dealer := Z * list Z * list Z; DealerPubMsg := Z;
  DealerPrivMsg := bool; PlayerAck := bool; SignedDealerLog := Z * bool; DealerLog := bool;
  Output := list Z; Share := Z; Rng := Z;
  public_key := fun k => k;
  quorum := toy_quorum;
  info_new := fun _ _ dealers players => Ok (dealers, players);
  player_new := fun _ k => Ok (k, []);
  dealer_start := fun rng i k =>
    if bool_decide (k ∈ i.1) then Ok ((k, i.2, []), rng, (fun q => (q, true)) <$> i.2)
    else Err "not a dealer";
  dealer_message := fun p d _ good =>
    if good : bool then ((p.1, d :: p.2), Some true) else (p, None);
  receive_player_ack := fun d q a => ((d.1, if a : bool then q :: d.2 else d.2), Ok tt);
  dealer_finalize := fun d => (d.1.1, toy_acked d.1.2 d.2);
  log_check := fun i l => if bool_decide (l.1 ∈ i.1) then Some l else None;
  player_finalize := fun _ p i logs =>
    if forallb (fun d => bool_decide (d ∈ logs.*1) && bool_decide (d ∈ p.2)) i.1
       && forallb snd logs
    then Ok (logs.*1, p.1)
    else Err "missing logs";
  write_group_key := fun o => be_bytes 32 (sum_Z o);
  write_polynomial := fun o => x ← o; be_bytes 32 x;
  write_share := be_bytes 32;
  share_index := fun s => s;
  write_pk := be_bytes 32; read_pk := read_fixed 32;
  write_pub := be_bytes 32; read_pub := fun _ => read_fixed 32;
  write_priv := toy_bit; read_priv := read_toy_bit;
  write_ack := toy_bit; read_ack := read_toy_bit;
  write_log := fun l => be_bytes 32 l.1 ++ toy_bit l.2;
  read_log := fun _ buf =>
    let? (k, buf) := read_fixed 32 buf in
    let? (b, buf) := read_toy_bit buf in Ok ((k, b), buf);
  write_u32 := be_bytes 4; read_u32 := read_fixed 4;
  hex_encode := hex_text;
  hex_decode := fun s => ok_or (hex_bytes s) "not hexadecimal";
|}.

Lemma toy_bit_back b rest : read_toy_bit (toy_bit b ++ rest) = Ok (b, rest).
Proof. by destruct b. Qed.

Lemma toy_acked_quorum players acks qs :
  NoDup qs -> (forall q, q ∈ qs -> q ∈ players /\ q ∈ acks) -> toy_quorum (len players) <= len qs ->
  toy_acked players acks = true.
Proof.
  intros Hn Hq Hl. apply Z.leb_le. etrans; [exact Hl|]. unfold len. apply Nat2Z.inj_le, submseteq_length.
  apply NoDup_submseteq; [done|]. intros q Hin. apply list_elem_of_filter.
  rewrite elem_of_remove_dups. destruct (Hq q Hin). done.
Qed.

#[export] Instance toy_laws : @DkgLaws toy_lib.
Proof.
  refine {|
    pk_ok := in_width 256 : @PrivateKey toy_lib -> Prop;
    pub_fits := fun _ => (in_width 256 : @DealerPubMsg toy_lib -> Prop);
    log_fits := fun _ (l : @SignedDealerLog toy_lib) => in_width 256 l.1;
    holds := fun _ k (p : @Player toy_lib) => p.1 = k;
    took := fun (p : @Player toy_lib) d => d ∈ p.2;
    dealing := fun i k _ (d : @Dealer toy_lib) => d.1 = (k, i.2) /\ k ∈ i.1;
    dealt := fun _ _ _ _ (m : @DealerPrivMsg toy_lib) => m = true;
    ack_valid := fun _ _ _ _ (a : @PlayerAck toy_lib) => a = true;
    dealer_acked := fun (d : @Dealer toy_lib) q => q ∈ d.2;
    log_good := fun _ (dl : @DealerLog toy_lib) => dl = true;
  |}.
  - intros pk H. apply read_fixed_back. by eapply in_width_bytes.
  - intros d m H. apply read_fixed_back. by eapply in_width_bytes.
  - intros m rest. apply toy_bit_back.
  - intros a rest. apply toy_bit_back.
  - intros d [k b] H rest. cbn. rewrite <- app_assoc, read_fixed_back by (by eapply in_width_bytes).
    by rewrite toy_bit_back.
  - intros x H. apply read_fixed_back. by eapply in_width_bytes.
  - intros b H. cbn [hex_encode hex_decode toy_lib]. by rewrite hex_back.
  - intros [k b]. apply Forall_app. split; [apply be_bytes_ok|]. by destruct b; repeat constructor.
  - intros pk. apply be_bytes_ok.
  - intros pk. apply be_bytes_length.
  - intros o. split; [apply be_bytes_ok|]. cbn. apply Forall_bind, Forall_forall.
    intros x _. apply be_bytes_ok.
  - intros s. apply be_bytes_ok.
  - intros ns r ds ps i rng k d pub privs [= <-]. cbn. case_bool_decide; [|done].
    intros E. injection E as <- <- <-. intros q. rewrite <- list_fmap_compose. cbn.
    by rewrite list_fmap_id.
  - intros rng i k d pub privs. cbn. case_bool_decide; [|done]. intros E. injection E as <- <- <-.
    split; [by split|]. intros q m Hq. apply list_elem_of_fmap in Hq as (x & E & _). by simplify_eq.
  - by intros i k pub d q ack [??].
  - intros i k pub d q ack _ ->. apply elem_of_cons. by left.
  - intros d q [] q' H; [|exact H]. apply elem_of_cons. by right.
  - intros i k pub d [E Hk]. exists (toy_acked d.1.2 d.2). cbn. rewrite E. cbn.
    by rewrite bool_decide_eq_true_2.
  - intros ns r ds ps i k pub d dl qs [= <-] [E Hk]. cbn. rewrite E. cbn.
    rewrite bool_decide_eq_true_2 by done. intros [= <-] Hn Hq Hl. by eapply toy_acked_quorum.
  - by intros i k p [= <-].
  - intros i k p d pub [] <-; done.
  - intros i k p d pub m _ ->. split; [done|]. apply elem_of_cons. by left.
  - intros p d pub [] d' H; [|exact H]. apply elem_of_cons. by right.
  - intros ns r ds ps i rng k p logs [= <-] _ Ht Hall Hl. cbn.
    replace (forallb _ ds) with true; [replace (forallb snd logs) with true; [done|]|].
    + symmetry. apply forallb_forall. intros e He. rewrite Forall_forall in Hl.
      by apply Hl, list_elem_of_In.
    + symmetry. apply forallb_forall. intros d Hd. apply list_elem_of_In in Hd.
      apply andb_true_iff. split; apply bool_decide_eq_true; auto.
Defined.

Definition toy_message : @ProtocolMessage toy_lib :=
  message_new 7 (@AllLogs toy_lib [(1, (1, true)); (2, (2, false))]).

Lemma message_roundtrip_witness : from_bytes (to_bytes toy_message ++ [9]) 4 = Ok toy_message.
Proof.
  apply (message_roundtrip 4 toy_message); [lia|].
  split; cbn; unfold in_width, len; simpl; [lia|].
  split; [lia|]. repeat constructor; simpl; unfold in_width; lia.
Defined.
