(* ===== verification/DkgParticipant.v ===== *)
(** A participant of the key generation: its state, the operations on it and
    the handling of messages (crates/node/dkg/src/protocol.rs). *)
From stdpp Require Import pretty.
From S2P Require Import Prelude Bytes TxTypes Codec Block Dkg.

(** [usize] of a finite map and of a finite set. *)
Definition msize {A} (m : gmap Z A) : usize := Z.of_nat (size m).
Definition ssize (s : gset Z) : usize := Z.of_nat (size s).

Section participant.
Context `{LIB : DkgLib} `{SH : !Sha256}.

Record DkgParticipant := mkParticipant {
  dp_config : DkgConfig;
  dp_info : Info;
  dp_player : option Player;
  dp_dealer : option Dealer;
  dp_session : CeremonySession;
  dp_seen_messages : gset B256;
  dp_outgoing : list (option PublicKey * ProtocolMessage);
  dp_dealer_pub_msgs : gmap PublicKey DealerPubMsg;
  dp_dealer_priv_msgs : gmap PublicKey DealerPrivMsg;
  dp_dealer_logs : gmap PublicKey DealerLog;
  dp_signed_logs : gmap PublicKey SignedDealerLog;
  dp_our_signed_log : option SignedDealerLog;
  dp_finalized : bool;
  dp_acks_sent : gset PublicKey;
  dp_ready_players : gset PublicKey;
  dp_sent_ready : bool;
  dp_current_phase : DkgPhase;
  dp_timestamp_nanos : u64;
}.

(** Assignments to the fields that change. *)
Definition with_player (p : DkgParticipant) (v : option Player) : DkgParticipant :=
  mkParticipant
    (dp_config p) (dp_info p) v (dp_dealer p) (dp_session p) (dp_seen_messages p)
    (dp_outgoing p) (dp_dealer_pub_msgs p) (dp_dealer_priv_msgs p) (dp_dealer_logs p)
    (dp_signed_logs p) (dp_our_signed_log p) (dp_finalized p) (dp_acks_sent p)
    (dp_ready_players p) (dp_sent_ready p) (dp_current_phase p) (dp_timestamp_nanos p).
Definition with_dealer (p : DkgParticipant) (v : option Dealer) : DkgParticipant :=
  mkParticipant
    (dp_config p) (dp_info p) (dp_player p) v (dp_session p) (dp_seen_messages p)
    (dp_outgoing p) (dp_dealer_pub_msgs p) (dp_dealer_priv_msgs p) (dp_dealer_logs p)
    (dp_signed_logs p) (dp_our_signed_log p) (dp_finalized p) (dp_acks_sent p)
    (dp_ready_players p) (dp_sent_ready p) (dp_current_phase p) (dp_timestamp_nanos p).
Definition with_seen (p : DkgParticipant) (v : gset B256) : DkgParticipant :=
  mkParticipant
    (dp_config p) (dp_info p) (dp_player p) (dp_dealer p) (dp_session p) v (dp_outgoing p)
    (dp_dealer_pub_msgs p) (dp_dealer_priv_msgs p) (dp_dealer_logs p) (dp_signed_logs p)
    (dp_our_signed_log p) (dp_finalized p) (dp_acks_sent p) (dp_ready_players p)
    (dp_sent_ready p) (dp_current_phase p) (dp_timestamp_nanos p).
Definition with_outgoing (p : DkgParticipant) (v : list (option PublicKey * ProtocolMessage)) : DkgParticipant :=
  mkParticipant
    (dp_config p) (dp_info p) (dp_player p) (dp_dealer p) (dp_session p) (dp_seen_messages p) v
    (dp_dealer_pub_msgs p) (dp_dealer_priv_msgs p) (dp_dealer_logs p) (dp_signed_logs p)
    (dp_our_signed_log p) (dp_finalized p) (dp_acks_sent p) (dp_ready_players p)
    (dp_sent_ready p) (dp_current_phase p) (dp_timestamp_nanos p).
Definition with_pub (p : DkgParticipant) (v : gmap PublicKey DealerPubMsg) : DkgParticipant :=
  mkParticipant
    (dp_config p) (dp_info p) (dp_player p) (dp_dealer p) (dp_session p) (dp_seen_messages p)
    (dp_outgoing p) v (dp_dealer_priv_msgs p) (dp_dealer_logs p) (dp_signed_logs p)
    (dp_our_signed_log p) (dp_finalized p) (dp_acks_sent p) (dp_ready_players p)
    (dp_sent_ready p) (dp_current_phase p) (dp_timestamp_nanos p).
Definition with_priv (p : DkgParticipant) (v : gmap PublicKey DealerPrivMsg) : DkgParticipant :=
  mkParticipant
    (dp_config p) (dp_info p) (dp_player p) (dp_dealer p) (dp_session p) (dp_seen_messages p)
    (dp_outgoing p) (dp_dealer_pub_msgs p) v (dp_dealer_logs p) (dp_signed_logs p)
    (dp_our_signed_log p) (dp_finalized p) (dp_acks_sent p) (dp_ready_players p)
    (dp_sent_ready p) (dp_current_phase p) (dp_timestamp_nanos p).
Definition with_acks (p : DkgParticipant) (v : gset PublicKey) : DkgParticipant :=
  mkParticipant
    (dp_config p) (dp_info p) (dp_player p) (dp_dealer p) (dp_session p) (dp_seen_messages p)
    (dp_outgoing p) (dp_dealer_pub_msgs p) (dp_dealer_priv_msgs p) (dp_dealer_logs p)
    (dp_signed_logs p) (dp_our_signed_log p) (dp_finalized p) v (dp_ready_players p)
    (dp_sent_ready p) (dp_current_phase p) (dp_timestamp_nanos p).
Definition with_finalized (p : DkgParticipant) (v : bool) : DkgParticipant :=
  mkParticipant
    (dp_config p) (dp_info p) (dp_player p) (dp_dealer p) (dp_session p) (dp_seen_messages p)
    (dp_outgoing p) (dp_dealer_pub_msgs p) (dp_dealer_priv_msgs p) (dp_dealer_logs p)
    (dp_signed_logs p) (dp_our_signed_log p) v (dp_acks_sent p) (dp_ready_players p)
    (dp_sent_ready p) (dp_current_phase p) (dp_timestamp_nanos p).
Definition set_phase (p : DkgParticipant) (v : DkgPhase) : DkgParticipant :=
  mkParticipant
    (dp_config p) (dp_info p) (dp_player p) (dp_dealer p) (dp_session p) (dp_seen_messages p)
    (dp_outgoing p) (dp_dealer_pub_msgs p) (dp_dealer_priv_msgs p) (dp_dealer_logs p)
    (dp_signed_logs p) (dp_our_signed_log p) (dp_finalized p) (dp_acks_sent p)
    (dp_ready_players p) (dp_sent_ready p) v (dp_timestamp_nanos p).
Definition with_our_log (p : DkgParticipant) (v : option SignedDealerLog) : DkgParticipant :=
  mkParticipant
    (dp_config p) (dp_info p) (dp_player p) (dp_dealer p) (dp_session p) (dp_seen_messages p)
    (dp_outgoing p) (dp_dealer_pub_msgs p) (dp_dealer_priv_msgs p) (dp_dealer_logs p)
    (dp_signed_logs p) v (dp_finalized p) (dp_acks_sent p) (dp_ready_players p)
    (dp_sent_ready p) (dp_current_phase p) (dp_timestamp_nanos p).
Definition with_ready (p : DkgParticipant) (v : gset PublicKey) (b : bool) : DkgParticipant :=
  mkParticipant
    (dp_config p) (dp_info p) (dp_player p) (dp_dealer p) (dp_session p) (dp_seen_messages p)
    (dp_outgoing p) (dp_dealer_pub_msgs p) (dp_dealer_priv_msgs p) (dp_dealer_logs p)
    (dp_signed_logs p) (dp_our_signed_log p) (dp_finalized p) (dp_acks_sent p) v b
    (dp_current_phase p) (dp_timestamp_nanos p).
Definition with_logs (p : DkgParticipant) (v : gmap PublicKey DealerLog) (w : gmap PublicKey SignedDealerLog) : DkgParticipant :=
  mkParticipant
    (dp_config p) (dp_info p) (dp_player p) (dp_dealer p) (dp_session p) (dp_seen_messages p)
    (dp_outgoing p) (dp_dealer_pub_msgs p) (dp_dealer_priv_msgs p) v w (dp_our_signed_log p)
    (dp_finalized p) (dp_acks_sent p) (dp_ready_players p) (dp_sent_ready p)
    (dp_current_phase p) (dp_timestamp_nanos p).

(** ** Construction and queries *)

Definition dp_ceremony_id (p : DkgParticipant) : B256 := ceremony_id (dp_session p).
Definition is_participant (p : DkgParticipant) (pk : PublicKey) : bool :=
  bool_decide (pk ∈ dk_participants (dp_config p)).
Definition leader (p : DkgParticipant) : option PublicKey := head (dk_participants (dp_config p)).
Definition required_dealer_logs (p : DkgParticipant) : usize := dk_n (dp_config p).
Definition total_participants (p : DkgParticipant) : usize := dk_n (dp_config p).
Definition dealer_log_count (p : DkgParticipant) : usize := msize (dp_dealer_logs p).
Definition ready_count (p : DkgParticipant) : usize := ssize (dp_ready_players p).
Definition all_ready (p : DkgParticipant) : bool := dk_n (dp_config p) <=? ready_count p.
Definition can_finalize (p : DkgParticipant) : bool :=
  required_dealer_logs p <=? dealer_log_count p.
Definition received_dealer_count (p : DkgParticipant) : usize :=
  ssize (filter (fun k => k ∈ dom (dp_dealer_priv_msgs p)) (dom (dp_dealer_pub_msgs p))).
Definition acks_sent_count (p : DkgParticipant) : usize := ssize (dp_acks_sent p).
Definition received_all_dealer_messages (p : DkgParticipant) : bool :=
  dk_n (dp_config p) <=? received_dealer_count p.
Definition has_sent_dealer_log (p : DkgParticipant) : bool := is_some (dp_our_signed_log p).

(** [Set::try_collect] refuses duplicates and keeps the keys in order. *)
Definition participant_set (l : list PublicKey) : option (list PublicKey) :=
  if bool_decide (NoDup l) then Some (sort_by Z.compare l) else None.

Definition chain_namespace (chain_id : u64) : bytes :=
  string_bytes ("kora-dkg-" +:+ pretty (Z.to_N chain_id)).

Definition participant_new (config : DkgConfig) (timestamp_nanos : u64)
    : result DkgParticipant DkgError :=
  let? participants_set :=
    ok_or (participant_set (dk_participants config)) (CeremonyFailed "duplicate participants") in
  let? info :=
    map_err Crypto
      (info_new (chain_namespace (dk_chain_id config)) 0 participants_set participants_set) in
  let? player := map_err Crypto (player_new info (identity_key config)) in
  Ok (mkParticipant config info (Some player) None
        (session_new (dk_chain_id config) (dk_participants config) timestamp_nanos)
        ∅ [] ∅ ∅ ∅ ∅ None false ∅ ∅ false AwaitingStart timestamp_nanos).

(** The logs in the order of their dealers, for the round. *)
Definition logs_for_verification (p : DkgParticipant) : list (PublicKey * DealerLog) :=
  btree (dp_dealer_logs p).

(** ** Sending *)

Definition push (p : DkgParticipant) (target : option PublicKey) (k : ProtocolMessageKind)
    : DkgParticipant :=
  with_outgoing p (dp_outgoing p ++ [(target, message_new (dp_ceremony_id p) k)]).

Definition take_outgoing (p : DkgParticipant)
    : DkgParticipant * list (option PublicKey * ProtocolMessage) :=
  (with_outgoing p [], dp_outgoing p).

(** ** Dealing *)

Definition try_process_dealer_messages (p : DkgParticipant) (dealer : PublicKey)
    : DkgParticipant :=
  match dp_dealer_pub_msgs p !! dealer, dp_dealer_priv_msgs p !! dealer, dp_player p with
  | Some pub_msg, Some priv_msg, Some player =>
      let (player', ack) := dealer_message player dealer pub_msg priv_msg in
      let p := with_player p (Some player') in
      match ack with
      | Some ack =>
          let p := push p (Some dealer)
                     (PlayerAckMsg (my_public_key (dp_config p)) dealer ack) in
          with_acks p ({[dealer]} ∪ dp_acks_sent p)
      | None => p
      end
  | _, _, _ => p
  end.

(** Our own share is kept, the others are queued. *)
Definition queue_private (p : DkgParticipant) (m : PublicKey * DealerPrivMsg) : DkgParticipant :=
  let my_pk := my_public_key (dp_config p) in
  if m.1 =? my_pk then with_priv p (<[my_pk := m.2]> (dp_dealer_priv_msgs p))
  else push p (Some m.1) (DealerPrivate my_pk m.2).

Definition start_dealer (p : DkgParticipant) (rng : Rng) : DkgParticipant * result unit DkgError :=
  match dealer_start rng (dp_info p) (identity_key (dp_config p)) with
  | Err e => (p, Err (Crypto e))
  | Ok (dealer, pub_msg, priv_msgs) =>
      let my_pk := my_public_key (dp_config p) in
      let p := push p None (DealerPublic my_pk pub_msg) in
      let p := foldl queue_private p priv_msgs in
      let p := with_pub p (<[my_pk := pub_msg]> (dp_dealer_pub_msgs p)) in
      let p := with_dealer p (Some dealer) in
      (try_process_dealer_messages p my_pk, Ok tt)
  end.

Definition add_log (p : DkgParticipant) (dealer : PublicKey) (log : DealerLog)
    (signed : SignedDealerLog) : DkgParticipant :=
  with_logs p (<[dealer := log]> (dp_dealer_logs p)) (<[dealer := signed]> (dp_signed_logs p)).

Definition finalize_dealer (p : DkgParticipant) : DkgParticipant * result unit DkgError :=
  match dp_dealer p with
  | None => (p, Ok tt)
  | Some dealer =>
      let p := with_dealer p None in
      let signed_log := dealer_finalize dealer in
      match log_check (dp_info p) signed_log with
      | Some (dealer_pk, dealer_log) =>
          let p := add_log p dealer_pk dealer_log signed_log in
          let p := with_our_log p (Some signed_log) in
          (push p None (DealerLogMsg signed_log), Ok tt)
      | None => (p, Err (CeremonyFailed "Our own dealer log is invalid"))
      end
  end.

Definition broadcast_ready (p : DkgParticipant) : DkgParticipant :=
  if dp_sent_ready p then p
  else
    let my_pk := my_public_key (dp_config p) in
    let p := push p None (Ready my_pk) in
    with_ready p ({[my_pk]} ∪ dp_ready_players p) true.

(** ** Receiving *)

(** The checks on a message of a dealer: sent by itself, room left, first one. *)
Definition check_dealer {A} (from dealer : PublicKey) (m : gmap PublicKey A) (max_entries : usize)
    : result unit DkgError :=
  if negb (from =? dealer) then Err (SenderMismatch dealer from)
  else if max_entries <=? msize m then Err (TooManyDealers (msize m + 1) max_entries)
  else if is_some (m !! dealer) then Err (DuplicateDealer dealer)
  else Ok tt.

Definition handle_dealer_log (p : DkgParticipant) (from : PublicKey) (log : SignedDealerLog)
    : DkgParticipant * result unit DkgError :=
  let max_entries := dk_n (dp_config p) in
  match log_check (dp_info p) log with
  | None => (p, Err (InvalidDealerLog from))
  | Some (dealer_pk, dealer_log) =>
      if negb (is_participant p dealer_pk) then (p, Err (UnknownSender dealer_pk))
      else if max_entries <=? dealer_log_count p
      then (p, Err (TooManyDealers (dealer_log_count p + 1) max_entries))
      else if is_some (dp_dealer_logs p !! dealer_pk) then (p, Err (DuplicateDealer dealer_pk))
      else (add_log p dealer_pk dealer_log log, Ok tt)
  end.

(** The loop over the logs of the leader, left when the map is full. *)
Fixpoint handle_all_logs (p : DkgParticipant) (logs : list (PublicKey * SignedDealerLog))
    : DkgParticipant :=
  match logs with
  | [] => p
  | (_, log) :: logs =>
      match log_check (dp_info p) log with
      | None => handle_all_logs p logs
      | Some (dealer_pk, dealer_log) =>
          if negb (is_participant p dealer_pk) then handle_all_logs p logs
          else if dk_n (dp_config p) <=? dealer_log_count p then p
          else if is_some (dp_dealer_logs p !! dealer_pk) then handle_all_logs p logs
          else handle_all_logs (add_log p dealer_pk dealer_log log) logs
      end
  end.

Definition handle_ack (p : DkgParticipant) (player dealer : PublicKey) (ack : PlayerAck)
    : DkgParticipant :=
  match dp_dealer p with
  | Some our_dealer =>
      if dealer =? my_public_key (dp_config p)
      then with_dealer p (Some (receive_player_ack our_dealer player ack).1)
      else p
  | None => p
  end.

Definition handle_message (p : DkgParticipant) (from : PublicKey) (msg : ProtocolMessage)
    : DkgParticipant * result unit DkgError :=
  let max_entries := dk_n (dp_config p) in
  if negb (is_participant p from) then (p, Err (UnknownSender from))
  else
    match kind msg with
    | DealerPublic dealer m =>
        match check_dealer from dealer (dp_dealer_pub_msgs p) max_entries with
        | Err e => (p, Err e)
        | Ok _ =>
            let p := with_pub p (<[dealer := m]> (dp_dealer_pub_msgs p)) in
            (try_process_dealer_messages p dealer, Ok tt)
        end
    | DealerPrivate dealer m =>
        match check_dealer from dealer (dp_dealer_priv_msgs p) max_entries with
        | Err e => (p, Err e)
        | Ok _ =>
            let p := with_priv p (<[dealer := m]> (dp_dealer_priv_msgs p)) in
            (try_process_dealer_messages p dealer, Ok tt)
        end
    | PlayerAckMsg player dealer ack =>
        if negb (from =? player) then (p, Err (SenderMismatch player from))
        else (handle_ack p player dealer ack, Ok tt)
    | DealerLogMsg log => handle_dealer_log p from log
    | RequestLogs => (push p (Some from) (AllLogs (btree (dp_signed_logs p))), Ok tt)
    | AllLogs logs =>
        if negb (bool_decide (leader p = Some from)) then (p, Err UnauthorizedSender)
        else (handle_all_logs p logs, Ok tt)
    | Ready player =>
        if negb (from =? player) then (p, Err (SenderMismatch player from))
        else (with_ready p ({[player]} ∪ dp_ready_players p) (dp_sent_ready p), Ok tt)
    end.

Definition handle_message_bytes (p : DkgParticipant) (from : PublicKey) (b : bytes)
    : DkgParticipant * result unit DkgError :=
  let message_hash := compute_message_hash b in
  if bool_decide (message_hash ∈ dp_seen_messages p) then (p, Ok tt)
  else
    match from_bytes b (dk_n (dp_config p)) with
    | Err e => (p, Err (InvalidMessage e))
    | Ok msg =>
        match session_id msg with
        | Some sid =>
            if negb (sid =? dp_ceremony_id p)
            then (p, Err (SessionMismatch (dp_ceremony_id p) sid))
            else
              handle_message (with_seen p ({[message_hash]} ∪ dp_seen_messages p)) from msg
        | None => handle_message (with_seen p ({[message_hash]} ∪ dp_seen_messages p)) from msg
        end
    end.

(** ** Output *)

Record DkgOutput := mkDkgOutput {
  group_public_key : bytes;
  public_polynomial : bytes;
  do_threshold : u32;
  do_participants : usize;
  do_share_index : u32;
  share_secret : bytes;
  participant_keys : list bytes;
}.

Definition finalize (p : DkgParticipant) (rng : Rng)
    : DkgParticipant * result DkgOutput DkgError :=
  if dp_finalized p then (p, Err (CeremonyFailed "Already finalized"))
  else if negb (can_finalize p) then (p, Err (CeremonyFailed "Not enough dealer logs"))
  else
    match dp_player p with
    | None => (p, Err (CeremonyFailed "Player already consumed"))
    | Some player =>
        let p := with_player p None in
        match player_finalize rng player (dp_info p) (logs_for_verification p) with
        | Err e => (p, Err (Crypto e))
        | Ok (output, share) =>
            (with_finalized p true,
             Ok (mkDkgOutput (write_group_key output) (write_polynomial output)
                   (dk_t (dp_config p)) (dk_n (dp_config p)) (share_index share)
                   (write_share share) (write_pk <$> dk_participants (dp_config p))))
        end
    end.

(** The operations a participant goes through. *)
Inductive DkgOp :=
| OpStart (rng : Rng)
| OpMessage (from : PublicKey) (b : bytes)
| OpFinalizeDealer
| OpReady
| OpTake
| OpPhase (phase : DkgPhase)
| OpFinalize (rng : Rng).

Definition dkg_apply (p : DkgParticipant) (op : DkgOp) : DkgParticipant :=
  match op with
  | OpStart rng => (start_dealer p rng).1
  | OpMessage from b => (handle_message_bytes p from b).1
  | OpFinalizeDealer => (finalize_dealer p).1
  | OpReady => broadcast_ready p
  | OpTake => (take_outgoing p).1
  | OpPhase phase => set_phase p phase
  | OpFinalize rng => (finalize p rng).1
  end.

(** ** The invariant *)

Definition log_entry_ok (p : DkgParticipant) (pk : PublicKey) (l : SignedDealerLog) : Prop :=
  exists dl, log_check (dp_info p) l = Some (pk, dl).

(** An outgoing message belongs to the session and carries verified logs. *)
Definition outgoing_ok (p : DkgParticipant) (m : option PublicKey * ProtocolMessage) : Prop :=
  session_id m.2 = Some (dp_ceremony_id p)
  /\ match kind m.2 with
     | AllLogs logs => Forall (fun e => log_entry_ok p e.1 e.2) logs
     | _ => True
     end.

Record participant_inv (p : DkgParticipant) : Prop := {
  pi_nodup : NoDup (dk_participants (dp_config p));
  pi_me : my_public_key (dp_config p) ∈ dk_participants (dp_config p);
  pi_info : info_new (chain_namespace (dk_chain_id (dp_config p))) 0
              (sort_by Z.compare (dk_participants (dp_config p)))
              (sort_by Z.compare (dk_participants (dp_config p))) = Ok (dp_info p);
  pi_pub : dom (dp_dealer_pub_msgs p) ⊆ list_to_set (dk_participants (dp_config p));
  pi_priv : dom (dp_dealer_priv_msgs p) ⊆ list_to_set (dk_participants (dp_config p));
  pi_logs pk dl :
    dp_dealer_logs p !! pk = Some dl <->
    exists l, dp_signed_logs p !! pk = Some l /\ log_check (dp_info p) l = Some (pk, dl);
  pi_signed pk l : dp_signed_logs p !! pk = Some l -> log_entry_ok p pk l;
  pi_acks : dp_acks_sent p ⊆ dom (dp_dealer_pub_msgs p) ∩ dom (dp_dealer_priv_msgs p);
  pi_ready : dp_ready_players p ⊆ list_to_set (dk_participants (dp_config p));
  pi_out : Forall (outgoing_ok p) (dp_outgoing p);
}.

(** ** Where a participant has its data from *)

(** Among the operations there is the message [k] from the participant [from],
    of this session or of none. *)
Definition heard (config : DkgConfig) (sid : B256) (ops : list DkgOp) (from : PublicKey)
    (k : ProtocolMessageKind) : Prop :=
  from ∈ dk_participants config /\ exists b msg, OpMessage from b ∈ ops
    /\ from_bytes b (dk_n config) = Ok msg /\ kind msg = k
    /\ (session_id msg = None \/ session_id msg = Some sid).

(** We dealt these messages ourselves. *)
Definition self_dealt (config : DkgConfig) (i : Info) (ops : list DkgOp) (pub : DealerPubMsg)
    (ms : list (PublicKey * DealerPrivMsg)) : Prop :=
  exists rng d, OpStart rng ∈ ops /\ dealer_start rng i (identity_key config) = Ok (d, pub, ms).

(** A log comes from a participant, from the leader's collection or from us. *)
Definition log_source (p : DkgParticipant) (ops : list DkgOp) (d : PublicKey)
    (l : SignedDealerLog) : Prop :=
  d ∈ dk_participants (dp_config p) /\
  ((exists from, heard (dp_config p) (dp_ceremony_id p) ops from (DealerLogMsg l))
   \/ (exists lead logs k, leader p = Some lead
        /\ heard (dp_config p) (dp_ceremony_id p) ops lead (AllLogs logs) /\ (k, l) ∈ logs)
   \/ (d = my_public_key (dp_config p) /\ dp_our_signed_log p = Some l)).

Record provenance (ops : list DkgOp) (p : DkgParticipant) : Prop := {
  pv_pub d m : dp_dealer_pub_msgs p !! d = Some m ->
    heard (dp_config p) (dp_ceremony_id p) ops d (DealerPublic d m)
    \/ d = my_public_key (dp_config p) /\ exists ms, self_dealt (dp_config p) (dp_info p) ops m ms;
  pv_priv d m : dp_dealer_priv_msgs p !! d = Some m ->
    heard (dp_config p) (dp_ceremony_id p) ops d (DealerPrivate d m)
    \/ d = my_public_key (dp_config p)
       /\ exists pub ms, self_dealt (dp_config p) (dp_info p) ops pub ms /\ (d, m) ∈ ms;
  pv_ready d : d ∈ dp_ready_players p ->
    heard (dp_config p) (dp_ceremony_id p) ops d (Ready d) \/ d = my_public_key (dp_config p);
  pv_log d l : dp_signed_logs p !! d = Some l -> log_source p ops d l;
  (** An acknowledged dealing is the one that is kept, and the player accepted
      it. *)
  pv_acked d : d ∈ dp_acks_sent p -> d <> my_public_key (dp_config p) ->
    exists pub priv pl pl' ack, dp_dealer_pub_msgs p !! d = Some pub
      /\ dp_dealer_priv_msgs p !! d = Some priv
      /\ dealer_message pl d pub priv = (pl', Some ack);
}.

(** What was received of others is never replaced. *)
Record stays (p q : DkgParticipant) : Prop := {
  st_pub d m : d <> my_public_key (dp_config p) ->
    dp_dealer_pub_msgs p !! d = Some m -> dp_dealer_pub_msgs q !! d = Some m;
  st_priv d m : d <> my_public_key (dp_config p) ->
    dp_dealer_priv_msgs p !! d = Some m -> dp_dealer_priv_msgs q !! d = Some m;
  st_log d l : d <> my_public_key (dp_config p) ->
    dp_signed_logs p !! d = Some l -> dp_signed_logs q !! d = Some l;
}.

(** The answer to a second message of [d] for the map [m]. *)
Definition refused_again {A} (p : DkgParticipant) (m : gmap PublicKey A) (d : PublicKey)
    (r : result unit DkgError) : Prop :=
  let n := dk_n (dp_config p) in
  if forallb (fun pk => is_some (m !! pk)) (dk_participants (dp_config p))
  then r = Err (TooManyDealers (n + 1) n) else r = Err (DuplicateDealer d).

End participant.

Section invariant.
Context `{LIB : DkgLib} `{SH : !Sha256} `{LAWS : !DkgLaws}.
Implicit Types p : DkgParticipant.

(** Assignments that the invariant does not look at. *)
Ltac inv_same := intros []; by constructor.

Lemma inv_player p v : participant_inv p -> participant_inv (with_player p v).
Proof. inv_same. Qed.
Lemma inv_dealer p v : participant_inv p -> participant_inv (with_dealer p v).
Proof. inv_same. Qed.
Lemma inv_seen p v : participant_inv p -> participant_inv (with_seen p v).
Proof. inv_same. Qed.
Lemma inv_our_log p v : participant_inv p -> participant_inv (with_our_log p v).
Proof. inv_same. Qed.
Lemma inv_finalized p v : participant_inv p -> participant_inv (with_finalized p v).
Proof. inv_same. Qed.
Lemma inv_phase p v : participant_inv p -> participant_inv (set_phase p v).
Proof. inv_same. Qed.
#[local] Hint Resolve inv_player inv_dealer inv_seen inv_our_log inv_finalized inv_phase : kora.

Lemma inv_outgoing p v :
  Forall (outgoing_ok p) v -> participant_inv p -> participant_inv (with_outgoing p v).
Proof. intros Hv []. by constructor. Qed.

Lemma inv_push p t k :
  match k with AllLogs logs => Forall (fun e => log_entry_ok p e.1 e.2) logs | _ => True end ->
  participant_inv p -> participant_inv (push p t k).
Proof.
  intros Hk H. apply inv_outgoing; [|done]. apply Forall_app. split; [apply H|].
  apply Forall_singleton. by split.
Qed.

Lemma inv_pub p d m :
  d ∈ dk_participants (dp_config p) -> participant_inv p ->
  participant_inv (with_pub p (<[d := m]> (dp_dealer_pub_msgs p))).
Proof.
  intros Hd []. constructor; try done; simpl; rewrite dom_insert_L.
  - apply union_subseteq. split; [|done]. apply singleton_subseteq_l. by apply elem_of_list_to_set.
  - intros k Hk. apply pi_acks0 in Hk. set_solver.
Qed.

Lemma inv_priv p d m :
  d ∈ dk_participants (dp_config p) -> participant_inv p ->
  participant_inv (with_priv p (<[d := m]> (dp_dealer_priv_msgs p))).
Proof.
  intros Hd []. constructor; try done; simpl; rewrite dom_insert_L.
  - apply union_subseteq. split; [|done]. apply singleton_subseteq_l. by apply elem_of_list_to_set.
  - intros k Hk. apply pi_acks0 in Hk. set_solver.
Qed.

Lemma inv_ready p d b :
  d ∈ dk_participants (dp_config p) -> participant_inv p ->
  participant_inv (with_ready p ({[d]} ∪ dp_ready_players p) b).
Proof.
  intros Hd []. constructor; try done; simpl.
  apply union_subseteq. split; [|done]. apply singleton_subseteq_l. by apply elem_of_list_to_set.
Qed.

Lemma inv_add_log p pk dl l :
  log_check (dp_info p) l = Some (pk, dl) -> participant_inv p -> participant_inv (add_log p pk dl l).
Proof.
  intros Hc []. constructor; try done; simpl.
  - intros pk' dl'. destruct (decide (pk = pk')) as [->|Hne].
    + rewrite !lookup_insert_eq. split; [intros [= <-]; eauto|]. intros (l' & [= <-] & Hl'). congruence.
    + rewrite !lookup_insert_ne by done. apply pi_logs0.
  - intros pk' l'. destruct (decide (pk = pk')) as [->|Hne].
    + rewrite lookup_insert_eq. intros [= <-]. by exists dl.
    + rewrite lookup_insert_ne by done. apply pi_signed0.
Qed.

Lemma inv_process p d : participant_inv p -> participant_inv (try_process_dealer_messages p d).
Proof.
  intros H. unfold try_process_dealer_messages.
  destruct (dp_dealer_pub_msgs p !! d) as [pub|] eqn:E1; [|done].
  destruct (dp_dealer_priv_msgs p !! d) as [priv|] eqn:E2; [|done].
  destruct (dp_player p) as [player|]; [|done].
  destruct (dealer_message player d pub priv) as [player' [ack|]]; [|by apply inv_player].
  pose proof (inv_push (with_player p (Some player')) (Some d)
    (PlayerAckMsg (my_public_key (dp_config p)) d ack) I (inv_player _ _ H)) as [].
  constructor; try done; simpl in *. apply union_subseteq. split; [|done].
  apply singleton_subseteq_l, elem_of_intersection. split; apply elem_of_dom; eauto.
Qed.

Lemma inv_queue p ms : participant_inv p -> participant_inv (foldl queue_private p ms).
Proof.
  revert p. induction ms as [|m ms IH]; intros p H; [done|]. apply IH. unfold queue_private.
  destruct (m.1 =? my_public_key (dp_config p)).
  - apply inv_priv; [apply H|done].
  - by apply inv_push.
Qed.

Lemma queue_config p ms : dp_config (foldl queue_private p ms) = dp_config p.
Proof.
  revert p. induction ms as [|m ms IH]; intros p; [done|]. cbn [foldl]. rewrite IH.
  unfold queue_private. by destruct (m.1 =? _).
Qed.

Lemma inv_start p rng : participant_inv p -> participant_inv (start_dealer p rng).1.
Proof.
  intros H. unfold start_dealer.
  destruct (dealer_start _ _ _) as [[[dealer pub] privs]|e]; [|done]. cbn [fst].
  apply inv_process, inv_dealer, inv_pub; [rewrite queue_config; apply H|].
  by apply inv_queue, inv_push.
Qed.

Lemma inv_finalize_dealer p : participant_inv p -> participant_inv (finalize_dealer p).1.
Proof.
  intros H. unfold finalize_dealer. destruct (dp_dealer p) as [d|]; [|done].
  cbn [dp_info with_dealer]. destruct (log_check _ _) as [[pk dl]|] eqn:E; cbn [fst].
  - apply inv_push; [done|]. apply inv_our_log, inv_add_log; [done|by apply inv_dealer].
  - by apply inv_dealer.
Qed.

Lemma inv_broadcast_ready p : participant_inv p -> participant_inv (broadcast_ready p).
Proof.
  intros H. unfold broadcast_ready. destruct (dp_sent_ready p); [done|].
  apply inv_ready; [apply H|by apply inv_push].
Qed.

Lemma inv_all_logs p logs : participant_inv p -> participant_inv (handle_all_logs p logs).
Proof.
  revert p. induction logs as [|[k log] logs IH]; intros p H; [done|]. cbn [handle_all_logs].
  destruct (log_check (dp_info p) log) as [[pk dl]|] eqn:E; [|by apply IH].
  destruct (negb _); [by apply IH|]. destruct (_ <=? _); [done|].
  destruct (is_some _); [by apply IH|]. by apply IH, inv_add_log.
Qed.

Lemma check_dealer_ok {A} from d (m : gmap PublicKey A) n :
  check_dealer from d m n = Ok tt -> from = d /\ m !! d = None.
Proof.
  unfold check_dealer. destruct (from =? d) eqn:E1; cbn [negb]; [|done].
  destruct (_ <=? _); [done|]. destruct (m !! d) eqn:E2; [done|]. intros _.
  by apply Z.eqb_eq in E1.
Qed.

Lemma inv_message p from msg : participant_inv p -> participant_inv (handle_message p from msg).1.
Proof.
  intros H. unfold handle_message.
  destruct (is_participant p from) eqn:Hf; cbn [negb]; [|done].
  apply bool_decide_eq_true in Hf. destruct (kind msg) as [d m|d m|pl d a|log| |logs|pl].
  - destruct (check_dealer _ _ _ _) as [[]|] eqn:E; [|done].
    apply check_dealer_ok in E as [<- _]. by apply inv_process, inv_pub.
  - destruct (check_dealer _ _ _ _) as [[]|] eqn:E; [|done].
    apply check_dealer_ok in E as [<- _]. by apply inv_process, inv_priv.
  - destruct (from =? pl); cbn [negb fst]; [|done]. unfold handle_ack.
    destruct (dp_dealer p); [|done]. destruct (d =? _); [by apply inv_dealer|done].
  - unfold handle_dealer_log. destruct (log_check _ _) as [[pk dl]|] eqn:E; [|done].
    destruct (negb _); [done|]. destruct (_ <=? _); [done|]. destruct (is_some _); [done|].
    by apply inv_add_log.
  - cbn [fst]. apply inv_push; [|done]. apply Forall_forall. intros [pk l] Hl.
    unfold btree in Hl. rewrite sort_by_perm in Hl. apply elem_of_map_to_list in Hl. by apply H.
  - destruct (bool_decide _); cbn [negb fst]; [by apply inv_all_logs|done].
  - destruct (from =? pl) eqn:E; cbn [negb fst]; [|done]. apply Z.eqb_eq in E as <-.
    by apply inv_ready.
Qed.

Lemma inv_bytes p from b : participant_inv p -> participant_inv (handle_message_bytes p from b).1.
Proof.
  intros H. unfold handle_message_bytes. destruct (bool_decide _); [done|].
  destruct (from_bytes _ _) as [msg|]; [|done].
  destruct (session_id msg) as [sid|]; [destruct (negb _); [done|]|]; by apply inv_message, inv_seen.
Qed.

Lemma inv_finalize p rng : participant_inv p -> participant_inv (finalize p rng).1.
Proof.
  intros H. unfold finalize. destruct (dp_finalized p); [done|]. destruct (negb _); [done|].
  destruct (dp_player p); [|done].
  destruct (player_finalize _ _ _ _) as [[]|]; cbn [fst]; auto with kora.
Qed.

Lemma inv_apply p op : participant_inv p -> participant_inv (dkg_apply p op).
Proof.
  destruct op; cbn [dkg_apply]; intros H;
    auto using inv_start, inv_bytes, inv_finalize_dealer, inv_broadcast_ready, inv_finalize with kora.
  by apply inv_outgoing.
Qed.

Lemma inv_new config t p :
  participant_new config t = Ok p -> my_public_key config ∈ dk_participants config ->
  participant_inv p.
Proof.
  unfold participant_new, participant_set. case_bool_decide as Hn; [|done]. cbn [ok_or].
  intros E Hme. destruct (info_new _ _ _ _) as [i|] eqn:Ei; [|done]. cbn [map_err] in E.
  destruct (player_new _ _) as [pl|]; [|done]. simplify_eq/=. constructor; simpl; try done.
  intros pk dl. rewrite !lookup_empty. split; [done|]. by intros (l & [=] & _).
Qed.

(** A set of participants has as many elements as there are participants only
    if it is the set of all of them. *)
Lemma full_count (l : list PublicKey) (s : gset PublicKey) :
  NoDup l -> s ⊆ list_to_set l ->
  ssize s <= len l /\ (len l <= ssize s <-> forall pk, pk ∈ l -> pk ∈ s).
Proof.
  intros Hn Hs. unfold ssize, len.
  assert (size (list_to_set l : gset PublicKey) = length l) as Hl by (by apply size_list_to_set).
  pose proof (subseteq_size s _ Hs) as Hle. rewrite Hl in Hle. split; [lia|]. split.
  - intros Hge pk Hpk. assert (s = list_to_set l) as ->.
    { apply set_eq. apply set_equiv_subseteq. split; [done|].
      apply set_subseteq_inv_L in Hs as [Hs| ->]; [|done].
      apply subset_size in Hs. rewrite Hl in Hs. lia. }
    by apply elem_of_list_to_set.
  - intros Hall. assert (list_to_set l ⊆ s) as Hsub.
    { intros pk Hpk. apply Hall. by apply elem_of_list_to_set in Hpk. }
    apply subseteq_size in Hsub. lia.
Qed.

(** What the counters of a participant mean. *)
Lemma inv_counts p :
  participant_inv p ->
  received_dealer_count p <= total_participants p
  /\ acks_sent_count p <= received_dealer_count p
  /\ (all_ready p = true <->
      forall pk, pk ∈ dk_participants (dp_config p) -> pk ∈ dp_ready_players p)
  /\ (received_all_dealer_messages p = true <->
      forall pk, pk ∈ dk_participants (dp_config p) ->
        is_Some (dp_dealer_pub_msgs p !! pk) /\ is_Some (dp_dealer_priv_msgs p !! pk)).
Proof.
  intros H. pose proof (pi_nodup _ H) as Hn.
  set (both := filter (fun k => k ∈ dom (dp_dealer_priv_msgs p)) (dom (dp_dealer_pub_msgs p))).
  assert (both ⊆ list_to_set (dk_participants (dp_config p))) as Hb.
  { intros k Hk. apply elem_of_filter in Hk as [_ Hk]. by apply (pi_pub _ H). }
  destruct (full_count _ _ Hn Hb) as [Hb1 Hb2].
  destruct (full_count _ _ Hn (pi_ready _ H)) as [_ Hr2].
  unfold all_ready, received_all_dealer_messages,
    required_dealer_logs, total_participants, dk_n, msize, ssize in *. split_and!.
  - done.
  - unfold acks_sent_count, received_dealer_count, ssize. apply Nat2Z.inj_le, subseteq_size.
    intros k Hk. apply (pi_acks _ H), elem_of_intersection in Hk as [??]. by apply elem_of_filter.
  - rewrite Z.leb_le. exact Hr2.
  - rewrite Z.leb_le. unfold received_dealer_count, ssize. fold both. rewrite Hb2.
    unfold both. setoid_rewrite elem_of_filter. setoid_rewrite elem_of_dom.
    split; intros Hx pk Hpk; destruct (Hx pk Hpk); by split.
Qed.

(** A map with keys among the participants is full exactly when it has an
    entry of each of them. *)
Lemma full_map {A} p (m : gmap PublicKey A) :
  participant_inv p -> dom m ⊆ list_to_set (dk_participants (dp_config p)) ->
  msize m <= dk_n (dp_config p)
  /\ (dk_n (dp_config p) <= msize m <->
      forall pk, pk ∈ dk_participants (dp_config p) -> is_Some (m !! pk)).
Proof.
  intros H Hm. destruct (full_count _ _ (pi_nodup _ H) Hm) as [H1 H2].
  unfold ssize in *. rewrite size_dom in H1, H2. unfold msize, dk_n. split; [done|].
  rewrite H2. by setoid_rewrite elem_of_dom.
Qed.

(** ** What every operation keeps *)

Record keeps p q : Prop := {
  kp_config : dp_config q = dp_config p;
  kp_info : dp_info q = dp_info p;
  kp_session : dp_session q = dp_session p;
  kp_seen : dp_seen_messages p ⊆ dp_seen_messages q;
}.

#[local] Instance keeps_preorder : PreOrder keeps.
Proof.
  split; [by constructor|]. intros p q r [] []. constructor; [congruence..|]. by etrans.
Qed.

Lemma keeps_process p d : keeps p (try_process_dealer_messages p d).
Proof.
  unfold try_process_dealer_messages.
  destruct (dp_dealer_pub_msgs p !! d); [|done]. destruct (dp_dealer_priv_msgs p !! d); [|done].
  destruct (dp_player p); [|done]. by destruct (dealer_message _ _ _ _) as [? []].
Qed.

Lemma keeps_queue p ms : keeps p (foldl queue_private p ms).
Proof.
  revert p. induction ms as [|m ms IH]; intros p; [done|]. cbn [foldl]. etrans; [|apply IH].
  unfold queue_private. by destruct (m.1 =? _).
Qed.

Lemma keeps_all_logs p logs : keeps p (handle_all_logs p logs).
Proof.
  revert p. induction logs as [|[k log] logs IH]; intros p; [done|]. cbn [handle_all_logs].
  destruct (log_check _ _) as [[pk dl]|]; [|apply IH]. destruct (negb _); [apply IH|].
  destruct (_ <=? _); [done|]. destruct (is_some _); [apply IH|]. etrans; [|apply IH]. by constructor.
Qed.

Lemma keeps_message p from msg : keeps p (handle_message p from msg).1.
Proof.
  unfold handle_message. destruct (negb _); [done|].
  destruct (kind msg) as [d m|d m|pl d a|log| |logs|pl].
  - destruct (check_dealer _ _ _ _); [|done]. etrans; [|apply keeps_process]. by constructor.
  - destruct (check_dealer _ _ _ _); [|done]. etrans; [|apply keeps_process]. by constructor.
  - destruct (negb _); [done|]. unfold handle_ack. cbn [fst].
    destruct (dp_dealer p); [|done]. by destruct (d =? _).
  - unfold handle_dealer_log. destruct (log_check _ _) as [[]|]; [|done].
    destruct (negb _); [done|]. destruct (_ <=? _); [done|]. by destruct (is_some _).
  - by constructor.
  - destruct (negb _); [done|]. apply keeps_all_logs.
  - by destruct (negb _).
Qed.

Lemma keeps_seen p h : keeps p (with_seen p ({[h]} ∪ dp_seen_messages p)).
Proof. constructor; [done..|]. cbn [dp_seen_messages with_seen]. apply union_subseteq_r. Qed.

Lemma keeps_bytes p from b : keeps p (handle_message_bytes p from b).1.
Proof.
  unfold handle_message_bytes. destruct (bool_decide _); [done|].
  destruct (from_bytes _ _) as [msg|]; [|done].
  destruct (session_id msg); [destruct (negb _); [done|]|];
    (etrans; [apply keeps_seen|apply keeps_message]).
Qed.

Lemma keeps_apply p op : keeps p (dkg_apply p op).
Proof.
  destruct op; cbn [dkg_apply]; [|apply keeps_bytes| | |by constructor|by constructor|].
  - unfold start_dealer. destruct (dealer_start _ _ _) as [[[d pub] ms]|]; [|done]. cbn [fst].
    etrans; [|apply keeps_process].
    destruct (keeps_queue (push p None (DealerPublic (my_public_key (dp_config p)) pub)) ms).
    by constructor.
  - unfold finalize_dealer. destruct (dp_dealer p); [|done].
    by destruct (log_check _ _) as [[]|].
  - unfold broadcast_ready. by destruct (dp_sent_ready p).
  - unfold finalize. destruct (dp_finalized p); [done|]. destruct (negb _); [done|].
    destruct (dp_player p); [|done]. by destruct (player_finalize _ _ _ _) as [[]|].
Qed.

Lemma keeps_run p ops : keeps p (foldl dkg_apply p ops).
Proof.
  revert p. induction ops as [|op ops IH]; intros p; [done|]. cbn [foldl].
  etrans; [apply keeps_apply|apply IH].
Qed.

Lemma inv_run p ops : participant_inv p -> participant_inv (foldl dkg_apply p ops).
Proof. revert p. induction ops as [|op ops IH]; intros p H; [done|]. by apply IH, inv_apply. Qed.

(** ** Provenance *)

Lemma heard_mono config sid ops ops' from k :
  heard config sid ops from k -> heard config sid (ops ++ ops') from k.
Proof. intros (H & b & msg & Hb & R). split; [done|]. exists b, msg. rewrite elem_of_app. tauto. Qed.

Lemma self_dealt_mono config i ops ops' pub ms :
  self_dealt config i ops pub ms -> self_dealt config i (ops ++ ops') pub ms.
Proof. intros (rng & d & Hin & E). exists rng, d. rewrite elem_of_app. tauto. Qed.

Lemma prov_mono ops ops' p : provenance ops p -> provenance (ops ++ ops') p.
Proof.
  intros []. constructor; [| | | |done].
  - intros d m [H|(H & ms & Hs)]%pv_pub0; [left; by apply heard_mono|right].
    split; [done|]. exists ms. by apply self_dealt_mono.
  - intros d m [H|(H & pub & ms & Hs & Hm)]%pv_priv0; [left; by apply heard_mono|right].
    split; [done|]. exists pub, ms. split; [by apply self_dealt_mono|done].
  - intros d [H|H]%pv_ready0; [left; by apply heard_mono|by right].
  - intros d l [H [(f & Hf)|[(ld & ls & k & H1 & H2 & H3)|H1]]]%pv_log0; (split; [done|]).
    + left. exists f. by apply heard_mono.
    + right; left. exists ld, ls, k. split_and!; [done|by apply heard_mono|done].
    + by right; right.
Qed.

(** Assignments that it does not look at. *)
Ltac prov_same := intros []; by constructor.
Lemma prov_player ops p v : provenance ops p -> provenance ops (with_player p v).
Proof. prov_same. Qed.
Lemma prov_dealer ops p v : provenance ops p -> provenance ops (with_dealer p v).
Proof. prov_same. Qed.
Lemma prov_seen ops p v : provenance ops p -> provenance ops (with_seen p v).
Proof. prov_same. Qed.
Lemma prov_outgoing ops p v : provenance ops p -> provenance ops (with_outgoing p v).
Proof. prov_same. Qed.
Lemma prov_finalized ops p v : provenance ops p -> provenance ops (with_finalized p v).
Proof. prov_same. Qed.
Lemma prov_phase ops p v : provenance ops p -> provenance ops (set_phase p v).
Proof. prov_same. Qed.
#[local] Hint Resolve prov_player prov_dealer prov_seen prov_outgoing prov_finalized prov_phase : kora.

Lemma prov_process ops p d : provenance ops p -> provenance ops (try_process_dealer_messages p d).
Proof.
  intros H. unfold try_process_dealer_messages.
  destruct (dp_dealer_pub_msgs p !! d) as [pub|] eqn:E1; [|done].
  destruct (dp_dealer_priv_msgs p !! d) as [priv|] eqn:E2; [|done].
  destruct (dp_player p) as [player|]; [|done].
  destruct (dealer_message player d pub priv) as [player' [ack|]] eqn:Em; [|by apply prov_player].
  destruct H. constructor; try done. cbn. intros d' [->%elem_of_singleton|Hd']%elem_of_union Hne.
  - by exists pub, priv, player, player', ack.
  - by apply pv_acked0.
Qed.

(** A new entry, of a dealer of which there is none yet or of our own. *)
Lemma prov_pub ops p d m :
  participant_inv p -> provenance ops p ->
  dp_dealer_pub_msgs p !! d = None \/ d = my_public_key (dp_config p) ->
  (heard (dp_config p) (dp_ceremony_id p) ops d (DealerPublic d m)
   \/ d = my_public_key (dp_config p) /\ exists ms, self_dealt (dp_config p) (dp_info p) ops m ms) ->
  provenance ops (with_pub p (<[d := m]> (dp_dealer_pub_msgs p))).
Proof.
  intros Hi [] Hnew Hsrc. constructor; try done; cbn.
  - intros d' m'. destruct (decide (d = d')) as [<-|Hne];
      [rewrite lookup_insert_eq; by intros [= <-]|rewrite lookup_insert_ne by done; apply pv_pub0].
  - intros d' Hd' Hme. assert (d <> d') as Hne.
    { intros <-. destruct Hnew as [Hnew|]; [|done].
      apply (pi_acks _ Hi), elem_of_intersection in Hd' as [Hd' _].
      apply elem_of_dom in Hd' as [x Hx]. congruence. }
    rewrite lookup_insert_ne by done. by apply pv_acked0.
Qed.

Lemma prov_priv ops p d m :
  participant_inv p -> provenance ops p ->
  dp_dealer_priv_msgs p !! d = None \/ d = my_public_key (dp_config p) ->
  (heard (dp_config p) (dp_ceremony_id p) ops d (DealerPrivate d m)
   \/ d = my_public_key (dp_config p)
      /\ exists pub ms, self_dealt (dp_config p) (dp_info p) ops pub ms /\ (d, m) ∈ ms) ->
  provenance ops (with_priv p (<[d := m]> (dp_dealer_priv_msgs p))).
Proof.
  intros Hi [] Hnew Hsrc. constructor; try done; cbn.
  - intros d' m'. destruct (decide (d = d')) as [<-|Hne];
      [rewrite lookup_insert_eq; by intros [= <-]|rewrite lookup_insert_ne by done; apply pv_priv0].
  - intros d' Hd' Hme. assert (d <> d') as Hne.
    { intros <-. destruct Hnew as [Hnew|]; [|done].
      apply (pi_acks _ Hi), elem_of_intersection in Hd' as [_ Hd'].
      apply elem_of_dom in Hd' as [x Hx]. congruence. }
    rewrite lookup_insert_ne by done. by apply pv_acked0.
Qed.

Lemma prov_ready ops p d b :
  provenance ops p ->
  heard (dp_config p) (dp_ceremony_id p) ops d (Ready d) \/ d = my_public_key (dp_config p) ->
  provenance ops (with_ready p ({[d]} ∪ dp_ready_players p) b).
Proof.
  intros [] Hd. constructor; try done. cbn. intros d' [->%elem_of_singleton|Hd']%elem_of_union; [done|].
  by apply pv_ready0.
Qed.

Lemma prov_add_log ops p d dl l :
  provenance ops p -> log_source p ops d l -> provenance ops (add_log p d dl l).
Proof.
  intros [] Hs. constructor; try done. cbn. intros d' l'. destruct (decide (d = d')) as [<-|Hne].
  - rewrite lookup_insert_eq. by intros [= <-].
  - rewrite lookup_insert_ne by done. apply pv_log0.
Qed.

Lemma prov_queue ops p ms0 ms :
  participant_inv p -> provenance ops p -> (forall e, e ∈ ms -> e ∈ ms0) ->
  (exists pub, self_dealt (dp_config p) (dp_info p) ops pub ms0) ->
  provenance ops (foldl queue_private p ms).
Proof.
  revert p. induction ms as [|m ms IH]; intros p Hi H Hsub Hself; [done|]. cbn [foldl].
  pose proof (inv_queue p [m] Hi) as Hi1. cbn [foldl] in Hi1.
  assert (dp_config (queue_private p m) = dp_config p /\ dp_info (queue_private p m) = dp_info p) as [Ec Ei]
    by (unfold queue_private; by destruct (m.1 =? _)).
  apply IH; [done| |intros e He; apply Hsub, elem_of_cons; by right|by rewrite Ec, Ei].
  unfold queue_private. destruct (m.1 =? my_public_key (dp_config p)) eqn:E; [|by apply prov_outgoing].
  apply Z.eqb_eq in E. apply prov_priv; [done|done|by right|]. right. split; [done|].
  destruct Hself as [pub Hs]. exists pub, ms0. split; [done|]. rewrite <- E.
  apply Hsub, elem_of_cons. left. by destruct m.
Qed.

Lemma prov_start ops p rng :
  participant_inv p -> provenance ops p -> OpStart rng ∈ ops ->
  provenance ops (start_dealer p rng).1.
Proof.
  intros Hi H Hin. unfold start_dealer.
  destruct (dealer_start _ _ _) as [[[dealer pub] privs]|e] eqn:Ed; [|done]. cbn [fst].
  set (p1 := push p None _).
  assert (self_dealt (dp_config p) (dp_info p) ops pub privs) as Hself by (by exists rng, dealer).
  assert (participant_inv p1) as Hi1 by (by apply inv_push).
  assert (provenance ops (foldl queue_private p1 privs)) as Hq
    by (eapply prov_queue; [done|by apply prov_outgoing|done|by exists pub]).
  destruct (keeps_queue p1 privs) as [Kc Ki Ks _].
  apply prov_process, prov_dealer, prov_pub; [by apply inv_queue|done| |].
  - right. by rewrite Kc.
  - right. rewrite Kc. split; [done|]. exists privs. by rewrite Ki.
Qed.

Lemma prov_all_logs ops p logs0 logs from :
  provenance ops p -> leader p = Some from ->
  heard (dp_config p) (dp_ceremony_id p) ops from (AllLogs logs0) ->
  (forall e, e ∈ logs -> e ∈ logs0) -> provenance ops (handle_all_logs p logs).
Proof.
  revert p. induction logs as [|[k log] logs IH]; intros p H Hl Hh Hsub; [done|]. cbn [handle_all_logs].
  assert (forall e, e ∈ logs -> e ∈ logs0) as Hsub' by (intros e He; apply Hsub, elem_of_cons; by right).
  destruct (log_check (dp_info p) log) as [[pk dl]|] eqn:E; [|by apply IH].
  destruct (is_participant p pk) eqn:Hp; cbn [negb]; [|by apply IH].
  destruct (_ <=? _); [done|]. destruct (is_some _); [by apply IH|].
  apply IH; [|done|done|done]. apply prov_add_log; [done|]. apply bool_decide_eq_true in Hp.
  split; [done|]. right; left. exists from, logs0, k. split_and!; [done|done|].
  apply Hsub, elem_of_cons. by left.
Qed.

Lemma prov_message ops p from msg :
  participant_inv p -> provenance ops p ->
  (from ∈ dk_participants (dp_config p) ->
   heard (dp_config p) (dp_ceremony_id p) ops from (kind msg)) ->
  provenance ops (handle_message p from msg).1.
Proof.
  intros Hi H Hh. unfold handle_message.
  destruct (is_participant p from) eqn:Hf; cbn [negb]; [|done].
  apply bool_decide_eq_true in Hf. specialize (Hh Hf).
  destruct (kind msg) as [d m|d m|pl d a|log| |logs|pl].
  - destruct (check_dealer _ _ _ _) as [[]|] eqn:E; [|done].
    apply check_dealer_ok in E as [<- Hn]. apply prov_process, prov_pub; tauto.
  - destruct (check_dealer _ _ _ _) as [[]|] eqn:E; [|done].
    apply check_dealer_ok in E as [<- Hn]. apply prov_process, prov_priv; tauto.
  - destruct (from =? pl); cbn [negb fst]; [|done]. unfold handle_ack.
    destruct (dp_dealer p); [|done]. destruct (d =? _); [by apply prov_dealer|done].
  - unfold handle_dealer_log. destruct (log_check _ _) as [[pk dl]|] eqn:E; [|done].
    destruct (is_participant p pk) eqn:Hp; cbn [negb]; [|done]. apply bool_decide_eq_true in Hp.
    destruct (_ <=? _); [done|]. destruct (is_some _); [done|].
    apply prov_add_log; [done|]. split; [done|]. left. by exists from.
  - by apply prov_outgoing.
  - case_bool_decide as Hl; cbn [negb fst]; [|done]. by eapply prov_all_logs.
  - destruct (from =? pl) eqn:E; cbn [negb fst]; [|done]. apply Z.eqb_eq in E as <-.
    apply prov_ready; [done|by left].
Qed.

Lemma prov_bytes ops p from b :
  participant_inv p -> provenance ops p -> OpMessage from b ∈ ops ->
  provenance ops (handle_message_bytes p from b).1.
Proof.
  intros Hi H Hin. unfold handle_message_bytes. destruct (bool_decide _); [done|].
  destruct (from_bytes _ _) as [msg|] eqn:Eb; [|done].
  set (p1 := with_seen p _).
  assert (session_id msg = None \/ session_id msg = Some (dp_ceremony_id p) ->
    provenance ops (handle_message p1 from msg).1) as Hm.
  { intros Hs. apply prov_message; [by apply inv_seen|by apply prov_seen|]. intros Hf.
    split; [done|]. by exists b, msg. }
  destruct (session_id msg) as [sid|]; [|by apply Hm; left].
  destruct (Z.eqb_spec sid (dp_ceremony_id p)) as [->|]; cbn [negb]; [|done]. apply Hm. by right.
Qed.

(** The dealer that is open is our own, so its log is. *)
Definition own_dealer p : Prop :=
  forall d, dp_dealer p = Some d ->
    exists pub, dealing (dp_info p) (my_public_key (dp_config p)) pub d.

Lemma prov_finalize_dealer ops p :
  participant_inv p -> own_dealer p -> provenance ops p -> provenance ops (finalize_dealer p).1.
Proof using LAWS.
  intros Hi Ho H. unfold finalize_dealer. destruct (dp_dealer p) as [d|] eqn:Ed; [|done].
  cbn [dp_info with_dealer]. destruct (Ho d Ed) as [pub Hd].
  destruct (dealer_finalize_valid _ _ _ _ Hd) as [dl ->]. cbn [fst].
  destruct H. constructor; try done. cbn. intros d' l'.
  destruct (decide (my_public_key (dp_config p) = d')) as [<-|Hne].
  - rewrite lookup_insert_eq. intros [= <-]. split; [apply Hi|]. by right; right.
  - rewrite lookup_insert_ne by done. intros [H1 [H2|[H2|[H2 _]]]]%pv_log0; [| |congruence];
      (split; [done|]); [by left|by right; left].
Qed.

Lemma process_dealer p d : dp_dealer (try_process_dealer_messages p d) = dp_dealer p.
Proof.
  unfold try_process_dealer_messages.
  destruct (dp_dealer_pub_msgs p !! d); [|done]. destruct (dp_dealer_priv_msgs p !! d); [|done].
  destruct (dp_player p); [|done]. by destruct (dealer_message _ _ _ _) as [? []].
Qed.

Lemma all_logs_dealer p ls : dp_dealer (handle_all_logs p ls) = dp_dealer p.
Proof.
  revert p. induction ls as [|[k log] ls IH]; intros p; [done|]. cbn [handle_all_logs].
  destruct (log_check _ _) as [[pk dl]|]; [|apply IH]. destruct (negb _); [apply IH|].
  destruct (_ <=? _); [done|]. destruct (is_some _); [apply IH|]. by rewrite IH.
Qed.

(** A message leaves the dealer as it is, or has it receive an acknowledgement. *)
Lemma message_dealer_cases p from msg :
  let q := (handle_message p from msg).1 in
  dp_dealer q = dp_dealer p
  \/ exists d pl a, dp_dealer p = Some d /\ dp_dealer q = Some (receive_player_ack d pl a).1.
Proof.
  cbn zeta. unfold handle_message. destruct (negb _); [by left|].
  destruct (kind msg) as [d m|d m|pl d a|log| |ls|pl].
  - left. destruct (check_dealer _ _ _ _); [|done]. cbn [fst]. by rewrite process_dealer.
  - left. destruct (check_dealer _ _ _ _); [|done]. cbn [fst]. by rewrite process_dealer.
  - destruct (negb _); [by left|]. unfold handle_ack. cbn [fst].
    destruct (dp_dealer p) as [dl|] eqn:E; [|by left]. destruct (d =? _); [|by left].
    right. by exists dl, pl, a.
  - left. unfold handle_dealer_log. destruct (log_check _ _) as [[]|]; [|done].
    destruct (negb _); [done|]. destruct (_ <=? _); [done|]. by destruct (is_some _).
  - by left.
  - left. destruct (negb _); [done|]. cbn [fst]. by rewrite all_logs_dealer.
  - left. by destruct (negb _).
Qed.

Lemma own_message p from msg : own_dealer p -> own_dealer (handle_message p from msg).1.
Proof using LAWS.
  intros H d Hd. destruct (keeps_message p from msg) as [-> -> _ _].
  destruct (message_dealer_cases p from msg) as [E|(d0 & pl & a & E0 & E)]; rewrite E in Hd; [by apply H|].
  injection Hd as <-. destruct (H d0 E0) as [pub Hp]. exists pub. by apply receive_ack_dealing.
Qed.

Lemma own_apply p op : own_dealer p -> own_dealer (dkg_apply p op).
Proof using LAWS.
  intros H. destruct op as [rng|from b| | | |ph|rng]; cbn [dkg_apply].
  - unfold start_dealer. destruct (dealer_start _ _ _) as [[[d pub] ms]|] eqn:Ed; [|done]. cbn [fst].
    set (p1 := push p None _). set (p2 := with_dealer _ _).
    intros d' Hd'. rewrite process_dealer in Hd'. injection Hd' as <-.
    destruct (keeps_process p2 (my_public_key (dp_config p))) as [-> -> _ _].
    destruct (keeps_queue p1 ms) as [Kc Ki _ _]. exists pub. cbn. rewrite Kc, Ki.
    by destruct (dealer_start_deals _ _ _ _ _ _ Ed).
  - unfold handle_message_bytes. destruct (bool_decide _); [done|].
    destruct (from_bytes _ _) as [msg|]; [|done].
    destruct (session_id msg); [destruct (negb _); [done|]|]; by apply own_message.
  - unfold finalize_dealer. destruct (dp_dealer p); [|done]. by destruct (log_check _ _) as [[]|].
  - unfold broadcast_ready. by destruct (dp_sent_ready p).
  - exact H.
  - exact H.
  - unfold finalize. destruct (dp_finalized p); [done|]. destruct (negb _); [done|].
    destruct (dp_player p); [|done]. by destruct (player_finalize _ _ _ _) as [[]|].
Qed.

Lemma prov_apply ops p op :
  participant_inv p -> own_dealer p -> provenance ops p -> provenance (ops ++ [op]) (dkg_apply p op).
Proof using LAWS.
  intros Hi Ho H%(prov_mono ops [op]).
  assert (op ∈ ops ++ [op]) as Hin by (apply elem_of_app; right; by apply list_elem_of_singleton).
  destruct op as [rng|from b| | | |ph|rng]; cbn [dkg_apply];
    auto using prov_start, prov_bytes, prov_finalize_dealer with kora.
  - unfold broadcast_ready. destruct (dp_sent_ready p); [done|].
    apply prov_ready; [by apply prov_outgoing|by right].
  - by apply prov_outgoing.
  - unfold finalize. destruct (dp_finalized p); [done|]. destruct (negb _); [done|].
    destruct (dp_player p); [|done]. destruct (player_finalize _ _ _ _) as [[]|]; cbn [fst]; auto with kora.
Qed.

Lemma prov_run done_ ops p :
  participant_inv p -> own_dealer p -> provenance done_ p ->
  provenance (done_ ++ ops) (foldl dkg_apply p ops).
Proof using LAWS.
  revert done_ p. induction ops as [|op ops IH]; intros done_ p Hi Ho H; [by rewrite app_nil_r|].
  cbn [foldl]. rewrite cons_middle, app_assoc.
  apply IH; [by apply inv_apply|by apply own_apply|by apply prov_apply].
Qed.

(** ** Nothing of others is replaced *)

#[local] Instance stays_refl : Reflexive stays.
Proof. by constructor. Qed.

Lemma stays_trans p q r : keeps p q -> stays p q -> stays q r -> stays p r.
Proof.
  intros Hk [] []. rewrite (kp_config _ _ Hk) in *. constructor; eauto.
Qed.

Lemma process_kept p d :
  let q := try_process_dealer_messages p d in
  dp_dealer_pub_msgs q = dp_dealer_pub_msgs p /\ dp_dealer_priv_msgs q = dp_dealer_priv_msgs p
  /\ dp_signed_logs q = dp_signed_logs p.
Proof.
  cbn zeta. unfold try_process_dealer_messages.
  destruct (dp_dealer_pub_msgs p !! d); [|done]. destruct (dp_dealer_priv_msgs p !! d); [|done].
  destruct (dp_player p); [|done]. by destruct (dealer_message _ _ _ _) as [? []].
Qed.

Lemma insert_kept {A} (m : gmap PublicKey A) d x me :
  m !! d = None \/ d = me ->
  forall d' y, d' <> me -> m !! d' = Some y -> <[d := x]> m !! d' = Some y.
Proof.
  intros Hn d' y Hme Hy. rewrite lookup_insert_ne; [done|]. intros <-. destruct Hn; congruence.
Qed.

Lemma stays_add_log p d dl l :
  participant_inv p -> dp_dealer_logs p !! d = None \/ d = my_public_key (dp_config p) ->
  stays p (add_log p d dl l).
Proof.
  intros Hi Hn. constructor; try done. cbn. apply insert_kept. destruct Hn as [Hn|]; [left|by right].
  destruct (dp_signed_logs p !! d) as [l'|] eqn:E; [|done].
  destruct (pi_signed _ Hi _ _ E) as [dl' Hc].
  assert (dp_dealer_logs p !! d = Some dl') by (apply (pi_logs _ Hi); eauto). congruence.
Qed.

Lemma stays_all_logs p logs : participant_inv p -> stays p (handle_all_logs p logs).
Proof.
  revert p. induction logs as [|[k log] logs IH]; intros p Hi; [done|]. cbn [handle_all_logs].
  destruct (log_check (dp_info p) log) as [[pk dl]|] eqn:E; [|by apply IH].
  destruct (negb _); [by apply IH|]. destruct (_ <=? _); [done|].
  destruct (dp_dealer_logs p !! pk) eqn:Ep; cbn [is_some]; [by apply IH|].
  eapply stays_trans; [|apply stays_add_log; [done|by left]|apply IH; by apply inv_add_log].
  by constructor.
Qed.

Lemma stays_message p from msg : participant_inv p -> stays p (handle_message p from msg).1.
Proof.
  intros Hi. unfold handle_message. destruct (negb _); [done|].
  destruct (kind msg) as [d m|d m|pl d a|log| |logs|pl].
  - destruct (check_dealer _ _ _ _) as [[]|] eqn:E; [|done]. apply check_dealer_ok in E as [_ Hn].
    destruct (process_kept (with_pub p (<[d := m]> (dp_dealer_pub_msgs p))) d) as (E1 & E2 & E3).
    constructor; cbn [fst]; rewrite ?E1, ?E2, ?E3; try done. cbn. apply insert_kept. by left.
  - destruct (check_dealer _ _ _ _) as [[]|] eqn:E; [|done]. apply check_dealer_ok in E as [_ Hn].
    destruct (process_kept (with_priv p (<[d := m]> (dp_dealer_priv_msgs p))) d) as (E1 & E2 & E3).
    constructor; cbn [fst]; rewrite ?E1, ?E2, ?E3; try done. cbn. apply insert_kept. by left.
  - destruct (negb _); [done|]. unfold handle_ack. cbn [fst].
    destruct (dp_dealer p); [|done]. by destruct (d =? _).
  - unfold handle_dealer_log. destruct (log_check _ _) as [[pk dl]|]; [|done].
    destruct (negb _); [done|]. destruct (_ <=? _); [done|].
    destruct (dp_dealer_logs p !! pk) eqn:Ep; cbn [is_some fst]; [done|]. apply stays_add_log; [done|by left].
  - done.
  - destruct (negb _); [done|]. by apply stays_all_logs.
  - by destruct (negb _).
Qed.

Lemma queue_kept p ms :
  let q := foldl queue_private p ms in
  dp_dealer_pub_msgs q = dp_dealer_pub_msgs p /\ dp_signed_logs q = dp_signed_logs p
  /\ forall d, d <> my_public_key (dp_config p) ->
       dp_dealer_priv_msgs q !! d = dp_dealer_priv_msgs p !! d.
Proof.
  cbn zeta. revert p. induction ms as [|m ms IH]; intros p; [done|]. cbn [foldl].
  destruct (IH (queue_private p m)) as (-> & -> & H). split_and!.
  - unfold queue_private. by destruct (m.1 =? _).
  - unfold queue_private. by destruct (m.1 =? _).
  - intros d Hd. rewrite H.
    + unfold queue_private. destruct (m.1 =? _); [|done]. cbn. by rewrite lookup_insert_ne.
    + unfold queue_private. by destruct (m.1 =? _).
Qed.

Lemma stays_apply p op : participant_inv p -> own_dealer p -> stays p (dkg_apply p op).
Proof using LAWS.
  intros Hi Ho. destruct op as [rng|from b| | | |ph|rng]; cbn [dkg_apply]; try done.
  - unfold start_dealer. destruct (dealer_start _ _ _) as [[[dl pub] ms]|]; [|done]. cbn [fst].
    set (p1 := push p None _). set (p2 := with_dealer _ _).
    destruct (process_kept p2 (my_public_key (dp_config p))) as (E1 & E2 & E3).
    destruct (queue_kept p1 ms) as (Q1 & Q2 & Q3).
    constructor; intros d x Hd; rewrite ?E1, ?E2, ?E3; cbn; rewrite ?Q1, ?Q2, ?Q3; try done.
    apply (insert_kept _ _ _ (my_public_key (dp_config p))); [by right|done].
  - unfold handle_message_bytes. destruct (bool_decide _); [done|].
    destruct (from_bytes _ _) as [msg|]; [|done].
    assert (forall v, stays p (handle_message (with_seen p v) from msg).1) as Hm.
    { intros v. destruct (stays_message (with_seen p v) from msg) as []; [by apply inv_seen|]. by constructor. }
    destruct (session_id msg); [destruct (negb _); [done|]|]; apply Hm.
  - unfold finalize_dealer. destruct (dp_dealer p) as [d|] eqn:Ed; [|done]. cbn [dp_info with_dealer].
    destruct (Ho d Ed) as [pub Hd]. destruct (dealer_finalize_valid _ _ _ _ Hd) as [dl ->]. cbn [fst].
    destruct (stays_add_log p (my_public_key (dp_config p)) dl (dealer_finalize d)) as [];
      [done|by right|]. by constructor.
  - unfold broadcast_ready. by destruct (dp_sent_ready p).
  - unfold finalize. destruct (dp_finalized p); [done|]. destruct (negb _); [done|].
    destruct (dp_player p); [|done]. by destruct (player_finalize _ _ _ _) as [[]|].
Qed.

Lemma stays_run p ops :
  participant_inv p -> own_dealer p -> stays p (foldl dkg_apply p ops).
Proof using LAWS.
  revert p. induction ops as [|op ops IH]; intros p Hi Ho; [done|]. cbn [foldl].
  eapply stays_trans; [apply keeps_apply|by apply stays_apply|].
  apply IH; [by apply inv_apply|by apply own_apply].
Qed.

Lemma own_run p ops : own_dealer p -> own_dealer (foldl dkg_apply p ops).
Proof using LAWS. revert p. induction ops as [|op ops IH]; intros p H; [done|]. by apply IH, own_apply. Qed.

(** ** Second messages *)

Lemma again {A} p (m : gmap PublicKey A) d :
  participant_inv p -> dom m ⊆ list_to_set (dk_participants (dp_config p)) -> is_Some (m !! d) ->
  refused_again p m d
    (if dk_n (dp_config p) <=? msize m then Err (TooManyDealers (msize m + 1) (dk_n (dp_config p)))
     else if is_some (m !! d) then Err (DuplicateDealer d) else Ok tt).
Proof.
  intros Hi Hm [x Hx]. destruct (full_map p m Hi Hm) as [Hle Hfull]. unfold refused_again.
  assert (forallb (fun pk => is_some (m !! pk)) (dk_participants (dp_config p)) = true
    <-> dk_n (dp_config p) <= msize m) as Hf.
  { rewrite Hfull, forallb_forall. setoid_rewrite <- list_elem_of_In.
    split; intros H pk Hpk; specialize (H pk Hpk); destruct (m !! pk); done || by destruct H. }
  rewrite Hx. cbn [is_some]. destruct (Z.leb_spec (dk_n (dp_config p)) (msize m)) as [H|H].
  - rewrite (proj2 Hf H). replace (msize m) with (dk_n (dp_config p)) by lia. done.
  - destruct (forallb _ _); [|done]. pose proof (proj1 Hf eq_refl). lia.
Qed.

Lemma log_dom ops p :
  participant_inv p -> provenance ops p ->
  dom (dp_dealer_logs p) ⊆ list_to_set (dk_participants (dp_config p)).
Proof.
  intros Hi Hp pk [dl Hdl]%elem_of_dom. apply (pi_logs _ Hi) in Hdl as (l & Hl & _).
  apply elem_of_list_to_set. by destruct (pv_log _ _ Hp _ _ Hl).
Qed.

Lemma message_again ops p from s :
  participant_inv p -> provenance ops p -> from ∈ dk_participants (dp_config p) ->
  (forall m, is_Some (dp_dealer_pub_msgs p !! from) ->
     exists r, handle_message p from (mkMessage s (DealerPublic from m)) = (p, r)
       /\ refused_again p (dp_dealer_pub_msgs p) from r)
  /\ (forall m, is_Some (dp_dealer_priv_msgs p !! from) ->
     exists r, handle_message p from (mkMessage s (DealerPrivate from m)) = (p, r)
       /\ refused_again p (dp_dealer_priv_msgs p) from r)
  /\ (forall l pk dl, log_check (dp_info p) l = Some (pk, dl) -> is_Some (dp_dealer_logs p !! pk) ->
     exists r, handle_message p from (mkMessage s (DealerLogMsg l)) = (p, r)
       /\ refused_again p (dp_dealer_logs p) pk r).
Proof.
  intros Hi Hp Hf. unfold handle_message, is_participant. cbn [kind].
  rewrite bool_decide_eq_true_2 by done. cbn [negb]. unfold check_dealer. rewrite Z.eqb_refl. cbn [negb].
  split_and!.
  - intros m Hm. pose proof (again p _ from Hi (pi_pub _ Hi) Hm) as H.
    destruct (_ <=? _); [by eexists|]. destruct Hm as [x Hx]. rewrite Hx in *. by eexists.
  - intros m Hm. pose proof (again p _ from Hi (pi_priv _ Hi) Hm) as H.
    destruct (_ <=? _); [by eexists|]. destruct Hm as [x Hx]. rewrite Hx in *. by eexists.
  - intros l pk dl Hc Hm. pose proof (again p _ pk Hi (log_dom _ _ Hi Hp) Hm) as H.
    unfold handle_dealer_log, is_participant, dealer_log_count. rewrite Hc.
    rewrite bool_decide_eq_true_2; [cbn [negb]|].
    + destruct (_ <=? _); [by eexists|]. destruct Hm as [x Hx]. rewrite Hx in *. by eexists.
    + apply elem_of_dom, (log_dom _ _ Hi Hp), elem_of_list_to_set in Hm. done.
Qed.

Lemma new_own config t p : participant_new config t = Ok p -> own_dealer p.
Proof using LAWS. unfold participant_new. intros H. by case_code; simplify_eq/=. Qed.

Lemma new_prov config t p : participant_new config t = Ok p -> provenance [] p.
Proof.
  unfold participant_new. intros H. case_code; simplify_eq/=.
  constructor; cbn; intros d; try (intros m; rewrite lookup_empty; done); by intros ?%not_elem_of_empty.
Qed.

(** A message whose hash is known is dropped without an error. *)
Lemma known_dropped p from b :
  compute_message_hash b ∈ dp_seen_messages p -> handle_message_bytes p from b = (p, Ok tt).
Proof. intros H. unfold handle_message_bytes. by rewrite bool_decide_eq_true_2. Qed.

(** ** Theorems *)


(** The leader answers a request for the logs once.  The request carries no
    sender, so all requests of a session have the same bytes: after the first
    one has been answered, every later request, of the same participant or of
    another, is dropped as a duplicate, however many logs were missing. *)
Theorem request_logs_once p (from from' : PublicKey) (ops : list DkgOp)
    (Hsid : in_width 256 (dp_ceremony_id p))
    (Hfrom : from ∈ dk_participants (dp_config p)) :
  let request := to_bytes (message_new (dp_ceremony_id p) RequestLogs) in
  let p1 := (handle_message_bytes p from request).1 in
  let p2 := foldl dkg_apply p1 ops in
  (compute_message_hash request ∉ dp_seen_messages p ->
     dp_outgoing p1
     = dp_outgoing p ++
       [(Some from, message_new (dp_ceremony_id p) (AllLogs (btree (dp_signed_logs p))))])
  /\ handle_message_bytes p2 from' request = (p2, Ok tt).
Proof using LAWS.
  intros request p1 p2.
  assert (0 < dk_n (dp_config p)) as Hn.
  { unfold dk_n, len. destruct (dk_participants (dp_config p)); [by apply elem_of_nil in Hfrom|simpl; lia]. }
  assert (from_bytes request (dk_n (dp_config p)) = Ok (message_new (dp_ceremony_id p) RequestLogs)) as Hb.
  { rewrite <- (app_nil_r request). by apply from_to_bytes. }
  assert (compute_message_hash request ∉ dp_seen_messages p ->
    p1 = push (with_seen p ({[compute_message_hash request]} ∪ dp_seen_messages p)) (Some from)
           (AllLogs (btree (dp_signed_logs p)))) as E.
  { intros Hs. unfold p1, handle_message_bytes. rewrite bool_decide_eq_false_2, Hb by done.
    cbn [session_id message_new]. rewrite Z.eqb_refl. cbn [negb]. unfold handle_message, is_participant.
    cbn [dp_config with_seen]. by rewrite bool_decide_eq_true_2 by done. }
  split; [intros Hs; by rewrite (E Hs)|]. apply known_dropped, (kp_seen _ _ (keeps_run p1 ops)).
  destruct (decide (compute_message_hash request ∈ dp_seen_messages p)) as [Hs|Hs].
  - unfold p1. by rewrite known_dropped.
  - rewrite (E Hs). cbn [dp_seen_messages push with_outgoing with_seen].
    apply elem_of_union_l, elem_of_singleton_2. done.
Qed.

(** ** Sessions *)

(** Bytes that start with the header of a session-bound message. *)
Definition bound_to (sid : B256) (b : bytes) : Prop :=
  exists tail, b = 255 :: 2 :: be_bytes 32 sid ++ tail.

Lemma bound_to_message (sid : B256) (k : ProtocolMessageKind) :
  bound_to sid (to_bytes (message_new sid k)).
Proof. by exists (kind_to_bytes k). Qed.

Lemma bound_session sid b d m :
  in_width 256 sid -> bound_to sid b -> from_bytes b d = Ok m -> session_id m = Some sid.
Proof.
  intros Hs [tail ->]. unfold from_bytes, read_header. cbn [read_u8 Z.eqb Pos.eqb negb].
  rewrite read_fixed_back by (by eapply in_width_bytes).
  destruct tail as [|tag tail]; cbn [read_u8]; [done|]. cbn [fst snd].
  destruct (d =? 0); [done|]. destruct (read_kind tag d tail); [|done]. by intros [= <-].
Qed.

Lemma foreign_bytes p from sid b :
  in_width 256 sid -> bound_to sid b -> sid <> dp_ceremony_id p ->
  (handle_message_bytes p from b).1 = p.
Proof.
  intros Hs Hb Hne. unfold handle_message_bytes. destruct (bool_decide _); [done|].
  destruct (from_bytes b _) as [m|] eqn:E; [|done].
  rewrite (bound_session _ _ _ _ Hs Hb E). by rewrite (proj2 (Z.eqb_neq _ _) Hne).
Qed.

Definition deliver (p : DkgParticipant) (e : PublicKey * bytes) : DkgParticipant :=
  (handle_message_bytes p e.1 e.2).1.

Record params_ok (config : DkgConfig) (t : u64) : Prop := {
  po_chain : in_width 64 (dk_chain_id config);
  po_time : in_width 64 t;
  po_count : in_width 64 (len (dk_participants config));
  po_keys : Forall (in_width 256) (dk_participants config);
}.

(** C20: Messages bound to another ceremony (another chain, another set of
    participants or another time slot), replayed in any number and order and
    from any sender, leave a participant as it is, unless the descriptions of
    the two ceremonies, which differ, have the same SHA-256 digest. *)
Theorem replay_inert (config config' : DkgConfig) (t t' : u64) p0 (ops : list DkgOp)
    (envelopes : list (PublicKey * bytes))
    (Hnew : participant_new config t = Ok p0)
    (Hok : params_ok config t) (Hok' : params_ok config' t')
    (Hother : dk_chain_id config <> dk_chain_id config'
              \/ ~ dk_participants config ≡ₚ dk_participants config' \/ t <> t')
    (Hdigest : forall b, in_width 256 (sha256 b))
    (Hbound : Forall (fun e => bound_to (ceremony_id
       (session_new (dk_chain_id config') (dk_participants config') t')) e.2) envelopes) :
  let p := foldl dkg_apply p0 ops in
  let ours := session_preimage (dk_chain_id config) (dk_participants config) t in
  let theirs := session_preimage (dk_chain_id config') (dk_participants config') t' in
  ours <> theirs /\ (foldl deliver p envelopes = p \/ sha256 ours = sha256 theirs).
Proof.
  intros p a b.
  assert (dp_session p = session_new (dk_chain_id config) (dk_participants config) t) as Hp.
  { unfold p. rewrite (kp_session _ _ (keeps_run p0 ops)). clear -Hnew.
    unfold participant_new in Hnew. by case_code; simplify_eq/=. }
  split.
  { intros Heq. destruct Hok, Hok'.
    apply session_preimage_inj in Heq as (? & ? & ?); try done. by destruct Hother as [?|[?|?]]. }
  destruct (decide (sha256 b = sha256 a)) as [E|E]; [by right|].
  - left. induction Hbound as [|[from c] es Hc _ IH]; [done|]. cbn [foldl]. unfold deliver at 2.
    cbn [fst snd] in *. rewrite (foreign_bytes p from (sha256 b) c); [done|apply Hdigest|done|].
    unfold dp_ceremony_id. by rewrite Hp.
Qed.

End invariant.

(** ** Witnesses: two participants, seen by the first *)

#[local] Instance toy_sha : Sha256 := {| sha256 := fun b => be_value b `mod` 2 ^ 256 |}.

Definition toy_config : @DkgConfig toy_lib := mkDkgConfig (1 : @PrivateKey toy_lib) 0 [1; 2] 7 [].

Definition toy_fresh : @DkgParticipant toy_lib :=
  mkParticipant toy_config (([1; 2], [1; 2]) : @Info toy_lib) (Some ((1, []) : @Player toy_lib)) None
    (session_new 7 [1; 2] 0) ∅ [] ∅ ∅ ∅ ∅ None false ∅ ∅ false AwaitingStart 0.

Lemma toy_fresh_new : participant_new toy_config 0 = Ok toy_fresh.
Proof.
  unfold participant_new. replace (participant_set (dk_participants toy_config)) with (Some [1; 2])
    by (vm_compute; reflexivity). reflexivity.
Qed.

Lemma toy_digest b : in_width 256 (sha256 b).
Proof. apply Z.mod_pos_bound. lia. Qed.

Lemma toy_me : my_public_key toy_config ∈ dk_participants toy_config.
Proof. apply elem_of_cons. by left. Qed.

Definition toy_start : list (@DkgOp toy_lib) := [OpStart (5 : @Rng toy_lib); OpReady].

(** Both participants have dealt in public: a second dealing is one too many. *)
Definition toy_talk : list (@DkgOp toy_lib) :=
  toy_start ++ [OpMessage 2 (to_bytes (message_new (dp_ceremony_id toy_fresh)
    (DealerPublic 2 (5 : @DealerPubMsg toy_lib))))].


Lemma request_logs_once_witness :
  let request := to_bytes (message_new (dp_ceremony_id toy_fresh) RequestLogs) in
  let p1 := (handle_message_bytes toy_fresh 2 request).1 in
  handle_message_bytes p1 1 request = (p1, Ok tt).
Proof.
  assert (2 ∈ dk_participants (dp_config toy_fresh)) as H2
    by (apply elem_of_cons; right; apply elem_of_cons; by left).
  destruct (request_logs_once toy_fresh 2 1 [] (toy_digest _) H2) as [_ H]. exact H.
Defined.

(** A request of the same participants in another time slot. *)
Definition toy_replayed : list (PublicKey * bytes) :=
  [(2, to_bytes (message_new (ceremony_id (session_new 7 [1; 2] 1)) (@RequestLogs toy_lib)))].

Lemma replay_inert_witness :
  foldl deliver toy_fresh toy_replayed = toy_fresh.
Proof.
  destruct (replay_inert toy_config toy_config 0 1 toy_fresh [] toy_replayed)
    as [_ [H|H]]; [| | | | | |exact H|].
  - exact toy_fresh_new.
  - split; unfold in_width, len; simpl; repeat constructor; unfold in_width; lia.
  - split; unfold in_width, len; simpl; repeat constructor; unfold in_width; lia.
  - by right; right.
  - apply toy_digest.
  - constructor; [|constructor]. apply bound_to_message.
  - exfalso. revert H. vm_compute. discriminate.
Defined.
