(* ===== verification/DkgCeremony.v ===== *)
(** The ceremony around a participant: persisted state, output files, the
    network envelopes and the phases of a run (crates/node/dkg/src/state.rs,
    output.rs, network.rs, ceremony.rs, and the persistence of protocol.rs). *)
From S2P Require Import Prelude Bytes TxTypes Codec Block Dkg DkgParticipant.

(** The iteration of a [BTreeMap] with string keys. *)
Definition btree_str {A} (m : gmap string A) : list (string * A) :=
  sort_by (cmp_on fst String.compare) (map_to_list m).

(** ** Persisted state (state.rs) *)

Record SerializedSession := mkSerialized {
  ss_ceremony_id : string;
  ss_chain_id : u64;
  ss_round : u32;
}.

Record PersistedDkgState := mkPersisted {
  ps_phase : DkgPhase;
  ps_session : SerializedSession;
  ps_dealer_started : bool;
  ps_dealer_finalized : bool;
  ps_our_signed_log : option string;
  ps_received_logs : gmap string string;
  ps_timestamp : u64;
}.

(** ** Output files (output.rs) *)

Record OutputJson := mkOutputJson {
  oj_group_public_key : string;
  oj_public_polynomial : string;
  oj_threshold : u32;
  oj_participants : usize;
  oj_participant_keys : list string;
}.

Record ShareJson := mkShareJson { sj_index : u32; sj_secret : string }.

(** The files of the data directory, with their parsed contents. *)
Record Disk := mkDisk {
  state_file : option PersistedDkgState;
  output_file : option OutputJson;
  share_file : option ShareJson;
}.

(** One iteration of a waiting loop: its time in milliseconds and the bytes of
    the connections accepted in it. *)
Record Tick := mkTick { tk_now : Z; tk_streams : list bytes }.

Record Envelope := mkEnvelope { ev_from : PublicKey; ev_payload : bytes }.

Definition PHASE2_MAX_TIMEOUT_MS : Z := 120 * 1000.
Definition PHASE4_MAX_TIMEOUT_MS : Z := 120 * 1000.
Definition INITIAL_BACKOFF_MS : u64 := 100.
Definition MAX_BACKOFF_MS : u64 := 5000.

(** [ExponentialBackoff]: the delay and the next state. *)
Definition backoff_new : u64 := INITIAL_BACKOFF_MS.
Definition next_delay (current_ms : u64) : u64 * u64 :=
  (current_ms, Z.min (current_ms * 2) MAX_BACKOFF_MS).

Section ceremony.
Context `{LIB : DkgLib} `{SH : !Sha256}.

Definition serialize_session (s : CeremonySession) : SerializedSession :=
  mkSerialized (hex_encode (be_bytes 32 (ceremony_id s))) (cs_chain_id s) (cs_round s).

Definition deserialize_session (s : SerializedSession) : result CeremonySession DkgError :=
  let? id_bytes := map_err Serialization (hex_decode (ss_ceremony_id s)) in
  if negb (len id_bytes =? 32) then Err (Serialization "Invalid ceremony_id length")
  else Ok (mkSession (be_value id_bytes) (ss_chain_id s) (ss_round s)).

Definition persisted_new (s : CeremonySession) (timestamp : u64) : PersistedDkgState :=
  mkPersisted AwaitingStart (serialize_session s) false false None ∅ timestamp.

Definition persisted_session (st : PersistedDkgState) : result CeremonySession DkgError :=
  deserialize_session (ps_session st).

Definition set_our_signed_log (st : PersistedDkgState) (log_bytes : bytes) : PersistedDkgState :=
  mkPersisted (ps_phase st) (ps_session st) (ps_dealer_started st) (ps_dealer_finalized st)
    (Some (hex_encode log_bytes)) (ps_received_logs st) (ps_timestamp st).

Definition get_our_signed_log (st : PersistedDkgState) : option bytes :=
  s ← ps_our_signed_log st; ok (hex_decode s).

Definition add_received_log (st : PersistedDkgState) (pk_hex : string) (log_bytes : bytes)
    : PersistedDkgState :=
  mkPersisted (ps_phase st) (ps_session st) (ps_dealer_started st) (ps_dealer_finalized st)
    (ps_our_signed_log st) (<[pk_hex := hex_encode log_bytes]> (ps_received_logs st))
    (ps_timestamp st).

Definition get_received_logs (st : PersistedDkgState) : list (string * bytes) :=
  omap (fun e => b ← ok (hex_decode e.2); Some (e.1, b)) (btree_str (ps_received_logs st)).

Definition with_state (d : Disk) (st : option PersistedDkgState) : Disk :=
  mkDisk st (output_file d) (share_file d).

(** [DkgParticipant::save_state]. *)
Definition persist (p : DkgParticipant) : PersistedDkgState :=
  let st := mkPersisted (dp_current_phase p) (serialize_session (dp_session p))
              (is_some (dp_dealer p) || is_some (dp_our_signed_log p))
              (is_some (dp_our_signed_log p)) None ∅ (dp_timestamp_nanos p) in
  let st := match dp_our_signed_log p with
            | Some log => set_our_signed_log st (write_log log)
            | None => st
            end in
  foldl (fun st e => add_received_log st (hex_encode (be_bytes 32 e.1)) (write_log e.2)) st
    (btree (dp_signed_logs p)).

Definition save_state (p : DkgParticipant) (d : Disk) : Disk := with_state d (Some (persist p)).

(** A persisted log goes back if it decodes and verifies. *)
Definition restore_log (config : DkgConfig) (p : DkgParticipant) (log_bytes : bytes)
    : DkgParticipant * option SignedDealerLog :=
  match read_log (dk_t config) log_bytes with
  | Ok (log, _) =>
      match log_check (dp_info p) log with
      | Some (dealer_pk, dealer_log) => (add_log p dealer_pk dealer_log log, Some log)
      | None => (p, None)
      end
  | Err _ => (p, None)
  end.

Definition restore_our_log (config : DkgConfig) (st : PersistedDkgState) (p : DkgParticipant)
    : DkgParticipant :=
  if ps_dealer_finalized st then
    match get_our_signed_log st with
    | Some log_bytes =>
        match restore_log config p log_bytes with
        | (p, Some log) => with_our_log p (Some log)
        | (p, None) => p
        end
    | None => p
    end
  else p.

(** [DkgParticipant::try_restore]; a state of another session is cleared. *)
Definition try_restore (config : DkgConfig) (timestamp_nanos : u64) (d : Disk)
    : Disk * result (option DkgParticipant) DkgError :=
  match state_file d with
  | None => (d, Ok None)
  | Some st =>
      match persisted_session st with
      | Err e => (d, Err e)
      | Ok persisted =>
          let expected := session_new (dk_chain_id config) (dk_participants config) timestamp_nanos in
          if negb (ceremony_id persisted =? ceremony_id expected)
          then (with_state d None, Ok None)
          else
            match participant_new config timestamp_nanos with
            | Err e => (d, Err e)
            | Ok p =>
                let p := restore_our_log config st (set_phase p (ps_phase st)) in
                (d, Ok (Some (foldl (fun p e => (restore_log config p e.2).1) p
                                (get_received_logs st))))
            end
      end
  end.

(** [DkgOutput::save], [load] and [exists]. *)
Definition output_save (o : DkgOutput) (d : Disk) : Disk :=
  mkDisk (state_file d)
    (Some (mkOutputJson (hex_encode (group_public_key o)) (hex_encode (public_polynomial o))
             (do_threshold o) (do_participants o) (hex_encode <$> participant_keys o)))
    (Some (mkShareJson (do_share_index o) (hex_encode (share_secret o)))).

Fixpoint decode_keys (keys : list string) : result (list bytes) DkgError :=
  match keys with
  | [] => Ok []
  | k :: keys =>
      let? b := map_err Serialization (hex_decode k) in
      let? l := decode_keys keys in
      Ok (b :: l)
  end.

Definition output_load (d : Disk) : result DkgOutput DkgError :=
  let? output := ok_or (output_file d) (DkgIo "output.json") in
  let? share := ok_or (share_file d) (DkgIo "share.key") in
  let? keys := decode_keys (oj_participant_keys output) in
  let correct_threshold := quorum (oj_participants output) in
  let? group_key := map_err Serialization (hex_decode (oj_group_public_key output)) in
  let? polynomial := map_err Serialization (hex_decode (oj_public_polynomial output)) in
  let? secret := map_err Serialization (hex_decode (sj_secret share)) in
  Ok (mkDkgOutput group_key polynomial correct_threshold (oj_participants output)
        (sj_index share) secret keys).

Definition output_exists (d : Disk) : bool := is_some (output_file d) && is_some (share_file d).

(** ** Network (network.rs) *)

Definition known_peer (config : DkgConfig) (pk : PublicKey) : bool :=
  bool_decide (pk ∈ (bootstrap_peers config).*1).

(** The bytes written on a connection. *)
Definition envelope_bytes (config : DkgConfig) (msg : ProtocolMessage) : bytes :=
  write_pk (my_public_key config) ++ le_bytes 4 (len (to_bytes msg)) ++ to_bytes msg.

(** The connections that a send and a broadcast open. *)
Definition send_to (config : DkgConfig) (to : PublicKey) (msg : ProtocolMessage)
    : list (PublicKey * bytes) :=
  if known_peer config to then [(to, envelope_bytes config msg)] else [].

Definition broadcast (config : DkgConfig) (msg : ProtocolMessage) : list (PublicKey * bytes) :=
  pk ← dk_participants config;
  if pk =? my_public_key config then [] else send_to config pk msg.

(** The sender, the length (at most one megabyte) and the payload of a
    connection. *)
Definition read_envelope (stream : bytes) : option Envelope :=
  if (length stream <? 32)%nat then None
  else
    '(from, _) ← ok (read_pk (take 32 stream));
    let stream := drop 32 stream in
    if (length stream <? 4)%nat then None
    else
      let n := le_value (take 4 stream) in
      let stream := drop 4 stream in
      if 1024 * 1024 <? n then None
      else if len stream <? n then None
      else Some (mkEnvelope from (take (Z.to_nat n) stream)).

Definition poll_incoming (streams : list bytes) : list Envelope := omap read_envelope streams.

Definition net_max_degree (config : DkgConfig) : u32 :=
  let n := dk_n config in n - (n - 1) `div` 3.

(** ** The phases (ceremony.rs) *)

Definition is_leader (config : DkgConfig) : bool := validator_index config =? 0.

(** What a run has done so far: the participant and the connections opened. *)
Abbreviation Progress := (DkgParticipant * list (PublicKey * bytes))%type.

Definition send_outgoing (config : DkgConfig) (s : Progress) : Progress :=
  let (p, msgs) := take_outgoing s.1 in
  (p, s.2 ++ (m ← msgs;
              match m.1 with
              | Some pk => send_to config pk m.2
              | None => broadcast config m.2
              end)).

Definition receive_and_process (streams : list bytes) (s : Progress) : Progress :=
  (foldl (fun p e => (handle_message_bytes p (ev_from e) (ev_payload e)).1) s.1
     (poll_incoming streams), s.2).

(** A waiting loop: until [finished] holds or the deadline has passed; [idle]
    is what an iteration does before it sleeps.  The iterations that are left
    are those of the phases that follow. *)
Fixpoint wait_loop (config : DkgConfig) (finished : DkgParticipant -> bool)
    (idle : Z -> Z -> Progress -> Z * Progress) (error : DkgError)
    (deadline last_request : Z) (ticks : list Tick) (s : Progress)
    : Progress * list Tick * result unit DkgError :=
  match ticks with
  | [] => (s, [], Err error)
  | tick :: ticks =>
      if deadline <=? tk_now tick then (s, tick :: ticks, Err error)
      else
        let s := send_outgoing config (receive_and_process (tk_streams tick) s) in
        if finished s.1 then (s, ticks, Ok tt)
        else
          let (last_request, s) := idle (tk_now tick) last_request s in
          wait_loop config finished idle error deadline last_request ticks s
  end.

(** A loop starts at the time of its first iteration. *)
Definition loop_start (ticks : list Tick) : Z :=
  match ticks with [] => 0 | tick :: _ => tk_now tick end.

Definition no_idle (_ last_request : Z) (s : Progress) : Z * Progress := (last_request, s).

Definition phase2_done (p : DkgParticipant) : bool :=
  (required_dealer_logs p <=? received_dealer_count p)
  && (required_dealer_logs p <=? acks_sent_count p).

Definition run_phase2 (config : DkgConfig) (ticks : list Tick) (s : Progress)
    : Progress * list Tick * result unit DkgError :=
  wait_loop config phase2_done no_idle DkgTimeout
    (loop_start ticks + PHASE2_MAX_TIMEOUT_MS) 0 ticks s.

Definition run_phase2_ready (config : DkgConfig) (ticks : list Tick) (s : Progress)
    : Progress * list Tick * result unit DkgError :=
  let s := send_outgoing config (broadcast_ready s.1, s.2) in
  wait_loop config all_ready no_idle (CeremonyFailed "Phase 2.5 timeout")
    (loop_start ticks + PHASE2_MAX_TIMEOUT_MS) 0 ticks s.

Definition run_phase3 (config : DkgConfig) (s : Progress) : Progress * result unit DkgError :=
  match finalize_dealer s.1 with
  | (p, Err e) => ((p, s.2), Err e)
  | (p, Ok _) => (send_outgoing config (p, s.2), Ok tt)
  end.

(** A request to the leader at most every five seconds. *)
Definition request_logs (config : DkgConfig) (now last_request : Z) (s : Progress) : Z * Progress :=
  if negb (is_leader config) && (dealer_log_count s.1 <? required_dealer_logs s.1)
     && (5000 <=? now - last_request)
  then
    match head (dk_participants config) with
    | Some leader_pk =>
        (now, (s.1, s.2 ++ send_to config leader_pk
                             (message_new (dp_ceremony_id s.1) RequestLogs)))
    | None => (last_request, s)
    end
  else (last_request, s).

Definition run_phase4 (config : DkgConfig) (ticks : list Tick) (s : Progress)
    : Progress * list Tick * result unit DkgError :=
  wait_loop config can_finalize (request_logs config) (CeremonyFailed "Phase 4 timeout")
    (loop_start ticks + PHASE4_MAX_TIMEOUT_MS) (loop_start ticks - 10000) ticks s.

(** What the world supplies to a run: the clock, randomness, and the
    iterations of its waiting loops. *)
Record World := mkWorld {
  w_now_nanos : u64;
  w_rng_deal : Rng;
  w_rng_final : Rng;
  w_ticks : list Tick;
}.

(** The clock rounded down to five minutes. *)
Definition ceremony_timestamp (now : u64) : u64 :=
  let interval := 5 * 60 * 1000000000 in now `div` interval * interval.

Definition skip_phase1 (restored : option DkgPhase) : bool :=
  match restored with
  | Some (DealerStarted | CollectingMessages | DealerFinalized | CollectingLogs) => true
  | _ => false
  end.
Definition skip_phase3 (restored : option DkgPhase) : bool :=
  match restored with Some (DealerFinalized | CollectingLogs) => true | _ => false end.

(** The participant a run starts with, and its phase if it was restored. *)
Definition obtain_participant (config : DkgConfig) (t : u64) (d : Disk)
    : Disk * result (DkgParticipant * option DkgPhase) DkgError :=
  match try_restore config t d with
  | (d, Err e) => (d, Err e)
  | (d, Ok (Some p)) => (d, Ok (p, Some (dp_current_phase p)))
  | (d, Ok None) =>
      match participant_new config t with
      | Ok p => (d, Ok (p, None))
      | Err e => (d, Err e)
      end
  end.

(** Phases 4 and 5. *)
Definition run_final (config : DkgConfig) (w : World) (ticks : list Tick) (d : Disk) (s : Progress)
    : Disk * list (PublicKey * bytes) * result DkgOutput DkgError :=
  let s := (set_phase s.1 CollectingLogs, s.2) in
  let d := save_state s.1 d in
  match run_phase4 config ticks s with
  | (s, _, Err e) => (d, s.2, Err e)
  | (s, _, Ok _) =>
      let d := save_state s.1 d in
      match finalize s.1 (w_rng_final w) with
      | (p, Err e) => (save_state (set_phase p Failed) d, s.2, Err e)
      | (p, Ok output) => (output_save output (with_state d None), s.2, Ok output)
      end
  end.

(** Phases 2.5 and 3. *)
Definition run_middle (config : DkgConfig) (w : World) (ticks : list Tick) (d : Disk) (s : Progress)
    : Disk * list (PublicKey * bytes) * result DkgOutput DkgError :=
  match run_phase2_ready config ticks s with
  | (s, _, Err e) => (d, s.2, Err e)
  | (s, ticks, Ok _) =>
      match run_phase3 config s with
      | (s, Err e) => (d, s.2, Err e)
      | (s, Ok _) =>
          let s := (set_phase s.1 DealerFinalized, s.2) in
          run_final config w ticks (save_state s.1 d) s
      end
  end.

(** Phase 2 and what follows. *)
Definition run_collect (config : DkgConfig) (w : World) (restored : option DkgPhase) (d : Disk)
    (s : Progress) : Disk * list (PublicKey * bytes) * result DkgOutput DkgError :=
  let s := (set_phase s.1 CollectingMessages, s.2) in
  let d := save_state s.1 d in
  match run_phase2 config (w_ticks w) s with
  | (s, _, Err e) => (d, s.2, Err e)
  | (s, ticks, Ok _) =>
      if skip_phase3 restored then run_final config w ticks d s else run_middle config w ticks d s
  end.

Definition ceremony_run (config : DkgConfig) (force_restart : bool) (w : World) (d : Disk)
    : Disk * list (PublicKey * bytes) * result DkgOutput DkgError :=
  if output_exists d then (d, [], output_load d)
  else
    let d := if force_restart then with_state d None else d in
    match obtain_participant config (ceremony_timestamp (w_now_nanos w)) d with
    | (d, Err e) => (d, [], Err e)
    | (d, Ok (p, restored)) =>
        if skip_phase1 restored then run_collect config w restored d (p, [])
        else
          match start_dealer p (w_rng_deal w) with
          | (_, Err e) => (d, [], Err e)
          | (p, Ok _) =>
              let p := set_phase p DealerStarted in
              let d := save_state p d in
              run_collect config w restored d (send_outgoing config (p, []))
          end
    end.

End ceremony.
