(* ===== verification/DkgRestart.v ===== *)
(** A key generation that is restarted in its time slot: the persisted state is
    restored, and the run times out in phase 2. *)
From S2P Require Import Prelude Bytes TxTypes Codec Block Dkg DkgParticipant DkgCeremony.

Section restart.
Context `{LIB : DkgLib} `{SH : !Sha256} `{LAWS : !DkgLaws}.
Implicit Types p : DkgParticipant.

(** ** Definitions *)

Definition dealing_kind (k : ProtocolMessageKind) : bool :=
  match k with DealerPublic _ _ | DealerPrivate _ _ => true | _ => false end.

(** The envelope is not a dealer message in our own name. *)
Definition not_own_dealing (config : DkgConfig) (e : Envelope) : Prop :=
  ev_from e = my_public_key config ->
  match from_bytes (ev_payload e) (dk_n config) with
  | Ok m => dealing_kind (kind m) = false
  | Err _ => True
  end.

Definition no_own_dealing (config : DkgConfig) (ticks : list Tick) : Prop :=
  Forall (fun tick => Forall (not_own_dealing config) (poll_incoming (tk_streams tick))) ticks.

(** A participant that does not hold its own dealing. *)
Record undealt (config : DkgConfig) p : Prop := {
  un_inv : participant_inv p;
  un_config : dp_config p = config;
  un_pub : dp_dealer_pub_msgs p !! my_public_key config = None;
}.

(** ** Lemmas *)

Lemma process_pub p d :
  dp_dealer_pub_msgs (try_process_dealer_messages p d) = dp_dealer_pub_msgs p.
Proof.
  unfold try_process_dealer_messages. destruct (dp_dealer_pub_msgs p !! d); [|done].
  destruct (dp_dealer_priv_msgs p !! d); [|done]. destruct (dp_player p); [|done].
  by destruct (dealer_message _ _ _ _) as [? []].
Qed.

Lemma all_logs_pub p logs : dp_dealer_pub_msgs (handle_all_logs p logs) = dp_dealer_pub_msgs p.
Proof.
  revert p. induction logs as [|[k log] logs IH]; intros p; [done|]. cbn [handle_all_logs].
  destruct (log_check _ _) as [[pk dl]|]; [|apply IH]. destruct (negb _); [apply IH|].
  destruct (_ <=? _); [done|]. destruct (is_some _); [apply IH|]. by rewrite IH.
Qed.

(** Only a public message of a dealer changes the public messages, at its key. *)
Lemma message_pub p from msg :
  dp_dealer_pub_msgs (handle_message p from msg).1 = dp_dealer_pub_msgs p
  \/ exists m, kind msg = DealerPublic from m
     /\ dp_dealer_pub_msgs (handle_message p from msg).1 = <[from := m]> (dp_dealer_pub_msgs p).
Proof.
  unfold handle_message. destruct (negb _); [by left|].
  destruct (kind msg) as [d m|d m|pl d a|log| |logs|pl].
  - destruct (check_dealer _ _ _ _) as [[]|] eqn:E; [|by left].
    apply check_dealer_ok in E as [<- _]. right. exists m. split; [done|].
    cbn [fst]. by rewrite process_pub.
  - left. destruct (check_dealer _ _ _ _) as [[]|]; [|done]. cbn [fst]. by rewrite process_pub.
  - left. destruct (negb _); [done|]. unfold handle_ack. cbn [fst].
    destruct (dp_dealer p); [|done]. by destruct (d =? _).
  - left. unfold handle_dealer_log. destruct (log_check _ _) as [[]|]; [|done].
    destruct (negb _); [done|]. destruct (_ <=? _); [done|]. by destruct (is_some _).
  - by left.
  - left. destruct (negb _); [done|]. apply all_logs_pub.
  - left. by destruct (negb _).
Qed.

Lemma undealt_deliver config p e :
  undealt config p -> not_own_dealing config e ->
  undealt config (handle_message_bytes p (ev_from e) (ev_payload e)).1.
Proof.
  intros [Hi Hc Hp] He. split.
  - by apply inv_bytes.
  - by rewrite (kp_config _ _ (keeps_bytes _ _ _)).
  - unfold handle_message_bytes. destruct (bool_decide _); [done|]. rewrite Hc.
    unfold not_own_dealing in He. destruct (from_bytes _ _) as [m|]; [|done].
    assert (forall q, dp_dealer_pub_msgs q = dp_dealer_pub_msgs p ->
      dp_dealer_pub_msgs (handle_message q (ev_from e) m).1 !! my_public_key config = None) as Hq.
    { intros q Hq. destruct (message_pub q (ev_from e) m) as [->|(v & Hk & ->)]; [by rewrite Hq|].
      rewrite Hq. destruct (decide (ev_from e = my_public_key config)) as [E|E].
      - specialize (He E). by rewrite Hk in He.
      - by rewrite lookup_insert_ne. }
    destruct (session_id m); [destruct (negb _); [done|]|]; by apply Hq.
Qed.

Lemma undealt_receive config p es :
  undealt config p -> Forall (not_own_dealing config) es ->
  undealt config
    (foldl (fun p e => (handle_message_bytes p (ev_from e) (ev_payload e)).1) p es).
Proof.
  intros H Hes. revert p H. induction Hes as [|e es He _ IH]; intros p H; [done|].
  by apply IH, undealt_deliver.
Qed.

Lemma undealt_not_done config p :
  undealt config p -> my_public_key config ∈ dk_participants config -> phase2_done p = false.
Proof using LAWS.
  intros [Hi Hc Hp] Hme. apply andb_false_iff. left. apply not_true_is_false. intros Hd.
  destruct (inv_counts _ Hi) as (_ & _ & _ & H). unfold required_dealer_logs in Hd.
  rewrite Hc in H. destruct (proj1 H Hd _ Hme) as [[m Hm] _]. congruence.
Qed.

Lemma undealt_loop config deadline last ticks (s : DkgParticipant * list (PublicKey * bytes)) :
  undealt config s.1 -> my_public_key config ∈ dk_participants config ->
  no_own_dealing config ticks ->
  (wait_loop config phase2_done no_idle DkgTimeout deadline last ticks s).2
  = Err DkgTimeout.
Proof using LAWS.
  intros H Hme Ht. revert s H. induction Ht as [|tick ticks Hk _ IH]; intros s H; [done|].
  cbn [wait_loop]. destruct (_ <=? _); [done|].
  assert (undealt config (send_outgoing config (receive_and_process (tk_streams tick) s)).1) as Hs.
  { destruct (undealt_receive config s.1 _ H Hk) as [Hi Hc Hp].
    split; [|done|done]. by apply inv_outgoing. }
  rewrite (undealt_not_done config) by done. cbn [no_idle]. by apply IH.
Qed.

(** ** What is restored *)

Lemma undealt_restore_log config p b :
  undealt config p -> undealt config (restore_log config p b).1.
Proof.
  intros [Hi Hc Hp]. unfold restore_log. destruct (read_log _ _) as [[log r]|]; [|done].
  destruct (log_check _ _) as [[pk dl]|] eqn:E; [|done]. split; [|done|done]. by apply inv_add_log.
Qed.

Lemma undealt_restore_logs config p (l : list (string * bytes)) :
  undealt config p -> undealt config (foldl (fun p e => (restore_log config p e.2).1) p l).
Proof.
  revert p. induction l as [|e l IH]; intros p H; [done|]. by apply IH, undealt_restore_log.
Qed.

Lemma undealt_restore_own config st p :
  undealt config p -> undealt config (restore_our_log config st p).
Proof.
  intros H. unfold restore_our_log. destruct (ps_dealer_finalized st); [|done].
  destruct (get_our_signed_log st) as [b|]; [|done].
  pose proof (undealt_restore_log config p b H) as H1.
  destruct (restore_log config p b) as [q [log|]]; [|done].
  destruct H1 as [Hi Hc Hp]. split; [|done|done]. by apply inv_our_log.
Qed.

Lemma undealt_new config t p :
  participant_new config t = Ok p -> my_public_key config ∈ dk_participants config ->
  undealt config p.
Proof.
  intros Hn Hme. split; [by eapply inv_new| |]; unfold participant_new in Hn;
    by case_code; simplify_eq/=.
Qed.

Lemma restore_phase config p (b : bytes) :
  dp_current_phase (restore_log config p b).1 = dp_current_phase p.
Proof.
  unfold restore_log. destruct (read_log _ _) as [[log r]|]; [|done].
  by destruct (log_check _ _) as [[pk dl]|].
Qed.

Lemma restore_logs_phase config p (l : list (string * bytes)) :
  dp_current_phase (foldl (fun p e => (restore_log config p e.2).1) p l) = dp_current_phase p.
Proof.
  revert p. induction l as [|e l IH]; intros p; [done|]. cbn [foldl]. by rewrite IH, restore_phase.
Qed.

Lemma restore_own_phase config st p :
  dp_current_phase (restore_our_log config st p) = dp_current_phase p.
Proof.
  unfold restore_our_log. destruct (ps_dealer_finalized st); [|done].
  destruct (get_our_signed_log st) as [b|]; [|done]. pose proof (restore_phase config p b) as H.
  by destruct (restore_log config p b) as [q [log|]].
Qed.

(** The persisted state keeps phase and session. *)
Lemma persist_fields p :
  ps_phase (persist p) = dp_current_phase p
  /\ ps_session (persist p) = serialize_session (dp_session p).
Proof.
  unfold persist. set (f := fun st e => add_received_log st _ _).
  assert (forall l st, ps_phase (foldl f st l) = ps_phase st
    /\ ps_session (foldl f st l) = ps_session st) as H.
  { intros l. induction l as [|e l IH]; intros st; [done|]. cbn [foldl]. by destruct (IH (f st e)) as [-> ->]. }
  destruct (H (btree (dp_signed_logs p))
    (match dp_our_signed_log p with
     | Some log => set_our_signed_log (mkPersisted (dp_current_phase p)
         (serialize_session (dp_session p)) (is_some (dp_dealer p) || is_some (dp_our_signed_log p))
         (is_some (dp_our_signed_log p)) None ∅ (dp_timestamp_nanos p)) (write_log log)
     | None => mkPersisted (dp_current_phase p)
         (serialize_session (dp_session p)) (is_some (dp_dealer p) || is_some (dp_our_signed_log p))
         (is_some (dp_our_signed_log p)) None ∅ (dp_timestamp_nanos p)
     end)) as [-> ->]. by destruct (dp_our_signed_log p).
Qed.

Lemma session_serialized s :
  in_width 256 (ceremony_id s) -> deserialize_session (serialize_session s) = Ok s.
Proof using LAWS.
  intros H. unfold deserialize_session, serialize_session. cbn [ss_ceremony_id ss_chain_id ss_round].
  rewrite hex_law by apply be_bytes_ok. cbn [map_err]. rewrite be_bytes_len. cbn.
  rewrite be_value_bytes_id by (by eapply in_width_bytes). by destruct s.
Qed.

(** Restoring the saved state of a participant in the same time slot. *)
Lemma restore_saved config t p0 p d :
  participant_new config t = Ok p0 -> dp_session p = dp_session p0 ->
  in_width 256 (dp_ceremony_id p) -> my_public_key config ∈ dk_participants config ->
  exists q, try_restore config t (save_state p d) = (save_state p d, Ok (Some q))
    /\ undealt config q /\ dp_current_phase q = dp_current_phase p.
Proof using LAWS.
  intros Hnew Hs Hw Hme. destruct (persist_fields p) as [Hph Hse].
  unfold try_restore. cbn [state_file save_state with_state]. unfold persisted_session.
  rewrite Hse, session_serialized by done.
  assert (session_new (dk_chain_id config) (dk_participants config) t = dp_session p) as ->.
  { rewrite Hs. clear -Hnew. unfold participant_new in Hnew. by case_code; simplify_eq/=. }
  rewrite Z.eqb_refl. cbn [negb]. rewrite Hnew. eexists. split; [reflexivity|]. split.
  - apply undealt_restore_logs, undealt_restore_own. destruct (undealt_new config t p0 Hnew Hme).
    split; [|done|done]. by apply inv_phase.
  - rewrite restore_logs_phase, restore_own_phase. cbn [dp_current_phase set_phase]. done.
Qed.

(** C19: A ceremony that is interrupted after phase 1 and started again in the
    same time slot, on the state it saved, restores that state and then always
    times out in phase 2, from every phase: its own dealing is not persisted
    and nobody sends it again. *)
Theorem restart_times_out (config : DkgConfig) (w : World) p0 p (ops : list DkgOp) (d : Disk)
    (Hnew : participant_new config (ceremony_timestamp (w_now_nanos w)) = Ok p0)
    (Hp : p = foldl dkg_apply p0 ops)
    (Hphase : skip_phase1 (Some (dp_current_phase p)) = true)
    (Hme : my_public_key config ∈ dk_participants config)
    (Hdigest : forall b, in_width 256 (sha256 b))
    (Hout : output_exists d = false)
    (Hself : no_own_dealing config (w_ticks w)) :
  (ceremony_run config false w (save_state p d)).2 = Err DkgTimeout.
Proof using LAWS.
  assert (dp_session p = dp_session p0) as Hs by (subst p; apply (kp_session _ _ (keeps_run p0 ops))).
  assert (in_width 256 (dp_ceremony_id p)) as Hw.
  { unfold dp_ceremony_id. rewrite Hs. clear -Hnew Hdigest. unfold participant_new in Hnew.
    case_code; simplify_eq/=. apply Hdigest. }
  destruct (restore_saved config _ p0 p d Hnew Hs Hw Hme) as (q & Hr & Hq & Hph).
  unfold ceremony_run. replace (output_exists (save_state p d)) with false by done.
  unfold obtain_participant. rewrite Hr, Hph, Hphase. unfold run_collect, run_phase2.
  pose proof (undealt_loop config (loop_start (w_ticks w) + PHASE2_MAX_TIMEOUT_MS) 0 (w_ticks w)
    (set_phase q CollectingMessages, [])) as Hl. cbn [fst snd] in *.
  destruct (wait_loop _ _ _ _ _ _ _ _) as [[s rest] r]. cbn [snd] in Hl. rewrite Hl; [done| |done|done].
  destruct Hq as [Hi Hc Hpub]. split; [|done|done]. by apply inv_phase.
Qed.

End restart.

(** ** A witness: two participants, interrupted while collecting *)

#[local] Existing Instance toy_sha.

Definition toy_world : @World toy_lib :=
  mkWorld 0 (5 : @Rng toy_lib) (6 : @Rng toy_lib) [mkTick 1 []; mkTick 2 []].
Definition toy_ops : list (@DkgOp toy_lib) :=
  [OpStart (5 : @Rng toy_lib); OpPhase DealerStarted; OpTake; OpPhase CollectingMessages].

Lemma restart_times_out_witness :
  (ceremony_run toy_config false toy_world
     (save_state (foldl dkg_apply toy_fresh toy_ops) (mkDisk None None None))).2 = Err DkgTimeout.
Proof.
  apply (restart_times_out toy_config toy_world toy_fresh _ toy_ops).
  - exact toy_fresh_new.
  - reflexivity.
  - reflexivity.
  - apply elem_of_cons. by left.
  - intros b. apply Z.mod_pos_bound. lia.
  - reflexivity.
  - repeat constructor.
Defined.
