(* ===== verification/DkgLive.v ===== *)
(** A key generation among honest participants whose messages arrive in time
    runs through all its phases and leaves its output on disk. *)
From S2P Require Import Prelude Bytes TxTypes Codec Block Dkg DkgParticipant DkgCeremony.
From S2P Require Import DkgRestart.

Section live.
Context `{LIB : DkgLib} `{SH : !Sha256} `{LAWS : !DkgLaws}.
Implicit Types p q : DkgParticipant.

(** ** Honest peers *)

(** What the participants deal, the acknowledgements of our dealing and the
    logs of the others; [ackers] are the participants whose acknowledgement
    reaches us, each before the readiness of its [gate]. *)
Variables (pubs : PublicKey -> DealerPubMsg) (privs : PublicKey -> DealerPrivMsg)
  (logs : PublicKey -> SignedDealerLog) (acks : PublicKey -> PlayerAck)
  (ackers : list PublicKey) (gate : PublicKey -> PublicKey).

Definition honest_kinds (d : PublicKey) : list ProtocolMessageKind :=
  [DealerPublic d (pubs d); DealerPrivate d (privs d); Ready d; DealerLogMsg (logs d)].

Definition ack_kind (config : DkgConfig) (d : PublicKey) : ProtocolMessageKind :=
  PlayerAckMsg d (my_public_key config) (acks d).

(** Message [k] is due from participant [d]. *)
Definition due (config : DkgConfig) (d : PublicKey) (k : ProtocolMessageKind) : Prop :=
  d ∈ dk_participants config
  /\ (d <> my_public_key config /\ k ∈ honest_kinds d \/ d ∈ ackers /\ k = ack_kind config d).

Definition payload (sid : B256) (k : ProtocolMessageKind) : bytes := to_bytes (message_new sid k).

(** The peers deal consistently, acknowledge our dealing, their logs pass the
    validation, and their messages can be encoded; a quorum acknowledges. *)
Record peers_honest (config : DkgConfig) (i : Info) : Prop := {
  ph_dealt d : d ∈ dk_participants config -> d <> my_public_key config ->
    dealt i (my_public_key config) d (pubs d) (privs d);
  ph_log d : d ∈ dk_participants config -> d <> my_public_key config ->
    exists dl, log_check i (logs d) = Some (d, dl) /\ log_good i dl;
  ph_ok d k : due config d k -> kind_ok (dk_n config) k;
  ph_ack d : d ∈ ackers -> d ∈ dk_participants config
    /\ ack_valid i (my_public_key config) (pubs (my_public_key config)) d (acks d);
  ph_gate d : d ∈ ackers -> gate d ∈ dk_participants config /\ gate d <> my_public_key config;
  ph_nodup : NoDup ackers;
  ph_quorum : dk_t config <= len ackers;
}.

(** The logs a message carries. *)
Definition logs_in (k : ProtocolMessageKind) : list SignedDealerLog :=
  match k with DealerLogMsg l => [l] | AllLogs ls => ls.*2 | _ => [] end.

Definition carries_good (i : Info) (k : ProtocolMessageKind) : Prop :=
  forall l pk dl, l ∈ logs_in k -> log_check i l = Some (pk, dl) -> log_good i dl.

(** An envelope is one that is due, or does not deal and carries no signed log
    that fails the validation; and its payload does not collide with one that is
    due. *)
Record envelope_ok (config : DkgConfig) (i : Info) (sid : B256) (e : Envelope) : Prop := {
  eo_due : (exists k, due config (ev_from e) k /\ ev_payload e = payload sid k)
    \/ ((forall d k, due config d k -> ev_payload e <> payload sid k)
        /\ match from_bytes (ev_payload e) (dk_n config) with
           | Ok m => dealing_kind (kind m) = false /\ carries_good i (kind m)
           | Err _ => True
           end);
  eo_hash d k : due config d k -> sha256 (ev_payload e) = sha256 (payload sid k) ->
    ev_payload e = payload sid k;
}.

Definition ticks_ok (config : DkgConfig) (i : Info) (sid : B256) (ticks : list Tick) : Prop :=
  Forall (fun t => Forall (envelope_ok config i sid) (poll_incoming (tk_streams t))) ticks.

Definition delivered (sid : B256) (d : PublicKey) (k : ProtocolMessageKind) (ticks : list Tick) : Prop :=
  exists t, t ∈ ticks /\ mkEnvelope d (payload sid k) ∈ poll_incoming (tk_streams t).

(** All envelopes, in the order of their arrival. *)
Definition envelopes (ticks : list Tick) : list Envelope :=
  t ← ticks; poll_incoming (tk_streams t).

(** The envelope signals the readiness of [d]. *)
Definition readies (config : DkgConfig) (e : Envelope) (d : PublicKey) : Prop :=
  ev_from e = d /\ exists m, from_bytes (ev_payload e) (dk_n config) = Ok m /\ kind m = Ready d.

(** What a message that is due leaves with the receiver; an acknowledgement is
    recorded as long as the dealer is open. *)
Definition effect p (d : PublicKey) (k : ProtocolMessageKind) : Prop :=
  match k with
  | DealerPublic _ m => dp_dealer_pub_msgs p !! d = Some m
  | DealerPrivate _ m => dp_dealer_priv_msgs p !! d = Some m
  | Ready _ => d ∈ dp_ready_players p
  | DealerLogMsg _ => is_Some (dp_dealer_logs p !! d)
  | PlayerAckMsg _ _ _ => forall dl, dp_dealer p = Some dl -> dealer_acked dl d
  | _ => True
  end.

(** Each acknowledgement that is not in yet comes before the readiness of its
    gate. *)
Definition acks_first (config : DkgConfig) (sid : B256) p (es : list Envelope) : Prop :=
  forall a pre e post, a ∈ ackers -> es = pre ++ e :: post -> readies config e (gate a) ->
    effect p a (ack_kind config a) \/ mkEnvelope a (payload sid (ack_kind config a)) ∈ pre.

(** The logs that are kept. *)
Definition logs_ok (config : DkgConfig) (i : Info) p : Prop :=
  forall d dl, dp_dealer_logs p !! d = Some dl -> d ∈ dk_participants config /\ log_good i dl.

(** A participant that runs; [dealer] says whether its dealer is still open,
    [acked] for which dealers both messages are known to be acknowledged. *)
Record core (config : DkgConfig) (i : Info) (sid : B256) (dealer : bool)
    (acked : PublicKey -> Prop) p : Prop := {
  ru_inv : participant_inv p;
  ru_config : dp_config p = config;
  ru_info : dp_info p = i;
  ru_sid : dp_ceremony_id p = sid;
  ru_player : exists pl, dp_player p = Some pl /\ holds i (my_public_key config) pl
    /\ forall d, d ∈ dp_acks_sent p -> took pl d;
  ru_open : dealer = true -> is_Some (dp_dealer p);
  ru_dealer d : dp_dealer p = Some d ->
    dealing i (my_public_key config) (pubs (my_public_key config)) d;
  ru_logs : logs_ok config i p;
  ru_fresh : dp_finalized p = false;
  ru_own : my_public_key config ∈ dp_acks_sent p;
  ru_sent : dp_sent_ready p = true -> my_public_key config ∈ dp_ready_players p;
  ru_pub d m : d <> my_public_key config -> dp_dealer_pub_msgs p !! d = Some m -> m = pubs d;
  ru_priv d m : d <> my_public_key config -> dp_dealer_priv_msgs p !! d = Some m -> m = privs d;
  ru_acks d : acked d ->
    is_Some (dp_dealer_pub_msgs p !! d) -> is_Some (dp_dealer_priv_msgs p !! d) ->
    d ∈ dp_acks_sent p;
}.

Definition everyone (_ : PublicKey) : Prop := True.

(** What was seen has had its effect. *)
Definition seen_ok (config : DkgConfig) (sid : B256) p : Prop :=
  forall d k, due config d k -> sha256 (payload sid k) ∈ dp_seen_messages p -> effect p d k.

(** Whoever is ready has let the acknowledgements it is the gate of pass. *)
Definition barrier (config : DkgConfig) p : Prop :=
  forall a, a ∈ ackers -> gate a ∈ dp_ready_players p -> gate a <> my_public_key config ->
    effect p a (ack_kind config a).

(** Nothing is lost. *)
Record grows p q : Prop := {
  gr_pub : dp_dealer_pub_msgs p ⊆ dp_dealer_pub_msgs q;
  gr_priv : dp_dealer_priv_msgs p ⊆ dp_dealer_priv_msgs q;
  gr_logs : dom (dp_dealer_logs p) ⊆ dom (dp_dealer_logs q);
  gr_ready : dp_ready_players p ⊆ dp_ready_players q;
  gr_sent : dp_acks_sent p ⊆ dp_acks_sent q;
  gr_dealer d' : dp_dealer q = Some d' ->
    exists d, dp_dealer p = Some d /\ forall a, dealer_acked d a -> dealer_acked d' a;
}.

#[local] Instance grows_preorder : PreOrder grows.
Proof.
  split; [constructor; eauto|]. intros p q r [] []. constructor; try by etrans.
  intros d2 (d1 & H1 & Ha)%gr_dealer1. destruct (gr_dealer0 _ H1) as (d & Hd & Hb). exists d. split; [done|]. auto.
Qed.

Lemma effect_grows p q d k : grows p q -> effect p d k -> effect q d k.
Proof.
  intros []. destruct k; cbn [effect]; try done.
  - intros H. by eapply lookup_weaken.
  - intros H. by eapply lookup_weaken.
  - intros H dl (d0 & H0 & Ha)%gr_dealer0. by apply Ha, H.
  - intros H%elem_of_dom. by apply elem_of_dom, gr_logs0.
  - intros H. by apply gr_ready0.
Qed.

(** ** One message *)

(** What messages that do not deal leave alone. *)
Record frames p q : Prop := {
  fr_pub : dp_dealer_pub_msgs q = dp_dealer_pub_msgs p;
  fr_priv : dp_dealer_priv_msgs q = dp_dealer_priv_msgs p;
  fr_player : dp_player q = dp_player p;
  fr_acks : dp_acks_sent q = dp_acks_sent p;
  fr_finalized : dp_finalized q = dp_finalized p;
  fr_sent : dp_sent_ready q = dp_sent_ready p;
  fr_seen : dp_seen_messages q = dp_seen_messages p;
  fr_logs : dom (dp_dealer_logs p) ⊆ dom (dp_dealer_logs q);
  fr_ready : dp_ready_players p ⊆ dp_ready_players q;
}.

#[local] Instance frames_preorder : PreOrder frames.
Proof. split; [by constructor|]. intros p q r [] []. constructor; solve [congruence|by etrans]. Qed.

(** The acknowledgements of a dealer that is still open. *)
Definition dealer_grows p q : Prop :=
  forall d', dp_dealer q = Some d' ->
    exists d, dp_dealer p = Some d /\ forall a, dealer_acked d a -> dealer_acked d' a.

Lemma frames_grows p q : frames p q -> dealer_grows p q -> grows p q.
Proof.
  intros H Hd. constructor; [by rewrite (fr_pub _ _ H)|by rewrite (fr_priv _ _ H)|apply H|apply H| |exact Hd].
  by rewrite (fr_acks _ _ H).
Qed.

Lemma message_grows p from msg : dealer_grows p (handle_message p from msg).1.
Proof using LAWS.
  intros d' Hd'. destruct (message_dealer_cases p from msg) as [E|(d & pl & a & E0 & E)]; rewrite E in Hd'.
  - by exists d'.
  - injection Hd' as <-. exists d. split; [done|]. intros x. apply receive_ack_keeps.
Qed.

Lemma frames_add_log p d dl l : frames p (add_log p d dl l).
Proof. constructor; try done. cbn [dp_dealer_logs add_log with_logs]. rewrite dom_insert_L. apply union_subseteq_r. Qed.

Lemma frames_all_logs p ls : frames p (handle_all_logs p ls).
Proof.
  revert p. induction ls as [|[k log] ls IH]; intros p; [done|]. cbn [handle_all_logs].
  destruct (log_check _ _) as [[pk dl]|]; [|apply IH]. destruct (negb _); [apply IH|].
  destruct (_ <=? _); [done|]. destruct (is_some _); [apply IH|].
  etrans; [apply frames_add_log|apply IH].
Qed.

Lemma frames_message p from msg :
  dealing_kind (kind msg) = false -> frames p (handle_message p from msg).1.
Proof.
  unfold handle_message. destruct (negb _); [done|].
  destruct (kind msg) as [d m|d m|pl d a|log| |ls|pl]; try done; intros _.
  - destruct (negb _); [done|]. unfold handle_ack. cbn [fst].
    destruct (dp_dealer p); [|done]. by destruct (d =? _).
  - unfold handle_dealer_log. destruct (log_check _ _) as [[]|]; [|done].
    destruct (negb _); [done|]. destruct (_ <=? _); [done|]. destruct (is_some _); [done|].
    apply frames_add_log.
  - destruct (negb _); [done|]. apply frames_all_logs.
  - destruct (negb _); [done|]. constructor; try done. cbn. apply union_subseteq_r.
Qed.

(** What processing the messages of a dealer leaves alone. *)
Lemma process_frame p d :
  let q := try_process_dealer_messages p d in
  dp_dealer_pub_msgs q = dp_dealer_pub_msgs p /\ dp_dealer_priv_msgs q = dp_dealer_priv_msgs p
  /\ dp_dealer_logs q = dp_dealer_logs p /\ dp_ready_players q = dp_ready_players p
  /\ dp_seen_messages q = dp_seen_messages p /\ dp_dealer q = dp_dealer p
  /\ dp_finalized q = dp_finalized p /\ dp_acks_sent p ⊆ dp_acks_sent q
  /\ dp_sent_ready q = dp_sent_ready p.
Proof.
  cbn zeta. unfold try_process_dealer_messages.
  destruct (dp_dealer_pub_msgs p !! d); [|done]. destruct (dp_dealer_priv_msgs p !! d); [|done].
  destruct (dp_player p); [|done]. destruct (dealer_message _ _ _ _) as [? []]; [|done].
  split_and!; try done. cbn. apply union_subseteq_r.
Qed.

Lemma all_logs_ready p ls : dp_ready_players (handle_all_logs p ls) = dp_ready_players p.
Proof.
  revert p. induction ls as [|[k log] ls IH]; intros p; [done|]. cbn [handle_all_logs].
  destruct (log_check _ _) as [[pk dl]|]; [|apply IH]. destruct (negb _); [apply IH|].
  destruct (_ <=? _); [done|]. destruct (is_some _); [apply IH|]. by rewrite IH.
Qed.

Lemma core_frames config i sid dealer p q :
  core config i sid dealer everyone p -> frames p q -> keeps p q -> participant_inv q ->
  (dealer = true -> is_Some (dp_dealer q)) ->
  (forall d, dp_dealer q = Some d -> dealing i (my_public_key config) (pubs (my_public_key config)) d) ->
  logs_ok config i q -> core config i sid dealer everyone q.
Proof.
  intros [] [] [] Hi Hd Hdl Hl. constructor; try done; try congruence.
  - unfold dp_ceremony_id in *. congruence.
  - rewrite fr_player0, fr_acks0. done.
  - rewrite fr_sent0. intros Hs. by apply fr_ready0, ru_sent0.
  - rewrite fr_pub0. done.
  - rewrite fr_priv0. done.
  - rewrite fr_pub0, fr_priv0, fr_acks0. done.
Qed.

Lemma all_logs_new p ls d dl :
  dp_dealer_logs (handle_all_logs p ls) !! d = Some dl ->
  dp_dealer_logs p !! d = Some dl
  \/ d ∈ dk_participants (dp_config p) /\ exists l, l ∈ ls.*2 /\ log_check (dp_info p) l = Some (d, dl).
Proof.
  revert p. induction ls as [|[k log] ls IH]; intros p; [by left|]. cbn [handle_all_logs].
  assert (forall q, dp_config q = dp_config p -> dp_info q = dp_info p ->
    dp_dealer_logs (handle_all_logs q ls) !! d = Some dl ->
    dp_dealer_logs q !! d = Some dl \/ d ∈ dk_participants (dp_config p)
      /\ exists l, l ∈ ((k, log) :: ls).*2 /\ log_check (dp_info p) l = Some (d, dl)) as IH'.
  { intros q E1 E2 [H|(Hd & l & Hl & Hc)]%IH; [by left|right]. rewrite E1, E2 in *. split; [done|].
    exists l. split; [apply elem_of_cons; by right|done]. }
  destruct (log_check (dp_info p) log) as [[pk dl']|] eqn:E; [|by apply IH'].
  destruct (is_participant p pk) eqn:Hp; cbn [negb]; [|by apply IH'].
  destruct (_ <=? _); [by left|]. destruct (is_some _); [by apply IH'|].
  intros [H|H]%IH'; [|by right|done|done]. cbn in H. apply lookup_insert_Some in H as [[-> ->]|[_ H]]; [|by left].
  right. apply bool_decide_eq_true in Hp. split; [done|]. exists log. split; [apply elem_of_cons; by left|done].
Qed.

(** A message adds the logs it carries, of participants. *)
Lemma message_logs p from msg d dl :
  dp_dealer_logs (handle_message p from msg).1 !! d = Some dl ->
  dp_dealer_logs p !! d = Some dl
  \/ d ∈ dk_participants (dp_config p)
     /\ exists l, l ∈ logs_in (kind msg) /\ log_check (dp_info p) l = Some (d, dl).
Proof.
  unfold handle_message. destruct (negb _); [by left|].
  destruct (kind msg) as [d' m|d' m|pl d' a|log| |ls|pl].
  - destruct (check_dealer _ _ _ _); [|by left]. cbn [fst].
    destruct (process_frame (with_pub p (<[d' := m]> (dp_dealer_pub_msgs p))) d') as (_ & _ & -> & _). by left.
  - destruct (check_dealer _ _ _ _); [|by left]. cbn [fst].
    destruct (process_frame (with_priv p (<[d' := m]> (dp_dealer_priv_msgs p))) d') as (_ & _ & -> & _). by left.
  - destruct (negb _); [by left|]. unfold handle_ack. cbn [fst].
    destruct (dp_dealer p); [|by left]. destruct (d' =? _); by left.
  - unfold handle_dealer_log. destruct (log_check _ _) as [[pk dl']|] eqn:E; [|by left].
    destruct (is_participant p pk) eqn:Hp; cbn [negb]; [|by left]. destruct (_ <=? _); [by left|].
    destruct (is_some _); [by left|]. cbn. intros [[-> ->]|[_ H]]%lookup_insert_Some; [|by left].
    right. apply bool_decide_eq_true in Hp. split; [done|]. exists log. split; [by apply list_elem_of_singleton|done].
  - by left.
  - destruct (negb _); [by left|]. apply all_logs_new.
  - destruct (negb _); by left.
Qed.

Lemma logs_ok_message config i p from msg :
  dp_config p = config -> dp_info p = i -> carries_good i (kind msg) -> logs_ok config i p ->
  logs_ok config i (handle_message p from msg).1.
Proof.
  intros <- <- Hg H d dl [Hd|(Hd & l & Hl & Hc)]%message_logs; [by apply H|]. split; [done|]. by eapply Hg.
Qed.

(** The players that are ready. *)
Lemma message_ready p from msg d :
  d ∈ dp_ready_players (handle_message p from msg).1 ->
  d ∈ dp_ready_players p \/ from = d /\ kind msg = Ready d.
Proof.
  unfold handle_message. destruct (negb _); [by left|].
  destruct (kind msg) as [d' m|d' m|pl d' a|log| |ls|pl].
  - destruct (check_dealer _ _ _ _); [|by left]. cbn [fst].
    destruct (process_frame (with_pub p (<[d' := m]> (dp_dealer_pub_msgs p))) d') as (_ & _ & _ & -> & _). by left.
  - destruct (check_dealer _ _ _ _); [|by left]. cbn [fst].
    destruct (process_frame (with_priv p (<[d' := m]> (dp_dealer_priv_msgs p))) d') as (_ & _ & _ & -> & _). by left.
  - destruct (negb _); [by left|]. unfold handle_ack. cbn [fst].
    destruct (dp_dealer p); [|by left]. destruct (d' =? _); by left.
  - unfold handle_dealer_log. destruct (log_check _ _) as [[pk dl']|]; [|by left].
    destruct (negb _); [by left|]. destruct (_ <=? _); [by left|]. destruct (is_some _); by left.
  - by left.
  - destruct (negb _); [by left|]. cbn [fst]. rewrite all_logs_ready. by left.
  - destruct (from =? pl) eqn:E; cbn [negb fst]; [|by left]. apply Z.eqb_eq in E as <-. cbn.
    intros [->%elem_of_singleton|H]%elem_of_union; [by right|by left].
Qed.

Lemma core_other config i sid dealer p from msg :
  core config i sid dealer everyone p -> dealing_kind (kind msg) = false ->
  carries_good i (kind msg) -> core config i sid dealer everyone (handle_message p from msg).1.
Proof using LAWS.
  intros H Hk Hg. apply (core_frames _ _ _ _ p); [done|by apply frames_message|apply keeps_message| | | |].
  - apply inv_message, H.
  - intros [d Hd]%(ru_open _ _ _ _ _ _ H).
    destruct (message_dealer_cases p from msg) as [->|(d0 & pl & a & _ & ->)]; by eexists.
  - intros d Hd. destruct (message_dealer_cases p from msg) as [E|(d0 & pl & a & E0 & E)]; rewrite E in Hd.
    + by apply (ru_dealer _ _ _ _ _ _ H).
    + injection Hd as <-. by apply receive_ack_dealing, (ru_dealer _ _ _ _ _ _ H).
  - by apply logs_ok_message; [apply H|apply H|done|apply H].
Qed.

(** ** A dealing *)

Lemma process_acks i k p d pub priv pl :
  dp_dealer_pub_msgs p !! d = Some pub -> dp_dealer_priv_msgs p !! d = Some priv ->
  dp_player p = Some pl -> holds i k pl -> dealt i k d pub priv ->
  d ∈ dp_acks_sent (try_process_dealer_messages p d).
Proof using LAWS.
  intros E1 E2 E3 Hh Hd. unfold try_process_dealer_messages. rewrite E1, E2, E3.
  destruct (dealer_message_acks i k pl d pub priv Hh Hd) as [Ha _].
  destruct (dealer_message pl d pub priv) as [pl' [a|]]; [|done].
  cbn. apply elem_of_union_l, elem_of_singleton_2. done.
Qed.

Lemma process_player i k p d :
  (forall pub priv, dp_dealer_pub_msgs p !! d = Some pub -> dp_dealer_priv_msgs p !! d = Some priv ->
     dealt i k d pub priv) ->
  (exists pl, dp_player p = Some pl /\ holds i k pl /\ forall d', d' ∈ dp_acks_sent p -> took pl d') ->
  let q := try_process_dealer_messages p d in
  exists pl, dp_player q = Some pl /\ holds i k pl /\ forall d', d' ∈ dp_acks_sent q -> took pl d'.
Proof using LAWS.
  intros Hd (pl & E & Hh & Ht). cbn zeta. unfold try_process_dealer_messages.
  destruct (dp_dealer_pub_msgs p !! d) as [pub|]; [|by exists pl].
  destruct (dp_dealer_priv_msgs p !! d) as [priv|]; [|by exists pl]. rewrite E.
  specialize (Hd pub priv eq_refl eq_refl).
  pose proof (dealer_message_holds i k pl d pub priv Hh) as Ha.
  destruct (dealer_message_acks i k pl d pub priv Hh Hd) as [_ Htd].
  pose proof (dealer_message_keeps pl d pub priv) as Hkeep.
  destruct (dealer_message pl d pub priv) as [pl' [a|]]; cbn [fst] in *; exists pl'; split_and!; try done.
  - cbn. intros d' [->%elem_of_singleton|Hd']%elem_of_union; [done|]. by apply Hkeep, Ht.
  - cbn. intros d' Hd'. by apply Hkeep, Ht.
Qed.

Lemma core_process config i sid dealer p d :
  peers_honest config i -> d ∈ dk_participants config -> d <> my_public_key config ->
  core config i sid dealer (fun d' => d' <> d) p ->
  core config i sid dealer everyone (try_process_dealer_messages p d).
Proof using LAWS.
  intros Hh Hin Hne H. pose proof (process_frame p d) as (E1 & E2 & E3 & E4 & E5 & E6 & E7 & E8 & E9).
  destruct (keeps_process p d) as [K1 K2 K3 _]. pose proof (inv_process p d (ru_inv _ _ _ _ _ _ H)) as Hi.
  destruct H. constructor; try done; try congruence.
  - unfold dp_ceremony_id in *. congruence.
  - apply process_player; [|done]. intros pub priv Hpub Hpriv.
    rewrite (ru_pub0 d pub), (ru_priv0 d priv) by done. by apply (ph_dealt _ _ Hh).
  - rewrite E6. done.
  - rewrite E6. done.
  - unfold logs_ok. rewrite E3. done.
  - by apply E8.
  - rewrite E9, E4. done.
  - rewrite E1. done.
  - rewrite E2. done.
  - rewrite E1, E2. intros d' _ [a Ha] [b Hb]. destruct (decide (d' = d)) as [->|Hd]; [|by apply E8, ru_acks0].
    destruct ru_player0 as (pl & Hpl & Hholds & _). apply (process_acks i (my_public_key config) p d a b pl); try done.
    rewrite (ru_pub0 d a), (ru_priv0 d b) by done. by apply (ph_dealt _ _ Hh).
Qed.

(** The outcome of handling a message that is due. *)
Definition handled config i sid dealer p q d k : Prop :=
  core config i sid dealer everyone q /\ grows p q /\ effect q d k
  /\ dp_seen_messages q = dp_seen_messages p.

Lemma room config p {A} (m : gmap PublicKey A) d :
  participant_inv p -> dp_config p = config -> dom m ⊆ list_to_set (dk_participants config) ->
  d ∈ dk_participants config -> m !! d = None -> (dk_n config <=? msize m) = false.
Proof.
  intros Hi Hc Hm Hd Hn. apply Z.leb_gt. destruct (Z.lt_ge_cases (msize m) (dk_n config)); [done|].
  destruct (full_count (dk_participants config) (dom m)) as [_ Hf];
    [rewrite <- Hc; apply Hi|done|].
  unfold ssize in Hf. rewrite size_dom in Hf. pose proof (proj1 Hf H d Hd) as Hx.
  apply elem_of_dom in Hx as [x Hx]. congruence.
Qed.

Lemma core_pub config i sid dealer p d :
  peers_honest config i -> d ∈ dk_participants config -> d <> my_public_key config ->
  core config i sid dealer everyone p ->
  handled config i sid dealer p
    (handle_message p d (message_new sid (DealerPublic d (pubs d)))).1 d (DealerPublic d (pubs d)).
Proof using LAWS.
  intros Hh Hin Hne H. pose proof (ru_inv _ _ _ _ _ _ H) as Hi. pose proof (ru_config _ _ _ _ _ _ H) as Hc.
  unfold handle_message, is_participant. rewrite Hc, bool_decide_eq_true_2 by done.
  cbn [negb kind message_new]. unfold check_dealer. rewrite Z.eqb_refl. cbn [negb].
  destruct (dp_dealer_pub_msgs p !! d) as [m|] eqn:E.
  { destruct (_ <=? _); cbn [is_some fst]; (split; [done|split; [done|split; [|done]]]);
      cbn [effect]; by rewrite E, (ru_pub _ _ _ _ _ _ H d m). }
  rewrite (room config p _ d) by (try done; rewrite <- Hc; apply Hi). cbn [is_some fst].
  set (p1 := with_pub p (<[d := pubs d]> (dp_dealer_pub_msgs p))).
  pose proof (process_frame p1 d) as (E1 & E2 & E3 & E4 & E5 & E6 & _ & E8 & _).
  split; [|split; [|split]].
  - apply core_process; try done. pose proof (inv_pub p d (pubs d)) as Hp1. rewrite Hc in Hp1.
    destruct H. constructor; try done; [by apply Hp1| |].
    + intros d' m Hd'. cbn. destruct (decide (d' = d)) as [->|]; [rewrite lookup_insert_eq|rewrite lookup_insert_ne by done]; [by intros [= <-]|by apply ru_pub0].
    + intros d' Hd'. cbn. rewrite lookup_insert_ne by done. by apply ru_acks0.
  - constructor; [rewrite E1|rewrite E2|rewrite E3|rewrite E4|exact E8|rewrite E6; eauto]; try done.
    by apply insert_subseteq.
  - cbn [effect]. rewrite E1. apply lookup_insert_eq.
  - by rewrite E5.
Qed.

Lemma core_priv config i sid dealer p d :
  peers_honest config i -> d ∈ dk_participants config -> d <> my_public_key config ->
  core config i sid dealer everyone p ->
  handled config i sid dealer p
    (handle_message p d (message_new sid (DealerPrivate d (privs d)))).1 d
    (DealerPrivate d (privs d)).
Proof using LAWS.
  intros Hh Hin Hne H. pose proof (ru_inv _ _ _ _ _ _ H) as Hi. pose proof (ru_config _ _ _ _ _ _ H) as Hc.
  unfold handle_message, is_participant. rewrite Hc, bool_decide_eq_true_2 by done.
  cbn [negb kind message_new]. unfold check_dealer. rewrite Z.eqb_refl. cbn [negb].
  destruct (dp_dealer_priv_msgs p !! d) as [m|] eqn:E.
  { destruct (_ <=? _); cbn [is_some fst]; (split; [done|split; [done|split; [|done]]]);
      cbn [effect]; by rewrite E, (ru_priv _ _ _ _ _ _ H d m). }
  rewrite (room config p _ d) by (try done; rewrite <- Hc; apply Hi). cbn [is_some fst].
  set (p1 := with_priv p (<[d := privs d]> (dp_dealer_priv_msgs p))).
  pose proof (process_frame p1 d) as (E1 & E2 & E3 & E4 & E5 & E6 & _ & E8 & _).
  split; [|split; [|split]].
  - apply core_process; try done. pose proof (inv_priv p d (privs d)) as Hp1. rewrite Hc in Hp1.
    destruct H. constructor; try done; [by apply Hp1| |].
    + intros d' m Hd'. cbn. destruct (decide (d' = d)) as [->|]; [rewrite lookup_insert_eq|rewrite lookup_insert_ne by done]; [by intros [= <-]|by apply ru_priv0].
    + intros d' Hd'. cbn. rewrite lookup_insert_ne by done. by apply ru_acks0.
  - constructor; [rewrite E1|rewrite E2|rewrite E3|rewrite E4|exact E8|rewrite E6; eauto]; try done.
    by apply insert_subseteq.
  - cbn [effect]. rewrite E2. apply lookup_insert_eq.
  - by rewrite E5.
Qed.

Lemma carries_none i k : logs_in k = [] -> carries_good i k.
Proof. intros E l pk dl Hl. rewrite E in Hl. by apply elem_of_nil in Hl. Qed.

(** A message that is due and does not deal. *)
Lemma core_due_other config i sid dealer p d k :
  core config i sid dealer everyone p -> dealing_kind k = false -> carries_good i k ->
  effect (handle_message p d (message_new sid k)).1 d k ->
  handled config i sid dealer p (handle_message p d (message_new sid k)).1 d k.
Proof using LAWS.
  intros H Hk Hg He. pose proof (frames_message p d (message_new sid k) Hk) as Hf.
  split; [by apply core_other|]. split; [apply frames_grows; [done|apply message_grows]|].
  split; [done|by apply Hf].
Qed.

Lemma core_due config i sid dealer p d k :
  peers_honest config i -> due config d k -> core config i sid dealer everyone p ->
  handled config i sid dealer p (handle_message p d (message_new sid k)).1 d k.
Proof using LAWS.
  intros Hh (Hin & Hdue) H.
  pose proof (ru_inv _ _ _ _ _ _ H) as Hi. pose proof (ru_config _ _ _ _ _ _ H) as Hc.
  assert (is_participant p d = true) as Hp by (apply bool_decide_eq_true_2; by rewrite Hc).
  destruct Hdue as [[Hne Hk]|[Ha ->]].
  - repeat (apply elem_of_cons in Hk as [->|Hk]);
      [by apply core_pub|by apply core_priv| | |by apply elem_of_nil in Hk].
    + apply core_due_other; [done|done|by apply carries_none|].
      unfold handle_message. rewrite Hp. cbn [negb kind message_new]. rewrite Z.eqb_refl.
      cbn. apply elem_of_union_l, elem_of_singleton_2. done.
    + destruct (ph_log _ _ Hh d Hin Hne) as (dl & Hdl & Hg). apply core_due_other; [done|done| |].
      { intros l pk dl' ->%list_elem_of_singleton Hl. rewrite Hdl in Hl. by injection Hl as _ <-. }
      unfold handle_message. rewrite Hp. cbn [negb kind message_new effect]. unfold handle_dealer_log.
      rewrite (ru_info _ _ _ _ _ _ H), Hdl, Hp, Hc. cbn [negb].
      destruct (dp_dealer_logs p !! d) as [v|] eqn:E.
      * destruct (_ <=? _); cbn [is_some fst]; rewrite E; by eexists.
      * unfold dealer_log_count. rewrite (room config p _ d); try done.
        -- cbn. rewrite lookup_insert_eq. by eexists.
        -- intros x [dl' Hx]%elem_of_dom. apply elem_of_list_to_set. by apply (ru_logs _ _ _ _ _ _ H x dl').
  - apply core_due_other; [done|done|by apply carries_none|].
    unfold handle_message. rewrite Hp. cbn [negb kind message_new ack_kind]. rewrite Z.eqb_refl.
    cbn [negb fst]. unfold handle_ack. rewrite Hc. cbn [effect]. destruct (dp_dealer p) as [dl|] eqn:Ed.
    + rewrite Z.eqb_refl. cbn. intros dl' [= <-]. eapply receive_ack_valid; [by apply (ru_dealer _ _ _ _ _ _ H)|].
      by apply (ph_ack _ _ Hh).
    + intros dl' Hd'. congruence.
Qed.

(** ** One envelope *)

Lemma due_inj config i d d' k :
  peers_honest config i -> due config d k -> due config d' k -> d = d'.
Proof.
  intros Hh (Hin & Hk) (Hin' & Hk'). unfold honest_kinds, ack_kind in *.
  destruct Hk as [[Hne Hk]|[_ ->]], Hk' as [[Hne' Hk']|[_ Hk']];
    [| |repeat (apply elem_of_cons in Hk' as [E|Hk']; [done|]); by apply elem_of_nil in Hk'|congruence].
  - repeat (apply elem_of_cons in Hk as [->|Hk]); try (by apply elem_of_nil in Hk);
      repeat (apply elem_of_cons in Hk' as [E|Hk']); try (by apply elem_of_nil in Hk'); try congruence.
    injection E as E.
    destruct (ph_log _ _ Hh d Hin Hne) as (? & H1 & _), (ph_log _ _ Hh d' Hin' Hne') as (? & H2 & _).
    rewrite E, H2 in H1. by simplify_eq.
  - subst k. repeat (apply elem_of_cons in Hk as [E|Hk]; [done|]). by apply elem_of_nil in Hk.
Qed.

Lemma payload_back config i sid d k :
  peers_honest config i -> in_width 256 sid -> due config d k ->
  from_bytes (payload sid k) (dk_n config) = Ok (message_new sid k).
Proof using LAWS.
  intros Hh Hs Hd. rewrite <- (app_nil_r (payload sid k)). apply from_to_bytes.
  - destruct Hd as [Hin _]. unfold dk_n, len.
    destruct (dk_participants config); [by apply elem_of_nil in Hin|simpl; lia].
  - split; [done|]. by apply (ph_ok _ _ Hh d).
Qed.

Lemma payload_inj config i sid d d' k k' :
  peers_honest config i -> in_width 256 sid -> due config d k -> due config d' k' ->
  payload sid k = payload sid k' -> k = k'.
Proof using LAWS.
  intros Hh Hs Hd Hd' E. pose proof (payload_back config i sid d k Hh Hs Hd) as H1.
  rewrite E, (payload_back config i sid d' k' Hh Hs Hd') in H1. by simplify_eq.
Qed.

Lemma core_seen config i sid dealer p h :
  core config i sid dealer everyone p ->
  core config i sid dealer everyone (with_seen p ({[h]} ∪ dp_seen_messages p)).
Proof. intros []. constructor; try done. by apply inv_seen. Qed.

Definition running config i sid dealer p : Prop :=
  core config i sid dealer everyone p /\ seen_ok config sid p.

Lemma deliver_due config i sid dealer p d k :
  peers_honest config i -> in_width 256 sid -> due config d k -> running config i sid dealer p ->
  (forall d' k', due config d' k' -> sha256 (payload sid k) = sha256 (payload sid k') ->
     payload sid k = payload sid k') ->
  let q := (handle_message_bytes p d (payload sid k)).1 in
  running config i sid dealer q /\ grows p q /\ effect q d k.
Proof using LAWS.
  intros Hh Hs Hd [Hc Hseen] Hcol. cbn zeta. unfold handle_message_bytes, compute_message_hash.
  case_bool_decide as Hin. { cbn [fst]. split; [by split|]. split; [done|by apply Hseen]. }
  rewrite (ru_config _ _ _ _ _ _ Hc), (payload_back config i sid d k) by done.
  cbn [session_id message_new]. rewrite (ru_sid _ _ _ _ _ _ Hc), Z.eqb_refl. cbn [negb].
  destruct (core_due config i sid dealer _ d k Hh Hd
    (core_seen _ _ _ _ _ (sha256 (payload sid k)) Hc)) as (Hq & Hg & He & Hse).
  assert (grows p (handle_message (with_seen p ({[sha256 (payload sid k)]} ∪ dp_seen_messages p))
    d (message_new sid k)).1) as Hgr by (etrans; [|exact Hg]; constructor; eauto).
  split; [split; [done|]|done]. intros d' k' Hd' Hx. rewrite Hse in Hx. cbn [dp_seen_messages with_seen] in Hx.
  apply elem_of_union in Hx as [Hx%elem_of_singleton|Hx]; [|eapply effect_grows; [done|by apply Hseen]].
  assert (k = k') as <- by (eapply (payload_inj config i sid d d'); eauto).
  by rewrite (due_inj config i d' d k).
Qed.

Lemma deliver_other config i sid dealer p e :
  running config i sid dealer p ->
  (forall d k, due config d k -> ev_payload e <> payload sid k) ->
  match from_bytes (ev_payload e) (dk_n config) with
  | Ok m => dealing_kind (kind m) = false /\ carries_good i (kind m)
  | Err _ => True
  end ->
  (forall d k, due config d k -> sha256 (ev_payload e) = sha256 (payload sid k) ->
     ev_payload e = payload sid k) ->
  let q := (handle_message_bytes p (ev_from e) (ev_payload e)).1 in
  running config i sid dealer q /\ grows p q.
Proof using LAWS.
  intros Hr Hne Hk Hcol. pose proof Hr as [Hc Hseen]. cbn zeta.
  unfold handle_message_bytes, compute_message_hash. case_bool_decide; [done|].
  rewrite (ru_config _ _ _ _ _ _ Hc). destruct (from_bytes _ _) as [m|]; [|done].
  destruct Hk as [Hk Hgood]. set (p1 := with_seen p ({[sha256 (ev_payload e)]} ∪ dp_seen_messages p)).
  assert (running config i sid dealer (handle_message p1 (ev_from e) m).1
    /\ grows p (handle_message p1 (ev_from e) m).1) as Hx.
  { pose proof (frames_message p1 (ev_from e) m Hk) as Hf.
    assert (grows p (handle_message p1 (ev_from e) m).1) as Hg
      by (etrans; [|apply frames_grows; [done|apply message_grows]]; constructor; eauto).
    split; [split; [apply core_other; [by apply core_seen|done|done]|]|done].
    intros d k Hd Hin. rewrite (fr_seen _ _ Hf) in Hin.
    unfold p1 in Hin. cbn [dp_seen_messages with_seen] in Hin.
    apply elem_of_union in Hin as [Hin%elem_of_singleton|Hin].
    - destruct (Hne d k Hd). by apply (Hcol d k).
    - eapply effect_grows; [done|]. by apply Hseen. }
  destruct (session_id m); [|done]. by destruct (negb _).
Qed.

Lemma deliver_envelope config i sid dealer p e :
  peers_honest config i -> in_width 256 sid -> envelope_ok config i sid e ->
  running config i sid dealer p ->
  let q := (handle_message_bytes p (ev_from e) (ev_payload e)).1 in
  running config i sid dealer q /\ grows p q
  /\ forall d k, due config d k -> e = mkEnvelope d (payload sid k) -> effect q d k.
Proof using LAWS.
  intros Hh Hs [[(k & Hd & Hp)|[Hne Hk]] Hcol] Hr; cbn zeta.
  - destruct (deliver_due config i sid dealer p (ev_from e) k Hh Hs Hd Hr) as (H1 & H2 & H3).
    { intros d' k' Hd'. rewrite <- Hp. by apply (Hcol d' k'). }
    rewrite Hp. split; [done|]. split; [done|]. intros d k' Hd' ->. cbn [ev_from ev_payload] in *.
    assert (k' = k) as -> by (by eapply (payload_inj config i sid)). done.
  - destruct (deliver_other config i sid dealer p e Hr Hne Hk Hcol) as [H1 H2].
    split; [done|]. split; [done|]. intros d k' Hd' ->. by destruct (Hne d k' Hd').
Qed.

Lemma bytes_ready config p e d :
  dp_config p = config ->
  d ∈ dp_ready_players (handle_message_bytes p (ev_from e) (ev_payload e)).1 ->
  d ∈ dp_ready_players p \/ readies config e d.
Proof.
  intros Hc. unfold handle_message_bytes. destruct (bool_decide _); [by left|]. rewrite Hc.
  destruct (from_bytes _ _) as [m|] eqn:Em; [|by left].
  assert (forall v, d ∈ dp_ready_players (handle_message (with_seen p v) (ev_from e) m).1 ->
    d ∈ dp_ready_players p \/ readies config e d) as Hm.
  { intros v [H|[H1 H2]]%message_ready; [by left|right]. split; [done|]. by exists m. }
  destruct (session_id m); [destruct (negb _); [by left|]|]; apply Hm.
Qed.

(** The order of the acknowledgements keeps the barrier. *)
Lemma acks_first_step config sid p q e es :
  acks_first config sid p (e :: es) -> grows p q ->
  (forall a, a ∈ ackers -> e = mkEnvelope a (payload sid (ack_kind config a)) ->
     effect q a (ack_kind config a)) ->
  acks_first config sid q es.
Proof.
  intros Hf Hg He a pre e' post Ha -> Hr.
  destruct (Hf a (e :: pre) e' post Ha eq_refl Hr) as [H|[H|H]%elem_of_cons]; [left|left|by right].
  - by eapply effect_grows.
  - by apply He.
Qed.

Lemma deliver_all config i sid dealer p es rest :
  peers_honest config i -> in_width 256 sid -> Forall (envelope_ok config i sid) es ->
  running config i sid dealer p -> barrier config p -> acks_first config sid p (es ++ rest) ->
  let q := foldl (fun p e => (handle_message_bytes p (ev_from e) (ev_payload e)).1) p es in
  running config i sid dealer q /\ barrier config q /\ acks_first config sid q rest /\ grows p q
  /\ forall d k, due config d k -> mkEnvelope d (payload sid k) ∈ es -> effect q d k.
Proof using LAWS.
  intros Hh Hs Hes. cbn zeta. revert p. induction Hes as [|e es He _ IH]; intros p Hr Hb Hf.
  { split_and!; [done|done|done|done|]. intros d k _ Hin. by apply elem_of_nil in Hin. }
  destruct (deliver_envelope config i sid dealer p e Hh Hs He Hr) as (H1 & H2 & H3).
  cbn [foldl]. set (q := (handle_message_bytes p (ev_from e) (ev_payload e)).1) in *.
  assert (barrier config q) as Hbq.
  { intros a Ha Hg Hne. apply (bytes_ready config) in Hg as [Hg|Hg]; [| |apply Hr].
    - eapply effect_grows; [done|by apply Hb].
    - destruct (Hf a [] e (es ++ rest) Ha eq_refl Hg) as [H|H%elem_of_nil]; [|done].
      by eapply effect_grows. }
  assert (acks_first config sid q (es ++ rest)) as Hfq.
  { apply (acks_first_step config sid p q e); [done|done|]. intros a Ha ->.
    apply (H3 a); [|done]. split; [by apply (ph_ack _ _ Hh)|by right]. }
  destruct (IH q H1 Hbq Hfq) as (H4 & H5 & H6 & H7 & H8). split_and!; [done|done|done|by etrans|].
  intros d k Hd [Heq|Hin]%elem_of_cons; [|by apply H8].
  eapply effect_grows; [exact H7|]. by apply H3.
Qed.

(** ** The waiting loops *)

Definition alive config i sid dealer p : Prop :=
  running config i sid dealer p /\ barrier config p.

(** Assignments that neither the state of the protocol nor the messages seen
    depend on. *)
Lemma alive_outgoing config i sid dealer p :
  alive config i sid dealer p -> alive config i sid dealer (with_outgoing p []).
Proof. intros [[[] Hs] Hb]. split; [split; [|exact Hs]|exact Hb]. constructor; try done. by apply inv_outgoing. Qed.

Lemma alive_phase config i sid dealer p phase :
  alive config i sid dealer p -> alive config i sid dealer (set_phase p phase).
Proof. intros [[[] Hs] Hb]. split; [split; [|exact Hs]|exact Hb]. constructor; try done. by apply inv_phase. Qed.

(** The iterations carry what is still missing, in order, and [n] more follow. *)
Record supplied (config : DkgConfig) (i : Info) (sid : B256) (T : Z) (n : nat) p
    (ticks : list Tick) : Prop := {
  su_ok : ticks_ok config i sid ticks;
  su_time : Forall (fun t => T <= tk_now t < T + PHASE2_MAX_TIMEOUT_MS) ticks;
  su_acks : acks_first config sid p (envelopes ticks);
  su_all : exists pre post, ticks = pre ++ post /\ (n <= length post)%nat
    /\ forall d k, due config d k -> effect p d k \/ delivered sid d k pre;
}.

Lemma supplied_grows config i sid T n p q ticks :
  grows p q -> supplied config i sid T n p ticks -> supplied config i sid T n q ticks.
Proof.
  intros Hg [H1 H2 H3 (pre & post & -> & Hn & H)]. split; [done|done| |].
  - intros a pr e po Ha E Hr. destruct (H3 a pr e po Ha E Hr); [left; by eapply effect_grows|by right].
  - exists pre, post. split; [done|]. split; [done|]. intros d k Hd. destruct (H d k Hd); [left|by right].
    by eapply effect_grows.
Qed.

(** The start of the next loop and its deadline. *)
Lemma supplied_deadline config i sid T n p ticks :
  supplied config i sid T (S n) p ticks -> T <= loop_start ticks.
Proof.
  intros [_ H _ (pre & post & -> & Hn & _)].
  destruct pre as [|t pre]; [destruct post as [|t post]; [simpl in Hn; lia|]|];
    apply Forall_cons in H as [H _]; cbn [loop_start app]; lia.
Qed.

Section loop.
Variables (config : DkgConfig) (i : Info) (sid : B256) (dealer : bool) (T : Z)
  (finished : DkgParticipant -> bool)
  (idle : Z -> Z -> DkgParticipant * list (PublicKey * bytes) ->
          Z * (DkgParticipant * list (PublicKey * bytes)))
  (error : DkgError).
Hypothesis Hh : peers_honest config i.
Hypothesis Hs : in_width 256 sid.
Hypothesis Hidle : forall now last s, (idle now last s).2.1 = s.1.

Lemma iteration_live s t ticks :
  Forall (envelope_ok config i sid) (poll_incoming (tk_streams t)) -> alive config i sid dealer s.1 ->
  acks_first config sid s.1 (envelopes (t :: ticks)) ->
  let q := (send_outgoing config (receive_and_process (tk_streams t) s)).1 in
  alive config i sid dealer q /\ grows s.1 q /\ acks_first config sid q (envelopes ticks)
  /\ forall d k, due config d k -> mkEnvelope d (payload sid k) ∈ poll_incoming (tk_streams t) ->
       effect q d k.
Proof using LAWS Hh Hs.
  intros He [Hr Hb] Hf.
  destruct (deliver_all config i sid dealer s.1 _ (envelopes ticks) Hh Hs He Hr Hb Hf) as (H1 & H2 & H3 & H4 & H5).
  cbn zeta. split; [by apply alive_outgoing|]. split; [|split; [exact H3|exact H5]].
  destruct H4. by constructor.
Qed.

Lemma loop_live n ticks deadline last s p0 :
  T + PHASE2_MAX_TIMEOUT_MS <= deadline -> alive config i sid dealer s.1 -> grows p0 s.1 ->
  supplied config i sid T (S n) s.1 ticks ->
  (forall q, alive config i sid dealer q -> grows p0 q ->
     (forall d k, due config d k -> effect q d k) -> finished q = true) ->
  exists s' ticks', wait_loop config finished idle error deadline last ticks s = (s', ticks', Ok tt)
    /\ alive config i sid dealer s'.1 /\ grows p0 s'.1 /\ finished s'.1 = true
    /\ supplied config i sid T n s'.1 ticks'.
Proof using LAWS Hh Hs Hidle.
  intros Hdl Hr Hg [Hok Ht Hf (pre & post & -> & Hn & Hall)] Hfin.
  revert s last Hr Hg Hf Hall. induction pre as [|t pre IH]; intros s last Hr Hg Hf Hall.
  - destruct post as [|t post]; [simpl in Hn; lia|]. cbn [app wait_loop].
    apply Forall_cons in Hok as [Hok1 Hok2], Ht as [Ht1 Ht2].
    rewrite (proj2 (Z.leb_gt _ _)) by lia.
    destruct (iteration_live s t post Hok1 Hr Hf) as (H1 & H2 & Hf' & _).
    set (s' := send_outgoing config (receive_and_process (tk_streams t) s)) in *.
    assert (forall d k, due config d k -> effect s'.1 d k) as He.
    { intros d k Hd. destruct (Hall d k Hd) as [H|(x & Hx & _)]; [by eapply effect_grows|].
      by apply elem_of_nil in Hx. }
    rewrite (Hfin s'.1) by (try done; by etrans). eexists _, _. split; [reflexivity|].
    split; [done|]. split; [by etrans|]. split; [by apply Hfin; [|etrans|]|].
    split; [done|done|done|]. exists [], post. split; [done|]. split; [simpl in Hn; lia|]. by left; apply He.
  - cbn [app wait_loop]. apply Forall_cons in Hok as [Hok1 Hok2], Ht as [Ht1 Ht2].
    rewrite (proj2 (Z.leb_gt _ _)) by lia.
    destruct (iteration_live s t (pre ++ post) Hok1 Hr Hf) as (H1 & H2 & Hf' & H3).
    set (s' := send_outgoing config (receive_and_process (tk_streams t) s)) in *.
    assert (forall d k, due config d k -> effect s'.1 d k \/ delivered sid d k pre) as He.
    { intros d k Hd. destruct (Hall d k Hd) as [H|(x & Hx & Hin)]; [left; by eapply effect_grows|].
      apply elem_of_cons in Hx as [->|Hx]; [left; by apply H3|right; by exists x]. }
    destruct (finished s'.1) eqn:Ef.
    + eexists _, _. split; [reflexivity|]. split; [done|]. split; [by etrans|]. split; [done|].
      split; [done|done|done|]. exists pre, post. split; [done|]. split; [lia|done].
    + destruct (idle (tk_now t) last s') as [last' s''] eqn:Ei.
      assert (s''.1 = s'.1) as E by (by rewrite <- (Hidle (tk_now t) last s'), Ei).
      apply IH; [done|done| | | |]; rewrite E; [done|by etrans|done|done].
Qed.

End loop.

(** ** The phases *)

Lemma kind_1 d : DealerPublic d (pubs d) ∈ honest_kinds d.
Proof. unfold honest_kinds. rewrite !elem_of_cons. by left. Qed.
Lemma kind_2 d : DealerPrivate d (privs d) ∈ honest_kinds d.
Proof. unfold honest_kinds. rewrite !elem_of_cons. by right; left. Qed.
Lemma kind_3 d : Ready d ∈ honest_kinds d.
Proof. unfold honest_kinds. rewrite !elem_of_cons. by right; right; left. Qed.
Lemma kind_4 d : DealerLogMsg (logs d) ∈ honest_kinds d.
Proof. unfold honest_kinds. rewrite !elem_of_cons. by right; right; right; left. Qed.
#[local] Hint Resolve kind_1 kind_2 kind_3 kind_4 : kora.

Lemma due_kind config d k :
  d ∈ dk_participants config -> d <> my_public_key config -> k ∈ honest_kinds d -> due config d k.
Proof. intros. split; [done|]. by left. Qed.

Lemma phase2_finished config i sid dealer q :
  alive config i sid dealer q -> (forall d k, due config d k -> effect q d k) ->
  phase2_done q = true.
Proof using LAWS.
  intros [[Hc _] _] He. pose proof (ru_inv _ _ _ _ _ _ Hc) as Hi. pose proof (ru_config _ _ _ _ _ _ Hc) as Hcf.
  assert (forall pk, pk ∈ dk_participants config ->
    is_Some (dp_dealer_pub_msgs q !! pk) /\ is_Some (dp_dealer_priv_msgs q !! pk)) as Hb.
  { intros pk Hpk. destruct (decide (pk = my_public_key config)) as [->|Hne].
    - pose proof (pi_acks _ Hi _ (ru_own _ _ _ _ _ _ Hc)) as H. apply elem_of_intersection in H as [H1 H2].
      split; by apply elem_of_dom.
    - split; eexists; [apply (He pk (DealerPublic pk (pubs pk)))|apply (He pk (DealerPrivate pk (privs pk)))];
        apply due_kind; auto with kora. }
  destruct (inv_counts _ Hi) as (_ & _ & _ & H6). rewrite Hcf in H6.
  apply andb_true_iff. split; [by apply H6|]. apply Z.leb_le.
  unfold required_dealer_logs, dk_n, acks_sent_count. rewrite Hcf.
  apply full_count; [rewrite <- Hcf; apply Hi| |].
  - intros pk Hpk. apply (pi_acks _ Hi), elem_of_intersection in Hpk as [Hpk _].
    apply (pi_pub _ Hi) in Hpk. by rewrite Hcf in Hpk.
  - intros pk Hpk. destruct (Hb pk Hpk). by apply (ru_acks _ _ _ _ _ _ Hc).
Qed.

(** Phase 2 ends when every dealing is acknowledged. *)
Lemma phase2_acked config i sid dealer q :
  alive config i sid dealer q -> phase2_done q = true ->
  forall d, d ∈ dk_participants config -> d ∈ dp_acks_sent q.
Proof.
  intros [[Hc _] _] [_ Hd%Z.leb_le]%andb_true_iff. pose proof (ru_inv _ _ _ _ _ _ Hc) as Hi.
  rewrite <- (ru_config _ _ _ _ _ _ Hc). apply full_count; [apply Hi| |exact Hd].
  intros pk Hpk. apply (pi_acks _ Hi), elem_of_intersection in Hpk as [Hpk _]. by apply (pi_pub _ Hi).
Qed.

Lemma ready_finished config i sid dealer q :
  alive config i sid dealer q -> my_public_key config ∈ dp_ready_players q ->
  (forall d k, due config d k -> effect q d k) -> all_ready q = true.
Proof using LAWS.
  intros [[Hc _] _] Hme He. destruct (inv_counts _ (ru_inv _ _ _ _ _ _ Hc)) as (_ & _ & H5 & _).
  rewrite (ru_config _ _ _ _ _ _ Hc) in H5. apply H5. intros pk Hpk.
  destruct (decide (pk = my_public_key config)) as [->|Hne]; [done|].
  apply (He pk (Ready pk)). apply due_kind; auto with kora.
Qed.

(** When everyone is ready, the acknowledgements are in. *)
Lemma ready_acked config i sid dealer q dl a :
  peers_honest config i -> alive config i sid dealer q -> all_ready q = true ->
  dp_dealer q = Some dl -> a ∈ ackers -> dealer_acked dl a.
Proof using LAWS.
  intros Hh [[Hc _] Hb] Hr Hd Ha. destruct (inv_counts _ (ru_inv _ _ _ _ _ _ Hc)) as (_ & _ & H5 & _).
  rewrite (ru_config _ _ _ _ _ _ Hc) in H5. destruct (ph_gate _ _ Hh a Ha) as [Hg Hne].
  apply (Hb a Ha); [|done|done]. by apply H5.
Qed.

Lemma core_log_dom config i sid dealer p :
  core config i sid dealer everyone p ->
  dom (dp_dealer_logs p) ⊆ list_to_set (dk_participants (dp_config p)).
Proof.
  intros H x [dl Hx]%elem_of_dom. apply elem_of_list_to_set. rewrite (ru_config _ _ _ _ _ _ H).
  by apply (ru_logs _ _ _ _ _ _ H x dl).
Qed.

Lemma logs_finished config i sid dealer q :
  alive config i sid dealer q -> is_Some (dp_dealer_logs q !! my_public_key config) ->
  (forall d k, due config d k -> effect q d k) -> can_finalize q = true.
Proof using LAWS.
  intros [[Hc _] _] Hme He. apply Z.leb_le.
  apply (full_map q _ (ru_inv _ _ _ _ _ _ Hc) (core_log_dom _ _ _ _ _ Hc)).
  rewrite (ru_config _ _ _ _ _ _ Hc). intros pk Hpk.
  destruct (decide (pk = my_public_key config)) as [->|Hne]; [done|].
  apply (He pk (DealerLogMsg (logs pk))). apply due_kind; auto with kora.
Qed.

(** Signalling readiness and closing the dealer keep the run alive. *)
Lemma ready_live config i sid dealer p :
  alive config i sid dealer p ->
  let q := with_outgoing (broadcast_ready p) [] in
  alive config i sid dealer q /\ grows p q /\ my_public_key config ∈ dp_ready_players q.
Proof.
  intros [[Hc Hs] Hb]. cbn zeta. pose proof (inv_broadcast_ready p (ru_inv _ _ _ _ _ _ Hc)) as Hi.
  assert (grows p (broadcast_ready p)) as Hg.
  { unfold broadcast_ready. destruct (dp_sent_ready p); [done|].
    constructor; try done; [cbn; apply union_subseteq_r|eauto]. }
  assert (my_public_key config ∈ dp_ready_players (broadcast_ready p)) as Hme.
  { unfold broadcast_ready. destruct (dp_sent_ready p) eqn:E; [by apply (ru_sent _ _ _ _ _ _ Hc)|].
    cbn. rewrite (ru_config _ _ _ _ _ _ Hc). apply elem_of_union_l, elem_of_singleton_2. done. }
  split; [|split; [by destruct Hg|done]]. apply alive_outgoing. split; [split|].
  - unfold broadcast_ready in *. destruct (dp_sent_ready p) eqn:E; [done|]. destruct Hc. by constructor.
  - intros d k Hd Hin. eapply effect_grows; [exact Hg|]. apply Hs; [done|]. revert Hin.
    unfold broadcast_ready. by destruct (dp_sent_ready p).
  - intros a Ha Hin Hne. eapply effect_grows; [exact Hg|]. apply Hb; [done| |done]. revert Hin.
    unfold broadcast_ready. destruct (dp_sent_ready p); [done|]. cbn.
    rewrite (ru_config _ _ _ _ _ _ Hc). by intros [E%elem_of_singleton|H]%elem_of_union.
Qed.

(** The log of our dealer, closed when everyone is ready, has the
    acknowledgements of a quorum. *)
Lemma finalize_dealer_live config i sid p :
  peers_honest config i -> alive config i sid true p -> all_ready p = true ->
  exists q, finalize_dealer p = (q, Ok tt) /\ alive config i sid false q /\ grows p q
    /\ is_Some (dp_dealer_logs q !! my_public_key config).
Proof using LAWS.
  intros Hh Hal Hready. pose proof Hal as [[Hc Hs] _].
  destruct (ru_open _ _ _ _ _ _ Hc eq_refl) as [d Ed]. pose proof (ru_dealer _ _ _ _ _ _ Hc _ Ed) as Hd.
  destruct (dealer_finalize_valid _ _ _ _ Hd) as [dl Hl].
  pose proof (ru_inv _ _ _ _ _ _ Hc) as Hinv. pose proof (pi_info _ Hinv) as Hinfo.
  rewrite (ru_info _ _ _ _ _ _ Hc), (ru_config _ _ _ _ _ _ Hc) in Hinfo.
  assert (log_good i dl) as Hgood.
  { eapply (dealer_finalize_good _ _ _ _ _ _ _ _ _ ackers Hinfo Hd Hl (ph_nodup _ _ Hh)).
    - intros q Hq. rewrite sort_by_perm. split; [by apply (ph_ack _ _ Hh)|by eapply ready_acked].
    - replace (len (sort_by Z.compare (dk_participants config))) with (len (dk_participants config))
        by (unfold len; by rewrite sort_by_perm). apply (ph_quorum _ _ Hh). }
  pose proof (inv_finalize_dealer p Hinv) as Hi.
  unfold finalize_dealer in *. rewrite Ed in *. cbn [dp_info with_dealer] in *.
  rewrite (ru_info _ _ _ _ _ _ Hc), Hl in *. cbn [fst] in Hi. eexists. split; [reflexivity|].
  set (q := push _ _ _) in *.
  assert (frames p q) as Hf by (constructor; try done; cbn; rewrite dom_insert_L; apply union_subseteq_r).
  assert (grows p q) as Hg by (apply frames_grows; [done|]; intros x Hx; discriminate Hx).
  split_and!; [|done|cbn; rewrite lookup_insert_eq; by eexists]. split; [split|].
  - destruct Hc. constructor; try done. unfold logs_ok, q. cbn.
    intros d' dl' [[<- <-]|[_ H]]%lookup_insert_Some; [|by apply ru_logs0]. split; [|done].
    rewrite <- ru_config0. apply Hinv.
  - intros d' k Hk Hin. eapply effect_grows; [exact Hg|]. by apply Hs.
  - by intros a Ha _ _ x Hx.
Qed.

Lemma finalize_live config i sid dealer p rng :
  alive config i sid dealer p -> can_finalize p = true ->
  (forall d, d ∈ dk_participants config -> d ∈ dp_acks_sent p) ->
  exists q o, finalize p rng = (q, Ok o)
    /\ do_threshold o = dk_t config /\ do_participants o = dk_n config
    /\ participant_keys o = write_pk <$> dk_participants config
    /\ bytes_ok (group_public_key o) /\ bytes_ok (public_polynomial o) /\ bytes_ok (share_secret o).
Proof using LAWS.
  intros [[Hc _] _] Hf Hall. pose proof (ru_inv _ _ _ _ _ _ Hc) as Hi.
  destruct (ru_player _ _ _ _ _ _ Hc) as (pl & Ep & Hpl & Htook).
  unfold finalize. rewrite (ru_fresh _ _ _ _ _ _ Hc), Hf, Ep. cbn [negb].
  pose proof (player_finalize_ok _ _ _ _ (dp_info p) rng (my_public_key config) pl (logs_for_verification p)
    (pi_info _ Hi)) as Hok. rewrite (ru_info _ _ _ _ _ _ Hc) in Hok.
  specialize (Hok Hpl). cbn [dp_info dp_config with_player]. rewrite (ru_info _ _ _ _ _ _ Hc).
  change (logs_for_verification (with_player p None)) with (logs_for_verification p).
  destruct (player_finalize rng pl i (logs_for_verification p)) as [[o sh]|e].
  - rewrite (ru_config _ _ _ _ _ _ Hc). eexists _, _. split; [reflexivity|].
    cbn [do_threshold do_participants participant_keys group_public_key public_polynomial share_secret].
    split_and!; try done; [apply output_bytes|apply output_bytes|apply share_bytes].
  - discriminate Hok.
    + intros d Hd. rewrite sort_by_perm, (ru_config _ _ _ _ _ _ Hc) in Hd. by apply Htook, Hall.
    + intros d Hd. rewrite sort_by_perm in Hd. apply Z.leb_le in Hf.
      destruct (full_map p _ Hi (core_log_dom _ _ _ _ _ Hc)) as [_ H4].
      destruct (proj1 H4 Hf d Hd) as [dl Hdl]. apply list_elem_of_fmap. exists (d, dl). split; [done|].
      unfold logs_for_verification, btree. rewrite sort_by_perm. by apply elem_of_map_to_list.
    + apply Forall_forall. intros [d dl] Hd. unfold logs_for_verification, btree in Hd.
      rewrite sort_by_perm in Hd. apply elem_of_map_to_list in Hd. split.
      * apply (pi_logs _ Hi) in Hd as (l & _ & Hl). exists l. by rewrite <- (ru_info _ _ _ _ _ _ Hc).
      * by apply (ru_logs _ _ _ _ _ _ Hc d dl).
Qed.

(** ** The start *)

Lemma queue_frame p ms :
  let q := foldl queue_private p ms in
  dp_dealer_pub_msgs q = dp_dealer_pub_msgs p /\ dp_player q = dp_player p
  /\ dp_acks_sent q = dp_acks_sent p /\ dp_finalized q = dp_finalized p
  /\ dp_sent_ready q = dp_sent_ready p /\ dp_seen_messages q = dp_seen_messages p
  /\ dp_dealer_logs q = dp_dealer_logs p /\ dp_ready_players q = dp_ready_players p.
Proof.
  cbn zeta. revert p. induction ms as [|m ms IH]; intros p; [done|]. cbn [foldl].
  destruct (IH (queue_private p m)) as (-> & -> & -> & -> & -> & -> & -> & ->).
  unfold queue_private. by destruct (m.1 =? _).
Qed.

Lemma queue_priv p ms :
  (forall d, d <> my_public_key (dp_config p) ->
     dp_dealer_priv_msgs (foldl queue_private p ms) !! d = dp_dealer_priv_msgs p !! d)
  /\ (my_public_key (dp_config p) ∈ ms.*1 ->
       exists m, (my_public_key (dp_config p), m) ∈ ms
         /\ dp_dealer_priv_msgs (foldl queue_private p ms) !! my_public_key (dp_config p) = Some m).
Proof.
  revert p. induction ms as [|[d m] ms IH] using rev_ind; intros p.
  { split; [done|]. intros H. by apply elem_of_nil in H. }
  rewrite foldl_snoc. destruct (IH p) as [H1 H2]. unfold queue_private at 1 3.
  rewrite queue_config. cbn [fst snd]. destruct (d =? my_public_key (dp_config p)) eqn:E.
  - apply Z.eqb_eq in E as ->. cbn [dp_dealer_priv_msgs with_priv]. split.
    + intros d Hd. rewrite lookup_insert_ne by done. by apply H1.
    + intros _. exists m. rewrite lookup_insert_eq. split; [|done]. apply elem_of_app. right. by apply list_elem_of_singleton.
  - apply Z.eqb_neq in E. split; [exact H1|]. intros H. rewrite fmap_app in H.
    apply elem_of_app in H as [H|H]; [|apply list_elem_of_singleton in H; by subst].
    destruct (H2 H) as (x & Hx & Hl). exists x. split; [|exact Hl]. apply elem_of_app. by left.
Qed.

(** A new participant. *)
Lemma new_shape config t p :
  participant_new config t = Ok p ->
  (exists pl, dp_player p = Some pl /\ holds (dp_info p) (my_public_key config) pl)
  /\ dp_config p = config /\ dp_dealer_pub_msgs p = ∅ /\ dp_dealer_priv_msgs p = ∅
  /\ dp_acks_sent p = ∅ /\ dp_finalized p = false /\ dp_sent_ready p = false
  /\ dp_seen_messages p = ∅ /\ dp_dealer_logs p = ∅ /\ dp_ready_players p = ∅ /\ ceremony_id (dp_session p) = sha256 (session_preimage (dk_chain_id config) (dk_participants config) t).
Proof using LAWS.
  unfold participant_new. intros H. destruct (participant_set _); [|done]. cbn [ok_or] in H.
  destruct (info_new _ _ _ _) as [i|]; [|done]. cbn [map_err] in H.
  destruct (player_new _ _) as [pl|] eqn:E; [|done]. cbn [map_err] in H. simplify_eq/=.
  split; [|done]. exists pl. split; [done|]. by apply player_new_holds.
Qed.

(** The state before our own dealing is processed. *)
Lemma start_dealt config t rng p0 p :
  participant_new config t = Ok p0 -> my_public_key config ∈ dk_participants config ->
  start_dealer p0 rng = (p, Ok tt) ->
  exists p3 dl pub m, p = try_process_dealer_messages p3 (my_public_key config)
    /\ dp_player p3 = dp_player p0 /\ dp_acks_sent p3 = dp_acks_sent p0
    /\ dp_finalized p3 = dp_finalized p0 /\ dp_sent_ready p3 = dp_sent_ready p0
    /\ dp_seen_messages p3 = dp_seen_messages p0
    /\ dp_dealer p3 = Some dl /\ dealing (dp_info p0) (my_public_key config) pub dl
    /\ dp_dealer_logs p3 = dp_dealer_logs p0 /\ dp_ready_players p3 = dp_ready_players p0
    /\ dp_dealer_pub_msgs p3 = {[my_public_key config := pub]}
    /\ dp_dealer_priv_msgs p3 = {[my_public_key config := m]}
    /\ dealt (dp_info p0) (my_public_key config) (my_public_key config) pub m.
Proof using LAWS.
  intros Hn Hme Hst. pose proof (inv_new config t p0 Hn Hme) as Hi0.
  destruct (new_shape config t p0 Hn) as (_ & Hcf & Hpub & Hpriv & _).
  unfold start_dealer in Hst. destruct (dealer_start _ _ _) as [[[dl pub] ms]|] eqn:Ed; [|done].
  pose proof (dealer_start_players _ _ _ _ _ _ _ _ _ _ (pi_info _ Hi0) Ed) as Hpl.
  destruct (dealer_start_deals _ _ _ _ _ _ Ed) as [Hdl Hdealt]. rewrite Hcf in *.
  set (p1 := push p0 None _) in *. injection Hst as <-.
  destruct (queue_frame p1 ms) as (Q1 & Q2 & Q3 & Q4 & Q5 & Q6 & QL & QR).
  destruct (queue_priv p1 ms) as [Q7 Q8].
  change (dp_config p1) with (dp_config p0) in *. rewrite Hcf in *.
  destruct Q8 as (m & Hm & Em). { apply Hpl. by rewrite sort_by_perm. }
  eexists _, dl, pub, m. split; [reflexivity|].
  cbn [dp_player dp_acks_sent dp_finalized dp_sent_ready dp_seen_messages dp_dealer dp_dealer_logs
       dp_ready_players dp_dealer_pub_msgs dp_dealer_priv_msgs with_dealer with_pub].
  rewrite Q1, Q2, Q3, Q4, Q5, Q6, QL, QR.
  change (dp_dealer_pub_msgs p1) with (dp_dealer_pub_msgs p0). rewrite Hpub.
  split_and!; try done; [|by apply Hdealt]. apply map_eq. intros d.
  destruct (decide (d = my_public_key config)) as [->|Hd].
  - by rewrite Em, lookup_singleton_eq.
  - rewrite Q7 by done. change (dp_dealer_priv_msgs p1) with (dp_dealer_priv_msgs p0).
    by rewrite Hpriv, lookup_singleton_ne.
Qed.

Lemma start_live config t rng p0 p :
  participant_new config t = Ok p0 -> my_public_key config ∈ dk_participants config ->
  start_dealer p0 rng = (p, Ok tt) ->
  dp_dealer_pub_msgs p !! my_public_key config = Some (pubs (my_public_key config)) ->
  alive config (dp_info p0) (dp_ceremony_id p0) true p.
Proof using LAWS.
  intros Hn Hme Hst Hmine. pose proof (inv_start p0 rng (inv_new config t p0 Hn Hme)) as Hi.
  destruct (keeps_apply p0 (OpStart rng)) as [K1 K2 K3 _]. cbn [dkg_apply] in *. rewrite Hst in *. cbn [fst] in *.
  destruct (new_shape config t p0 Hn) as ((pl & Epl & Hpl) & Hcf & _ & _ & S1 & S2 & S3 & S4 & S5 & S6 & _).
  destruct (start_dealt config t rng p0 p Hn Hme Hst)
    as (p3 & dl & pub & m & Ep & D1 & D2 & D3 & D4 & D5 & D6 & D7 & DL & DR & D8 & D9 & D10).
  pose proof (process_frame p3 (my_public_key config)) as (E1 & E2 & E3 & E4 & E5 & E6 & E7 & E8 & E9).
  rewrite <- Ep in *.
  assert (pub = pubs (my_public_key config)) as Epub.
  { rewrite E1, D8, lookup_singleton_eq in Hmine. by injection Hmine. }
  assert (my_public_key config ∈ dp_acks_sent p) as Hack.
  { rewrite Ep. apply (process_acks (dp_info p0) (my_public_key config) _ _ pub m pl); try done.
    - by rewrite D8, lookup_singleton_eq.
    - by rewrite D9, lookup_singleton_eq.
    - by rewrite D1. }
  split; [split; [constructor; try done|]|].
  - by rewrite K1.
  - unfold dp_ceremony_id. by rewrite K3.
  - rewrite Ep. apply process_player.
    + intros x y Hx Hy. rewrite D8, lookup_singleton_eq in Hx. rewrite D9, lookup_singleton_eq in Hy.
      by simplify_eq.
    + exists pl. rewrite D1, D2, S1. split_and!; [done|done|]. by intros d ?%not_elem_of_empty.
  - intros _. exists dl. by rewrite E6.
  - intros d. rewrite E6, D6. intros [= <-]. by rewrite <- Epub.
  - intros d x. rewrite E3, DL, S5. by rewrite lookup_empty.
  - by rewrite E7, D3.
  - rewrite E9, D4, S3. done.
  - intros d x Hd. by rewrite E1, D8, lookup_singleton_ne.
  - intros d x Hd. by rewrite E2, D9, lookup_singleton_ne.
  - intros d _ [x Hx] _. rewrite E1, D8 in Hx. by apply lookup_singleton_Some in Hx as [<- _].
  - intros d k _ Hx. rewrite E5, D5, S4 in Hx. by apply not_elem_of_empty in Hx.
  - intros a _ Hx. rewrite E4, DR, S6 in Hx. by apply not_elem_of_empty in Hx.
Qed.

(** The output that was saved is loaded again. *)
Lemma decode_keys_back ks : decode_keys (hex_encode <$> (write_pk <$> ks)) = Ok (write_pk <$> ks).
Proof using LAWS.
  induction ks as [|k ks IH]; [done|]. cbn [fmap list_fmap decode_keys].
  rewrite hex_law by apply pk_bytes. cbn [map_err]. cbn [fmap] in IH. by rewrite IH.
Qed.

Lemma output_load_save o ks d :
  do_threshold o = quorum (do_participants o) -> participant_keys o = write_pk <$> ks ->
  bytes_ok (group_public_key o) -> bytes_ok (public_polynomial o) -> bytes_ok (share_secret o) ->
  output_load (output_save o d) = Ok o.
Proof using LAWS.
  intros Ht Hk H1 H2 H3. unfold output_load, output_save.
  cbn [output_file share_file ok_or oj_participant_keys oj_participants oj_group_public_key
       oj_public_polynomial sj_secret sj_index].
  rewrite Hk, decode_keys_back, !hex_law by done. cbn [map_err]. rewrite <- Ht, <- Hk. by destruct o.
Qed.


(** An envelope of at most a megabyte is read back from its connection. *)
Lemma envelope_back pk b :
  pk_ok pk -> len b <= 1024 * 1024 ->
  read_envelope (write_pk pk ++ le_bytes 4 (len b) ++ b) = Some (mkEnvelope pk b).
Proof using LAWS.
  intros Hp Hb. pose proof (len_nonneg b) as Hb0. unfold read_envelope.
  rewrite length_app, pk_length, (proj2 (Nat.ltb_ge _ _)) by lia.
  rewrite take_app_length', drop_app_length' by (by rewrite pk_length).
  pose proof (pk_law pk Hp []) as Hr. rewrite app_nil_r in Hr. rewrite Hr. cbn [ok mbind option_bind].
  rewrite length_app, le_bytes_length, (proj2 (Nat.ltb_ge _ _)) by lia.
  rewrite take_app_length', drop_app_length' by (by rewrite le_bytes_length).
  rewrite le_value_bytes by (simpl; lia). rewrite !(proj2 (Z.ltb_ge _ _)) by lia.
  unfold len. rewrite Nat2Z.id, take_ge by lia. done.
Qed.

(** ** The whole run *)

(** Everything that is due arrives, in iterations that lie within one timeout,
    each acknowledgement before the readiness of its gate, and three more
    iterations follow. *)
Definition timely (config : DkgConfig) (i : Info) (sid : B256) (T : Z) (ticks : list Tick) : Prop :=
  ticks_ok config i sid ticks
  /\ Forall (fun t => T <= tk_now t < T + PHASE2_MAX_TIMEOUT_MS) ticks
  /\ (forall a pre e post, a ∈ ackers -> envelopes ticks = pre ++ e :: post ->
        readies config e (gate a) -> mkEnvelope a (payload sid (ack_kind config a)) ∈ pre)
  /\ exists pre post, ticks = pre ++ post /\ (3 <= length post)%nat
     /\ forall d k, due config d k -> delivered sid d k pre.

Section run.
Variables (config : DkgConfig) (i : Info) (sid : B256) (T : Z).
Hypothesis Hh : peers_honest config i.
Hypothesis Hs : in_width 256 sid.

Lemma request_logs_idle now last s : (request_logs config now last s).2.1 = s.1.
Proof.
  unfold request_logs. destruct (negb _ && _ && _); [|done]. by destruct (head _).
Qed.

Lemma phase_grows p phase : grows p (set_phase p phase).
Proof. constructor; try done. eauto. Qed.

Lemma outgoing_grows p v : grows p (with_outgoing p v).
Proof. constructor; try done. eauto. Qed.

(** The shape of a successful end. *)
Definition completed (r : Disk * list (PublicKey * bytes) * result DkgOutput DkgError) : Prop :=
  exists d sent o, r = (d, sent, Ok o) /\ state_file d = None /\ output_load d = Ok o
    /\ do_threshold o = dk_t config /\ do_participants o = dk_n config
    /\ participant_keys o = write_pk <$> dk_participants config.

Lemma final_live w ticks d s :
  alive config i sid false s.1 -> is_Some (dp_dealer_logs s.1 !! my_public_key config) ->
  (forall d, d ∈ dk_participants config -> d ∈ dp_acks_sent s.1) ->
  supplied config i sid T 1 s.1 ticks -> completed (run_final config w ticks d s).
Proof using LAWS Hh Hs.
  intros Hr Hme Hall Hsu. unfold run_final, run_phase4.
  destruct (loop_live config i sid false T can_finalize (request_logs config)
    (CeremonyFailed "Phase 4 timeout") Hh Hs request_logs_idle 0 ticks
    (loop_start ticks + PHASE4_MAX_TIMEOUT_MS) (loop_start ticks - 10000)
    (set_phase s.1 CollectingLogs, s.2) s.1) as (s' & ticks' & -> & Hr' & Hg & Hf & _).
  - apply supplied_deadline in Hsu. unfold PHASE2_MAX_TIMEOUT_MS, PHASE4_MAX_TIMEOUT_MS. lia.
  - by apply alive_phase.
  - apply phase_grows.
  - eapply supplied_grows; [apply phase_grows|done].
  - intros q Hq Hgq He. apply (logs_finished config i sid false); [done| |done].
    apply elem_of_dom, (gr_logs _ _ Hgq). by apply elem_of_dom.
  - destruct (finalize_live config i sid false s'.1 (w_rng_final w) Hr' Hf)
      as (q & o & -> & H1 & H2 & H3 & H4 & H5 & H6).
    { intros d' Hd'. by apply (gr_sent _ _ Hg), Hall. }
    exists (output_save o (with_state (save_state s'.1 (save_state (set_phase s.1 CollectingLogs) d)) None)), s'.2, o.
    split_and!; try done. eapply output_load_save; try done. rewrite H1, H2. done.
Qed.

Lemma middle_live w ticks d s :
  alive config i sid true s.1 -> (forall d, d ∈ dk_participants config -> d ∈ dp_acks_sent s.1) ->
  supplied config i sid T 2 s.1 ticks -> completed (run_middle config w ticks d s).
Proof using LAWS Hh Hs.
  intros Hr Hall Hsu. unfold run_middle, run_phase2_ready.
  destruct (ready_live config i sid true s.1 Hr) as (Hr1 & Hg1 & Hme).
  destruct (loop_live config i sid true T all_ready no_idle (CeremonyFailed "Phase 2.5 timeout")
    Hh Hs ltac:(done) 1 ticks (loop_start ticks + PHASE2_MAX_TIMEOUT_MS) 0
    (send_outgoing config (broadcast_ready s.1, s.2)) (with_outgoing (broadcast_ready s.1) []))
    as (s' & ticks' & -> & Hr' & Hg & Hf & Hsu').
  - apply supplied_deadline in Hsu. lia.
  - exact Hr1.
  - exact (reflexivity _).
  - eapply supplied_grows; [exact Hg1|done].
  - intros q Hq Hgq He. apply (ready_finished config i sid true); [done| |done].
    by apply (gr_ready _ _ Hgq).
  - unfold run_phase3.
    destruct (finalize_dealer_live config i sid s'.1 Hh Hr' Hf) as (q & -> & Hq & Hgq & Hl).
    apply final_live.
    + by apply alive_phase, alive_outgoing.
    + exact Hl.
    + intros d' Hd'. apply (gr_sent _ _ Hgq), (gr_sent _ _ Hg), (gr_sent _ _ Hg1). by apply Hall.
    + eapply supplied_grows; [|exact Hsu']. etrans; [exact Hgq|].
      etrans; [apply outgoing_grows|apply phase_grows].
Qed.

Lemma collect_live w restored d s :
  skip_phase3 restored = false ->
  alive config i sid true s.1 -> supplied config i sid T 3 s.1 (w_ticks w) ->
  completed (run_collect config w restored d s).
Proof using LAWS Hh Hs.
  intros Hsk Hr Hsu. unfold run_collect, run_phase2.
  destruct (loop_live config i sid true T phase2_done no_idle DkgTimeout
    Hh Hs ltac:(done) 2 (w_ticks w) (loop_start (w_ticks w) + PHASE2_MAX_TIMEOUT_MS) 0
    (set_phase s.1 CollectingMessages, s.2) s.1) as (s' & ticks' & -> & Hr' & _ & Hf & Hsu').
  - apply supplied_deadline in Hsu. lia.
  - by apply alive_phase.
  - apply phase_grows.
  - eapply supplied_grows; [apply phase_grows|done].
  - intros q Hq _ He. by apply (phase2_finished config i sid true).
  - rewrite Hsk. apply middle_live; [done|by eapply phase2_acked|done].
Qed.

End run.

(** C17: When the other participants are honest and their messages (dealings,
    acknowledgements of our dealing, readiness and logs) arrive within the
    timeout, the acknowledgements of a quorum each before the readiness of some
    other participant, and otherwise in any order and among any other messages
    that neither deal nor carry a log that fails the validation, a fresh ceremony
    passes all its phases: it waits for everyone's readiness, so that its own
    dealer is closed with the acknowledgements of that quorum, returns an output
    for all participants with the quorum of the group, clears its state, and a
    later start loads the same output. *)
Theorem ceremony_completes (config : DkgConfig) (force : bool) (w : World) (d : Disk) (T : Z) p0
    (Hnew : participant_new config (ceremony_timestamp (w_now_nanos w)) = Ok p0)
    (Hme : my_public_key config ∈ dk_participants config)
    (Hdeal : (start_dealer p0 (w_rng_deal w)).2 = Ok tt)
    (Hmine : dp_dealer_pub_msgs (start_dealer p0 (w_rng_deal w)).1 !! my_public_key config
             = Some (pubs (my_public_key config)))
    (Hdigest : forall b, in_width 256 (sha256 b))
    (Hout : output_exists d = false) (Hstate : state_file d = None)
    (Hpeers : peers_honest config (dp_info p0))
    (Hticks : timely config (dp_info p0) (dp_ceremony_id p0) T (w_ticks w)) :
  exists d' sent o, ceremony_run config force w d = (d', sent, Ok o)
    /\ state_file d' = None
    /\ do_threshold o = dk_t config /\ do_participants o = dk_n config
    /\ participant_keys o = write_pk <$> dk_participants config
    /\ forall force' w', ceremony_run config force' w' d' = (d', [], Ok o).
Proof using LAWS.
  assert (in_width 256 (dp_ceremony_id p0)) as Hw.
  { unfold dp_ceremony_id. destruct (new_shape _ _ _ Hnew) as (_ & _ & _ & _ & _ & _ & _ & _ & _ & _ & ->).
    apply Hdigest. }
  unfold ceremony_run at 1. rewrite Hout.
  replace (if force then with_state d None else d) with d 
    by (destruct force; [destruct d as [st out sh]; simpl in Hstate; by subst|done]).
  unfold obtain_participant, try_restore. rewrite Hstate, Hnew. cbn [skip_phase1].
  destruct (start_dealer p0 (w_rng_deal w)) as [p r] eqn:Est. cbn [fst snd] in *. subst r.
  pose proof (start_live config _ _ p0 p Hnew Hme Est Hmine) as Hr.
  destruct (collect_live config (dp_info p0) (dp_ceremony_id p0) T Hpeers Hw w None
    (save_state (set_phase p DealerStarted) d)
    (send_outgoing config (set_phase p DealerStarted, []))) as (d' & sent & o & E & H1 & H2 & H3 & H4 & H5).
  - done.
  - by apply alive_outgoing, alive_phase.
  - destruct Hticks as (H1 & H2 & H3 & pre & post & E & Hn & Hd). split; [done|done| |].
    + intros a pr e po Ha Ee Hre. right. by eapply H3.
    + exists pre, post. split; [done|]. split; [done|]. intros d0 k Hk. right. by apply Hd.
  - exists d', sent, o. rewrite E. split_and!; try done. intros force' w'. unfold ceremony_run.
    replace (output_exists d') with true; [by rewrite H2|].
    unfold output_load in H2. unfold output_exists.
    destruct (output_file d'); [|done]. by destruct (share_file d').
Qed.

End live.

(** ** A witness: two participants *)

(** A digest that tells apart the messages of the witness: the tag and the last
    byte of the key that follows it. *)
#[local] Instance tag_sha : Sha256 :=
  {| sha256 := fun b => (256 * default 0 (b !! 34%nat) + default 0 (b !! 66%nat)) `mod` 65536 |}.

Definition toy_pub (d : PublicKey) : @DealerPubMsg toy_lib := (5 : @DealerPubMsg toy_lib).
Definition toy_priv (d : PublicKey) : @DealerPrivMsg toy_lib := (true : @DealerPrivMsg toy_lib).
Definition toy_log (d : PublicKey) : @SignedDealerLog toy_lib := ((d, true) : @SignedDealerLog toy_lib).
Definition toy_ack (d : PublicKey) : @PlayerAck toy_lib := (true : @PlayerAck toy_lib).
Definition toy_gate (d : PublicKey) : PublicKey := 2.

Definition live_fresh : @DkgParticipant toy_lib :=
  mkParticipant toy_config (([1; 2], [1; 2]) : @Info toy_lib) (Some ((1, []) : @Player toy_lib)) None
    (session_new 7 [1; 2] 0) ∅ [] ∅ ∅ ∅ ∅ None false ∅ ∅ false AwaitingStart 0.

Definition live_sid : B256 := dp_ceremony_id live_fresh.

(** What arrives: our own acknowledgement, and the messages of the second
    participant. *)
Definition live_msgs : list (PublicKey * @ProtocolMessageKind toy_lib) :=
  [(1, ack_kind toy_ack toy_config 1); (2, ack_kind toy_ack toy_config 2);
   (2, DealerPublic 2 (toy_pub 2)); (2, DealerPrivate 2 (toy_priv 2)); (2, Ready 2);
   (2, DealerLogMsg (toy_log 2))].

Definition live_stream (m : PublicKey * @ProtocolMessageKind toy_lib) : bytes :=
  write_pk m.1 ++ le_bytes 4 (len (payload live_sid m.2)) ++ payload live_sid m.2.

Definition live_ticks : list Tick :=
  [mkTick 10 (live_stream <$> live_msgs); mkTick 20 []; mkTick 30 []; mkTick 40 []].

Definition live_world : @World toy_lib :=
  mkWorld 0 (5 : @Rng toy_lib) (6 : @Rng toy_lib) live_ticks.

Lemma live_fresh_new : participant_new toy_config (ceremony_timestamp 0) = Ok live_fresh.
Proof.
  unfold participant_new. replace (participant_set (dk_participants toy_config)) with (Some [1; 2])
    by (vm_compute; reflexivity). reflexivity.
Qed.

Lemma tag_digest b : in_width 256 (sha256 b).
Proof.
  unfold in_width. cbn [sha256 tag_sha].
  pose proof (Z.mod_pos_bound (256 * default 0 (b !! 34%nat) + default 0 (b !! 66%nat)) 65536). lia.
Qed.

Lemma live_due d k :
  due toy_pub toy_priv toy_log toy_ack [1; 2] toy_config d k -> (d, k) ∈ live_msgs.
Proof.
  intros [H1 H2]. cbn in H1. apply elem_of_cons in H1 as [->|H1]; [|apply list_elem_of_singleton in H1 as ->];
    destruct H2 as [[Hne Hk]|[_ ->]].
  - by destruct Hne.
  - apply elem_of_cons. by left.
  - unfold live_msgs. rewrite !elem_of_cons.
    repeat (apply elem_of_cons in Hk as [->|Hk]); [tauto..|]. by apply elem_of_nil in Hk.
  - apply elem_of_cons. right. apply elem_of_cons. by left.
Qed.

(** The cases of a message that arrives. *)
Ltac live_cases H :=
  unfold live_msgs in H; rewrite !elem_of_cons, elem_of_nil in H;
  destruct H as [H|[H|[H|[H|[H|[H|[]]]]]]]; simplify_eq.

Lemma live_of d k :
  (d, k) ∈ live_msgs -> due toy_pub toy_priv toy_log toy_ack [1; 2] toy_config d k.
Proof.
  intros H. live_cases H; (split; [cbn; rewrite !elem_of_cons; tauto|]);
    [right; split; [rewrite !elem_of_cons; tauto|done]..| | | |]; left;
    (split; [cbn; discriminate|unfold honest_kinds; rewrite !elem_of_cons; tauto]).
Qed.

Lemma live_read m :
  m ∈ live_msgs -> read_envelope (live_stream m) = Some (mkEnvelope m.1 (payload live_sid m.2)).
Proof.
  intros H. destruct m as [d k]. apply envelope_back; live_cases H; cbn [fst snd];
    solve [cbn; unfold in_width; lia|vm_compute; discriminate].
Qed.

Definition live_envelopes : list Envelope :=
  (fun m => mkEnvelope m.1 (payload live_sid m.2)) <$> live_msgs.

Lemma live_poll : poll_incoming (live_stream <$> live_msgs) = live_envelopes.
Proof.
  unfold poll_incoming, live_envelopes. pose proof live_read as H. revert H. generalize live_msgs.
  intros l. induction l as [|m l IH]; intros H; [done|]. rewrite !fmap_cons. cbn [omap list_omap].
  rewrite H by (apply elem_of_cons; by left). f_equal. apply IH. intros k' Hk'.
  apply H, elem_of_cons. by right.
Qed.

Lemma live_peers :
  peers_honest toy_pub toy_priv toy_log toy_ack [1; 2] toy_gate toy_config (dp_info live_fresh).
Proof.
  split.
  - done.
  - intros d Hd _. exists true. cbn in *. by rewrite bool_decide_eq_true_2.
  - intros d k H%live_due. live_cases H; cbn; unfold in_width, toy_pub, toy_log; simpl; lia.
  - intros d Hd. by split.
  - intros d _. split; [cbn; rewrite !elem_of_cons; tauto|cbn; discriminate].
  - repeat constructor; rewrite ?elem_of_cons, ?elem_of_nil; lia.
  - vm_compute. discriminate.
Qed.

Lemma live_envelope m :
  m ∈ live_msgs ->
  envelope_ok toy_pub toy_priv toy_log toy_ack [1; 2] toy_config (dp_info live_fresh) live_sid
    (mkEnvelope m.1 (payload live_sid m.2)).
Proof.
  intros Hm. split; cbn [ev_from ev_payload].
  - left. exists m.2. split; [|done]. apply live_of. by destruct m.
  - intros d k H%live_due. live_cases Hm; live_cases H; cbn [snd];
      lazymatch goal with
      | |- _ -> ?x = ?x => intros _; reflexivity
      | |- _ => intros E; exfalso; revert E; vm_compute; discriminate
      end.
Qed.

Lemma after_two {A} (x y : A) l pre e post :
  x :: y :: l = pre ++ e :: post -> e = x \/ e = y \/ (x ∈ pre /\ y ∈ pre).
Proof.
  destruct pre as [|a [|b pre]]; cbn [app]; intros H; simplify_eq; [by left|by right; left|].
  right; right. rewrite !elem_of_cons. tauto.
Qed.

(** Both acknowledgements come first. *)
Lemma live_first a pre e post :
  a ∈ [1; 2] -> envelopes live_ticks = pre ++ e :: post -> readies toy_config e (toy_gate a) ->
  mkEnvelope a (payload live_sid (ack_kind toy_ack toy_config a)) ∈ pre.
Proof.
  assert (envelopes live_ticks = live_envelopes ++ []) as ->.
  { unfold envelopes, live_ticks. cbn [mbind list_bind tk_streams]. by rewrite live_poll. }
  rewrite app_nil_r. unfold live_envelopes, live_msgs. rewrite !fmap_cons.
  intros Ha Hpre [Hf (m & Hm & Hk)]. apply after_two in Hpre as [->|[->|[H1 H2]]].
  - discriminate Hf.
  - assert ((2, ack_kind toy_ack toy_config 2) ∈ live_msgs) as Hd
      by (unfold live_msgs; rewrite !elem_of_cons; tauto).
    cbn [ev_payload fst snd] in Hm.
    rewrite (payload_back _ _ _ _ _ _ _ _ live_sid _ _ live_peers (tag_digest _) (live_of _ _ Hd)) in Hm.
    injection Hm as <-. discriminate Hk.
  - rewrite !elem_of_cons in Ha. by destruct Ha as [->|[->|[]%elem_of_nil]].
Qed.

Lemma live_timely :
  timely toy_pub toy_priv toy_log toy_ack [1; 2] toy_gate toy_config (dp_info live_fresh) live_sid 0 live_ticks.
Proof.
  split; [|split; [|split]].
  - apply Forall_cons. split.
    + cbn [tk_streams]. rewrite live_poll. apply Forall_fmap, Forall_forall.
      intros m Hm. by apply live_envelope.
    + repeat (apply Forall_cons; split; [by constructor|]). by constructor.
  - repeat constructor; cbn; lia.
  - exact live_first.
  - exists (take 1 live_ticks), (drop 1 live_ticks). split; [by rewrite take_drop|]. split; [cbn; lia|].
    intros d k H%live_due. eexists. split; [by apply list_elem_of_singleton|].
    cbn [tk_streams]. rewrite live_poll. apply list_elem_of_fmap. by exists (d, k).
Qed.

Lemma ceremony_completes_witness :
  exists d' sent o, ceremony_run toy_config false live_world (mkDisk None None None) = (d', sent, Ok o)
    /\ do_threshold o = 2.
Proof.
  destruct (ceremony_completes toy_pub toy_priv toy_log toy_ack [1; 2] toy_gate toy_config false live_world
    (mkDisk None None None) 0 live_fresh) as (d' & sent & o & H1 & _ & H2 & _).
  - exact live_fresh_new.
  - apply toy_me.
  - reflexivity.
  - vm_compute. reflexivity.
  - apply tag_digest.
  - reflexivity.
  - reflexivity.
  - apply live_peers.
  - apply live_timely.
  - exists d', sent, o. split; [exact H1|]. rewrite H2. reflexivity.
Defined.
