(* ===== verification/Rpc.v ===== *)
(** The types, errors and state provider of the JSON-RPC server
    (crates/node/rpc/src/types.rs, error.rs, state_provider.rs and
    indexed_provider.rs): block tags, log filters, the codes of errors, and the
    provider that answers from the block index, the live state and the
    executor. *)
From S2P Require Import Prelude TxTypes StateDb Changes Bytes QmdbState Executor Execute Indexer.
From stdpp Require Import pretty.
Open Scope Z_scope.

(** ** Types (types.rs) *)

Inductive BlockTag : Type :=
| Earliest
| Finalized
| Safe
| Latest
| PendingTag.

Inductive BlockNumberOrTag : Type :=
| Number (n : u64)
| Tag (tag : BlockTag)
| LatestDefault.

Definition is_pending (b : BlockNumberOrTag) : bool :=
  match b with Tag PendingTag => true | _ => false end.
Definition is_latest (b : BlockNumberOrTag) : bool :=
  match b with Tag Latest | LatestDefault => true | _ => false end.

Definition EMPTY_UNCLE_HASH : B256 :=
  0x1dcc4de8dec75d7aab85b567b6ccd41ad312451b948a7413f0a142fd40d49347.
Definition EMPTY_WITHDRAWALS_ROOT : B256 :=
  0x56e81f171bcc55a6ff8345e692c0f86e5b48e01b996cadc001622fb5e363b421.

Record RpcTransaction := mkRpcTx {
  rt_hash : B256; rt_nonce : u64; rt_block_hash : option B256; rt_block_number : option u64;
  rt_transaction_index : option u64; rt_from : Address; rt_to : option Address; rt_value : U256;
  rt_gas : u64; rt_gas_price : U256; rt_input : bytes; rt_tx_type : u64; rt_chain_id : option u64;
  rt_max_fee_per_gas : option U256; rt_max_priority_fee_per_gas : option U256;
  rt_v : U256; rt_r : U256; rt_s : U256;
}.

Inductive BlockTransactions : Type :=
| Hashes (hashes : list B256)
| Full (txs : list RpcTransaction).

Record RpcBlock := mkRpcBlock {
  rb_hash : B256; rb_parent_hash : B256; rb_sha3_uncles : B256; rb_number : u64;
  rb_state_root : B256; rb_transactions_root : B256; rb_receipts_root : B256;
  rb_logs_bloom : bytes; rb_timestamp : u64; rb_gas_limit : u64; rb_gas_used : u64;
  rb_extra_data : bytes; rb_mix_hash : B256; rb_nonce : u64; rb_base_fee_per_gas : option U256;
  rb_miner : Address; rb_difficulty : U256; rb_total_difficulty : U256; rb_uncles : list B256;
  rb_size : u64; rb_transactions : BlockTransactions; rb_withdrawals : list unit;
  rb_withdrawals_root : B256;
}.

Record RpcLog := mkRpcLog {
  rl_address : Address; rl_topics : list B256; rl_data : bytes; rl_block_number : u64;
  rl_transaction_hash : B256; rl_transaction_index : u64; rl_block_hash : B256;
  rl_log_index : u64; rl_removed : bool;
}.

Record RpcTransactionReceipt := mkRpcReceipt {
  rr_transaction_hash : B256; rr_transaction_index : u64; rr_block_hash : B256;
  rr_block_number : u64; rr_from : Address; rr_to : option Address; rr_cumulative_gas_used : u64;
  rr_gas_used : u64; rr_contract_address : option Address; rr_logs : list RpcLog;
  rr_logs_bloom : bytes; rr_tx_type : u64; rr_status : u64; rr_effective_gas_price : U256;
}.

Record CallRequest := mkCallRequest {
  cr_from : option Address; cr_to : option Address; cr_gas : option u64;
  cr_gas_price : option U256; cr_max_fee_per_gas : option U256;
  cr_max_priority_fee_per_gas : option U256; cr_value : option U256; cr_input : option bytes;
  cr_data : option bytes; cr_nonce : option u64; cr_chain_id : option u64;
}.

(** [Option::or]. *)
Definition option_or {A} (a b : option A) : option A :=
  match a with Some _ => a | None => b end.

Definition input_data (r : CallRequest) : bytes := default [] (option_or (cr_input r) (cr_data r)).

(** [AddressFilter] and [TopicFilter]: one value or several. *)
Inductive OneOrMany : Type :=
| Single (x : Z)
| Multiple (xs : list Z).
Definition into_vec (f : OneOrMany) : list Z :=
  match f with Single x => [x] | Multiple xs => xs end.

Record RpcLogFilter := mkRpcLogFilter {
  rf_from_block : option BlockNumberOrTag;
  rf_to_block : option BlockNumberOrTag;
  rf_address : option OneOrMany;
  rf_topics : option (list (option OneOrMany));
  rf_block_hash : option B256;
}.

Record SyncInfo := mkSyncInfo {
  si_starting_block : u64; si_current_block : u64; si_highest_block : u64;
}.
Inductive SyncStatus : Type :=
| Syncing (info : SyncInfo)
| NotSyncing (b : bool).

(** ** Errors (error.rs) *)

Inductive RpcError : Type :=
| BlockNotFound
| TransactionNotFound
| FilterNotFound
| RpcAccountNotFound (address : string)
| InvalidBlockNumber (msg : string)
| InvalidTransaction (msg : string)
| ExecutionFailed (msg : string)
| ExecutionReverted (data : option bytes)
| StateError (msg : string)
| Internal (msg : string)
| NotImplemented
| InvalidParams (msg : string)
| Unsupported (msg : string).

(** The codes the server answers with. *)
Definition PARSE_ERROR : Z := -32700.
Definition INVALID_REQUEST : Z := -32600.
Definition METHOD_NOT_FOUND : Z := -32601.
Definition INVALID_PARAMS : Z := -32602.
Definition INTERNAL_ERROR : Z := -32603.
Definition SERVER_ERROR : Z := -32000.
Definition RESOURCE_NOT_FOUND : Z := -32001.
Definition RESOURCE_UNAVAILABLE : Z := -32002.
Definition TRANSACTION_REJECTED : Z := -32003.
Definition METHOD_NOT_SUPPORTED : Z := -32004.
Definition LIMIT_EXCEEDED : Z := -32005.
Definition EXECUTION_ERROR : Z := -32015.
Definition EXECUTION_REVERTED : Z := 3.

(** [RpcError]'s [Display]. *)
Definition rpc_error_message (e : RpcError) : string :=
  match e with
  | BlockNotFound => "block not found"
  | TransactionNotFound => "transaction not found"
  | FilterNotFound => "filter not found"
  | RpcAccountNotFound a => "account not found: " +:+ a
  | InvalidBlockNumber m => "invalid block number: " +:+ m
  | InvalidTransaction m => "invalid transaction: " +:+ m
  | ExecutionFailed m => "execution failed: " +:+ m
  | ExecutionReverted _ => "execution reverted"
  | StateError m => "state error: " +:+ m
  | Internal m => "internal error: " +:+ m
  | NotImplemented => "method not implemented"
  | InvalidParams m => "invalid params: " +:+ m
  | Unsupported m => "unsupported: " +:+ m
  end.

(** jsonrpsee's [ErrorObjectOwned]: code, message and data. *)
Record ErrorObject := mkErrorObject {
  eob_code : Z; eob_message : string; eob_data : option bytes;
}.

Definition error_object (e : RpcError) : ErrorObject :=
  match e with
  | ExecutionReverted data => mkErrorObject EXECUTION_REVERTED "execution reverted" data
  | _ =>
      let code :=
        match e with
        | BlockNotFound | TransactionNotFound | RpcAccountNotFound _ => RESOURCE_NOT_FOUND
        | FilterNotFound => SERVER_ERROR
        | InvalidBlockNumber _ | InvalidTransaction _ | InvalidParams _ | Unsupported _ =>
            INVALID_PARAMS
        | ExecutionFailed _ => EXECUTION_ERROR
        | StateError _ | Internal _ => INTERNAL_ERROR
        | NotImplemented => METHOD_NOT_SUPPORTED
        | ExecutionReverted _ => EXECUTION_REVERTED
        end in
      mkErrorObject code (rpc_error_message e) None
  end.

(** ** The provider interface (state_provider.rs) *)

Class StateProvider (S : Type) := {
  sp_balance : S -> Address -> option BlockNumberOrTag -> result U256 RpcError;
  sp_nonce : S -> Address -> option BlockNumberOrTag -> result u64 RpcError;
  sp_code : S -> Address -> option BlockNumberOrTag -> result bytes RpcError;
  sp_storage : S -> Address -> U256 -> option BlockNumberOrTag -> result U256 RpcError;
  sp_block_by_number : S -> BlockNumberOrTag -> bool -> result (option RpcBlock) RpcError;
  sp_block_by_hash : S -> B256 -> bool -> result (option RpcBlock) RpcError;
  sp_transaction_by_hash : S -> B256 -> result (option RpcTransaction) RpcError;
  sp_receipt_by_hash : S -> B256 -> result (option RpcTransactionReceipt) RpcError;
  sp_block_number : S -> result u64 RpcError;
  sp_call : S -> CallRequest -> option BlockNumberOrTag -> result bytes RpcError;
  sp_estimate_gas : S -> CallRequest -> option BlockNumberOrTag -> result u64 RpcError;
  sp_get_logs : S -> RpcLogFilter -> result (list RpcLog) RpcError;
}.

(** [NoopStateProvider]; the last three methods are the trait's own. *)
#[export] Instance NoopStateProvider : StateProvider unit := {|
  sp_balance := fun _ _ _ => Ok 0;
  sp_nonce := fun _ _ _ => Ok 0;
  sp_code := fun _ _ _ => Ok [];
  sp_storage := fun _ _ _ _ => Ok 0;
  sp_block_by_number := fun _ _ _ => Ok None;
  sp_block_by_hash := fun _ _ _ => Ok None;
  sp_transaction_by_hash := fun _ _ => Ok None;
  sp_receipt_by_hash := fun _ _ => Ok None;
  sp_block_number := fun _ => Err NotImplemented;
  sp_call := fun _ _ _ => Err NotImplemented;
  sp_estimate_gas := fun _ _ _ => Err NotImplemented;
  sp_get_logs := fun _ _ => Err NotImplemented;
|}.

(** ** The indexed provider (indexed_provider.rs) *)

Definition MAX_LOG_BLOCK_RANGE : u64 := 10000.

(** alloy's [Display] of an address and of a hash. *)
Class Display := {
  show_address : Address -> string;
  show_b256 : B256 -> string;
}.

(** [Display] of an unsigned integer. *)
Definition show_u64 (n : u64) : string := pretty (Z.to_N n).

Definition show_tag (t : BlockTag) : string :=
  match t with
  | Earliest => "Earliest"
  | Finalized => "Finalized"
  | Safe => "Safe"
  | Latest => "Latest"
  | PendingTag => "Pending"
  end.

Definition log_to_rpc (l : IndexedLog) : RpcLog :=
  mkRpcLog (il_address l) (il_topics l) (il_data l) (il_block_number l) (il_transaction_hash l)
    (il_transaction_index l) (il_block_hash l) (il_log_index l) false.

Definition indexed_tx_to_rpc (tx : IndexedTransaction) : RpcTransaction :=
  mkRpcTx (it_hash tx) (it_nonce tx) (Some (it_block_hash tx)) (Some (it_block_number tx))
    (Some (it_index tx)) (it_from tx) (it_to tx) (it_value tx) (it_gas_limit tx)
    (it_gas_price tx) (it_input tx) (it_tx_type tx) (it_chain_id tx) (it_max_fee_per_gas tx)
    (it_max_priority_fee_per_gas tx) (it_v tx) (it_r tx) (it_s tx).

(** A bloom filter is 256 bytes. *)
Definition indexed_receipt_to_rpc (r : IndexedReceipt) : RpcTransactionReceipt :=
  mkRpcReceipt (ir_transaction_hash r) (ir_transaction_index r) (ir_block_hash r)
    (ir_block_number r) (ir_from r) (ir_to r) (ir_cumulative_gas_used r) (ir_gas_used r)
    (ir_contract_address r) (log_to_rpc <$> ir_logs r) (be_bytes 256 (ir_logs_bloom r))
    (ir_tx_type r) (if ir_status r then 1 else 0) (ir_effective_gas_price r).

Definition call_request_to_params (req : CallRequest) : CallParams :=
  let gas_price := Z.min u128_max (default 0 (option_or (cr_gas_price req) (cr_max_fee_per_gas req))) in
  mkCallParams (default 0 (cr_from req)) (cr_to req) (default 0 (cr_value req)) (input_data req)
    (cr_gas req) gas_price (default 0 (cr_nonce req)).

Section provider.
Context `{EXT : !External} `{RV : !Revm} `{DSP : !Display}.

(** The messages of the executor's header checks. *)
Definition header_fault_message (f : HeaderFault) : string :=
  match f with
  | NumberNotSequential e g =>
      "block number not sequential: expected " +:+ show_u64 e +:+ ", got " +:+ show_u64 g
  | ParentHashMismatch e g =>
      "parent hash mismatch: expected " +:+ show_b256 e +:+ ", got " +:+ show_b256 g
  | TimestampBackwards p c =>
      "timestamp moved backwards: parent " +:+ show_u64 p +:+ ", current " +:+ show_u64 c
  | GasLimitBelow l m => "gas limit " +:+ show_u64 l +:+ " below minimum " +:+ show_u64 m
  | GasLimitAbove l m => "gas limit " +:+ show_u64 l +:+ " above maximum " +:+ show_u64 m
  | GasLimitDelta d m =>
      "gas limit change " +:+ show_u64 d +:+ " exceeds maximum delta " +:+ show_u64 m
  | MissingBaseFee => "missing base fee in EIP-1559 block"
  | BaseFeeMismatch e g =>
      "base fee mismatch: expected " +:+ show_u64 e +:+ ", got " +:+ show_u64 g
  end.

Definition state_error_to_rpc (e : StateDbError) : RpcError :=
  match e with
  | AccountNotFound a => RpcAccountNotFound (show_address a)
  | CodeNotFound h => StateError ("code not found: " +:+ show_b256 h)
  | Storage msg => StateError msg
  | LockPoisoned => Internal "lock poisoned"
  | RootComputation msg => StateError msg
  end.

Definition execution_error_to_rpc (e : ExecutionError) : RpcError :=
  match e with
  | ExRevert data => ExecutionReverted (Some data)
  | TxExecution msg | InvalidTx msg | TxDecode msg => ExecutionFailed msg
  | BlockValidation f => ExecutionFailed (header_fault_message f)
  | ExState s => state_error_to_rpc s
  | ExCodeNotFound h => StateError ("code not found: " +:+ show_b256 h)
  | StateCommit => Internal "QMDB commit failed during block execution"
  end.

Context {St : Type} `{SDB : !StateDbRead St}.

Record IndexedStateProvider := mkProvider {
  ip_index : BlockIndex;
  ip_state : St;
  ip_executor : ExecutionConfig;
  ip_fee_recipient : Address;
}.

Definition with_chain_id (index : BlockIndex) (state : St) (chain_id : u64) : IndexedStateProvider :=
  mkProvider index state (ExecutionConfig_new chain_id) 0.

Definition resolve_tag (p : IndexedStateProvider) (tag : BlockTag) : u64 :=
  match tag with
  | Latest | Safe | Finalized | PendingTag => head_block_number (ip_index p)
  | Earliest => 0
  end.

Definition resolve_block_number (p : IndexedStateProvider) (b : BlockNumberOrTag) : u64 :=
  match b with
  | Number n => n
  | Tag tag => resolve_tag p tag
  | LatestDefault => head_block_number (ip_index p)
  end.

Definition reject_historical_block (p : IndexedStateProvider) (b : option BlockNumberOrTag)
    : result unit RpcError :=
  match b with
  | None | Some LatestDefault | Some (Tag (Latest | PendingTag | Safe | Finalized)) => Ok tt
  | Some (Number requested) =>
      let head := head_block_number (ip_index p) in
      if requested =? head then Ok tt
      else if head <? requested
      then Err (InvalidBlockNumber ("block not yet available (requested " +:+ show_u64 requested
                  +:+ ", head " +:+ show_u64 head +:+ ")"))
      else Err (Unsupported ("historical state not available (block " +:+ show_u64 requested
                  +:+ ")"))
  | Some (Tag tag) =>
      Err (Unsupported ("historical state not available (tag " +:+ show_tag tag +:+ ")"))
  end.

Definition indexed_block_to_rpc (p : IndexedStateProvider) (b : IndexedBlock) (full : bool)
    : RpcBlock :=
  let transactions :=
    if full then Full (indexed_tx_to_rpc <$> get_transactions_for_block (ip_index p) (ib_hash b))
    else Hashes (ib_transaction_hashes b) in
  mkRpcBlock (ib_hash b) (ib_parent_hash b) EMPTY_UNCLE_HASH (ib_number b) (ib_state_root b)
    (ib_transactions_root b) (ib_receipts_root b) (be_bytes 256 (ib_logs_bloom b))
    (ib_timestamp b) (ib_gas_limit b) (ib_gas_used b) [] (ib_mix_hash b) 0
    (ib_base_fee_per_gas b) (ip_fee_recipient p) 0 0 [] (ib_size b) transactions []
    EMPTY_WITHDRAWALS_ROOT.

(** [block_context_for]; block 0 of an empty index has a default context. *)
Definition block_context_for (p : IndexedStateProvider) (b : option BlockNumberOrTag)
    : BlockContext :=
  let ix := ip_index p in
  let block_num := match b with
                   | Some b => resolve_block_number p b
                   | None => head_block_number ix
                   end in
  let recent_hashes := recent_block_hashes ix block_num in
  match get_block_by_number ix block_num with
  | Some indexed =>
      let header := mkHeader 0 0 (ib_number indexed) (ib_gas_limit indexed) 0
                      (ib_timestamp indexed) (ib_base_fee_per_gas indexed) in
      with_recent_block_hashes (BlockContext_new header (ib_parent_hash indexed) 0) recent_hashes
  | None => BlockContext_new (mkHeader 0 0 0 30000000 0 0 (Some 1000000000)) 0 0
  end.

(** A read of the state in which an unknown account is [z]. *)
Definition account_or {A} (z : A) (r : result A StateDbError) : result A RpcError :=
  match r with
  | Ok x => Ok x
  | Err (AccountNotFound _) => Ok z
  | Err e => Err (state_error_to_rpc e)
  end.

Definition provider_balance (p : IndexedStateProvider) (address : Address)
    (b : option BlockNumberOrTag) : result U256 RpcError :=
  let? _ := reject_historical_block p b in account_or 0 (st_balance (ip_state p) address).

Definition provider_nonce (p : IndexedStateProvider) (address : Address)
    (b : option BlockNumberOrTag) : result u64 RpcError :=
  let? _ := reject_historical_block p b in account_or 0 (st_nonce (ip_state p) address).

Definition provider_code (p : IndexedStateProvider) (address : Address)
    (b : option BlockNumberOrTag) : result bytes RpcError :=
  let? _ := reject_historical_block p b in
  match st_code_hash (ip_state p) address with
  | Err (AccountNotFound _) => Ok []
  | Err e => Err (state_error_to_rpc e)
  | Ok code_hash =>
      if (code_hash =? 0) || (code_hash =? KECCAK256_EMPTY) then Ok []
      else
        match st_code (ip_state p) code_hash with
        | Ok code => Ok code
        | Err (CodeNotFound _) => Ok []
        | Err e => Err (state_error_to_rpc e)
        end
  end.

Definition provider_storage (p : IndexedStateProvider) (address : Address) (slot : U256)
    (b : option BlockNumberOrTag) : result U256 RpcError :=
  let? _ := reject_historical_block p b in account_or 0 (st_storage (ip_state p) address slot).

Definition provider_block_by_number (p : IndexedStateProvider) (b : BlockNumberOrTag)
    (full : bool) : result (option RpcBlock) RpcError :=
  Ok ((fun b => indexed_block_to_rpc p b full)
        <$> get_block_by_number (ip_index p) (resolve_block_number p b)).

Definition provider_block_by_hash (p : IndexedStateProvider) (hash : B256) (full : bool)
    : result (option RpcBlock) RpcError :=
  Ok ((fun b => indexed_block_to_rpc p b full) <$> get_block_by_hash (ip_index p) hash).

Definition provider_call (p : IndexedStateProvider) (req : CallRequest)
    (b : option BlockNumberOrTag) : result bytes RpcError :=
  let? _ := reject_historical_block p b in
  map_err execution_error_to_rpc
    (simulate_call (ip_executor p) (ip_state p) (call_request_to_params req)
       (block_context_for p b)).

Definition provider_estimate_gas (p : IndexedStateProvider) (req : CallRequest)
    (b : option BlockNumberOrTag) : result u64 RpcError :=
  let? _ := reject_historical_block p b in
  map_err execution_error_to_rpc
    (estimate_gas (ip_executor p) (ip_state p) (call_request_to_params req)
       (block_context_for p b)).

(** The positions of a filter's topics; [LogFilter] has four. *)
Fixpoint add_topics (f : LogFilter) (i : nat) (topics : list (option OneOrMany)) : LogFilter :=
  match topics with
  | [] => f
  | None :: topics => add_topics f (S i) topics
  | Some t :: topics => add_topics (filter_topic f i (into_vec t)) (S i) topics
  end.

Definition add_criteria (f : LogFilter) (filter : RpcLogFilter) : LogFilter :=
  let f := match rf_address filter with
           | Some a => filter_address f (into_vec a)
           | None => f
           end in
  match rf_topics filter with Some ts => add_topics f 0 ts | None => f end.

(** The block range of a query, or why it is refused. *)
Definition log_range (p : IndexedStateProvider) (filter : RpcLogFilter)
    : result (u64 * u64) RpcError :=
  if is_some (rf_block_hash filter)
     && (is_some (rf_from_block filter) || is_some (rf_to_block filter))
  then Err (InvalidParams "blockHash is mutually exclusive with fromBlock/toBlock")
  else
    match rf_block_hash filter with
    | Some block_hash =>
        let? block := ok_or (get_block_by_hash (ip_index p) block_hash)
                        (InvalidParams "block not found") in
        Ok (ib_number block, ib_number block)
    | None =>
        let head := head_block_number (ip_index p) in
        let from := default 0 (resolve_block_number p <$> rf_from_block filter) in
        let to := Z.min (default head (resolve_block_number p <$> rf_to_block filter)) head in
        if to <? from then Err (InvalidParams "fromBlock must not be greater than toBlock")
        else if MAX_LOG_BLOCK_RANGE <? saturating_sub to from
        then Err (InvalidParams ("block range exceeds maximum of " +:+ show_u64 MAX_LOG_BLOCK_RANGE))
        else Ok (from, to)
    end.

Definition provider_get_logs (p : IndexedStateProvider) (filter : RpcLogFilter)
    : result (list RpcLog) RpcError :=
  let? (from, to) := log_range p filter in
  let log_filter := add_criteria (filter_to_block (filter_from_block LogFilter_new from) to) filter in
  Ok (log_to_rpc <$> get_logs (ip_index p) log_filter).

#[export] Instance indexed_provider : StateProvider IndexedStateProvider := {|
  sp_balance := provider_balance;
  sp_nonce := provider_nonce;
  sp_code := provider_code;
  sp_storage := provider_storage;
  sp_block_by_number := provider_block_by_number;
  sp_block_by_hash := provider_block_by_hash;
  sp_transaction_by_hash := fun p hash => Ok (indexed_tx_to_rpc <$> get_transaction (ip_index p) hash);
  sp_receipt_by_hash := fun p hash => Ok (indexed_receipt_to_rpc <$> get_receipt (ip_index p) hash);
  sp_block_number := fun p => Ok (head_block_number (ip_index p));
  sp_call := provider_call;
  sp_estimate_gas := provider_estimate_gas;
  sp_get_logs := provider_get_logs;
|}.

End provider.
Arguments IndexedStateProvider : clear implicits.

(** ** What the provider answers *)

(** What a filter asks of a log: one of the addresses and, at each of the first
    four positions with topics, one of them. *)
Definition wanted (f : RpcLogFilter) (l : IndexedLog) : Prop :=
  (forall a, rf_address f = Some a -> il_address l ∈ into_vec a) /\
  (forall ts i t, rf_topics f = Some ts -> (i < 4)%nat -> ts !! i = Some (Some t) ->
     exists x, il_topics l !! i = Some x /\ x ∈ into_vec t).

(** A position of the topics of a [LogFilter] is met. *)
Definition topic_met (log_topics : list B256) (i : nat) (f : option (list B256)) : Prop :=
  forall allowed, f = Some allowed -> exists x, log_topics !! i = Some x /\ x ∈ allowed.

Lemma matches_topics_spec lt fs :
  matches_topics lt fs = true <-> forall i f, fs !! i = Some f -> topic_met lt i f.
Proof.
  revert lt. induction fs as [|f fs IH]; intros lt; simpl; [split; [intros _ ? ? [=]|done]|].
  rewrite andb_true_iff, IH. split.
  - intros [Hf Hr] [|i] g Hg; simpl in Hg; simplify_eq.
    + intros allowed ->. destruct lt as [|x lt]; [done|]. apply bool_decide_eq_true in Hf. eauto.
    + intros allowed ->. destruct (Hr _ _ Hg allowed eq_refl) as (x & Hx & ?).
      exists x. split; [|done]. by destruct lt.
  - intros H. split.
    + destruct f as [allowed|]; [|done].
      destruct (H O _ eq_refl allowed eq_refl) as (x & Hx & Hin). destruct lt; [done|].
      simpl in Hx. simplify_eq. by apply bool_decide_eq_true.
    + intros i g Hg allowed ->. destruct (H (S i) _ Hg allowed eq_refl) as (x & Hx & ?).
      exists x. split; [|done]. by destruct lt.
Qed.

Lemma filter_topic_fields f i ts :
  lf_from_block (filter_topic f i ts) = lf_from_block f
  /\ lf_to_block (filter_topic f i ts) = lf_to_block f
  /\ lf_address (filter_topic f i ts) = lf_address f
  /\ (length (lf_topics f) = 4%nat ->
      length (lf_topics (filter_topic f i ts)) = 4%nat
      /\ forall j, lf_topics (filter_topic f i ts) !! j =
           if decide (i = j /\ (i < 4)%nat) then Some (Some ts) else lf_topics f !! j).
Proof.
  unfold filter_topic. destruct (Nat.ltb_spec i 4); cbn [lf_topics lf_from_block lf_to_block
    lf_address]; split_and!; try done; intros Hl; (split; [by rewrite ?length_insert|]);
    intros j; case_decide as Hd; try lia.
  - destruct Hd as [<- _]. by rewrite list_lookup_insert_eq by lia.
  - rewrite list_lookup_insert_ne; [done|naive_solver].
  - done.
Qed.

Lemma add_topics_fields f i ts :
  lf_from_block (add_topics f i ts) = lf_from_block f
  /\ lf_to_block (add_topics f i ts) = lf_to_block f
  /\ lf_address (add_topics f i ts) = lf_address f
  /\ (length (lf_topics f) = 4%nat ->
      forall j, lf_topics (add_topics f i ts) !! j =
        match ts !! (j - i)%nat with
        | Some (Some t) => if decide (i <= j < 4)%nat then Some (Some (into_vec t))
                           else lf_topics f !! j
        | _ => lf_topics f !! j
        end).
Proof.
  revert f i. induction ts as [|[t|] ts IH]; intros f i; cbn [add_topics].
  - split_and!; done.
  - destruct (filter_topic_fields f i (into_vec t)) as (H1 & H2 & H3 & H4).
    destruct (IH (filter_topic f i (into_vec t)) (S i)) as (-> & -> & -> & HI).
    split_and!; try done. intros Hl j. destruct (H4 Hl) as [Hl' Hj]. rewrite (HI Hl' j), Hj.
    destruct (decide (i = j)) as [<-|Hne].
    + rewrite Nat.sub_diag. cbn [lookup list_lookup].
      destruct (ts !! _) as [[?|]|]; repeat case_decide; try done; lia.
    + rewrite (decide_False (P := i = j /\ _)) by naive_solver.
      destruct (decide (i < j)%nat).
      * replace (j - i)%nat with (S (j - S i)) by lia. cbn [lookup list_lookup].
        destruct (ts !! _) as [[?|]|]; repeat case_decide; try done; lia.
      * replace (j - S i)%nat with O by lia. replace (j - i)%nat with O by lia.
        cbn [lookup list_lookup].
        destruct (ts !! _) as [[?|]|]; repeat case_decide; try done; lia.
  - destruct (IH f (S i)) as (-> & -> & -> & HI). split_and!; try done.
    intros Hl j. rewrite (HI Hl j). destruct (decide (i < j)%nat).
    + replace (j - i)%nat with (S (j - S i)) by lia. cbn [lookup list_lookup].
      destruct (ts !! _) as [[?|]|]; repeat case_decide; try done; lia.
    + replace (j - S i)%nat with O by lia. replace (j - i)%nat with O by lia.
      cbn [lookup list_lookup].
      destruct (ts !! _) as [[?|]|]; repeat case_decide; try done; lia.
Qed.

(** A range with no criteria yet. *)
Definition range_filter (from to : u64) : LogFilter :=
  filter_to_block (filter_from_block LogFilter_new from) to.

Lemma criteria_range f from to :
  lf_from_block (add_criteria (range_filter from to) f) = Some from
  /\ lf_to_block (add_criteria (range_filter from to) f) = Some to.
Proof.
  unfold add_criteria. destruct (rf_address f), (rf_topics f); try done;
    by rewrite !(proj1 (add_topics_fields _ _ _)), (proj1 (proj2 (add_topics_fields _ _ _))).
Qed.

Lemma none_met lt i : topic_met lt i None.
Proof. by intros ? [=]. Qed.

Lemma four_nones i : [@None (list B256); None; None; None] !! i
  = if decide (i < 4)%nat then Some None else None.
Proof. do 4 (destruct i as [|i]; [done|]). by rewrite decide_False by lia. Qed.

Lemma topics_wanted F ts lt :
  lf_topics F = [None; None; None; None] ->
  matches_topics lt (lf_topics (add_topics F 0 ts)) = true <->
  forall i t, (i < 4)%nat -> ts !! i = Some (Some t) ->
    exists x, lt !! i = Some x /\ x ∈ into_vec t.
Proof.
  intros HF. rewrite matches_topics_spec.
  assert (length (lf_topics F) = 4%nat) as Hl by by rewrite HF.
  destruct (add_topics_fields F 0 ts) as (_ & _ & _ & Hj). specialize (Hj Hl).
  setoid_rewrite Hj. rewrite HF. split.
  - intros H i t Hi Ht. specialize (H i (Some (into_vec t))).
    rewrite Nat.sub_0_r, Ht, decide_True in H by lia. by apply H.
  - intros H i g. rewrite Nat.sub_0_r, four_nones. destruct (ts !! i) as [[t|]|] eqn:Ht.
    + destruct (decide (0 <= i < 4)%nat); repeat case_decide; intros Hg; simplify_eq; try lia.
      intros allowed [= <-]. apply H; [lia|done].
    + case_decide; intros Hg; simplify_eq. apply none_met.
    + case_decide; intros Hg; simplify_eq. apply none_met.
Qed.

Lemma matches_wanted l from to f :
  matches_filter l (add_criteria (range_filter from to) f) = true <-> wanted f l.
Proof.
  unfold matches_filter, wanted, add_criteria. rewrite andb_true_iff.
  destruct (rf_address f) as [a|], (rf_topics f) as [ts|].
  - rewrite (proj1 (proj2 (proj2 (add_topics_fields _ _ _)))), topics_wanted by done.
    cbn [lf_address filter_address]. rewrite bool_decide_eq_true. naive_solver.
  - cbn [lf_address filter_address lf_topics range_filter filter_to_block filter_from_block
      LogFilter_new matches_topics]. rewrite bool_decide_eq_true. naive_solver.
  - rewrite (proj1 (proj2 (proj2 (add_topics_fields _ _ _)))), topics_wanted by done.
    naive_solver.
  - naive_solver.
Qed.

#[export] Instance wanted_dec f l : Decision (wanted f l).
Proof.
  destruct (matches_filter l (add_criteria (range_filter 0 0) f)) eqn:H.
  - left. by eapply matches_wanted.
  - right. intros Hw. apply (matches_wanted l 0 0) in Hw. congruence.
Defined.

Lemma indexed_head ix A hd : indexed ix A hd -> forall n e, A !! n = Some e -> n <= hd.
Proof.
  induction 1 as [|ix A hd e _ IH _ _ _|ix A hd m _ IH]; intros n e'.
  - by rewrite lookup_empty.
  - intros [[<- <-]|[_ H]]%lookup_insert_Some; [lia|]. specialize (IH _ _ H). lia.
  - intros [H _]%map_lookup_filter_Some. eauto.
Qed.

Lemma retained_one A n : retained_logs A n n = from_option (fun e => all_logs (en_receipts e)) [] (A !! n).
Proof.
  unfold retained_logs. replace (n - n + 1) with 1 by lia. change (seqZ n 1) with [0 + n].
  cbn [mbind list_bind]. by rewrite app_nil_r, Z.add_0_l.
Qed.

Section answers.
Context `{EXT : !External} `{RV : !Revm} `{DSP : !Display} {St : Type} `{SDB : !StateDbRead St}.

Lemma logs_in_range (p : IndexedStateProvider St) A hd f from to :
  represents (ip_index p) A hd -> to <= hd ->
  get_logs (ip_index p) (add_criteria (range_filter from to) f)
  = filter (wanted f) (retained_logs A from to).
Proof.
  intros Hr Hto. rewrite (get_logs_spec _ A hd Hr).
  destruct (criteria_range f from to) as [-> ->]. simpl. rewrite Z.min_l by lia.
  apply list_filter_iff. intros l. apply matches_wanted.
Qed.

(** [get_logs] of the indexed provider, over the blocks [A] an index retains and its head:
    a query by range answers, in order, the logs of the retained blocks of the range that the
    filter wants (bounds resolved from numbers or tags, the upper one capped at the head), and is
    refused exactly when the range is empty or spans more than 10 000 blocks; a query by hash
    answers the logs of that block, and is refused when the block is not retained or a bound is
    given too. *)
Theorem provider_logs_correct (p : IndexedStateProvider St) A hd f :
  indexed (ip_index p) A hd ->
  let from := default 0 (resolve_block_number p <$> rf_from_block f) in
  let to := Z.min (default hd (resolve_block_number p <$> rf_to_block f)) hd in
  (rf_block_hash f = None ->
     (from <= to <= from + MAX_LOG_BLOCK_RANGE ->
        provider_get_logs p f = Ok (log_to_rpc <$> filter (wanted f) (retained_logs A from to)))
     /\ (to < from \/ from + MAX_LOG_BLOCK_RANGE < to ->
        exists msg, provider_get_logs p f = Err (InvalidParams msg)))
  /\ (forall h, rf_block_hash f = Some h -> rf_from_block f = None -> rf_to_block f = None ->
        (forall n e, A !! n = Some e -> en_hash e = h ->
           provider_get_logs p f
           = Ok (log_to_rpc <$> filter (wanted f) (all_logs (en_receipts e))))
        /\ ((forall n e, A !! n = Some e -> en_hash e <> h) ->
           provider_get_logs p f = Err (InvalidParams "block not found")))
  /\ (is_Some (rf_block_hash f) -> is_Some (rf_from_block f) \/ is_Some (rf_to_block f) ->
        exists msg, provider_get_logs p f = Err (InvalidParams msg)).
Proof.
  intros Hi from to. pose proof (indexed_represents _ _ _ Hi) as Hr.
  pose proof (indexed_head _ _ _ Hi) as Hle.
  assert (head_block_number (ip_index p) = hd) as Hhd by apply Hr.
  unfold provider_get_logs, log_range. split_and!.
  - intros ->. cbn [is_some andb]. rewrite Hhd. fold from to. split.
    + intros Hb. destruct (Z.ltb_spec to from); [lia|].
      destruct (Z.ltb_spec MAX_LOG_BLOCK_RANGE (saturating_sub to from)).
      { unfold saturating_sub in *. lia. }
      fold (range_filter from to). by rewrite (logs_in_range p A hd) by (done || lia).
    + intros Hb. destruct (Z.ltb_spec to from); [by eauto|].
      destruct (Z.ltb_spec MAX_LOG_BLOCK_RANGE (saturating_sub to from)); [by eauto|].
      unfold saturating_sub, MAX_LOG_BLOCK_RANGE in *. lia.
  - intros h -> -> ->. cbn [is_some andb orb]. unfold get_block_by_hash. split.
    + intros n e HA Hh. rewrite (proj2 (rp_hash _ _ _ Hr h (en_block e))) by eauto.
      cbn [ok_or]. rewrite (proj1 (rp_ok _ _ _ Hr _ _ HA)). fold (range_filter n n).
      rewrite (logs_in_range p A hd) by (done || by eapply Hle). by rewrite retained_one, HA.
    + intros Hno. destruct (ix_blocks_by_hash (ip_index p) !! h) as [b|] eqn:Hb; [|done].
      apply (rp_hash _ _ _ Hr) in Hb as (n & e & HA & Hh & _). by destruct (Hno n e).
  - intros [h ->] Hor. cbn [is_some andb].
    destruct Hor as [[x ->]|[x ->]]; [|rewrite orb_true_r]; cbn [is_some orb]; eauto.
Qed.

(** Account state is only ever served at the head.  The provider answers a state query exactly
    when the requested block is absent, a tag other than [earliest], or the number of the head;
    then the block it names is the head and a call runs in the same context as with no block
    given; otherwise every state method returns one and the same error, whose code says the
    parameters are invalid. *)
Theorem state_served_at_head (p : IndexedStateProvider St) b :
  let accepted := b = None \/ b = Some LatestDefault \/ (exists t, b = Some (Tag t) /\ t <> Earliest)
                  \/ b = Some (Number (head_block_number (ip_index p))) in
  (accepted /\ reject_historical_block p b = Ok tt
   /\ from_option (resolve_block_number p) (head_block_number (ip_index p)) b
      = head_block_number (ip_index p)
   /\ block_context_for p b = block_context_for p None
   /\ (forall req, provider_call p req b = provider_call p req None)
   /\ (forall req, provider_estimate_gas p req b = provider_estimate_gas p req None))
  \/ (~ accepted /\ exists e,
        reject_historical_block p b = Err e /\ eob_code (error_object e) = INVALID_PARAMS
        /\ (forall a, provider_balance p a b = Err e) /\ (forall a, provider_nonce p a b = Err e)
        /\ (forall a, provider_code p a b = Err e)
        /\ (forall a slot, provider_storage p a slot b = Err e)
        /\ (forall req, provider_call p req b = Err e)
        /\ (forall req, provider_estimate_gas p req b = Err e)).
Proof.
  intros accepted. unfold provider_call, provider_estimate_gas, provider_balance, provider_nonce,
    provider_code, provider_storage.
  destruct b as [[n|t|]|].
  - unfold accepted, block_context_for. cbn [reject_historical_block from_option resolve_block_number].
    destruct (Z.eqb_spec n (head_block_number (ip_index p))) as [->|Hne].
    { left. split_and!; eauto 10. }
    right. split; [naive_solver|]. destruct (Z.ltb_spec (head_block_number (ip_index p)) n); eauto 15.
  - destruct t; try (left; unfold accepted, block_context_for; cbn; split_and!; eauto 10; fail).
    right. split; [unfold accepted; naive_solver|]. cbn [reject_historical_block]. eauto 15.
  - left. unfold accepted. split_and!; eauto.
  - left. unfold accepted. split_and!; eauto.
Qed.
End answers.

(** ** Witnesses *)

(** The index after blocks 1 and 2, block 1 pruned away, and its provider. *)
Definition rpc_index : BlockIndex :=
  prune_before (insert_block (insert_block index_new
    (en_block (demo_entry 1)) (en_txs (demo_entry 1)) (en_receipts (demo_entry 1)))
    (en_block (demo_entry 2)) (en_txs (demo_entry 2)) (en_receipts (demo_entry 2))) 2.
Definition rpc_blocks : gmap u64 Entry :=
  filter (fun ne => 2 <= ne.1) (<[2 := demo_entry 2]> (<[1 := demo_entry 1]> ∅)).
Definition rpc_provider : IndexedStateProvider unit := with_chain_id rpc_index tt 1.

Lemma rpc_indexed : indexed rpc_index rpc_blocks 2.
Proof.
  apply (indexed_prune _ _ _ 2).
  apply (indexed_insert _ _ 1 (demo_entry 2)); [|apply demo_entry_ok|done|].
  - apply (indexed_insert _ _ 0 (demo_entry 1)); [apply indexed_new|apply demo_entry_ok|done|].
    intros n e. by rewrite lookup_empty.
  - intros n e [[<- <-]|[_ He]]%lookup_insert_Some; [|by rewrite lookup_empty in He].
    split; [done|]. simpl. set_solver.
Qed.

Lemma provider_logs_correct_witness :
  provider_get_logs rpc_provider
    (mkRpcLogFilter (Some (Tag Earliest)) None None (Some [Some (Single 302)]) None)
  = Ok (log_to_rpc <$> all_logs (en_receipts (demo_entry 2))).
Proof.
  pose proof (provider_logs_correct rpc_provider rpc_blocks 2
    (mkRpcLogFilter (Some (Tag Earliest)) None None (Some [Some (Single 302)]) None)
    rpc_indexed) as (H & _). destruct (H eq_refl) as [Hr _]. rewrite Hr.
  - vm_compute. reflexivity.
  - vm_compute. split; discriminate.
Defined.
