(* ===== verification/Filters.v ===== *)
(** The store of HTTP filters of the RPC server (crates/node/rpc/src/filters.rs):
    fresh identifiers, expiry of filters that are not polled, eviction of the
    least recently polled one when the store is full.  Instants are readings of
    a monotonic clock in nanoseconds, arguments of the operations that read
    it. *)
From S2P Require Import Prelude TxTypes StateDb Changes Bytes QmdbState Executor Execute Indexer Rpc.

Abbreviation Instant := Z (only parsing).
Abbreviation Duration := Z (only parsing).
Abbreviation FilterId := Z (only parsing).

Definition DEFAULT_FILTER_TTL : Duration := 5 * 60 * 1000000000.
Definition DEFAULT_MAX_FILTERS : usize := 1024.

Inductive FilterChanges : Type :=
| ChLogs (logs : list RpcLog)
| ChHashes (hashes : list B256).

Inductive Filter : Type :=
| FLog (criteria : RpcLogFilter) (last_poll_block : option u64)
| FBlock (last_poll_block : u64)
| FPendingTransaction (known_hashes : gset B256) (last_seen_index : usize).

Record FilterEntry := mkFilterEntry {
  fe_filter : Filter;
  fe_last_poll_time : Instant;
}.

Definition entry_new (now : Instant) (f : Filter) : FilterEntry := mkFilterEntry f now.

(** [touch], and the update of the cursor under the entry's lock. *)
Definition touch (now : Instant) (e : FilterEntry) : FilterEntry :=
  mkFilterEntry (fe_filter e) now.
Definition set_filter (f : Filter) (e : FilterEntry) : FilterEntry :=
  mkFilterEntry f (fe_last_poll_time e).

Record FilterStore := mkFilterStore {
  fs_filters : gmap FilterId FilterEntry;
  fs_next_id : u64;
  fs_max_filters : usize;
  fs_ttl : Duration;
}.

(** [None] is the panic of the assertion. *)
Definition store_new (max_filters : usize) (ttl : Duration) : option FilterStore :=
  if 0 <? max_filters then Some (mkFilterStore ∅ 1 max_filters ttl) else None.
Definition store_default : FilterStore :=
  mkFilterStore ∅ 1 DEFAULT_MAX_FILTERS DEFAULT_FILTER_TTL.

Definition with_filters (s : FilterStore) (m : gmap FilterId FilterEntry) : FilterStore :=
  mkFilterStore m (fs_next_id s) (fs_max_filters s) (fs_ttl s).

(** An entry polled within the time to live. *)
Definition live (s : FilterStore) (now : Instant) (e : FilterEntry) : Prop :=
  saturating_sub now (fe_last_poll_time e) < fs_ttl s.
#[export] Instance live_dec s now e : Decision (live s now e) := ltac:(unfold live; apply _).

Definition cleanup_expired (s : FilterStore) (now : Instant) : FilterStore * usize :=
  let kept := filter (fun ie => live s now ie.2) (fs_filters s) in
  (with_filters s kept, Z.of_nat (size (fs_filters s)) - Z.of_nat (size kept)).

(** [next_filter_id] on the counter: the identifier and the counter after; the
    counter wraps, and 0 is passed over. *)
Definition next_filter_id (next : u64) : FilterId * u64 :=
  if next =? 0 then (1, 2) else (next, wrapping_add u64_max next 1).

(** The loop of [create] that looks for an identifier not in use. *)
Fixpoint fresh_id (fuel : nat) (m : gmap FilterId FilterEntry) (next : u64)
    : option (FilterId * u64) :=
  let '(id, next') := next_filter_id next in
  match m !! id with
  | None => Some (id, next')
  | Some _ => match fuel with
              | O => None
              | S fuel => fresh_id fuel m next'
              end
  end.

(** [evict_oldest]; between entries of one instant the hash map chooses. *)
Definition oldest (m : gmap FilterId FilterEntry) : option (FilterId * FilterEntry) :=
  min_by (cmp_on (fun ie => fe_last_poll_time ie.2) Z.compare) (map_to_list m).
Definition evict_oldest (m : gmap FilterId FilterEntry) : gmap FilterId FilterEntry :=
  match oldest m with Some (id, _) => delete id m | None => m end.

(** [create]; [None] is a search that does not end. *)
Definition store_create (s : FilterStore) (now : Instant) (f : Filter)
    : option (FilterStore * FilterId) :=
  let s := (cleanup_expired s now).1 in
  '(id, next') ← fresh_id (size (fs_filters s)) (fs_filters s) (fs_next_id s);
  let m := if fs_max_filters s <=? Z.of_nat (size (fs_filters s))
           then evict_oldest (fs_filters s) else fs_filters s in
  Some (mkFilterStore (<[id := entry_new now f]> m) next' (fs_max_filters s) (fs_ttl s), id).

Definition store_get (s : FilterStore) (now : Instant) (id : FilterId)
    : FilterStore * option FilterEntry :=
  let s := (cleanup_expired s now).1 in (s, fs_filters s !! id).

Definition store_remove (s : FilterStore) (id : FilterId) : FilterStore * bool :=
  (with_filters s (delete id (fs_filters s)), is_some (fs_filters s !! id)).

(** A write through the shared entry that [get] returned. *)
Definition store_update (s : FilterStore) (id : FilterId) (g : FilterEntry -> FilterEntry)
    : FilterStore :=
  with_filters s (alter g id (fs_filters s)).

(** ** The invariant *)

(** The store holds at most the configured number of filters, under
    identifiers that are [u64] other than 0. *)
Record store_ok (s : FilterStore) : Prop := {
  so_max : 0 < fs_max_filters s < u64_max;
  so_next : 0 <= fs_next_id s <= u64_max;
  so_size : Z.of_nat (size (fs_filters s)) <= fs_max_filters s;
  so_ids : forall id e, fs_filters s !! id = Some e -> 0 < id <= u64_max;
}.

(** ** Fresh identifiers *)

(** The identifiers in the order in which they are tried: 1 to the greatest
    [u64], round and round. *)
Definition tried (next : u64) (i : Z) : FilterId :=
  ((if next =? 0 then 1 else next) - 1 + i) `mod` u64_max + 1.

Lemma next_filter_id_spec next id next' :
  0 <= next <= u64_max -> next_filter_id next = (id, next') ->
  id = tried next 0 /\ 0 < id <= u64_max /\ 0 <= next' <= u64_max
  /\ forall i, tried next' i = tried next (i + 1).
Proof.
  unfold next_filter_id, tried, wrapping_add, wrap. intros Hn. destruct (Z.eqb_spec next 0) as [->|H0];
    intros [= <- <-].
  - split_and!; try done. intros i. cbn [Z.eqb]. do 2 f_equal. lia.
  - assert (0 <= (next + 1) `mod` (u64_max + 1) <= u64_max) as Hr.
    { pose proof (Z.mod_pos_bound (next + 1) (u64_max + 1)). unfold u64_max in *. lia. }
    rewrite Z.add_0_r, Z.mod_small by lia. split_and!; try lia.
    intros i. destruct (decide (next = u64_max)) as [->|].
    + rewrite Z.mod_same by done. cbn [Z.eqb]. f_equal.
      rewrite <- (Z.mod_add (1 - 1 + i) 1 u64_max) by done. f_equal. lia.
    + rewrite (Z.mod_small (next + 1)) by lia. destruct (Z.eqb_spec (next + 1) 0); [lia|].
      do 2 f_equal. lia.
Qed.

Lemma fresh_id_None fuel m next :
  0 <= next <= u64_max -> fresh_id fuel m next = None ->
  forall i, 0 <= i <= Z.of_nat fuel -> is_Some (m !! tried next i).
Proof.
  revert next. induction fuel as [|fuel IH]; intros next Hn Hf i Hi; cbn [fresh_id] in Hf;
    destruct (next_filter_id next) as [id next'] eqn:Hid;
    destruct (next_filter_id_spec _ _ _ Hn Hid) as (-> & _ & Hn' & Hs);
    destruct (m !! tried next 0) as [e|] eqn:He; try done.
  - replace i with 0 by lia. eauto.
  - destruct (decide (i = 0)) as [->|]; [eauto|].
    replace i with (i - 1 + 1) by lia. rewrite <- Hs. apply IH; [done..|lia].
Qed.

Lemma fresh_id_Some fuel m next id next' :
  0 <= next <= u64_max -> fresh_id fuel m next = Some (id, next') ->
  m !! id = None /\ 0 < id <= u64_max /\ 0 <= next' <= u64_max.
Proof.
  revert next. induction fuel as [|fuel IH]; intros next Hn; cbn [fresh_id];
    destruct (next_filter_id next) as [i n] eqn:Hid;
    destruct (next_filter_id_spec _ _ _ Hn Hid) as (_ & Hi & Hn' & _);
    destruct (m !! i) as [e|] eqn:He; intros Hf; simplify_eq; eauto.
Qed.

Lemma tried_inj next i j :
  0 <= i < u64_max -> 0 <= j < u64_max -> tried next i = tried next j -> i = j.
Proof.
  unfold tried. intros Hi Hj H. apply (Z.add_cancel_r _ _ 1) in H.
  set (a := (if next =? 0 then 1 else next) - 1) in *.
  assert (forall x, (a + x) `mod` u64_max = (a `mod` u64_max + x) `mod` u64_max) as Hm.
  { intros x. by rewrite Zplus_mod_idemp_l. }
  rewrite !Hm in H. pose proof (Z.mod_pos_bound a u64_max ltac:(done)) as Ha.
  set (b := a `mod` u64_max) in *.
  rewrite (Z.mod_eq (b + i)), (Z.mod_eq (b + j)) in H by done.
  assert (0 <= (b + i) `div` u64_max <= 1) as Hq1.
  { split; [apply Z.div_pos; lia|]. assert ((b + i) `div` u64_max < 2); [|lia].
    apply Z.div_lt_upper_bound; lia. }
  assert (0 <= (b + j) `div` u64_max <= 1) as Hq2.
  { split; [apply Z.div_pos; lia|]. assert ((b + j) `div` u64_max < 2); [|lia].
    apply Z.div_lt_upper_bound; lia. }
  generalize dependent ((b + i) `div` u64_max). generalize dependent ((b + j) `div` u64_max).
  unfold u64_max in *. lia.
Qed.

Lemma fresh_id_total m next :
  0 <= next <= u64_max -> Z.of_nat (size m) < u64_max ->
  is_Some (fresh_id (size m) m next).
Proof.
  intros Hn Hs. destruct (fresh_id (size m) m next) eqn:Hf; [eauto|].
  pose proof (fresh_id_None _ _ _ Hn Hf) as H. exfalso.
  set (l := (fun k => tried next (Z.of_nat k)) <$> seq 0 (S (size m))).
  assert (NoDup l) as Hnd.
  { apply NoDup_fmap_2_strong; [|apply NoDup_seq]. intros a b Ha Hb Hab.
    apply elem_of_seq in Ha, Hb. apply tried_inj in Hab; lia. }
  assert ((list_to_set l : gset Z) ⊆ dom m) as Hsub.
  { intros x Hx. apply elem_of_list_to_set in Hx. unfold l in Hx.
    apply list_elem_of_fmap in Hx as (k & -> & Hk%elem_of_seq). apply elem_of_dom, H. lia. }
  apply subseteq_size in Hsub. rewrite size_list_to_set, size_dom in Hsub by done.
  unfold l in Hsub. rewrite length_fmap, length_seq in Hsub. lia.
Qed.

(** ** The operations keep the invariant *)

Definition live_filters (s : FilterStore) (now : Instant) : gmap FilterId FilterEntry :=
  filter (fun ie => live s now ie.2) (fs_filters s).

Lemma live_filters_sub s now : live_filters s now ⊆ fs_filters s.
Proof. apply map_filter_subseteq. Qed.

Lemma with_filters_ok s m :
  store_ok s -> dom m ⊆ dom (fs_filters s) -> store_ok (with_filters s m).
Proof.
  intros [Hm Hn Hs Hi] Hd. split; cbn [with_filters fs_filters fs_max_filters fs_next_id]; try done.
  - apply subseteq_size in Hd. rewrite !size_dom in Hd. lia.
  - intros id e He. assert (id ∈ dom (fs_filters s)) as [e' He']%elem_of_dom.
    { apply Hd, elem_of_dom. eauto. }
    by eapply Hi.
Qed.

Lemma cleanup_ok s now : store_ok s -> store_ok (cleanup_expired s now).1.
Proof.
  intros Hs. apply with_filters_ok; [done|]. apply subseteq_dom, live_filters_sub.
Qed.

Lemma get_ok s now id : store_ok s -> store_ok (store_get s now id).1.
Proof. apply cleanup_ok. Qed.

Lemma remove_ok s id : store_ok s -> store_ok (store_remove s id).1.
Proof. intros Hs. apply with_filters_ok; [done|]. apply subseteq_dom, delete_subseteq. Qed.

Lemma store_update_ok s id g : store_ok s -> store_ok (store_update s id g).
Proof. intros Hs. apply with_filters_ok; [done|]. by rewrite dom_alter. Qed.

#[export] Hint Resolve cleanup_ok get_ok remove_ok store_update_ok : kora.

Lemma evict_oldest_spec m :
  m <> ∅ -> exists id e, m !! id = Some e /\ evict_oldest m = delete id m
    /\ forall id' e', m !! id' = Some e' -> fe_last_poll_time e <= fe_last_poll_time e'.
Proof.
  intros Hm. unfold evict_oldest, oldest.
  destruct (min_by _ (map_to_list m)) as [[id e]|] eqn:Ho.
  - exists id, e. split_and!; [|done|].
    + by apply min_by_elem, elem_of_map_to_list in Ho; [|apply _].
    + intros id' e' He'. apply elem_of_map_to_list in He'.
      pose proof (min_by_le _ _ _ _ Ho He') as H. unfold cmp_le, cmp_on in H. simpl in H.
      destruct (Z.compare_spec (fe_last_poll_time e) (fe_last_poll_time e')); [lia..|].
      exfalso. by apply H.
  - apply min_by_None, map_to_list_empty_iff in Ho. done.
Qed.

(** Creating a filter always succeeds: the search for an identifier ends, with one that is not
    0 and that no live filter has, and the filter is stored under it.  The live filters all stay,
    except that a store with no room left drops exactly the least recently polled one, so that the
    store never holds more than its maximum; expired filters are gone. *)
Lemma store_create_correct s now f :
  store_ok s ->
  exists s' id, store_create s now f = Some (s', id) /\ store_ok s' /\ 0 < id <= u64_max
    /\ live_filters s now !! id = None
    /\ ((Z.of_nat (size (live_filters s now)) < fs_max_filters s
         /\ fs_filters s' = <[id := mkFilterEntry f now]> (live_filters s now))
        \/ exists old e,
             Z.of_nat (size (live_filters s now)) = fs_max_filters s
             /\ live_filters s now !! old = Some e
             /\ (forall id' e', live_filters s now !! id' = Some e' ->
                   fe_last_poll_time e <= fe_last_poll_time e')
             /\ fs_filters s' = <[id := mkFilterEntry f now]> (delete old (live_filters s now))).
Proof.
  intros Hs. pose proof (cleanup_ok s now Hs) as Hc. unfold store_create.
  cbn [cleanup_expired fst with_filters fs_filters fs_next_id fs_max_filters fs_ttl] in *.
  fold (live_filters s now) in *. set (L := live_filters s now) in *. destruct Hc as [Hm Hn Hz Hi].
  cbn [with_filters fs_filters fs_next_id fs_max_filters fs_ttl] in *.
  destruct (fresh_id_total L (fs_next_id s)) as [[id next'] Hf]; [lia..|]. rewrite Hf.
  cbn [mbind option_bind]. destruct (fresh_id_Some _ _ _ _ _ Hn Hf) as (HL & Hid & Hn').
  eexists _, id. split; [reflexivity|].
  destruct (Z.leb_spec (fs_max_filters s) (Z.of_nat (size L))) as [Hle|Hlt].
  - destruct (evict_oldest_spec L) as (old & e & He & Hev & Hmin).
    { intros H0. rewrite H0, map_size_empty in Hle. lia. }
    rewrite Hev. split_and!; [split; cbn [fs_filters fs_next_id fs_max_filters]| | |done|].
    + lia.
    + lia.
    + rewrite map_size_insert_None, map_size_delete, He; [|by rewrite lookup_delete_None; right].
      cbn [is_Some]. assert (0 < Z.of_nat (size L)) by lia. lia.
    + intros i e' [[<- _]|[_ [_ He']%lookup_delete_Some]]%lookup_insert_Some; [done|by eapply Hi].
    + lia.
    + lia.
    + right. exists old, e. split_and!; [lia|done..].
  - split_and!; [split; cbn [fs_filters fs_next_id fs_max_filters]| | |done|].
    + lia.
    + lia.
    + rewrite map_size_insert_None by done. lia.
    + intros i e' [[<- _]|[_ He']]%lookup_insert_Some; [done|by eapply Hi].
    + lia.
    + lia.
    + left. by split; [lia|].
Qed.
