(* ===== verification/Float.v ===== *)
(** Rust's [f64] as IEEE 754 binary64 numbers: the conversions and operations
    that the fee history and the rate limiter use. *)
From Stdlib Require Import SpecFloat.
From S2P Require Import Prelude.
Open Scope Z_scope.

Abbreviation f64 := spec_float.
Definition f64_of_Z (n : Z) : f64 := binary_normalize 53 1024 n 0 false.
Definition f64_zero : f64 := S754_zero false.
Definition f64_div : f64 -> f64 -> f64 := SFdiv 53 1024.
Definition f64_mul : f64 -> f64 -> f64 := SFmul 53 1024.
Definition f64_add : f64 -> f64 -> f64 := SFadd 53 1024.
Definition f64_sub : f64 -> f64 -> f64 := SFsub 53 1024.
Definition f64_is_finite (x : f64) : bool :=
  match x with S754_zero _ | S754_finite _ _ _ => true | _ => false end.
Definition f64_clamp (x lo hi : f64) : f64 :=
  if SFltb x lo then lo else if SFltb hi x then hi else x.

(** [ceil]: an integer of magnitude at most the mantissa, hence exact. *)
Definition f64_ceil (x : f64) : f64 :=
  match x with
  | S754_finite s m e =>
      if 0 <=? e then x
      else
        let d := 2 ^ (- e) in
        let q := (if s then - Zpos m else Zpos m) in
        let c := - ((- q) / d) in
        if c =? 0 then S754_zero s else f64_of_Z c
  | _ => x
  end.

(** The cast to [u128]: towards zero, saturating, 0 for not-a-number. *)
Definition f64_as_u128 (x : f64) : u128 :=
  match x with
  | S754_finite false m e =>
      Z.min u128_max (if 0 <=? e then Zpos m * 2 ^ e else Zpos m / 2 ^ (- e))
  | S754_infinity false => u128_max
  | _ => 0
  end.

Definition f64_is_nan (x : f64) : bool := match x with S754_nan => true | _ => false end.

(** [f64::min]: a number wins over not-a-number. *)
Definition f64_min (x y : f64) : f64 :=
  if f64_is_nan x then y else if f64_is_nan y then x else if SFltb y x then y else x.

(** [Duration::as_secs_f64] of a duration in nanoseconds. *)
Definition as_secs_f64 (ns : Z) : f64 :=
  f64_add (f64_of_Z (ns / 1000000000)) (f64_div (f64_of_Z (ns mod 1000000000)) (f64_of_Z 1000000000)).

Lemma f64_le_refl x : SFleb x x = negb (f64_is_nan x).
Proof.
  unfold SFleb. destruct x as [[]|[]| |[] m e]; try done; cbn; rewrite Z.compare_refl;
    by rewrite Pos.compare_cont_refl.
Qed.
