(* ===== verification/Fees.v ===== *)
(** Fees over JSON-RPC (crates/node/rpc/src/eth.rs): the gas oracle over recent
    blocks and the fee history, with the floating-point steps of the code as
    IEEE 754 binary64. *)
From Stdlib Require Import SpecFloat.
From S2P Require Import Prelude TxTypes StateDb Changes Bytes QmdbState Executor Execute Indexer Rpc Float.
Open Scope Z_scope.

Definition GWEI : u64 := 1000000000.
Definition DEFAULT_GAS_ORACLE_BLOCKS : usize := 20.
Definition DEFAULT_GAS_ORACLE_PERCENTILE : u8 := 60.
Definition DEFAULT_MAX_GAS_PRICE : u64 := 500 * GWEI.

Record GasOracleConfig := mkOracleConfig {
  go_blocks : usize; go_percentile : u8; go_min_price : U256; go_max_price : U256;
  go_min_priority_fee : U256;
}.
Definition GasOracleConfig_default : GasOracleConfig :=
  mkOracleConfig DEFAULT_GAS_ORACLE_BLOCKS DEFAULT_GAS_ORACLE_PERCENTILE GWEI DEFAULT_MAX_GAS_PRICE
    GWEI.

Record GasOracleEstimate := mkEstimate { ge_gas_price : U256; ge_priority_fee : U256 }.
Record CachedGasOracleEstimate := mkCached { ce_head : u64; ce_estimate : GasOracleEstimate }.

(** ** Prices of a transaction *)

Definition default_base_fee : U256 := GWEI.

Definition is_dynamic_fee_type (tx : RpcTransaction) : bool := 2 <=? rt_tx_type tx.

Definition effective_priority_fee (tx : RpcTransaction) (base_fee : U256) : U256 :=
  match rt_max_fee_per_gas tx, rt_max_priority_fee_per_gas tx with
  | Some max_fee, Some max_priority_fee => Z.min max_priority_fee (saturating_sub max_fee base_fee)
  | _, _ =>
      if is_dynamic_fee_type tx then 0 else saturating_sub (rt_gas_price tx) base_fee
  end.

Definition effective_gas_price_for_sampling (tx : RpcTransaction) (base_fee : U256) : U256 :=
  match rt_max_fee_per_gas tx, rt_max_priority_fee_per_gas tx with
  | Some max_fee, Some max_priority_fee =>
      let tip := Z.min max_priority_fee (saturating_sub max_fee base_fee) in
      Z.min (saturating_add u256_max base_fee tip) max_fee
  | _, _ => rt_gas_price tx
  end.

Definition percentile_value (values : list U256) (percentile : u8) : option U256 :=
  match values with
  | [] => None
  | _ =>
      let sorted := sort_by Z.compare values in
      let index := Z.min (len sorted * Z.min percentile 100 / 100) (len sorted - 1) in
      sorted !! Z.to_nat index
  end.

(** [calculate_next_base_fee]; the product of [U256] wraps. *)
Definition calculate_next_base_fee (parent_base_fee : U256) (parent_gas_used parent_gas_limit : u64)
    : U256 :=
  let parent_gas_target := parent_gas_limit / 2 in
  if (parent_gas_target =? 0) || (parent_gas_used =? parent_gas_target) then parent_base_fee
  else if parent_gas_target <? parent_gas_used then
    let gas_used_delta := parent_gas_used - parent_gas_target in
    let base_fee_delta :=
      wrap u256_max (parent_base_fee * gas_used_delta) / parent_gas_target / 8 in
    saturating_add u256_max parent_base_fee (Z.max base_fee_delta 1)
  else
    let gas_used_delta := parent_gas_target - parent_gas_used in
    let base_fee_delta :=
      wrap u256_max (parent_base_fee * gas_used_delta) / parent_gas_target / 8 in
    saturating_sub parent_base_fee base_fee_delta.

Definition block_gas_used_ratio (gas_used gas_limit : u64) : f64 :=
  if gas_limit =? 0 then f64_zero
  else f64_clamp (f64_div (f64_of_Z gas_used) (f64_of_Z gas_limit)) f64_zero (f64_of_Z 1).

(** ** Percentiles of the rewards of a block *)

Definition percentile_out_of_range (p : f64) : bool :=
  negb (f64_is_finite p) || SFltb p f64_zero || SFltb (f64_of_Z 100) p.

Fixpoint decreasing_somewhere (ps : list f64) : bool :=
  match ps with
  | a :: (b :: _) as ps' => SFltb b a || decreasing_somewhere ps'
  | _ => false
  end.

Definition validate_reward_percentiles (ps : list f64) : result unit RpcError :=
  if existsb percentile_out_of_range ps
  then Err (InvalidTransaction "reward percentiles must be in [0, 100]")
  else if decreasing_somewhere ps
  then Err (InvalidTransaction "reward percentiles must be monotonically non-decreasing")
  else Ok tt.

Definition percentile_threshold (total_gas : u128) (percentile : f64) : u128 :=
  if total_gas =? 0 then 0
  else
    let percentile := if f64_is_finite percentile
                      then f64_clamp percentile f64_zero (f64_of_Z 100) else f64_zero in
    Z.min (f64_as_u128 (f64_ceil (f64_div (f64_mul (f64_of_Z total_gas) percentile)
                                    (f64_of_Z 100))))
      total_gas.

(** The search of [weighted_percentile_reward], from [cumulative_gas] on. *)
Fixpoint reward_at (threshold cumulative_gas : u128) (last : U256) (rewards : list (U256 * u64))
    : U256 :=
  match rewards with
  | [] => last
  | (tip, gas) :: rewards =>
      let cumulative_gas := saturating_add u128_max cumulative_gas gas in
      if threshold <=? cumulative_gas then tip else reward_at threshold cumulative_gas tip rewards
  end.

Definition weighted_percentile_reward (rewards : list (U256 * u64)) (total_gas : u128)
    (percentile : f64) : U256 :=
  reward_at (percentile_threshold total_gas percentile) 0 0 rewards.

Definition tx_rewards (base_fee : U256) (txs : list RpcTransaction) (tx_gas_used : list u64)
    : list (U256 * u64) :=
  filter (fun tg => 0 < tg.2)
    (imap (fun i tx => (effective_priority_fee tx base_fee, default (rt_gas tx) (tx_gas_used !! i)))
       txs).

Definition compute_reward_percentiles (block : RpcBlock) (tx_gas_used : list u64)
    (percentiles : list f64) : list U256 :=
  let zeros := replicate (length percentiles) 0 in
  match rb_transactions block with
  | Hashes _ => zeros
  | Full txs =>
      let base_fee := default 0 (rb_base_fee_per_gas block) in
      let rewards := tx_rewards base_fee txs tx_gas_used in
      match rewards with
      | [] => zeros
      | _ =>
          let rewards := sort_by (cmp_on fst Z.compare) rewards in
          let total_gas := sum_Z (snd <$> rewards) in
          weighted_percentile_reward rewards total_gas <$> percentiles
      end
  end.

(** ** The oracle and the history *)

Section provider.
Context {S : Type} `{SP : !StateProvider S}.

Definition block_by_number_or_none (provider : S) (block_number : u64) (full : bool)
    : option RpcBlock :=
  match sp_block_by_number provider (Number block_number) full with
  | Ok block => block
  | Err _ => None
  end.

(** What [estimate_recent_fees] collects: prices, tips and the last base fee. *)
Record Samples := mkSamples {
  sa_gas_prices : list U256; sa_priority_fees : list U256; sa_latest_base_fee : option U256;
}.

Definition sample_block (provider : S) (sa : Samples) (block_number : u64) : Samples :=
  match block_by_number_or_none provider block_number true with
  | None => sa
  | Some block =>
      let base_fee := default default_base_fee (rb_base_fee_per_gas block) in
      match rb_transactions block with
      | Full txs =>
          mkSamples
            (sa_gas_prices sa ++ ((fun tx => effective_gas_price_for_sampling tx base_fee) <$> txs))
            (sa_priority_fees sa ++ ((fun tx => effective_priority_fee tx base_fee) <$> txs))
            (Some base_fee)
      | Hashes _ => mkSamples (sa_gas_prices sa) (sa_priority_fees sa) (Some base_fee)
      end
  end.

Definition sample_blocks (provider : S) (head : u64) (config : GasOracleConfig) : Samples :=
  let block_count := Z.max (go_blocks config) 1 in
  let start := saturating_sub head (saturating_sub block_count 1) in
  foldl (sample_block provider) (mkSamples [] [] None) (seqZ start (head - start + 1)).

Definition estimate_recent_fees (provider : S) (head : u64) (config : GasOracleConfig)
    : GasOracleEstimate :=
  let sa := sample_blocks provider head config in
  let priority_fee :=
    default (go_min_priority_fee config)
      (percentile_value (sa_priority_fees sa) (go_percentile config)) in
  let priority_fee := Z.max priority_fee (go_min_priority_fee config) in
  let latest_base_fee := default default_base_fee (sa_latest_base_fee sa) in
  let priority_fee :=
    if latest_base_fee <? go_max_price config
    then Z.min priority_fee (saturating_sub (go_max_price config) latest_base_fee)
    else priority_fee in
  let min_gas_price :=
    Z.max (go_min_price config) (saturating_add u256_max latest_base_fee priority_fee) in
  let gas_price :=
    default min_gas_price (percentile_value (sa_gas_prices sa) (go_percentile config)) in
  let gas_price := Z.max gas_price min_gas_price in
  let gas_price :=
    if latest_base_fee <=? go_max_price config then Z.min gas_price (go_max_price config)
    else gas_price in
  mkEstimate gas_price priority_fee.

Definition resolve_fee_history_newest (newest_block : BlockNumberOrTag) (head : u64) : u64 :=
  match newest_block with
  | Number n => Z.min n head
  | Tag Earliest => 0
  | Tag _ | LatestDefault => head
  end.

Definition fetch_tx_gas_used (provider : S) (block : RpcBlock) : list u64 :=
  match rb_transactions block with
  | Hashes _ => []
  | Full txs =>
      (fun tx => match sp_receipt_by_hash provider (rt_hash tx) with
                 | Ok (Some receipt) => rr_gas_used receipt
                 | _ => rt_gas tx
                 end) <$> txs
  end.

Record FeeHistory := mkFeeHistory {
  fh_base_fee_per_gas : list U256;
  fh_gas_used_ratio : list f64;
  fh_oldest_block : u64;
  fh_reward : option (list (list U256));
}.

(** The state of the loop of [fee_history]. *)
Record HistoryAcc := mkHistoryAcc {
  ha_base_fees : list U256; ha_ratios : list f64; ha_reward : option (list (list U256));
  ha_last_base_fee : option U256; ha_last_gas_used : u64; ha_last_gas_limit : u64;
}.

(** A row is pushed when percentiles were asked for. *)
Definition push_row (rows : option (list (list U256))) (percentiles : option (list f64))
    (row : list f64 -> list U256) : option (list (list U256)) :=
  match percentiles, rows with
  | Some ps, Some rows => Some (rows ++ [row ps])
  | _, _ => rows
  end.

Definition history_block (provider : S) (percentiles : option (list f64)) (acc : HistoryAcc)
    (block_number : u64) : HistoryAcc :=
  let block := block_by_number_or_none provider block_number (is_some (ha_reward acc)) in
  let base_fee :=
    default default_base_fee
      (option_or (b ← block; rb_base_fee_per_gas b) (ha_last_base_fee acc)) in
  let base_fees := ha_base_fees acc ++ [base_fee] in
  match block with
  | Some block =>
      mkHistoryAcc base_fees
        (ha_ratios acc ++ [block_gas_used_ratio (rb_gas_used block) (rb_gas_limit block)])
        (push_row (ha_reward acc) percentiles
           (compute_reward_percentiles block (fetch_tx_gas_used provider block)))
        (Some base_fee) (rb_gas_used block) (rb_gas_limit block)
  | None =>
      mkHistoryAcc base_fees (ha_ratios acc ++ [f64_zero])
        (push_row (ha_reward acc) percentiles (fun ps => replicate (length ps) 0))
        (ha_last_base_fee acc) (ha_last_gas_used acc) (ha_last_gas_limit acc)
  end.

(** [fee_history] at a head: the loop and its result. *)
Definition fee_history_at (provider : S) (head : u64) (block_count : u64)
    (newest_block : BlockNumberOrTag) (percentiles : option (list f64)) : FeeHistory :=
  let newest := resolve_fee_history_newest newest_block head in
  let requested := Z.min block_count 1024 in
  let count := Z.min requested (saturating_add u64_max newest 1) in
  let oldest := saturating_sub (saturating_add u64_max newest 1) count in
  let acc := foldl (history_block provider percentiles)
               (mkHistoryAcc [] [] ((fun _ => []) <$> percentiles) None 0 0) (seqZ oldest count) in
  let next_base_fee :=
    match ha_last_base_fee acc with
    | Some base_fee =>
        calculate_next_base_fee base_fee (ha_last_gas_used acc) (ha_last_gas_limit acc)
    | None => default_base_fee
    end in
  mkFeeHistory (ha_base_fees acc ++ [next_base_fee]) (ha_ratios acc) oldest (ha_reward acc).

Definition fee_history (provider : S) (head : u64) (block_count : u64)
    (newest_block : BlockNumberOrTag) (percentiles : option (list f64))
    : result FeeHistory RpcError :=
  let? _ := match percentiles with
            | Some ps => validate_reward_percentiles ps
            | None => Ok tt
            end in
  Ok (fee_history_at provider head block_count newest_block percentiles).
End provider.

(** ** The base fee of the next block *)

Lemma base_fee_delta_small base d target :
  0 <= base <= u64_max -> 0 <= d <= target + 1 -> 0 < target -> 0 <= base * d / target / 8 <= u64_max.
Proof.
  intros Hb Hd Ht. assert (base * d <= base * 2 * target) by nia.
  assert (0 <= base * d / target) by (apply Z.div_pos; nia).
  assert (base * d / target <= base * 2) by (apply Z.div_le_upper_bound; nia).
  split; [apply Z.div_pos; lia|]. apply Z.div_le_upper_bound; lia.
Qed.

Lemma next_base_fee_agrees base used limit :
  0 <= base <= u64_max -> 0 <= used <= limit -> 2 <= limit <= u64_max ->
  calculate_base_fee base used limit BaseFeeParams_DEFAULT
  = Some (Z.min u64_max (calculate_next_base_fee base used limit)).
Proof.
  intros Hb Hu Hl. unfold calculate_base_fee, calculate_next_base_fee, checked_div.
  cbn [BaseFeeParams_DEFAULT elasticity_multiplier max_change_denominator Z.eqb mbind option_bind].
  assert (1 <= limit / 2) by (apply Z.div_le_lower_bound; lia).
  assert (2 * (limit / 2) <= limit <= 2 * (limit / 2) + 1).
  { pose proof (Z.mod_pos_bound limit 2). pose proof (Z.div_mod limit 2). lia. }
  set (target := limit / 2) in *. destruct (Z.eqb_spec target 0); [lia|]. cbn [orb].
  destruct (Z.eqb_spec used target); [by rewrite Z.min_r by lia|].
  assert (forall d, 0 <= d <= target + 1 ->
    saturating_mul u128_max base d = base * d /\ wrap u256_max (base * d) = base * d) as Hm.
  { intros d Hd. assert (0 <= base * d < 2 ^ 128).
    { assert (0 <= base * d <= u64_max * d) by nia. unfold u64_max in *. lia. }
    unfold saturating_mul, wrap, u128_max, u256_max. rewrite Z.mod_small by lia. lia. }
  destruct (Z.ltb_spec target used); cbn [mbind option_bind].
  - destruct (Hm (used - target)) as [-> ->]; [lia|].
    pose proof (base_fee_delta_small base (used - target) target Hb ltac:(lia) ltac:(lia)) as Hd.
    set (delta := base * (used - target) / target / 8) in *.
    unfold saturating_add, wrap, u256_max. f_equal. rewrite Z.mod_small; unfold u64_max in *; lia.
  - destruct (Hm (target - used)) as [-> ->]; [lia|].
    pose proof (base_fee_delta_small base (target - used) target Hb ltac:(lia) ltac:(lia)) as Hd.
    set (delta := base * (target - used) / target / 8) in *.
    unfold saturating_sub, wrap. f_equal. rewrite Z.mod_small; unfold u64_max in *; lia.
Qed.

(** ** The fee history *)

Section history.
Context {S : Type} `{SP : !StateProvider S}.

(** What the loop has after [n] blocks. *)
Definition acc_shape (ps : option (list f64)) (n : nat) (acc : HistoryAcc) : Prop :=
  length (ha_base_fees acc) = n /\ length (ha_ratios acc) = n
  /\ Forall (fun r => SFltb r f64_zero = false /\ SFltb (f64_of_Z 1) r = false) (ha_ratios acc)
  /\ match ps, ha_reward acc with
     | Some ps, Some rows => length rows = n /\ Forall (fun row => length row = length ps) rows
     | None, None => True
     | _, _ => False
     end.

Lemma ratio_bounded used limit :
  SFltb (block_gas_used_ratio used limit) f64_zero = false
  /\ SFltb (f64_of_Z 1) (block_gas_used_ratio used limit) = false.
Proof.
  unfold block_gas_used_ratio, f64_clamp. destruct (limit =? 0); [done|].
  set (x := f64_div _ _). destruct (SFltb x f64_zero) eqn:H1; [done|].
  destruct (SFltb (f64_of_Z 1) x) eqn:H2; [done|]. done.
Qed.

Lemma reward_row_length block used ps :
  length (compute_reward_percentiles block used ps) = length ps.
Proof.
  unfold compute_reward_percentiles. destruct (rb_transactions block) as [hs|txs].
  - apply length_replicate.
  - destruct (tx_rewards _ txs used); [apply length_replicate|apply length_fmap].
Qed.

Lemma history_block_shape (p : S) ps n acc num :
  acc_shape ps n acc -> acc_shape ps (1 + n) (history_block p ps acc num).
Proof.
  intros (Hb & Hr & Hf & Hw). unfold history_block.
  assert (forall row, (forall ps', length (row ps') = length ps') ->
    match ps, push_row (ha_reward acc) ps row with
    | Some ps, Some rows => length rows = (1 + n)%nat /\ Forall (fun row => length row = length ps) rows
    | None, None => True
    | _, _ => False
    end) as Hrow.
  { intros row Hl. unfold push_row. destruct ps as [ps|], (ha_reward acc) as [rows|]; try done.
    destruct Hw as [Hn Hall]. rewrite length_app, Forall_app, Forall_singleton. simpl.
    split_and!; [lia|done|apply Hl]. }
  destruct (block_by_number_or_none p num _) as [b|]; split_and!;
    cbn [ha_base_fees ha_ratios ha_reward]; rewrite ?length_app, ?Forall_app, ?Forall_singleton;
    simpl; try lia.
  - split; [done|]. apply ratio_bounded.
  - apply Hrow. intros ps'. apply reward_row_length.
  - by split.
  - apply Hrow. intros ps'. apply length_replicate.
Qed.

Lemma history_loop_shape (p : S) ps nums n acc :
  acc_shape ps n acc -> acc_shape ps (n + length nums) (foldl (history_block p ps) acc nums).
Proof.
  revert n acc. induction nums as [|x nums IH]; intros n acc H; simpl; [by rewrite Nat.add_0_r|].
  replace (n + Datatypes.S (length nums))%nat with ((1 + n) + length nums)%nat by lia.
  by apply IH, history_block_shape.
Qed.

(** C27: the shape of a fee history.  Unless the percentiles are refused, the answer covers
    [count] blocks ending at the newest one asked for, where [count] is the number asked for, at
    most 1024 and at most the blocks there are: it has one base fee more than blocks, one gas
    ratio per block that is neither below 0 nor above 1, and, exactly when percentiles were
    given, one row per block with one reward per percentile.  The percentiles are refused exactly
    when one is not a number in [0, 100] or they decrease. *)
Theorem fee_history_shape (p : S) head block_count newest_block percentiles :
  0 <= head < u64_max -> 0 <= block_count ->
  (forall n, newest_block = Number n -> 0 <= n) ->
  let newest := resolve_fee_history_newest newest_block head in
  let count := Z.min (Z.min block_count 1024) (newest + 1) in
  match fee_history p head block_count newest_block percentiles with
  | Ok h =>
      len (fh_base_fee_per_gas h) = count + 1 /\ len (fh_gas_used_ratio h) = count
      /\ fh_oldest_block h + count = newest + 1 /\ 0 <= fh_oldest_block h
      /\ Forall (fun r => SFltb r f64_zero = false /\ SFltb (f64_of_Z 1) r = false)
           (fh_gas_used_ratio h)
      /\ match percentiles, fh_reward h with
         | Some ps, Some rows =>
             len rows = count /\ Forall (fun row => length row = length ps) rows
             /\ existsb percentile_out_of_range ps = false /\ decreasing_somewhere ps = false
         | None, None => True
         | _, _ => False
         end
  | Err _ => exists ps, percentiles = Some ps
      /\ (existsb percentile_out_of_range ps = true \/ decreasing_somewhere ps = true)
  end.
Proof.
  intros Hh Hc Hn newest count. assert (0 <= newest <= head) as Hnew.
  { unfold newest, resolve_fee_history_newest. destruct newest_block as [n|t|]; [|destruct t|]; try lia.
    specialize (Hn n eq_refl). lia. }
  assert (saturating_add u64_max newest 1 = newest + 1) as Hsat by (unfold saturating_add; lia).
  unfold fee_history.
  assert (forall h, h = fee_history_at p head block_count newest_block percentiles ->
    len (fh_base_fee_per_gas h) = count + 1 /\ len (fh_gas_used_ratio h) = count
    /\ fh_oldest_block h + count = newest + 1 /\ 0 <= fh_oldest_block h
    /\ Forall (fun r => SFltb r f64_zero = false /\ SFltb (f64_of_Z 1) r = false)
         (fh_gas_used_ratio h)
    /\ match percentiles, fh_reward h with
       | Some ps, Some rows => len rows = count /\ Forall (fun row => length row = length ps) rows
       | None, None => True
       | _, _ => False
       end) as Hmain.
  { intros h ->. unfold fee_history_at. fold newest. rewrite Hsat. fold count.
    set (oldest := saturating_sub (newest + 1) count).
    pose proof (history_loop_shape p percentiles (seqZ oldest count) 0
      (mkHistoryAcc [] [] ((fun _ => []) <$> percentiles) None 0 0)) as Hl.
    destruct Hl as (H1 & H2 & H3 & H4).
    { split_and!; try done. by destruct percentiles. }
    rewrite length_seqZ in *. cbn [fh_base_fee_per_gas fh_gas_used_ratio fh_oldest_block fh_reward].
    rewrite len_app. unfold len. rewrite H1, H2. unfold oldest, saturating_sub, count.
    cbn [length]. split_and!; try lia; [done|].
    destruct percentiles as [ps|], (ha_reward _) as [rows|]; try done.
    destruct H4 as [H4 H5]. unfold count in *. split; [lia|done]. }
  destruct percentiles as [ps|]; [|apply Hmain; done].
  unfold validate_reward_percentiles. destruct (existsb _ ps) eqn:E1; [eauto|].
  destruct (decreasing_somewhere ps) eqn:E2; [eauto|].
  destruct (Hmain _ eq_refl) as (? & ? & ? & ? & ? & Hrow). split_and!; try done.
  destruct (fh_reward _); [|done]. destruct Hrow. split_and!; done.
Qed.

Lemma history_last (p : S) ps oldest count acc :
  acc_shape ps 0 acc -> 1 <= count ->
  exists acc', acc_shape ps (Z.to_nat (count - 1)) acc' /\
    foldl (history_block p ps) acc (seqZ oldest count) = history_block p ps acc' (oldest + count - 1).
Proof.
  intros Ha Hc. exists (foldl (history_block p ps) acc (seqZ oldest (count - 1))). split.
  - pose proof (history_loop_shape p ps (seqZ oldest (count - 1)) 0 acc Ha) as H.
    by rewrite length_seqZ in H.
  - replace count with ((count - 1) + 1) at 1 by lia. rewrite seqZ_app by lia.
    rewrite foldl_app. change (seqZ (oldest + (count - 1)) 1) with [0 + (oldest + (count - 1))].
    cbn [foldl]. f_equal. lia.
Qed.

Lemma shape_full ps n acc : acc_shape ps n acc -> is_some (ha_reward acc) = is_some ps.
Proof. intros (_ & _ & _ & H). by destruct ps, (ha_reward acc). Qed.

(** C26: the fee history predicts the executor.  When the newest block asked for is known, with
    its base fee and no more gas used than its limit, the list of base fees ends with that block's
    base fee and the one predicted for its child; a child of the block passes the executor's base
    fee check exactly when it has the predicted fee (capped at 64 bits). *)
Theorem fee_history_predicts (p : S) head block_count newest_block percentiles h block base chain_id :
  0 <= head < u64_max -> 1 <= block_count -> (forall n, newest_block = Number n -> 0 <= n) ->
  fee_history p head block_count newest_block percentiles = Ok h ->
  sp_block_by_number p (Number (resolve_fee_history_newest newest_block head)) (is_some percentiles)
  = Ok (Some block) ->
  rb_base_fee_per_gas block = Some base -> 0 <= base <= u64_max ->
  0 <= rb_gas_used block <= rb_gas_limit block -> 2 <= rb_gas_limit block <= u64_max ->
  exists fees next, fh_base_fee_per_gas h = fees ++ [base; next] /\
    forall child,
      validate_base_fee (ExecutionConfig_new chain_id) child base (rb_gas_used block)
        (rb_gas_limit block) = Some (Ok tt)
      <-> hd_base_fee_per_gas child = Some (Z.min u64_max next).
Proof.
  intros Hh Hc Hn Hok Hb Hbase Hb64 Hu Hl. unfold fee_history in Hok.
  assert (fee_history_at p head block_count newest_block percentiles = h) as <-.
  { destruct percentiles as [ps|]; [|by simplify_eq].
    destruct (validate_reward_percentiles ps); by simplify_eq. }
  unfold fee_history_at. set (newest := resolve_fee_history_newest newest_block head) in *.
  assert (0 <= newest <= head) as Hnew.
  { unfold newest, resolve_fee_history_newest. destruct newest_block as [n|t|]; [|destruct t|]; try lia.
    specialize (Hn n eq_refl). lia. }
  assert (saturating_add u64_max newest 1 = newest + 1) as -> by (unfold saturating_add; lia).
  set (count := Z.min (Z.min block_count 1024) (newest + 1)). assert (1 <= count) by lia.
  set (acc0 := mkHistoryAcc [] [] ((fun _ => []) <$> percentiles) None 0 0).
  destruct (history_last p percentiles (saturating_sub (newest + 1) count) count acc0)
    as (acc & Ha & ->); [by split_and!; destruct percentiles|done|].
  replace (saturating_sub (newest + 1) count + count - 1) with newest
    by (unfold saturating_sub; lia).
  unfold history_block, block_by_number_or_none. rewrite (shape_full _ _ _ Ha), Hb.
  cbn [mbind option_bind]. rewrite Hbase.
  cbn [option_or default ha_base_fees ha_last_base_fee ha_last_gas_used ha_last_gas_limit
    fh_base_fee_per_gas].
  eexists _, _. rewrite <- app_assoc. split; [reflexivity|]. intros child.
  unfold validate_base_fee. cbn [ExecutionConfig_new ec_base_fee_params].
  rewrite next_base_fee_agrees by done. cbn [mbind option_bind].
  destruct (hd_base_fee_per_gas child) as [f|]; [|naive_solver].
  destruct (Z.eqb_spec f (Z.min u64_max (calculate_next_base_fee base (rb_gas_used block)
    (rb_gas_limit block)))); cbn [negb]; naive_solver.
Qed.
End history.

(** ** Percentiles *)

Lemma percentile_value_elem vs p v :
  0 <= p -> percentile_value vs p = Some v -> v ∈ vs.
Proof.
  unfold percentile_value. destruct vs as [|x vs]; [done|]. intros _ H.
  apply list_elem_of_lookup_2 in H. by rewrite sort_by_perm in H.
Qed.

Lemma percentile_value_some vs p : vs <> [] -> 0 <= p -> is_Some (percentile_value vs p).
Proof.
  intros Hv Hp. unfold percentile_value. destruct vs as [|x vs]; [done|].
  apply lookup_lt_is_Some_2.
  assert (length (sort_by Z.compare (x :: vs)) = Datatypes.S (length vs)) as Hl
    by (by rewrite (Permutation_length (sort_by_perm _ _))).
  unfold len. rewrite Hl.
  assert (0 <= Z.of_nat (Datatypes.S (length vs)) * Z.min p 100 / 100) by (apply Z.div_pos; lia).
  lia.
Qed.

(** The gas of the rewards whose tip satisfies a test. *)
Definition gas_where (test : U256 -> bool) (rewards : list (U256 * u64)) : Z :=
  sum_Z (snd <$> filter (fun tg => test tg.1 = true) rewards).

Lemma gas_where_cons test t g rs :
  gas_where test ((t, g) :: rs) = (if test t then g else 0) + gas_where test rs.
Proof.
  unfold gas_where. rewrite filter_cons. simpl. destruct (test t); [|by rewrite decide_False].
  by rewrite decide_True.
Qed.

Lemma gas_where_nonneg test rs : Forall (fun tg => 0 < tg.2) rs -> 0 <= gas_where test rs.
Proof.
  induction 1 as [|[t g] rs Hg _ IH]; [done|]. rewrite gas_where_cons. simpl in Hg.
  destruct (test t); lia.
Qed.

Lemma gas_where_none test rs : Forall (fun tg => test tg.1 = false) rs -> gas_where test rs = 0.
Proof.
  induction 1 as [|[t g] rs Hg _ IH]; [done|]. rewrite gas_where_cons. simpl in Hg. by rewrite Hg, IH.
Qed.

(** The search over sorted rewards, with [c] the gas already passed. *)
Lemma reward_at_spec t c last rs :
  StronglySorted (fun a b => a.1 <= b.1) rs -> Forall (fun tg => 0 < tg.2) rs ->
  0 <= c -> c < t <= c + sum_Z (snd <$> rs) -> c + sum_Z (snd <$> rs) <= u128_max ->
  let v := reward_at t c last rs in
  v ∈ rs.*1 /\ c + gas_where (fun x => x <? v) rs < t <= c + gas_where (fun x => x <=? v) rs.
Proof.
  revert c last. induction rs as [|[tip gas] rs IH]; intros c last Hs Hg Hc Ht Hmax; [simpl in *; lia|].
  apply StronglySorted_inv in Hs as [Hs Hle]. apply Forall_cons in Hg as [Hg0 Hg]. simpl in Hg0.
  assert (0 <= sum_Z (snd <$> rs)) as Hpos.
  { apply sum_Z_nonneg. rewrite Forall_fmap. eapply Forall_impl; [exact Hg|]. simpl. lia. }
  change (sum_Z (snd <$> (tip, gas) :: rs)) with (gas + sum_Z (snd <$> rs)) in *. cbn [reward_at].
  assert (saturating_add u128_max c gas = c + gas) as -> by (unfold saturating_add; lia).
  rewrite !gas_where_cons. destruct (Z.leb_spec t (c + gas)) as [Hhit|Hmiss]; cbv zeta.
  - split; [by left|]. rewrite Z.ltb_irrefl, Z.leb_refl, gas_where_none.
    + pose proof (gas_where_nonneg (fun x => x <=? tip) rs Hg). lia.
    + eapply Forall_impl; [exact Hle|]. intros [a ?] Ha. simpl in *. by apply Z.ltb_ge.
  - destruct (IH (c + gas) tip Hs Hg) as (Hin & Hlt & Hge); [lia..|].
    assert (tip <= reward_at t (c + gas) tip rs) as Hv.
    { apply list_elem_of_fmap in Hin as (x & -> & Hx). rewrite Forall_forall in Hle.
      apply (Hle _ Hx). }
    split; [by right|]. destruct (Z.leb_spec tip (reward_at t (c + gas) tip rs)); [|lia].
    destruct (Z.ltb_spec tip (reward_at t (c + gas) tip rs)); [lia|].
    assert (0 < gas) by lia. lia.
Qed.

#[local] Instance gas_where_perm test : Proper ((≡ₚ) ==> eq) (gas_where test).
Proof.
  induction 1 as [|[t g] l l' _ IH|[t g] [t' g'] l|l l' l'' _ IH1 _ IH2];
    rewrite ?gas_where_cons; lia.
Qed.

Lemma gas_where_all rs : gas_where (fun _ => true) rs = sum_Z (snd <$> rs).
Proof.
  induction rs as [|[t g] rs IH]; [done|]. rewrite gas_where_cons, IH. done.
Qed.

Lemma as_u128_nonneg x : 0 <= f64_as_u128 x.
Proof.
  unfold f64_as_u128. destruct x as [|[]| |[] m e]; try done.
  apply Z.min_glb; [done|]. destruct (Z.leb_spec 0 e); [|apply Z.div_pos]; try lia.
Qed.

Lemma threshold_bounds total p : 0 <= total -> 0 <= percentile_threshold total p <= total.
Proof.
  intros Ht. unfold percentile_threshold. destruct (total =? 0); [lia|].
  pose proof (as_u128_nonneg (f64_ceil (f64_div (f64_mul (f64_of_Z total)
    (if f64_is_finite p then f64_clamp p f64_zero (f64_of_Z 100) else f64_zero)) (f64_of_Z 100)))).
  lia.
Qed.

Lemma rewards_sorted rs :
  StronglySorted (fun a b => a.1 <= b.1) (sort_by (cmp_on (B := Z) (A := U256 * u64) fst Z.compare) rs).
Proof.
  pose proof (sort_by_sorted (cmp_on (B := Z) (A := U256 * u64) fst Z.compare) rs) as H.
  induction H as [|x l _ IH Hx]; constructor; [done|]. eapply Forall_impl; [exact Hx|].
  intros y. unfold cmp_le, cmp_on. rewrite Z.compare_gt_iff. lia.
Qed.

(** The rewards of a block are gas-weighted percentiles.  With the full transactions of a
    block at hand and some of them having used gas, the reward at a percentile is one of their
    tips: the transactions that tipped less used less gas than the percentile's threshold, those
    that tipped at most as much used at least the threshold.  A zero threshold gives the least
    tip. *)
Theorem reward_percentiles_correct block txs used ps i p :
  let rewards := tx_rewards (default 0 (rb_base_fee_per_gas block)) txs used in
  let total := sum_Z (snd <$> rewards) in
  let t := percentile_threshold total p in
  rb_transactions block = Full txs -> rewards <> [] -> total <= u128_max -> ps !! i = Some p ->
  exists v, compute_reward_percentiles block used ps !! i = Some v /\ v ∈ rewards.*1
    /\ 0 <= t <= total
    /\ (0 < t -> gas_where (fun x => x <? v) rewards < t <= gas_where (fun x => x <=? v) rewards)
    /\ (t = 0 -> forall x, x ∈ rewards.*1 -> v <= x).
Proof.
  intros rewards total t Hf Hne Hmax Hp. unfold compute_reward_percentiles. rewrite Hf.
  fold rewards. set (sorted := sort_by (cmp_on fst Z.compare) rewards).
  assert (Forall (fun tg => 0 < tg.2) rewards) as Hpos.
  { apply Forall_forall. intros x [Hx _]%list_elem_of_filter. done. }
  assert (sorted ≡ₚ rewards) as Hperm by apply sort_by_perm.
  assert (sum_Z (snd <$> sorted) = total) as Htot.
  { unfold total. rewrite <- !gas_where_all. by rewrite Hperm. }
  assert (0 <= total) as Htot0.
  { apply sum_Z_nonneg. rewrite Forall_fmap. eapply Forall_impl; [exact Hpos|]. simpl. lia. }
  pose proof (threshold_bounds total p Htot0) as Ht. fold t in Ht.
  exists (weighted_percentile_reward sorted total p).
  assert (forall (A : Type) (x y : A), match rewards with [] => x | _ => y end = y) as Hm.
  { intros. by destruct rewards. }
  rewrite Hm, Htot, list_lookup_fmap, Hp. unfold weighted_percentile_reward. fold t.
  assert (Forall (fun tg => 0 < tg.2) sorted) as Hpos' by by rewrite Hperm.
  pose proof (rewards_sorted rewards) as Hs. fold sorted in Hs.
  split; [done|]. destruct (decide (0 < t)) as [Hlt|].
  - destruct (reward_at_spec t 0 0 sorted Hs Hpos') as (Hin & Hb); [lia..|].
    generalize dependent (reward_at t 0 0 sorted). intros v Hin Hb.
    rewrite Hperm in Hin. rewrite !Hperm in Hb. split_and!; try done; try lia.
  - destruct sorted as [|[tip gas] rest] eqn:Es.
    { symmetry in Hperm. apply Permutation_nil_r in Hperm. done. }
    cbn [reward_at]. destruct (Z.leb_spec t (saturating_add u128_max 0 gas)) as [_|Hbad].
    2: { apply Forall_cons in Hpos' as [? _]. unfold saturating_add, u128_max in *. simpl in *. lia. }
    split_and!; try lia; [rewrite <- Hperm; by left|].
    intros _ x Hx. rewrite <- Hperm in Hx. apply StronglySorted_inv in Hs as [_ Hle].
    apply elem_of_cons in Hx as [->|Hx]; [done|]. apply list_elem_of_fmap in Hx as (y & -> & Hy).
    rewrite Forall_forall in Hle. by apply (Hle _ Hy).
Qed.

(** ** The oracle *)

Section oracle.
Context {S : Type} `{SP : !StateProvider S}.

(** The base fees a provider serves are [U256]. *)
Definition fees_in_range (p : S) : Prop :=
  forall n full b f, sp_block_by_number p n full = Ok (Some b) -> rb_base_fee_per_gas b = Some f ->
    0 <= f <= u256_max.

Lemma sample_base_fee (p : S) head config f :
  fees_in_range p -> sa_latest_base_fee (sample_blocks p head config) = Some f -> 0 <= f <= u256_max.
Proof.
  intros Hp. unfold sample_blocks. generalize (seqZ (saturating_sub head
    (saturating_sub (Z.max (go_blocks config) 1) 1)) (head - saturating_sub head
    (saturating_sub (Z.max (go_blocks config) 1) 1) + 1)). intros ns.
  assert (forall f, sa_latest_base_fee (mkSamples [] [] None) = Some f -> 0 <= f <= u256_max) as Hsa by done.
  revert Hsa. generalize (mkSamples [] [] None). induction ns as [|n ns IH]; intros sa Hsa; simpl; [by apply Hsa|].
  apply IH. intros g. unfold sample_block, block_by_number_or_none.
  destruct (sp_block_by_number p (Number n) true) as [[b|]|] eqn:Hb; [|by apply Hsa..].
  assert (0 <= default default_base_fee (rb_base_fee_per_gas b) <= u256_max).
  { destruct (rb_base_fee_per_gas b) as [x|] eqn:Hx; [by eapply Hp|done]. }
  destruct (rb_transactions b); simpl; intros [= <-]; done.
Qed.

(** The gas oracle.  With the last base fee it saw (or the default one), the suggested gas
    price always covers the base fee; while the base fee does not exceed the configured maximum
    the price stays within the maximum, and within the configured minimum when that is not above
    the maximum; while the base fee is below the maximum the suggested priority fee is affordable
    at the suggested price, and is at least the configured minimum or all that the maximum leaves
    above the base fee. *)
Theorem oracle_bounds (p : S) head config :
  fees_in_range p -> 0 <= go_min_priority_fee config -> 0 <= go_max_price config <= u256_max ->
  let base := default default_base_fee (sa_latest_base_fee (sample_blocks p head config)) in
  let e := estimate_recent_fees p head config in
  base <= ge_gas_price e /\ 0 <= ge_priority_fee e
  /\ (base <= go_max_price config ->
        ge_gas_price e <= go_max_price config
        /\ (go_min_price config <= go_max_price config -> go_min_price config <= ge_gas_price e))
  /\ (base < go_max_price config ->
        base + ge_priority_fee e <= ge_gas_price e
        /\ (go_min_priority_fee config <= ge_priority_fee e
            \/ base + ge_priority_fee e = go_max_price config)).
Proof.
  intros Hp Hmin Hmax base e.
  assert (0 <= base <= u256_max) as Hb.
  { unfold base. destruct (sa_latest_base_fee _) eqn:Hf; [by eapply sample_base_fee|done]. }
  unfold e, estimate_recent_fees. fold base. cbn [ge_gas_price ge_priority_fee].
  set (tip := default (go_min_priority_fee config) _).
  set (prio := if base <? go_max_price config then _ else _).
  generalize (percentile_value (sa_gas_prices (sample_blocks p head config)) (go_percentile config)).
  intros sampled. clearbody tip base.
  assert (0 <= prio /\ (base < go_max_price config -> base + prio <= go_max_price config
    /\ (go_min_priority_fee config <= prio \/ base + prio = go_max_price config))) as [Hp0 Hp1].
  { unfold prio, saturating_sub. destruct (Z.ltb_spec base (go_max_price config)); lia. }
  clearbody prio. unfold saturating_add.
  destruct (Z.leb_spec base (go_max_price config)), sampled as [g|]; cbn [default]; lia.
Qed.

(** When the base fee equals the maximum price the two suggestions do not fit together: the
    priority fee comes on top of a price that is the base fee alone. *)
Lemma oracle_boundary (p : S) head config :
  0 < go_min_priority_fee config -> 0 <= go_max_price config <= u256_max ->
  let base := default default_base_fee (sa_latest_base_fee (sample_blocks p head config)) in
  let e := estimate_recent_fees p head config in
  base = go_max_price config ->
  ge_gas_price e = base /\ ge_gas_price e < base + ge_priority_fee e.
Proof.
  intros Hmin Hmax base e Hb. unfold e, estimate_recent_fees. fold base.
  cbn [ge_gas_price ge_priority_fee]. rewrite Hb, Z.ltb_irrefl, Z.leb_refl.
  set (tip := default (go_min_priority_fee config) _). clearbody tip.
  unfold saturating_add.
  destruct (percentile_value (sa_gas_prices _) _); cbn [default]; lia.
Qed.
End oracle.

(** ** Witnesses *)

(** A provider that serves blocks from a map and nothing else. *)
#[local] Instance blocks_provider : StateProvider (gmap u64 RpcBlock) := {|
  sp_balance := fun _ _ _ => Err NotImplemented;
  sp_nonce := fun _ _ _ => Err NotImplemented;
  sp_code := fun _ _ _ => Err NotImplemented;
  sp_storage := fun _ _ _ _ => Err NotImplemented;
  sp_block_by_number := fun m b _ => Ok (match b with Number n => m !! n | _ => None end);
  sp_block_by_hash := fun _ _ _ => Ok None;
  sp_transaction_by_hash := fun _ _ => Ok None;
  sp_receipt_by_hash := fun _ _ => Ok None;
  sp_block_number := fun _ => Ok 1;
  sp_call := fun _ _ _ => Err NotImplemented;
  sp_estimate_gas := fun _ _ _ => Err NotImplemented;
  sp_get_logs := fun _ _ => Err NotImplemented;
|}.

Definition fee_tx (tip gas : Z) : RpcTransaction :=
  mkRpcTx 1 0 None None None 0 None 0 gas 0 [] 2 None (Some (100 * GWEI)) (Some tip) 0 0 0.
Definition fee_block : RpcBlock :=
  mkRpcBlock 7 6 0 1 0 0 0 [] 0 30000000 20000000 [] 0 0 (Some GWEI) 0 0 0 [] 0
    (Full [fee_tx (3 * GWEI) 42000; fee_tx GWEI 21000]) [] 0.
Definition fee_blocks : gmap u64 RpcBlock := {[ 1 := fee_block ]}.

Lemma fee_blocks_in_range : fees_in_range fee_blocks.
Proof.
  intros [n|t|] full b f H Hf; simpl in H; simplify_eq.
  unfold fee_blocks in H. apply lookup_singleton_Some in H as [_ <-]. injection Hf as <-. done.
Qed.

Lemma fee_history_shape_witness :
  match fee_history fee_blocks 1 5 (Tag Latest) (Some [f64_of_Z 10; f64_of_Z 90]) with
  | Ok h => len (fh_base_fee_per_gas h) = 3 /\ fh_oldest_block h = 0
      /\ fh_reward h = Some [[0; 0]; [GWEI; 3 * GWEI]]
  | Err _ => False
  end.
Proof.
  pose proof (fee_history_shape fee_blocks 1 5 (Tag Latest) (Some [f64_of_Z 10; f64_of_Z 90])
    ltac:(done) ltac:(done) ltac:(done)) as H. cbv zeta in H.
  destruct (fee_history fee_blocks 1 5 (Tag Latest) (Some [f64_of_Z 10; f64_of_Z 90])) as [h|e] eqn:E.
  - destruct H as (H & _ & Ho & _). split_and!; [exact H|simpl in Ho; lia|].
    assert (Ok h = Ok (E := RpcError) (fee_history_at fee_blocks 1 5 (Tag Latest)
      (Some [f64_of_Z 10; f64_of_Z 90]))) as [= ->] by (rewrite <- E; vm_compute; reflexivity).
    vm_compute. reflexivity.
  - vm_compute in E. discriminate.
Defined.

Lemma fee_history_predicts_witness :
  exists h fees next, fee_history fee_blocks 1 5 (Tag Latest) None = Ok h
    /\ fh_base_fee_per_gas h = fees ++ [GWEI; next].
Proof.
  destruct (fee_history fee_blocks 1 5 (Tag Latest) None) as [h|e] eqn:E.
  - destruct (fee_history_predicts fee_blocks 1 5 (Tag Latest) None h fee_block GWEI 1
      ltac:(done) ltac:(done) ltac:(done) E eq_refl eq_refl ltac:(done) ltac:(done) ltac:(done))
      as (fees & next & H & _).
    exists h, fees, next. split; [reflexivity|exact H].
  - vm_compute in E. discriminate.
Defined.

Lemma reward_percentiles_correct_witness :
  exists v, compute_reward_percentiles fee_block [] [f64_of_Z 50] !! 0%nat = Some v
    /\ v ∈ [3 * GWEI; GWEI].
Proof.
  destruct (reward_percentiles_correct fee_block [fee_tx (3 * GWEI) 42000; fee_tx GWEI 21000] []
    [f64_of_Z 50] 0 (f64_of_Z 50) eq_refl ltac:(done) ltac:(done) eq_refl) as (v & H & Hin & _).
  exists v. split; [exact H|exact Hin].
Defined.

Lemma oracle_bounds_witness :
  let e := estimate_recent_fees fee_blocks 1 GasOracleConfig_default in
  ge_priority_fee e = 3 * GWEI /\ GWEI <= ge_gas_price e.
Proof.
  destruct (oracle_bounds fee_blocks 1 GasOracleConfig_default fee_blocks_in_range
    ltac:(done) ltac:(done)) as (H & _).
  split; [vm_compute; reflexivity|exact H].
Defined.
