(* ===== verification/Eth.v ===== *)
(** The eth, net, web3 and txpool namespaces of the JSON-RPC server
    (crates/node/rpc/src/eth.rs and txpool.rs): one definition per method, on a
    state that holds the cache of pending transactions, its eviction offset,
    the filters and the fee cache.  Methods run one after the other; the clock
    is read once per call and is an argument; [tx_submit] is the callback the
    node installs. *)
From stdpp Require Import pretty.
From S2P Require Import Prelude TxTypes SenderQueue Pool StateDb Changes StateRoot Bytes QmdbState.
From S2P Require Import Executor Execute Layers Codec Block Snapshots QmdbLedger Ledger NodeState App.
From S2P Require Import Indexer Reporters Rpc Filters Float Fees.
Open Scope Z_scope.

Definition MAX_PENDING_TXS : usize := 10000.

Inductive PendingTxEvent : Type :=
| PendingAdded (hash : B256) (full_tx : option RpcTransaction).

(** The channels are the events sent on them so far. *)
Record EthApi (S : Type) := mkEthApi {
  ea_chain_id : u64;
  ea_block_height : u64;
  ea_tx_submit : option (bytes -> result unit RpcError);
  ea_provider : S;
  ea_pending_txs : gmap B256 RpcTransaction;
  ea_pending_tx_broadcast : option (list PendingTxEvent);
  ea_mempool_broadcast : option (list MempoolEvent);
  ea_txpool : option TransactionPool;
  ea_gas_oracle_config : GasOracleConfig;
  ea_gas_oracle_cache : option CachedGasOracleEstimate;
  ea_pending_tx_order : list B256;
  ea_pending_tx_evicted : usize;
  ea_max_pending_txs : usize;
  ea_filter_store : FilterStore;
  ea_node_state : option NodeState;
}.
Arguments mkEthApi {S}.
Arguments ea_chain_id {S}.
Arguments ea_block_height {S}.
Arguments ea_tx_submit {S}.
Arguments ea_provider {S}.
Arguments ea_pending_txs {S}.
Arguments ea_pending_tx_broadcast {S}.
Arguments ea_mempool_broadcast {S}.
Arguments ea_txpool {S}.
Arguments ea_gas_oracle_config {S}.
Arguments ea_gas_oracle_cache {S}.
Arguments ea_pending_tx_order {S}.
Arguments ea_pending_tx_evicted {S}.
Arguments ea_max_pending_txs {S}.
Arguments ea_filter_store {S}.
Arguments ea_node_state {S}.

Section state.
Context {S : Type}.

Definition from_parts (chain_id : u64) (provider : S)
    (tx_submit : option (bytes -> result unit RpcError)) (config : GasOracleConfig) : EthApi S :=
  mkEthApi chain_id 0 tx_submit provider ∅ None None None config None [] 0 MAX_PENDING_TXS
    store_default None.

Definition with_pending_tx_broadcast (a : EthApi S) : EthApi S :=
  mkEthApi (ea_chain_id a) (ea_block_height a) (ea_tx_submit a) (ea_provider a) (ea_pending_txs a)
    (Some []) (ea_mempool_broadcast a) (ea_txpool a) (ea_gas_oracle_config a)
    (ea_gas_oracle_cache a) (ea_pending_tx_order a) (ea_pending_tx_evicted a)
    (ea_max_pending_txs a) (ea_filter_store a) (ea_node_state a).

Definition api_with_txpool (a : EthApi S) (pool : TransactionPool) : EthApi S :=
  mkEthApi (ea_chain_id a) (ea_block_height a) (ea_tx_submit a) (ea_provider a) (ea_pending_txs a)
    (ea_pending_tx_broadcast a) (ea_mempool_broadcast a) (Some pool) (ea_gas_oracle_config a)
    (ea_gas_oracle_cache a) (ea_pending_tx_order a) (ea_pending_tx_evicted a)
    (ea_max_pending_txs a) (ea_filter_store a) (ea_node_state a).

Definition api_with_node_state (a : EthApi S) (s : NodeState) : EthApi S :=
  mkEthApi (ea_chain_id a) (ea_block_height a) (ea_tx_submit a) (ea_provider a) (ea_pending_txs a)
    (ea_pending_tx_broadcast a) (ea_mempool_broadcast a) (ea_txpool a) (ea_gas_oracle_config a)
    (ea_gas_oracle_cache a) (ea_pending_tx_order a) (ea_pending_tx_evicted a)
    (ea_max_pending_txs a) (ea_filter_store a) (Some s).

Definition with_gas_oracle_config (a : EthApi S) (config : GasOracleConfig) : EthApi S :=
  mkEthApi (ea_chain_id a) (ea_block_height a) (ea_tx_submit a) (ea_provider a) (ea_pending_txs a)
    (ea_pending_tx_broadcast a) (ea_mempool_broadcast a) (ea_txpool a) config None
    (ea_pending_tx_order a) (ea_pending_tx_evicted a) (ea_max_pending_txs a) (ea_filter_store a)
    (ea_node_state a).

Definition set_block_height (a : EthApi S) (height : u64) : EthApi S :=
  mkEthApi (ea_chain_id a) height (ea_tx_submit a) (ea_provider a) (ea_pending_txs a)
    (ea_pending_tx_broadcast a) (ea_mempool_broadcast a) (ea_txpool a) (ea_gas_oracle_config a)
    (ea_gas_oracle_cache a) (ea_pending_tx_order a) (ea_pending_tx_evicted a)
    (ea_max_pending_txs a) (ea_filter_store a) (ea_node_state a).

(** The provider the methods share with the node, which moves it. *)
Definition set_provider (a : EthApi S) (provider : S) : EthApi S :=
  mkEthApi (ea_chain_id a) (ea_block_height a) (ea_tx_submit a) provider (ea_pending_txs a)
    (ea_pending_tx_broadcast a) (ea_mempool_broadcast a) (ea_txpool a) (ea_gas_oracle_config a)
    (ea_gas_oracle_cache a) (ea_pending_tx_order a) (ea_pending_tx_evicted a)
    (ea_max_pending_txs a) (ea_filter_store a) (ea_node_state a).

(** Writes of the methods: the pending transactions, the fee cache, the filters
    and the events. *)
Definition set_pending (a : EthApi S) (txs : gmap B256 RpcTransaction) (order : list B256)
    (evicted : usize) : EthApi S :=
  mkEthApi (ea_chain_id a) (ea_block_height a) (ea_tx_submit a) (ea_provider a) txs
    (ea_pending_tx_broadcast a) (ea_mempool_broadcast a) (ea_txpool a) (ea_gas_oracle_config a)
    (ea_gas_oracle_cache a) order evicted (ea_max_pending_txs a) (ea_filter_store a)
    (ea_node_state a).
Definition set_cache (a : EthApi S) (c : CachedGasOracleEstimate) : EthApi S :=
  mkEthApi (ea_chain_id a) (ea_block_height a) (ea_tx_submit a) (ea_provider a) (ea_pending_txs a)
    (ea_pending_tx_broadcast a) (ea_mempool_broadcast a) (ea_txpool a) (ea_gas_oracle_config a)
    (Some c) (ea_pending_tx_order a) (ea_pending_tx_evicted a) (ea_max_pending_txs a)
    (ea_filter_store a) (ea_node_state a).
Definition put_store (a : EthApi S) (s : FilterStore) : EthApi S :=
  mkEthApi (ea_chain_id a) (ea_block_height a) (ea_tx_submit a) (ea_provider a) (ea_pending_txs a)
    (ea_pending_tx_broadcast a) (ea_mempool_broadcast a) (ea_txpool a) (ea_gas_oracle_config a)
    (ea_gas_oracle_cache a) (ea_pending_tx_order a) (ea_pending_tx_evicted a)
    (ea_max_pending_txs a) s (ea_node_state a).
Definition set_events (a : EthApi S) (pending : option (list PendingTxEvent))
    (mempool : option (list MempoolEvent)) : EthApi S :=
  mkEthApi (ea_chain_id a) (ea_block_height a) (ea_tx_submit a) (ea_provider a) (ea_pending_txs a)
    pending mempool (ea_txpool a) (ea_gas_oracle_config a) (ea_gas_oracle_cache a)
    (ea_pending_tx_order a) (ea_pending_tx_evicted a) (ea_max_pending_txs a) (ea_filter_store a)
    (ea_node_state a).
Definition api_with_mempool_broadcast (a : EthApi S) : EthApi S :=
  set_events a (ea_pending_tx_broadcast a) (Some []).
End state.

(** ** Pending transactions *)

Section methods.
Context `{EXT : !External} `{AC : !AlloyConsensus}.

(** The accessors of eth.rs, which repeat those of the reporters. *)
Definition pending_signature_v (e : TxEnvelope) : u128 :=
  let y_parity := sig_v (env_signature e) in
  match e with
  | Legacy tx _ => to_eip155_value y_parity (leg_chain_id tx)
  | Eip2930 _ _ | Eip1559 _ _ | Eip4844 _ _ | Eip7702 _ _ => if y_parity then 1 else 0
  end.
Definition pending_transaction_type (e : TxEnvelope) : u64 :=
  match e with
  | Legacy _ _ => 0
  | Eip2930 _ _ => 1
  | Eip1559 _ _ => 2
  | Eip4844 _ _ => 3
  | Eip7702 _ _ => 4
  end.
Definition pending_effective_gas_price (e : TxEnvelope) : u128 :=
  match e with
  | Legacy tx _ => leg_gas_price tx
  | Eip2930 tx _ => e2930_gas_price tx
  | Eip1559 tx _ => e1559_max_fee_per_gas tx
  | Eip4844 tx _ => e4844_max_fee_per_gas tx
  | Eip7702 tx _ => e7702_max_fee_per_gas tx
  end.
Definition pending_max_fee_per_gas (e : TxEnvelope) : option u128 :=
  match e with
  | Legacy _ _ | Eip2930 _ _ => None
  | Eip1559 tx _ => Some (e1559_max_fee_per_gas tx)
  | Eip4844 tx _ => Some (e4844_max_fee_per_gas tx)
  | Eip7702 tx _ => Some (e7702_max_fee_per_gas tx)
  end.
Definition pending_max_priority_fee_per_gas (e : TxEnvelope) : option u128 :=
  match e with
  | Legacy _ _ | Eip2930 _ _ => None
  | Eip1559 tx _ => Some (e1559_max_priority_fee_per_gas tx)
  | Eip4844 tx _ => Some (e4844_max_priority_fee_per_gas tx)
  | Eip7702 tx _ => Some (e7702_max_priority_fee_per_gas tx)
  end.

(** [raw_tx_to_pending_rpc]; alloy's texts of the two errors are left out. *)
Definition raw_tx_to_pending_rpc (data : bytes) : result RpcTransaction RpcError :=
  match decode_2718 data with
  | Err err => Err (InvalidTransaction ("failed to decode: " +:+ err))
  | Ok envelope =>
      match recover_address envelope with
      | None => Err (InvalidTransaction "failed to recover signer")
      | Some from =>
          let sg := env_signature envelope in
          Ok (mkRpcTx (keccak256 data) (env_nonce envelope) None None None from (env_to envelope)
                (env_value envelope) (env_gas_limit envelope) (pending_effective_gas_price envelope)
                (env_input envelope) (pending_transaction_type envelope) (env_chain_id envelope)
                (pending_max_fee_per_gas envelope) (pending_max_priority_fee_per_gas envelope)
                (pending_signature_v envelope) (sig_r sg) (sig_s sg))
      end
  end.

(** The loop that drains the order from its front: what is left of the map and
    of the order, and how many entries went. *)
Fixpoint drain_loop (txs : gmap B256 RpcTransaction) (order : list B256)
    (map_excess target evicted drained : usize)
    : gmap B256 RpcTransaction * list B256 * usize :=
  match order with
  | [] => (txs, [], drained)
  | old_hash :: rest =>
      if (evicted <? map_excess) || (drained <? target)
      then drain_loop (delete old_hash txs) rest map_excess target
             (if is_some (txs !! old_hash) then evicted + 1 else evicted) (drained + 1)
      else (txs, order, drained)
  end.

(** The eviction of [send_raw_transaction]. *)
Definition evict_pending (cap : usize) (txs : gmap B256 RpcTransaction) (order : list B256)
    : gmap B256 RpcTransaction * list B256 * usize :=
  let txs_len := Z.of_nat (size txs) in
  if (cap <? txs_len) || (cap <? len order) then
    let map_excess := saturating_sub txs_len cap in
    let deque_excess := saturating_sub (len order) cap in
    drain_loop txs order map_excess (Z.max map_excess deque_excess) 0 0
  else (txs, order, 0).

Context {S : Type} `{SP : !StateProvider S}.

Definition broadcast_pending_tx (a : EthApi S) (tx_hash : B256) (tx : RpcTransaction) : EthApi S :=
  set_events a
    ((fun sent => sent ++ [PendingAdded tx_hash (Some tx)]) <$> ea_pending_tx_broadcast a)
    ((fun sent => sent ++ [TxAdded tx_hash (rt_from tx) (rt_to tx) (rt_value tx) (rt_gas_price tx)
                             (rt_nonce tx)]) <$> ea_mempool_broadcast a).

Definition send_raw_transaction (a : EthApi S) (data : bytes) : EthApi S * result B256 RpcError :=
  let tx_hash := keccak256 data in
  match raw_tx_to_pending_rpc data with
  | Err e => (a, Err e)
  | Ok pending_tx =>
      match match ea_tx_submit a with
            | Some submit => let? _ := submit data in Ok true
            | None => Ok false
            end with
      | Err e => (a, Err e)
      | Ok accepted =>
          let '(txs, order, drained) :=
            evict_pending (ea_max_pending_txs a) (<[tx_hash := pending_tx]> (ea_pending_txs a))
              (ea_pending_tx_order a ++ [tx_hash]) in
          let a := set_pending a txs order
                     (wrapping_add u64_max (ea_pending_tx_evicted a) drained) in
          (if accepted then broadcast_pending_tx a tx_hash pending_tx else a, Ok tx_hash)
      end
  end.

Definition get_transaction_by_hash (a : EthApi S) (hash : B256)
    : EthApi S * result (option RpcTransaction) RpcError :=
  match sp_transaction_by_hash (ea_provider a) hash with
  | Err e => (a, Err e)
  | Ok (Some tx) =>
      (set_pending a (delete hash (ea_pending_txs a)) (ea_pending_tx_order a)
         (ea_pending_tx_evicted a), Ok (Some tx))
  | Ok None => (a, Ok (ea_pending_txs a !! hash))
  end.

(** ** Chain, accounts and fees *)

Definition current_block_number (a : EthApi S) : u64 :=
  match sp_block_number (ea_provider a) with Ok n => n | Err _ => ea_block_height a end.

(** The methods that answer from the provider alone. *)
Definition eth_chain_id (a : EthApi S) : u64 := ea_chain_id a.
Definition eth_block_number (a : EthApi S) : u64 := current_block_number a.
Definition eth_get_balance (a : EthApi S) (address : Address) (b : option BlockNumberOrTag)
    : result U256 RpcError := sp_balance (ea_provider a) address b.
Definition eth_get_code (a : EthApi S) (address : Address) (b : option BlockNumberOrTag)
    : result bytes RpcError := sp_code (ea_provider a) address b.
Definition eth_get_storage_at (a : EthApi S) (address : Address) (slot : U256)
    (b : option BlockNumberOrTag) : result U256 RpcError :=
  sp_storage (ea_provider a) address slot b.
Definition eth_call (a : EthApi S) (request : CallRequest) (b : option BlockNumberOrTag)
    : result bytes RpcError := sp_call (ea_provider a) request b.
Definition eth_estimate_gas (a : EthApi S) (request : CallRequest) (b : option BlockNumberOrTag)
    : result u64 RpcError := sp_estimate_gas (ea_provider a) request b.
Definition eth_get_block_by_number (a : EthApi S) (b : BlockNumberOrTag) (full : bool)
    : result (option RpcBlock) RpcError := sp_block_by_number (ea_provider a) b full.
Definition eth_get_block_by_hash (a : EthApi S) (hash : B256) (full : bool)
    : result (option RpcBlock) RpcError := sp_block_by_hash (ea_provider a) hash full.
Definition get_transaction_receipt (a : EthApi S) (hash : B256)
    : result (option RpcTransactionReceipt) RpcError := sp_receipt_by_hash (ea_provider a) hash.
Definition eth_get_logs (a : EthApi S) (filter : RpcLogFilter) : result (list RpcLog) RpcError :=
  sp_get_logs (ea_provider a) filter.
Definition eth_accounts (a : EthApi S) : list Address := [].
Definition protocol_version (a : EthApi S) : string := "0x44".

Definition get_transaction_count (a : EthApi S) (address : Address) (b : option BlockNumberOrTag)
    : result u64 RpcError :=
  let? finalized_nonce := sp_nonce (ea_provider a) address b in
  let pool_nonce :=
    if from_option is_pending false b
    then pool ← ea_txpool a; next_nonce pool address
    else None in
  Ok (match pool_nonce with
      | Some pool_nonce => Z.max pool_nonce finalized_nonce
      | None => finalized_nonce
      end).

Definition recent_fee_estimate (a : EthApi S) : EthApi S * GasOracleEstimate :=
  let head := current_block_number a in
  let fresh :=
    let estimate := estimate_recent_fees (ea_provider a) head (ea_gas_oracle_config a) in
    (set_cache a (mkCached head estimate), estimate) in
  match ea_gas_oracle_cache a with
  | Some cached => if ce_head cached =? head then (a, ce_estimate cached) else fresh
  | None => fresh
  end.

Definition gas_price (a : EthApi S) : EthApi S * U256 :=
  let '(a, e) := recent_fee_estimate a in (a, ge_gas_price e).
Definition eth_max_priority_fee_per_gas (a : EthApi S) : EthApi S * U256 :=
  let '(a, e) := recent_fee_estimate a in (a, ge_priority_fee e).

Definition eth_fee_history (a : EthApi S) (block_count : u64) (newest_block : BlockNumberOrTag)
    (percentiles : option (list f64)) : result FeeHistory RpcError :=
  fee_history (ea_provider a) (current_block_number a) block_count newest_block percentiles.

Definition syncing (a : EthApi S) : SyncStatus :=
  match ea_node_state a with
  | Some s =>
      if ns_is_catching_up s
      then Syncing (mkSyncInfo (ns_recovered_height s) (current_block_number a)
                      (current_block_number a))
      else NotSyncing false
  | None => NotSyncing false
  end.

(** ** Filters *)

Definition filter_id_to_u64 (filter_id : U256) : option u64 :=
  if filter_id <? 2 ^ 64 then Some filter_id else None.

(** The cursor of a new log filter. *)
Definition initial_cursor (head : u64) (filter : RpcLogFilter) : option u64 :=
  if is_some (rf_block_hash filter) then None
  else
    match rf_from_block filter with
    | Some (Number from) => if from =? 0 then None else Some (from - 1)
    | Some (Tag Earliest) => None
    | _ => Some head
    end.

(** Each [new_*filter] stores a filter; [None] is a search for an identifier
    that does not end. *)
Definition create_filter (a : EthApi S) (now : Instant) (f : Filter) : option (EthApi S * U256) :=
  '(s, id) ← store_create (ea_filter_store a) now f; Some (put_store a s, id).

Definition new_filter (a : EthApi S) (now : Instant) (filter : RpcLogFilter)
    : option (EthApi S * U256) :=
  create_filter a now (FLog filter (initial_cursor (current_block_number a) filter)).

Definition new_block_filter (a : EthApi S) (now : Instant) : option (EthApi S * U256) :=
  create_filter a now (FBlock (current_block_number a)).

Definition pending_end (a : EthApi S) : usize :=
  wrapping_add u64_max (ea_pending_tx_evicted a) (len (ea_pending_tx_order a)).

Definition new_pending_transaction_filter (a : EthApi S) (now : Instant)
    : option (EthApi S * U256) :=
  create_filter a now (FPendingTransaction (dom (ea_pending_txs a)) (pending_end a)).

(** The query of a poll of a log filter. *)
Definition changes_filter (criteria : RpcLogFilter) (last_poll_block : option u64) (head : u64)
    : RpcLogFilter :=
  let from := match last_poll_block with Some lpb => saturating_add u64_max lpb 1 | None => 0 end in
  let to := match rf_to_block criteria with Some (Number n) => Z.min n head | _ => head end in
  mkRpcLogFilter (Some (Number from)) (Some (Number to)) (rf_address criteria) (rf_topics criteria)
    None.

(** A poll of each kind of filter: the cursor after it, if it moves, and the
    changes. *)
Definition poll_log (a : EthApi S) (criteria : RpcLogFilter) (last_poll_block : option u64)
    : result (option Filter * FilterChanges) RpcError :=
  let head := current_block_number a in
  if from_option (fun lpb => head <=? lpb) false last_poll_block then Ok (None, ChLogs [])
  else if is_some (rf_block_hash criteria) && is_some last_poll_block then Ok (None, ChLogs [])
  else
    let query := if is_some (rf_block_hash criteria) then criteria
                 else changes_filter criteria last_poll_block head in
    let? logs := sp_get_logs (ea_provider a) query in
    Ok (Some (FLog criteria (Some head)), ChLogs logs).

(** The blocks [n] in turn: their hashes and the last one found. *)
Fixpoint poll_blocks (p : S) (hashes : list B256) (highest : u64) (ns : list u64)
    : result (list B256 * u64) RpcError :=
  match ns with
  | [] => Ok (hashes, highest)
  | n :: ns =>
      let? block := sp_block_by_number p (Number n) false in
      match block with
      | Some block => poll_blocks p (hashes ++ [rb_hash block]) n ns
      | None => poll_blocks p hashes highest ns
      end
  end.

Definition poll_block (a : EthApi S) (last_poll_block : u64)
    : result (option Filter * FilterChanges) RpcError :=
  let head := current_block_number a in
  if head <=? last_poll_block then Ok (None, ChHashes [])
  else
    let start := saturating_add u64_max last_poll_block 1 in
    let? (hashes, highest) :=
      poll_blocks (ea_provider a) [] last_poll_block (seqZ start (head - start + 1)) in
    Ok (Some (FBlock highest), ChHashes hashes).

Definition poll_pending (a : EthApi S) (known_hashes : gset B256) (last_seen_index : usize)
    : option Filter * FilterChanges :=
  let relative_skip := saturating_sub last_seen_index (ea_pending_tx_evicted a) in
  let hashes := filter (fun h => h ∉ known_hashes)
                  (drop (Z.to_nat relative_skip) (ea_pending_tx_order a)) in
  (Some (FPendingTransaction (dom (ea_pending_txs a)) (pending_end a)), ChHashes hashes).

Definition poll (a : EthApi S) (f : Filter) : result (option Filter * FilterChanges) RpcError :=
  match f with
  | FLog criteria last_poll_block => poll_log a criteria last_poll_block
  | FBlock last_poll_block => poll_block a last_poll_block
  | FPendingTransaction known_hashes last_seen_index =>
      Ok (poll_pending a known_hashes last_seen_index)
  end.

Definition get_filter_changes (a : EthApi S) (now : Instant) (filter_id : U256)
    : EthApi S * result FilterChanges RpcError :=
  match filter_id_to_u64 filter_id with
  | None => (a, Err FilterNotFound)
  | Some id =>
      let '(s, entry) := store_get (ea_filter_store a) now id in
      let a := put_store a s in
      match entry with
      | None => (a, Err FilterNotFound)
      | Some entry =>
          match poll a (fe_filter entry) with
          | Err e => (a, Err e)
          | Ok (cursor, changes) =>
              let move := match cursor with Some f => set_filter f | None => fun e => e end in
              (put_store a (store_update s id (fun e => touch now (move e))), Ok changes)
          end
      end
  end.

Definition get_filter_logs (a : EthApi S) (now : Instant) (filter_id : U256)
    : EthApi S * result (list RpcLog) RpcError :=
  match filter_id_to_u64 filter_id with
  | None => (a, Err FilterNotFound)
  | Some id =>
      let '(s, entry) := store_get (ea_filter_store a) now id in
      let a := put_store a s in
      match entry with
      | Some (mkFilterEntry (FLog criteria _) _) =>
          match sp_get_logs (ea_provider a) criteria with
          | Err e => (a, Err e)
          | Ok logs => (put_store a (store_update s id (touch now)), Ok logs)
          end
      | _ => (a, Err FilterNotFound)
      end
  end.

Definition uninstall_filter (a : EthApi S) (filter_id : U256) : EthApi S * bool :=
  match filter_id_to_u64 filter_id with
  | None => (a, false)
  | Some id =>
      let '(s, removed) := store_remove (ea_filter_store a) id in (put_store a s, removed)
  end.
End methods.

(** ** The net and web3 namespaces *)

Record NetApi := mkNetApi { na_chain_id : u64; na_peer_count : u64 }.
Definition net_new (chain_id : u64) : NetApi := mkNetApi chain_id 0.
Definition net_set_peer_count (n : NetApi) (count : u64) : NetApi := mkNetApi (na_chain_id n) count.
Definition net_version (n : NetApi) : string := show_u64 (na_chain_id n).
Definition net_listening (n : NetApi) : bool := true.
Definition net_peer_count (n : NetApi) : u64 := na_peer_count n.

(** [client_version] for the version of the package. *)
Definition client_version (pkg_version : string) : string := "kora/" +:+ pkg_version.
Definition sha3 `{!External} (data : bytes) : B256 := keccak256 data.

(** ** The txpool namespace (txpool.rs) *)

Definition nonce_digit (d : Z) : string :=
  if d <? 10 then pretty (Z.to_N d)
  else if d =? 10 then "a" else if d =? 11 then "b" else if d =? 12 then "c"
  else if d =? 13 then "d" else if d =? 14 then "e" else "f".

(** The digits of a number below 16^[fuel], without leading zeros. *)
Fixpoint nonce_digits (fuel : nat) (n : Z) (acc : string) : string :=
  match fuel with
  | O => acc
  | Datatypes.S fuel =>
      let acc := nonce_digit (n `mod` 16) +:+ acc in
      if n <? 16 then acc else nonce_digits fuel (n / 16) acc
  end.

(** [format!("{nonce:#x}")]; a [u64] has at most 16 digits. *)
Definition nonce_key (nonce : u64) : string := "0x" +:+ nonce_digits 16 nonce EmptyString.

(** The accessors of txpool.rs. *)
Definition pool_transaction_type (e : TxEnvelope) : u64 :=
  match e with
  | Legacy _ _ => 0
  | Eip2930 _ _ => 1
  | Eip1559 _ _ => 2
  | Eip4844 _ _ => 3
  | Eip7702 _ _ => 4
  end.
Definition pool_max_fee_per_gas (e : TxEnvelope) : option u128 :=
  match e with
  | Legacy _ _ | Eip2930 _ _ => None
  | Eip1559 tx _ => Some (e1559_max_fee_per_gas tx)
  | Eip4844 tx _ => Some (e4844_max_fee_per_gas tx)
  | Eip7702 tx _ => Some (e7702_max_fee_per_gas tx)
  end.
Definition pool_max_priority_fee_per_gas (e : TxEnvelope) : option u128 :=
  match e with
  | Legacy _ _ | Eip2930 _ _ => None
  | Eip1559 tx _ => Some (e1559_max_priority_fee_per_gas tx)
  | Eip4844 tx _ => Some (e4844_max_priority_fee_per_gas tx)
  | Eip7702 tx _ => Some (e7702_max_priority_fee_per_gas tx)
  end.

Definition ordered_tx_to_rpc (tx : OrderedTransaction) : RpcTransaction :=
  let envelope := ot_envelope tx in
  let sg := env_signature envelope in
  mkRpcTx (ot_hash tx) (ot_nonce tx) None None None (ot_sender tx) (env_to envelope)
    (env_value envelope) (env_gas_limit envelope) (ot_price tx) (env_input envelope)
    (pool_transaction_type envelope) (env_chain_id envelope) (pool_max_fee_per_gas envelope)
    (pool_max_priority_fee_per_gas envelope) (if sig_v sg then 1 else 0) (sig_r sg) (sig_s sg).

Definition inspect_tx `{!Display} (tx : OrderedTransaction) : string :=
  let to := match env_to (ot_envelope tx) with
            | Some address => show_address address
            | None => "contract creation"
            end in
  to +:+ ": " +:+ show_u64 (env_value (ot_envelope tx)) +:+ " wei + "
  +:+ show_u64 (env_gas_limit (ot_envelope tx)) +:+ " gas x " +:+ show_u64 (ot_price tx) +:+ " wei".

Record TxpoolContent (A : Type) := mkContent {
  tc_pending : gmap Address (gmap string A);
  tc_queued : gmap Address (gmap string A);
}.
Arguments mkContent {A}.
Arguments tc_pending {A}.
Arguments tc_queued {A}.

(** A sender's transactions by their nonces; a later one replaces an earlier. *)
Definition nonce_map {A} (view : OrderedTransaction -> A) (txs : list OrderedTransaction)
    : gmap string A :=
  foldl (fun m tx => <[nonce_key (ot_nonce tx) := view tx]> m) ∅ txs.

(** The loop that [content] and [inspect] share: a sender without transactions
    of a kind has no entry of that kind. *)
Definition pool_view {A} (view : OrderedTransaction -> A) (pool : TransactionPool)
    : TxpoolContent A :=
  let side (txs : list OrderedTransaction) :=
    match txs with [] => None | _ => Some (nonce_map view txs) end in
  mkContent (omap (fun pq => side pq.1) (snapshot pool)) (omap (fun pq => side pq.2) (snapshot pool)).

Definition txpool_content (pool : TransactionPool) : TxpoolContent RpcTransaction :=
  pool_view ordered_tx_to_rpc pool.
Definition txpool_inspect `{!Display} (pool : TransactionPool) : TxpoolContent string :=
  pool_view inspect_tx pool.
Definition txpool_status (pool : TransactionPool) : u64 * u64 :=
  (pending_count (tp_inner pool), queued_count (tp_inner pool)).
