(* ===== verification/EthProps.v ===== *)
(** What the eth namespace guarantees: the cache of pending transactions stays
    within its bound and pending-transaction filters report every accepted
    transaction once; log and block filters report exactly what the index
    retains of the blocks since their last poll; a mined transaction reads as
    the pending one did. *)
From S2P Require Import Prelude TxTypes SenderQueue Pool StateDb Changes StateRoot Bytes QmdbState.
From S2P Require Import Executor Execute Layers Codec Block Snapshots QmdbLedger Ledger NodeState App.
From S2P Require Import Indexer Reporters Rpc Filters Fees Eth.

(** ** The states of a run *)

Section run.
Context `{EXT : !External} `{AC : !AlloyConsensus} {S : Type} `{SP : !StateProvider S}.

(** The methods that write, the setup of the server, and the node moving the
    shared provider; with the hash of the transaction accepted, if any. *)
Inductive api_step : EthApi S -> list B256 -> EthApi S -> Prop :=
| step_send a data a' h :
    send_raw_transaction a data = (a', Ok h) -> api_step a [h] a'
| step_send_refused a data a' e :
    send_raw_transaction a data = (a', Err e) -> api_step a [] a'
| step_get_tx a h : api_step a [] (get_transaction_by_hash a h).1
| step_fees a : api_step a [] (recent_fee_estimate a).1
| step_new_filter a now f a' id : new_filter a now f = Some (a', id) -> api_step a [] a'
| step_new_block_filter a now a' id : new_block_filter a now = Some (a', id) -> api_step a [] a'
| step_new_pending a now a' id :
    new_pending_transaction_filter a now = Some (a', id) -> api_step a [] a'
| step_changes a now id : api_step a [] (get_filter_changes a now id).1
| step_logs a now id : api_step a [] (get_filter_logs a now id).1
| step_uninstall a id : api_step a [] (uninstall_filter a id).1
| step_provider a p : api_step a [] (set_provider a p)
| step_height a h : api_step a [] (set_block_height a h)
| step_pending_broadcast a : api_step a [] (with_pending_tx_broadcast a)
| step_mempool_broadcast a : api_step a [] (api_with_mempool_broadcast a)
| step_txpool a pool : api_step a [] (api_with_txpool a pool)
| step_node_state a s : api_step a [] (api_with_node_state a s)
| step_oracle a c : api_step a [] (with_gas_oracle_config a c).

(** The reachable states, with the accepted hashes in order; there are fewer
    than 2^64 of them. *)
Inductive api_run : EthApi S -> list B256 -> Prop :=
| run_start chain_id p submit config : api_run (from_parts chain_id p submit config) []
| run_step a pushed hs a' :
    api_run a pushed -> api_step a hs a' -> len (pushed ++ hs) <= u64_max ->
    api_run a' (pushed ++ hs).

(** The order is what is left of the accepted hashes after the eviction of the
    oldest; the map holds some of these; both are bounded. *)
Record pending_inv (a : EthApi S) (pushed : list B256) : Prop := {
  pi_evicted : 0 <= ea_pending_tx_evicted a <= len pushed;
  pi_order : ea_pending_tx_order a = drop (Z.to_nat (ea_pending_tx_evicted a)) pushed;
  pi_dom : forall h, is_Some (ea_pending_txs a !! h) -> h ∈ ea_pending_tx_order a;
  pi_order_len : len (ea_pending_tx_order a) <= ea_max_pending_txs a;
  pi_size : Z.of_nat (size (ea_pending_txs a)) <= ea_max_pending_txs a;
  pi_total : len pushed <= u64_max;
}.

(** The cursors of pending-transaction filters: no further than the accepted
    hashes, and what a filter knows was accepted before its cursor. *)
Definition cursors_inv (m : gmap FilterId FilterEntry) (pushed : list B256) : Prop :=
  forall id e known c, m !! id = Some e -> fe_filter e = FPendingTransaction known c ->
    0 <= c <= len pushed /\ forall h, h ∈ known -> h ∈ take (Z.to_nat c) pushed.

Record api_inv (a : EthApi S) (pushed : list B256) : Prop := {
  av_pending : pending_inv a pushed;
  av_store : store_ok (ea_filter_store a);
  av_cursors : cursors_inv (fs_filters (ea_filter_store a)) pushed;
}.
End run.

(** ** Eviction *)

Lemma drain_loop_spec txs order me tg ev dr t' o' d' :
  (forall h, is_Some (txs !! h) -> h ∈ order) ->
  drain_loop txs order me tg ev dr = (t', o', d') ->
  exists n, (n <= length order)%nat /\ o' = drop n order /\ d' = dr + Z.of_nat n
    /\ (forall h, is_Some (t' !! h) -> h ∈ o') /\ (size t' <= size txs)%nat
    /\ (o' = [] \/ (me <= ev + (Z.of_nat (size txs) - Z.of_nat (size t')) /\ tg <= d')).
Proof.
  revert txs ev dr. induction order as [|x order IH]; intros txs ev dr Hd; cbn [drain_loop].
  { intros [= <- <- <-]. exists O. split_and!; try done; [lia|by left]. }
  destruct ((ev <? me) || (dr <? tg)) eqn:Hb.
  - intros He. apply IH in He as (n & Hn & Ho & Hd' & Hdom & Hsz & Hend).
    2: { intros h [y [Hne Hy]%lookup_delete_Some]. specialize (Hd h (mk_is_Some _ _ Hy)). set_solver. }
    assert (Z.of_nat (size (delete x txs)) = Z.of_nat (size txs) - (if is_some (txs !! x) then 1 else 0)) as Hs.
    { destruct (txs !! x) eqn:Hx; cbn [is_some].
      - rewrite map_size_delete, Hx. assert (size txs <> 0)%nat; [|lia].
        intros H0%map_size_empty_inv. subst. by rewrite lookup_empty in Hx.
      - rewrite delete_id by done. lia. }
    exists (1 + n)%nat. cbn [length drop]. split_and!; try done; [lia|lia| |].
    + destruct (is_some (txs !! x)); lia.
    + destruct Hend as [->|[H1 H2]]; [by left|right]. destruct (is_some (txs !! x)); lia.
  - intros [= <- <- <-]. apply orb_false_iff in Hb as [H1%Z.ltb_ge H2%Z.ltb_ge].
    exists O. split_and!; try done; [lia..|]. right. lia.
Qed.

Lemma evict_txs_spec cap txs order t' o' d :
  0 <= cap -> (forall h, is_Some (txs !! h) -> h ∈ order) ->
  evict_pending cap txs order = (t', o', d) ->
  0 <= d <= len order /\ o' = drop (Z.to_nat d) order /\ (forall h, is_Some (t' !! h) -> h ∈ o')
  /\ len o' <= cap /\ Z.of_nat (size t') <= cap.
Proof.
  intros Hc Hd. unfold evict_pending.
  destruct ((cap <? Z.of_nat (size txs)) || (cap <? len order)) eqn:Hb.
  - intros He. destruct (drain_loop_spec _ _ _ _ _ _ _ _ _ Hd He) as (n & Hn & Ho & -> & Hdom & Hsz & Hend).
    rewrite Z.add_0_l, Nat2Z.id. unfold saturating_sub, len in *. rewrite Ho in *. rewrite length_drop.
    split_and!; try done; [lia|lia| |].
    + destruct Hend as [H0|[_ H2]]; [|lia]. apply (f_equal length) in H0. rewrite length_drop in H0.
      simpl in H0. lia.
    + destruct Hend as [H0|[H1 _]]; [|lia].
      assert (t' = ∅) as ->.
      { apply map_empty. intros h. destruct (t' !! h) eqn:Hh; [|done].
        assert (h ∈ drop n order) as Hin by eauto. rewrite H0 in Hin. set_solver. }
      rewrite map_size_empty. lia.
  - intros [= <- <- <-]. apply orb_false_iff in Hb as [H1%Z.ltb_ge H2%Z.ltb_ge].
    unfold len in *. split_and!; try done; lia.
Qed.

(** ** The invariant *)

Lemma take_app_le {A} (n : nat) (l k : list A) :
  (n <= length l)%nat -> take n (l ++ k) = take n l.
Proof. intros. by rewrite take_app, (proj2 (Nat.sub_0_le _ _)), take_0, app_nil_r by done. Qed.

Lemma cursors_more m pushed hs : cursors_inv m pushed -> cursors_inv m (pushed ++ hs).
Proof.
  intros H id e known c He Hf. destruct (H id e known c He Hf) as [Hc Hk].
  rewrite len_app, take_app_le by (unfold len in *; lia). split; [|done].
  pose proof (len_nonneg hs). lia.
Qed.

Lemma cursors_sub m m' pushed : m' ⊆ m -> cursors_inv m pushed -> cursors_inv m' pushed.
Proof. intros Hs H id e known c He. apply (H id e). by eapply lookup_weaken. Qed.

(** What a filter may hold next to the accepted hashes. *)
Definition filter_fits (pushed : list B256) (f : Filters.Filter) : Prop :=
  match f with
  | FPendingTransaction known c =>
      0 <= c <= len pushed /\ forall h, h ∈ known -> h ∈ take (Z.to_nat c) pushed
  | _ => True
  end.

Lemma cursors_insert m id e pushed :
  cursors_inv m pushed -> filter_fits pushed (fe_filter e) -> cursors_inv (<[id := e]> m) pushed.
Proof.
  intros H Hf id' e' known c [[<- <-]|[_ He]]%lookup_insert_Some Heq; [|by eapply H].
  by rewrite Heq in Hf.
Qed.

Lemma cursors_alter m id g pushed :
  cursors_inv m pushed ->
  (forall e, m !! id = Some e -> filter_fits pushed (fe_filter e) ->
     filter_fits pushed (fe_filter (g e))) ->
  cursors_inv (alter g id m) pushed.
Proof.
  intros H Hg id' e' known c. rewrite lookup_alter_Some.
  intros [(<- & e & He & ->)|[_ He]] Heq; [|by eapply H].
  specialize (Hg e He). rewrite Heq in Hg. apply Hg.
  destruct (fe_filter e) eqn:Hfe; try done. by eapply H.
Qed.

Section invariant.
Context `{EXT : !External} `{AC : !AlloyConsensus} {S : Type} `{SP : !StateProvider S}.
Implicit Types a : EthApi S.

Lemma pending_end_eq a pushed : pending_inv a pushed -> pending_end a = len pushed.
Proof.
  intros [He Ho _ _ _ Ht]. unfold pending_end, wrapping_add, wrap. rewrite Ho. unfold len in *.
  rewrite length_drop, Z.mod_small; lia.
Qed.

(** The filter that a new or a polled pending-transaction filter becomes. *)
Lemma pending_filter_fits a pushed :
  pending_inv a pushed ->
  filter_fits pushed (FPendingTransaction (dom (ea_pending_txs a)) (pending_end a)).
Proof.
  intros Hp. cbn [filter_fits]. rewrite (pending_end_eq _ _ Hp). split; [pose proof (len_nonneg pushed); lia|].
  intros h Hh%elem_of_dom%(pi_dom _ _ Hp). rewrite (pi_order _ _ Hp) in Hh.
  rewrite take_ge by (unfold len; lia). rewrite <- (take_drop (Z.to_nat (ea_pending_tx_evicted a)) pushed).
  set_solver.
Qed.

Lemma send_inv a pushed data a' h :
  api_inv a pushed -> send_raw_transaction a data = (a', Ok h) -> 0 <= ea_max_pending_txs a ->
  len (pushed ++ [h]) <= u64_max -> api_inv a' (pushed ++ [h]).
Proof.
  intros [Hp Hs Hc] Hsend Hcap Htot. unfold send_raw_transaction in Hsend.
  destruct (raw_tx_to_pending_rpc data) as [tx|]; [|done].
  set (acc := match ea_tx_submit a with Some _ => _ | None => _ end) in Hsend.
  destruct acc as [accepted|]; [|done].
  destruct (evict_pending _ _ _) as [[t' o'] d] eqn:He. injection Hsend as <- <-.
  apply evict_txs_spec in He as (Hd & Ho & Hdom & Hlo & Hst); [|done|].
  2: { intros x [y Hy]. destruct (decide (x = keccak256 data)) as [->|Hne]; [set_solver|].
       rewrite lookup_insert_ne in Hy by done. apply elem_of_app. left. by apply (pi_dom _ _ Hp). }
  assert (pending_inv (set_pending a t' o' (wrapping_add u64_max (ea_pending_tx_evicted a) d))
    (pushed ++ [keccak256 data])) as Hp'.
  { destruct Hp as [Hev Hord _ _ _ _]. rewrite Hord in *. rewrite len_app in *. unfold len in *.
    rewrite length_drop in Hd. cbn [length] in *.
    assert (wrapping_add u64_max (ea_pending_tx_evicted a) d = ea_pending_tx_evicted a + d) as Hw.
    { unfold wrapping_add, wrap. rewrite Z.mod_small; lia. }
    split; cbn [set_pending ea_pending_tx_evicted ea_pending_tx_order ea_pending_txs
      ea_max_pending_txs]; rewrite ?Hw; try done; try (rewrite ?len_app; unfold len; cbn [length]; lia).
    rewrite Ho, Z2Nat.inj_add, <- drop_drop by lia. f_equal.
    rewrite drop_app_le by lia. done. }
  destruct accepted; (split; [|done|by apply cursors_more]).
  - destruct Hp'. by split.
  - done.
Qed.

Lemma get_tx_inv a pushed h :
  api_inv a pushed -> api_inv (get_transaction_by_hash a h).1 pushed.
Proof.
  intros [Hp Hs Hc]. unfold get_transaction_by_hash.
  destruct (sp_transaction_by_hash _ h) as [[tx|]|]; [|done..]. cbn [fst]. split; [|done|done].
  destruct Hp as [He Ho Hd Hl Hz Ht]. split; cbn [set_pending ea_pending_tx_evicted
    ea_pending_tx_order ea_pending_txs ea_max_pending_txs]; try done.
  - intros x [y [_ Hy]%lookup_delete_Some]. eauto.
  - pose proof (map_subseteq_size _ _ (delete_subseteq (ea_pending_txs a) h)). lia.
Qed.

Lemma fees_inv a pushed : api_inv a pushed -> api_inv (recent_fee_estimate a).1 pushed.
Proof.
  intros [Hp Hs Hc]. unfold recent_fee_estimate.
  destruct (ea_gas_oracle_cache a) as [c|]; [destruct (_ =? _)|]; split; try done;
    destruct Hp; by split.
Qed.

Lemma store_inv a pushed s :
  api_inv a pushed -> store_ok s -> cursors_inv (fs_filters s) pushed -> api_inv (put_store a s) pushed.
Proof. intros [Hp _ _] Hs Hc. split; [|done|done]. destruct Hp. by split. Qed.

Lemma create_inv a pushed now f a' id :
  api_inv a pushed -> filter_fits pushed f -> create_filter a now f = Some (a', id) ->
  api_inv a' pushed.
Proof.
  intros Ha Hf. unfold create_filter.
  destruct (store_create_correct (ea_filter_store a) now f (av_store _ _ Ha))
    as (s' & id' & -> & Hok & _ & _ & Hm).
  cbn [mbind option_bind]. intros [= <- <-]. apply store_inv; [done|done|].
  assert (cursors_inv (live_filters (ea_filter_store a) now) pushed) as Hl.
  { eapply cursors_sub; [apply live_filters_sub|apply Ha]. }
  destruct Hm as [[_ ->]|(old & e & _ & _ & _ & ->)]; apply cursors_insert; try done.
  eapply cursors_sub; [apply delete_subseteq|done].
Qed.

Lemma get_inv a pushed now id :
  api_inv a pushed -> api_inv (put_store a (store_get (ea_filter_store a) now id).1) pushed.
Proof.
  intros Ha. apply store_inv; [done|apply get_ok, Ha|].
  eapply cursors_sub; [apply (live_filters_sub (ea_filter_store a) now)|apply Ha].
Qed.

Lemma put_store_twice a s s' : put_store (put_store a s) s' = put_store a s'.
Proof. done. Qed.

(** A poll that moves the cursor of a filter leaves one that fits. *)
Lemma poll_fits a pushed f cursor changes :
  pending_inv a pushed -> poll a f = Ok (Some cursor, changes) -> filter_fits pushed cursor.
Proof.
  intros Hp. destruct f as [crit lpb|lpb|known c]; cbn [poll].
  - unfold poll_log. destruct (from_option _ _ _); [done|]. destruct (_ && _); [done|].
    destruct (sp_get_logs _ _); [|done]. by intros [= <- <-].
  - unfold poll_block. destruct (_ <=? _); [done|]. destruct (poll_blocks _ _ _ _) as [[hs n]|]; [|done].
    by intros [= <- <-].
  - unfold poll_pending. intros [= <- _]. by apply pending_filter_fits.
Qed.

Lemma changes_inv a pushed now id :
  api_inv a pushed -> api_inv (get_filter_changes a now id).1 pushed.
Proof.
  intros Ha. unfold get_filter_changes. destruct (filter_id_to_u64 id) as [i|]; [|done].
  pose proof (get_inv a pushed now i Ha) as Hg.
  destruct (store_get (ea_filter_store a) now i) as [s [e|]]; [|done]. cbn [fst] in Hg.
  destruct (poll (put_store a s) (fe_filter e)) as [[cursor ch]|] eqn:Hpoll; [|done].
  cbn [fst]. rewrite put_store_twice. rewrite <- (put_store_twice a s).
  apply store_inv; [done|apply store_update_ok, Hg|].
  apply cursors_alter; [apply Hg|]. intros x Hx Hfit. destruct cursor as [f|]; cbn [touch set_filter fe_filter]; [|done].
  eapply poll_fits; [apply Hg|done].
Qed.

Lemma logs_inv a pushed now id :
  api_inv a pushed -> api_inv (get_filter_logs a now id).1 pushed.
Proof.
  intros Ha. unfold get_filter_logs. destruct (filter_id_to_u64 id) as [i|]; [|done].
  pose proof (get_inv a pushed now i Ha) as Hg.
  destruct (store_get (ea_filter_store a) now i) as [s [[[crit c|c|k c] t]|]]; try done. cbn [fst] in Hg.
  destruct (sp_get_logs _ crit); [|done]. cbn [fst]. rewrite <- (put_store_twice a s).
  apply store_inv; [done|apply store_update_ok, Hg|]. apply cursors_alter; [apply Hg|done].
Qed.

Lemma uninstall_inv a pushed id : api_inv a pushed -> api_inv (uninstall_filter a id).1 pushed.
Proof.
  intros Ha. unfold uninstall_filter. destruct (filter_id_to_u64 id) as [i|]; [|done].
  cbn [store_remove fst]. apply store_inv; [done|by apply (remove_ok (ea_filter_store a) i), Ha|].
  eapply cursors_sub; [apply delete_subseteq|apply Ha].
Qed.

(** What the setup of the server and the node write is not in the invariant. *)
Lemma same_inv a a' pushed :
  api_inv a pushed -> ea_pending_txs a' = ea_pending_txs a ->
  ea_pending_tx_order a' = ea_pending_tx_order a ->
  ea_pending_tx_evicted a' = ea_pending_tx_evicted a ->
  ea_max_pending_txs a' = ea_max_pending_txs a -> ea_filter_store a' = ea_filter_store a ->
  api_inv a' pushed.
Proof.
  intros [[He Ho Hd Hl Hz Ht] Hs Hc] E1 E2 E3 E4 E5.
  split; [split|..]; by rewrite ?E1, ?E2, ?E3, ?E4, ?E5.
Qed.

Lemma api_step_inv a pushed hs a' :
  api_inv a pushed -> api_step a hs a' -> len (pushed ++ hs) <= u64_max -> api_inv a' (pushed ++ hs).
Proof.
  intros Ha Hst Htot. destruct Hst as [a data a' h Hs|a data a' e Hs| | | | | | | | | | | | | | |];
    rewrite ?app_nil_r.
  - eapply send_inv; [done|done| |done]. pose proof (pi_size _ _ (av_pending _ _ Ha)). lia.
  - unfold send_raw_transaction in Hs. destruct (raw_tx_to_pending_rpc data); [|by simplify_eq].
    destruct (ea_tx_submit a) as [sub|]; [destruct (sub data)|]; try (by simplify_eq);
      by destruct (evict_pending _ _ _) as [[? ?] ?].
  - by apply get_tx_inv.
  - by apply fees_inv.
  - by eapply create_inv; [..|done].
  - by eapply create_inv; [..|done].
  - eapply create_inv; [done|apply pending_filter_fits, Ha|done].
  - by apply changes_inv.
  - by apply logs_inv.
  - by apply uninstall_inv.
  - by apply same_inv with a.
  - by apply same_inv with a.
  - by apply same_inv with a.
  - by apply same_inv with a.
  - by apply same_inv with a.
  - by apply same_inv with a.
  - by apply same_inv with a.
Qed.

Lemma run_inv a pushed : api_run a pushed -> api_inv a pushed.
Proof.
  induction 1 as [|a pushed hs a' _ IH Hst Htot]; [|by eapply api_step_inv].
  split.
  - split; cbn [from_parts ea_pending_tx_evicted ea_pending_tx_order ea_pending_txs
      ea_max_pending_txs]; try done. intros h [y Hy]. by rewrite lookup_empty in Hy.
  - by split.
  - by intros id e known c He.
Qed.

(** C22: the memory of the eth namespace is bounded and its pending cache is faithful.  In every
    state a run of the methods reaches, with any provider and submission callback behind them,
    the order of pending transactions is what remains of the accepted hashes after dropping the
    oldest ones, the map holds only transactions of the order, and neither exceeds the cap; the
    filter store is within its maximum, under identifiers that are [u64] other than 0; and a
    pending-transaction filter's cursor never points past the accepted hashes. *)
Theorem api_reachable a pushed :
  api_run a pushed ->
  ea_pending_tx_order a = drop (Z.to_nat (ea_pending_tx_evicted a)) pushed
  /\ 0 <= ea_pending_tx_evicted a <= len pushed
  /\ (forall h, is_Some (ea_pending_txs a !! h) -> h ∈ ea_pending_tx_order a)
  /\ len (ea_pending_tx_order a) <= ea_max_pending_txs a
  /\ Z.of_nat (size (ea_pending_txs a)) <= ea_max_pending_txs a
  /\ Z.of_nat (size (fs_filters (ea_filter_store a))) <= fs_max_filters (ea_filter_store a)
  /\ (forall id e, fs_filters (ea_filter_store a) !! id = Some e -> 0 < id <= u64_max)
  /\ (forall id e known c, fs_filters (ea_filter_store a) !! id = Some e ->
        fe_filter e = FPendingTransaction known c -> 0 <= c <= len pushed).
Proof.
  intros [[He Ho Hd Hl Hz _] Hs Hc]%run_inv. split_and!; try done; try lia; try apply Hs.
  - intros id e known c Hie Hf. by eapply Hc.
Qed.

Lemma poll_store a s f : poll (put_store a s) f = poll a f.
Proof. by destruct f. Qed.

(** A poll of a live filter, by what [poll] answers for it. *)
Lemma changes_at a now id e :
  store_ok (ea_filter_store a) -> fs_filters (ea_filter_store a) !! id = Some e ->
  live (ea_filter_store a) now e ->
  get_filter_changes a now id =
  let L := live_filters (ea_filter_store a) now in
  match poll a (fe_filter e) with
  | Err x => (put_store a (with_filters (ea_filter_store a) L), Err x)
  | Ok (cursor, changes) =>
      (put_store a (with_filters (ea_filter_store a)
         (<[id := mkFilterEntry (default (fe_filter e) cursor) now]> L)), Ok changes)
  end.
Proof.
  intros Hs He Hlive. unfold get_filter_changes.
  assert (filter_id_to_u64 id = Some id) as ->.
  { unfold filter_id_to_u64. destruct (Z.ltb_spec id (2 ^ 64)); [done|].
    destruct (so_ids _ Hs _ _ He). unfold u64_max in *. lia. }
  assert (live_filters (ea_filter_store a) now !! id = Some e) as Hl.
  { by apply map_lookup_filter_Some. }
  cbn [store_get cleanup_expired fst with_filters fs_filters].
  fold (live_filters (ea_filter_store a) now). rewrite Hl, poll_store. cbv zeta.
  destruct (poll a (fe_filter e)) as [[cursor ch]|]; [|done].
  rewrite put_store_twice. unfold store_update. cbn [with_filters fs_filters].
  assert (forall g, alter g id (live_filters (ea_filter_store a) now)
    = <[id := g e]> (live_filters (ea_filter_store a) now)) as ->; [|by destruct cursor].
  intros g. rewrite <- (insert_id _ _ _ Hl) at 1. by rewrite alter_insert_eq.
Qed.

Lemma known_before (known : gset B256) (pushed : list B256) (c n : nat) :
  NoDup pushed -> (c <= n)%nat -> (forall h, h ∈ known -> h ∈ take c pushed) ->
  filter (fun h => h ∉ known) (drop n pushed) = drop n pushed.
Proof.
  intros Hnd Hle Hk. apply list_filter_all, Forall_forall. intros h Hh Hin.
  rewrite <- (take_drop n pushed), NoDup_app in Hnd. destruct Hnd as (_ & Hd & _).
  apply (Hd h); [|done]. apply Hk in Hin. rewrite <- (take_drop c (take n pushed)).
  rewrite take_take, Nat.min_l by lia. set_solver.
Qed.

Lemma poll_pending_exact a pushed known c :
  pending_inv a pushed -> NoDup pushed -> filter_fits pushed (FPendingTransaction known c) ->
  poll_pending a known c =
  (Some (FPendingTransaction (dom (ea_pending_txs a)) (len pushed)),
   ChHashes (drop (Z.to_nat (Z.max c (ea_pending_tx_evicted a))) pushed)).
Proof.
  intros Hp Hnd [Hc Hk]. unfold poll_pending. rewrite (pending_end_eq _ _ Hp), (pi_order _ _ Hp).
  pose proof (pi_evicted _ _ Hp) as He. rewrite drop_drop. unfold saturating_sub.
  replace (Z.to_nat (ea_pending_tx_evicted a) + Z.to_nat (Z.max 0 (c - ea_pending_tx_evicted a)))%nat
    with (Z.to_nat (Z.max c (ea_pending_tx_evicted a))) by lia.
  rewrite (known_before _ _ (Z.to_nat c)); [done|done|lia|done].
Qed.

(** C23: a pending-transaction filter reports every accepted transaction exactly once, in the order
    of acceptance.  In a reachable state in which no transaction was accepted twice, a poll of a
    live pending filter answers the hashes accepted since its cursor, except those the cache has
    evicted since, and moves the cursor to the end: a second poll with nothing accepted between
    answers nothing. *)
Theorem pending_filter_exact a pushed now id e known c :
  api_run a pushed -> NoDup pushed ->
  fs_filters (ea_filter_store a) !! id = Some e -> live (ea_filter_store a) now e ->
  fe_filter e = FPendingTransaction known c ->
  let a' := (get_filter_changes a now id).1 in
  (get_filter_changes a now id).2
  = Ok (ChHashes (drop (Z.to_nat (Z.max c (ea_pending_tx_evicted a))) pushed))
  /\ fs_filters (ea_filter_store a') !! id
     = Some (mkFilterEntry (FPendingTransaction (dom (ea_pending_txs a)) (len pushed)) now)
  /\ (0 < fs_ttl (ea_filter_store a) -> (get_filter_changes a' now id).2 = Ok (ChHashes [])).
Proof.
  intros Ha%run_inv Hnd He Hlive Hf. pose proof Ha as [Hp Hs Hc].
  pose proof (Hc id e known c He Hf) as Hfit. pose proof (changes_inv a pushed now id Ha) as Ha'.
  rewrite (changes_at a now id e Hs He Hlive) in *. cbv zeta in *. rewrite Hf in *. cbn [poll] in *.
  rewrite (poll_pending_exact a pushed known c Hp Hnd Hfit) in *. cbn [fst snd default] in *.
  set (a' := put_store a _) in *.
  assert (fs_filters (ea_filter_store a') !! id
    = Some (mkFilterEntry (FPendingTransaction (dom (ea_pending_txs a)) (len pushed)) now)) as He'
    by apply lookup_insert_eq.
  split_and!; [done|done|]. intros Httl. destruct Ha' as [Hp' Hs' Hc'].
  rewrite (changes_at a' now id _ Hs' He'); [|unfold live, saturating_sub; cbn; lia].
  cbv zeta. cbn [poll fe_filter]. rewrite (poll_pending_exact a' pushed); [|done|done|by eapply Hc'].
  cbn [fst snd]. rewrite drop_ge; [done|]. unfold len. lia.
Qed.
End invariant.

(** ** Log and block filters over the index *)

Lemma indexed_head_nonneg ix A hd : indexed ix A hd -> 0 <= hd.
Proof. induction 1; lia. Qed.

Section indexed.
Context `{EXT : !External} `{RV : !Revm} `{DSP : !Display} {St : Type} `{SDB : !StateDbRead St}.
Implicit Types a : EthApi (IndexedStateProvider St).

(** The first block of the next poll of a log filter, and the last at head
    [hd]. *)
Definition next_block (cursor : option u64) : u64 :=
  match cursor with Some c => c + 1 | None => 0 end.
Definition last_block (criteria : RpcLogFilter) (hd : u64) : u64 :=
  match rf_to_block criteria with Some (Number n) => Z.min n hd | _ => hd end.

Lemma changes_filter_logs (p : IndexedStateProvider St) A hd criteria cursor :
  indexed (ip_index p) A hd -> hd <= u64_max -> next_block cursor <= hd ->
  let from := next_block cursor in
  let to := last_block criteria hd in
  (from <= to <= from + MAX_LOG_BLOCK_RANGE ->
     provider_get_logs p (changes_filter criteria cursor hd)
     = Ok (log_to_rpc <$> filter (wanted criteria) (retained_logs A from to)))
  /\ (to < from \/ from + MAX_LOG_BLOCK_RANGE < to ->
     exists msg, provider_get_logs p (changes_filter criteria cursor hd) = Err (InvalidParams msg)).
Proof.
  intros Hi Hhd Hnext from to. pose proof (indexed_represents _ _ _ Hi) as Hr.
  assert (head_block_number (ip_index p) = hd) as Hh by apply Hr.
  assert (to <= hd) as Hto by (unfold to, last_block; destruct (rf_to_block criteria) as [[]|]; lia).
  unfold provider_get_logs, log_range, changes_filter.
  replace (match cursor with Some lpb => saturating_add u64_max lpb 1 | None => 0 end) with from.
  2: { unfold from, next_block in *. destruct cursor; [|done]. unfold saturating_add. lia. }
  fold (last_block criteria hd) to.
  cbn [rf_block_hash rf_from_block rf_to_block is_some andb fmap option_fmap option_map
    resolve_block_number default from_option id]. rewrite Hh, Z.min_l by done. split; intros Hb.
  - destruct (Z.ltb_spec to from); [lia|].
    destruct (Z.ltb_spec MAX_LOG_BLOCK_RANGE (saturating_sub to from)).
    { unfold saturating_sub, MAX_LOG_BLOCK_RANGE in *. lia. }
    fold (range_filter from to). rewrite (logs_in_range p A hd) by done. do 2 f_equal.
    by apply list_filter_iff.
  - destruct (Z.ltb_spec to from); [by eauto|].
    destruct (Z.ltb_spec MAX_LOG_BLOCK_RANGE (saturating_sub to from)); [by eauto|].
    unfold saturating_sub, MAX_LOG_BLOCK_RANGE in *. lia.
Qed.

Lemma poll_log_cases a A hd criteria cursor :
  indexed (ip_index (ea_provider a)) A hd -> hd <= u64_max -> rf_block_hash criteria = None ->
  let from := next_block cursor in
  let to := last_block criteria hd in
  (hd < from -> poll_log a criteria cursor = Ok (None, ChLogs []))
  /\ (from <= hd -> from <= to <= from + MAX_LOG_BLOCK_RANGE ->
       poll_log a criteria cursor
       = Ok (Some (FLog criteria (Some hd)),
             ChLogs (log_to_rpc <$> filter (wanted criteria) (retained_logs A from to))))
  /\ (from <= hd -> to < from \/ from + MAX_LOG_BLOCK_RANGE < to ->
       exists msg, poll_log a criteria cursor = Err (InvalidParams msg)).
Proof.
  intros Hi Hhd Hbh from to. pose proof (indexed_head_nonneg _ _ _ Hi) as H0.
  assert (current_block_number a = hd) as Hcur.
  { unfold current_block_number. cbn [sp_block_number indexed_provider].
    apply (rp_head _ _ _ (indexed_represents _ _ _ Hi)). }
  unfold poll_log. rewrite Hcur, Hbh. cbn [is_some andb]. split_and!.
  - intros Hlt. unfold from, next_block in Hlt. destruct cursor as [c|]; [|lia].
    cbn [from_option]. by rewrite (proj2 (Z.leb_le hd c)) by lia.
  - intros Hle Hb. assert (from_option (fun lpb => hd <=? lpb) false cursor = false) as ->.
    { destruct cursor as [c|]; [|done]. apply Z.leb_gt. unfold from, next_block in Hle. lia. }
    destruct (changes_filter_logs (ea_provider a) A hd criteria cursor Hi Hhd Hle) as [Hl _].
    cbn [sp_get_logs indexed_provider]. by rewrite (Hl Hb).
  - intros Hle Hb. assert (from_option (fun lpb => hd <=? lpb) false cursor = false) as ->.
    { destruct cursor as [c|]; [|done]. apply Z.leb_gt. unfold from, next_block in Hle. lia. }
    destruct (changes_filter_logs (ea_provider a) A hd criteria cursor Hi Hhd Hle) as [_ Hl].
    cbn [sp_get_logs indexed_provider]. destruct (Hl Hb) as [msg ->]. eauto.
Qed.

(** C24: log filters over the index.  A poll of a live log filter answers exactly the logs it wants
    of the retained blocks from the one after its cursor up to the head, or up to the fixed upper
    bound it was created with, in order, and moves its cursor to the head: the next poll starts
    where this one ended, so that no log is reported twice or passed over.  Below its cursor it
    answers nothing.  When the blocks to report are none because of the upper bound, or more than
    10 000, the poll is refused and the filter is left as it was. *)
Theorem log_filter_poll a A hd now id e criteria cursor :
  indexed (ip_index (ea_provider a)) A hd -> hd <= u64_max -> store_ok (ea_filter_store a) ->
  fs_filters (ea_filter_store a) !! id = Some e -> live (ea_filter_store a) now e ->
  fe_filter e = FLog criteria cursor -> rf_block_hash criteria = None ->
  let from := next_block cursor in
  let to := last_block criteria hd in
  let r := get_filter_changes a now id in
  let entry' := fs_filters (ea_filter_store r.1) !! id in
  (hd < from -> r.2 = Ok (ChLogs []) /\ entry' = Some (touch now e))
  /\ (from <= hd -> from <= to <= from + MAX_LOG_BLOCK_RANGE ->
       r.2 = Ok (ChLogs (log_to_rpc <$> filter (wanted criteria) (retained_logs A from to)))
       /\ entry' = Some (mkFilterEntry (FLog criteria (Some hd)) now))
  /\ (from <= hd -> to < from \/ from + MAX_LOG_BLOCK_RANGE < to ->
       (exists msg, r.2 = Err (InvalidParams msg)) /\ entry' = Some e).
Proof.
  intros Hi Hhd Hs He Hlive Hf Hbh from to r entry'.
  pose proof (changes_at a now id e Hs He Hlive) as Hr. fold r in Hr. cbv zeta in Hr.
  rewrite Hf in Hr. cbn [poll] in Hr.
  destruct (poll_log_cases a A hd criteria cursor Hi Hhd Hbh) as (H1 & H2 & H3).
  assert (live_filters (ea_filter_store a) now !! id = Some e) as Hl.
  { by apply map_lookup_filter_Some. }
  unfold entry'. split_and!.
  - intros Hlt. rewrite (H1 Hlt) in Hr. rewrite Hr. split; [done|]. unfold touch. rewrite Hf.
    apply lookup_insert_eq.
  - intros Hle Hb. rewrite (H2 Hle Hb) in Hr. rewrite Hr. split; [done|]. apply lookup_insert_eq.
  - intros Hle Hb. destruct (H3 Hle Hb) as [msg Hm]. rewrite Hm in Hr. rewrite Hr. split; [by eauto|done].
Qed.

(** A log filter with a fixed upper bound fails for good once the chain has passed the bound.
    The poll that reports the last blocks of its range succeeds; after that, as soon as the head
    has moved on, every poll is refused with an invalid-parameters error and leaves the filter,
    including the time of its last poll, as it was. *)
Theorem bounded_filter_fails a A hd now id e criteria cursor n p' A' hd' now' :
  indexed (ip_index (ea_provider a)) A hd -> store_ok (ea_filter_store a) ->
  fs_filters (ea_filter_store a) !! id = Some e -> live (ea_filter_store a) now e ->
  fe_filter e = FLog criteria cursor -> rf_block_hash criteria = None ->
  rf_to_block criteria = Some (Number n) ->
  next_block cursor <= n <= next_block cursor + MAX_LOG_BLOCK_RANGE -> n <= hd ->
  indexed (ip_index p') A' hd' -> hd < hd' <= u64_max ->
  saturating_sub now' now < fs_ttl (ea_filter_store a) ->
  let r := get_filter_changes a now id in
  let r' := get_filter_changes (set_provider r.1 p') now' id in
  is_ok r.2 = true /\ (exists msg, r'.2 = Err (InvalidParams msg))
  /\ fs_filters (ea_filter_store r'.1) !! id = fs_filters (ea_filter_store r.1) !! id.
Proof.
  intros Hi Hs He Hlive Hf Hbh Hn Hrange Hnhd Hi' Hhd' Httl r r'.
  assert (last_block criteria hd = n /\ last_block criteria hd' = n) as [Hl Hl'].
  { unfold last_block. rewrite Hn. lia. }
  pose proof (changes_at a now id e Hs He Hlive) as Hr. fold r in Hr. cbv zeta in Hr.
  rewrite Hf in Hr. cbn [poll] in Hr.
  destruct (poll_log_cases a A hd criteria cursor Hi ltac:(lia) Hbh) as (_ & H2 & _).
  rewrite Hl in H2. rewrite (H2 ltac:(lia) ltac:(lia)) in Hr. cbn [default] in Hr.
  set (e' := mkFilterEntry (FLog criteria (Some hd)) now) in Hr.
  set (a' := set_provider r.1 p') in *.
  assert (store_ok (ea_filter_store a')) as Hs'.
  { unfold a', r. cbn [set_provider ea_filter_store]. rewrite (changes_at a now id e Hs He Hlive).
    cbv zeta. rewrite Hf. cbn [poll]. rewrite (H2 ltac:(lia) ltac:(lia)). cbn [fst put_store ea_filter_store].
    apply with_filters_ok; [done|]. rewrite dom_insert.
    assert (id ∈ dom (fs_filters (ea_filter_store a))) by (apply elem_of_dom; eauto).
    pose proof (subseteq_dom _ _ (live_filters_sub (ea_filter_store a) now)). set_solver. }
  assert (fs_filters (ea_filter_store a') !! id = Some e') as He'.
  { unfold a'. cbn [set_provider ea_filter_store]. rewrite Hr. apply lookup_insert_eq. }
  assert (live (ea_filter_store a') now' e') as Hlive'.
  { unfold live, e', a'. cbn [set_provider ea_filter_store fe_last_poll_time]. by rewrite Hr. }
  pose proof (changes_at a' now' id e' Hs' He' Hlive') as Hr'. fold r' in Hr'. cbv zeta in Hr'.
  destruct (poll_log_cases a' A' hd' criteria (Some hd) Hi' ltac:(lia) Hbh) as (_ & _ & H3).
  rewrite Hl' in H3. cbn [next_block] in H3.
  destruct (H3 ltac:(lia) ltac:(left; lia)) as [msg Hm]. cbn [poll fe_filter e'] in Hr'.
  rewrite Hm in Hr'. split_and!; [by rewrite Hr|by rewrite Hr'; eauto|].
  change (fs_filters (ea_filter_store r.1)) with (fs_filters (ea_filter_store a')). rewrite He', Hr'.
  by apply map_lookup_filter_Some.
Qed.

Lemma poll_blocks_indexed (p : IndexedStateProvider St) A hd hashes highest ns :
  indexed (ip_index p) A hd ->
  poll_blocks p hashes highest ns
  = Ok (hashes ++ omap (fun n => en_hash <$> A !! n) ns,
        foldl (fun h n => if decide (is_Some (A !! n)) then n else h) highest ns).
Proof.
  intros Hi. pose proof (indexed_represents _ _ _ Hi) as Hr. revert hashes highest.
  induction ns as [|n ns IH]; intros hashes highest; [by rewrite app_nil_r|].
  cbn [poll_blocks sp_block_by_number indexed_provider]. unfold provider_block_by_number.
  cbn [resolve_block_number]. unfold get_block_by_number. rewrite (rp_number _ _ _ Hr), lookup_fmap.
  cbn [foldl]. destruct (A !! n) as [e|] eqn:HA; cbn [fmap option_fmap option_map mbind option_bind].
  - rewrite (proj2 (rp_hash _ _ _ Hr (en_hash e) (en_block e))) by eauto.
    cbn [fmap option_fmap option_map]. rewrite IH, decide_True by eauto.
    cbn [omap list_omap]. rewrite HA. cbn [fmap option_fmap option_map].
    cbn [indexed_block_to_rpc rb_hash]. by rewrite <- app_assoc.
  - rewrite IH, decide_False by (by intros [? ?]). cbn [omap list_omap]. by rewrite HA.
Qed.

Lemma last_found (A : gmap u64 Entry) c m :
  0 <= m ->
  let c' := foldl (fun h n => if decide (is_Some (A !! n)) then n else h) c (seqZ (c + 1) m) in
  c <= c' <= c + m /\ (forall n, c' < n <= c + m -> A !! n = None) /\ (c' = c \/ is_Some (A !! c')).
Proof.
  revert m. apply natlike_ind; cbv zeta.
  { rewrite seqZ_nil by lia. cbn [foldl]. split_and!; [lia..|intros; lia|by left]. }
  intros m Hm (H1 & H2 & H3).
  rewrite <- Z.add_1_r, seqZ_app, foldl_app by lia. change (seqZ (c + 1 + m) 1) with [0 + (c + 1 + m)].
  rewrite Z.add_0_l. cbn [foldl].
  set (c' := foldl _ c (seqZ (c + 1) m)) in *.
  destruct (decide (is_Some (A !! (c + 1 + m)))) as [HS|HN].
  - split_and!; [lia..| |by right]. intros n Hn. lia.
  - split_and!; [lia..| |done]. intros n Hn. destruct (decide (n = c + 1 + m)) as [->|].
    + by apply eq_None_not_Some.
    + apply H2. lia.
Qed.

(** Block filters over the index.  A poll of a live block filter answers the hashes of the
    retained blocks above its cursor, in ascending order of their numbers, and moves the cursor to
    the last of them, so that a block that is indexed later is still reported; with none it stays. *)
Theorem block_filter_poll a A hd now id e c :
  indexed (ip_index (ea_provider a)) A hd -> hd <= u64_max -> store_ok (ea_filter_store a) ->
  fs_filters (ea_filter_store a) !! id = Some e -> live (ea_filter_store a) now e ->
  fe_filter e = FBlock c ->
  exists c', (get_filter_changes a now id).2
      = Ok (ChHashes (omap (fun n => en_hash <$> A !! n) (seqZ (c + 1) (hd - c))))
    /\ fs_filters (ea_filter_store (get_filter_changes a now id).1) !! id
       = Some (mkFilterEntry (FBlock c') now)
    /\ c <= c' <= Z.max c hd /\ (forall n, c' < n -> A !! n = None) 
    /\ (c' = c \/ is_Some (A !! c')).
Proof.
  intros Hi Hhd Hs He Hlive Hf.
  assert (current_block_number a = hd) as Hcur.
  { unfold current_block_number. cbn [sp_block_number indexed_provider].
    apply (rp_head _ _ _ (indexed_represents _ _ _ Hi)). }
  rewrite (changes_at a now id e Hs He Hlive). cbv zeta. rewrite Hf. cbn [poll]. unfold poll_block.
  rewrite Hcur. destruct (Z.leb_spec hd c) as [Hle|Hlt].
  - exists c. cbn [fst snd default]. split_and!; try lia.
    + by rewrite seqZ_nil by lia.
    + apply lookup_insert_eq.
    + intros n Hn. destruct (A !! n) eqn:HA; [|done]. apply (indexed_head _ _ _ Hi) in HA. lia.
  - replace (saturating_add u64_max c 1) with (c + 1) by (unfold saturating_add; lia).
    replace (hd - (c + 1) + 1) with (hd - c) by lia.
    rewrite (poll_blocks_indexed _ A hd) by done. cbn [fst snd default]. rewrite app_nil_l.
    destruct (last_found A c (hd - c) ltac:(lia)) as (H1 & H2 & H3).
    set (c' := foldl _ c (seqZ (c + 1) (hd - c))) in *. exists c'. split_and!; try lia; try done.
    { apply lookup_insert_eq. }
    intros n Hn. destruct (A !! n) eqn:HA; [|done].
    pose proof (indexed_head _ _ _ Hi _ _ HA). rewrite H2 in HA by lia. done.
Qed.
End indexed.

(** ** Mined and pending views *)

(** The view of a transaction, once it is in a block. *)
Definition as_mined (t : RpcTransaction) (block_hash : B256) (block_number index : u64)
    : RpcTransaction :=
  mkRpcTx (rt_hash t) (rt_nonce t) (Some block_hash) (Some block_number) (Some index) (rt_from t)
    (rt_to t) (rt_value t) (rt_gas t) (rt_gas_price t) (rt_input t) (rt_tx_type t) (rt_chain_id t)
    (rt_max_fee_per_gas t) (rt_max_priority_fee_per_gas t) (rt_v t) (rt_r t) (rt_s t).

Section mined.
Context `{EXT : !External} `{CD : !Codec} `{AC : !AlloyConsensus} `{RV : !Revm} `{DSP : !Display}.
Context {St : Type} `{SDB : !StateDbRead St}.

Lemma index_txs_hashes b idx txs ms :
  it_hash <$> index_txs b idx txs ms `sublist_of` tx_hashes txs.
Proof.
  revert idx ms. induction txs as [|tx txs IH]; intros idx [|[m|] ms]; cbn [index_txs];
    try apply sublist_nil_l; unfold tx_hashes in *; rewrite ?fmap_cons; cbn [it_hash].
  - apply sublist_skip, IH.
  - apply sublist_cons, IH.
Qed.

Lemma index_txs_view b idx txs i tx t :
  txs !! i = Some tx -> raw_tx_to_pending_rpc (tx_bytes tx) = Ok t ->
  exists it, it ∈ index_txs b idx txs ((fun tx => decode_tx_metadata (tx_bytes tx)) <$> txs)
    /\ it_hash it = rt_hash t /\ indexed_tx_to_rpc it = as_mined t (block_id b) (b_height b) (idx + Z.of_nat i).
Proof.
  revert idx i. induction txs as [|y txs IH]; intros idx i Hi Ht; [done|].
  rewrite fmap_cons. cbn [index_txs]. destruct i as [|i]; cbn in Hi.
  - simplify_eq. unfold raw_tx_to_pending_rpc in Ht. unfold decode_tx_metadata at 1.
    destruct (decode_2718 (tx_bytes tx)) as [env|]; [|done].
    destruct (recover_address env) as [from|]; [|done]. simplify_eq.
    eexists. split; [by left|]. split; [done|]. unfold indexed_tx_to_rpc, as_mined.
    cbn [it_hash it_nonce it_block_hash it_block_number it_index]. by rewrite Z.add_0_r.
  - destruct (IH (idx + 1) i Hi Ht) as (it & Hin & Hh & Hv). exists it. split_and!; [|done|].
    + destruct (decode_tx_metadata (tx_bytes y)); [by right|done].
    + rewrite Hv. f_equal. lia.
Qed.

(** C25: a transaction reads the same once it is mined.  After the reporter has indexed a block in
    which no transaction occurs twice, [eth_getTransactionByHash] answers, for any transaction of
    the block that [eth_sendRawTransaction] would take, the view the pending cache had of it,
    completed with the block's hash and number and its position in the block; and the entry of the
    pending cache is dropped, the order and the eviction offset are not touched. *)
Theorem mined_matches_pending (a : EthApi (IndexedStateProvider St)) ix b ctx o i tx t :
  ip_index (ea_provider a) = index_finalized_block ix b ctx o ->
  NoDup (tx_hashes (b_txs b)) -> b_txs b !! i = Some tx ->
  raw_tx_to_pending_rpc (tx_bytes tx) = Ok t ->
  get_transaction_by_hash a (keccak256 (tx_bytes tx))
  = (set_pending a (delete (keccak256 (tx_bytes tx)) (ea_pending_txs a)) (ea_pending_tx_order a)
       (ea_pending_tx_evicted a),
     Ok (Some (as_mined t (block_id b) (b_height b) (Z.of_nat i)))).
Proof.
  intros Hix Hnd Hi Ht. destruct (index_txs_view b 0 (b_txs b) i tx t Hi Ht) as (it & Hin & Hh & Hv).
  assert (rt_hash t = keccak256 (tx_bytes tx)) as Hth.
  { unfold raw_tx_to_pending_rpc in Ht. destruct (decode_2718 (tx_bytes tx)) as [env|]; [|done].
    destruct (recover_address env); [|done]. by simplify_eq. }
  unfold get_transaction_by_hash. cbn [sp_transaction_by_hash indexed_provider].
  unfold get_transaction. rewrite Hix. unfold index_finalized_block, block_entry.
  cbn [en_block en_txs en_receipts insert_block ix_transactions].
  rewrite (proj2 (insert_all_lookup it_hash _ _ (keccak256 (tx_bytes tx)) it
    (sublist_NoDup _ _ Hnd (index_txs_hashes b 0 _ _)))).
  - cbn [fmap option_fmap option_map]. by rewrite Hv, Z.add_0_l.
  - left. split; [done|]. congruence.
Qed.
End mined.

(** ** Witnesses *)

#[local] Existing Instances exec_ext exec_revm exec_state.
#[local] Instance eth_display : Display := {| show_address := show_u64; show_b256 := show_u64 |}.
#[local] Instance eth_alloy : AlloyConsensus := {|
  calculate_transaction_root := len;
  calculate_receipt_root := len;
  logs_bloom := fun _ => 0;
  to_eip155_value := fun v _ => if v then 28 else 27;
|}.

(** A server with no index behind it: a pending filter is made, a transaction
    accepted. *)
Definition api0 : EthApi unit := from_parts 1 tt None GasOracleConfig_default.
Definition api1 : EthApi unit :=
  put_store api0 (mkFilterStore {[ 1 := mkFilterEntry (FPendingTransaction ∅ 0) 0 ]} 2 1024
                    DEFAULT_FILTER_TTL).
Definition api2 : EthApi unit := (send_raw_transaction api1 [5; 9]).1.

Lemma api2_run : api_run api2 [keccak256 [5; 9]].
Proof.
  apply (run_step api1 [] [keccak256 [5; 9]]); [|apply (step_send _ [5; 9])|done].
  - apply (run_step api0 [] []); [apply run_start|apply (step_new_pending _ 0 _ 1)|done].
    vm_compute. reflexivity.
  - vm_compute. reflexivity.
Qed.

Lemma api_reachable_witness :
  ea_pending_tx_order api2 = [keccak256 [5; 9]] /\ len (ea_pending_tx_order api2) <= 10000.
Proof.
  destruct (api_reachable api2 _ api2_run) as (_ & _ & _ & H & _).
  split; [vm_compute; reflexivity|exact H].
Defined.

Lemma pending_filter_exact_witness :
  (get_filter_changes api2 7 1).2 = Ok (ChHashes [keccak256 [5; 9]]).
Proof.
  pose proof (pending_filter_exact api2 _ 7 1 (mkFilterEntry (FPendingTransaction ∅ 0) 0) ∅ 0 api2_run
    (NoDup_singleton _) eq_refl ltac:(vm_compute; reflexivity) eq_refl) as (H & _).
  exact H.
Defined.

(** A server over the index of blocks 1 and 2, with a log filter from block 1
    that has reported nothing yet, and a block filter. *)
Definition served (f : Filters.Filter) : EthApi (IndexedStateProvider Z) :=
  put_store (from_parts 1 (with_chain_id rpc_index 0 1) None GasOracleConfig_default)
    (mkFilterStore {[ 1 := mkFilterEntry f 0 ]} 2 1024 DEFAULT_FILTER_TTL).

Lemma served_ok f : store_ok (ea_filter_store (served f)).
Proof.
  split; [done..|]. intros id e H. cbn in H. apply lookup_singleton_Some in H as [<- _]. done.
Qed.

Definition log_criteria (to : option BlockNumberOrTag) : RpcLogFilter :=
  mkRpcLogFilter (Some (Number 1)) to None None None.

Lemma log_filter_poll_witness :
  (get_filter_changes (served (FLog (log_criteria None) (Some 0))) 7 1).2
  = Ok (ChLogs (log_to_rpc <$> all_logs (en_receipts (demo_entry 2)))).
Proof.
  pose proof (log_filter_poll (served (FLog (log_criteria None) (Some 0))) rpc_blocks 2 7 1
    (mkFilterEntry (FLog (log_criteria None) (Some 0)) 0) (log_criteria None) (Some 0) rpc_indexed
    ltac:(done) (served_ok _) eq_refl ltac:(vm_compute; reflexivity) eq_refl eq_refl) as (_ & H & _).
  destruct (H ltac:(done) ltac:(done)) as [Hr _]. rewrite Hr. vm_compute. reflexivity.
Defined.

Lemma block_filter_poll_witness :
  (get_filter_changes (served (FBlock 1)) 7 1).2 = Ok (ChHashes [102]).
Proof.
  destruct (block_filter_poll (served (FBlock 1)) rpc_blocks 2 7 1 (mkFilterEntry (FBlock 1) 0) 1
    rpc_indexed ltac:(done) (served_ok _) eq_refl ltac:(vm_compute; reflexivity) eq_refl)
    as (c' & Hr & _). rewrite Hr. vm_compute. reflexivity.
Defined.

(** The same index one block later. *)
Definition later_index : BlockIndex :=
  insert_block rpc_index (en_block (demo_entry 3)) (en_txs (demo_entry 3))
    (en_receipts (demo_entry 3)).

Lemma later_indexed : indexed later_index (<[3 := demo_entry 3]> rpc_blocks) 3.
Proof.
  apply (indexed_insert _ _ 2 (demo_entry 3)); [apply rpc_indexed|apply demo_entry_ok|done|].
  intros n e [He _]%map_lookup_filter_Some.
  apply lookup_insert_Some in He as [[<- <-]|[_ He]]; [split; [done|]; simpl; set_solver|].
  apply lookup_insert_Some in He as [[<- <-]|[_ He]]; [split; [done|]; simpl; set_solver|].
  by rewrite lookup_empty in He.
Qed.

Lemma bounded_filter_fails_witness :
  exists msg, (get_filter_changes
    (set_provider (get_filter_changes (served (FLog (log_criteria (Some (Number 2))) (Some 0))) 7 1).1
       (with_chain_id later_index 0 1)) 8 1).2 = Err (InvalidParams msg).
Proof.
  destruct (bounded_filter_fails (served (FLog (log_criteria (Some (Number 2))) (Some 0))) rpc_blocks 2
    7 1 (mkFilterEntry (FLog (log_criteria (Some (Number 2))) (Some 0)) 0)
    (log_criteria (Some (Number 2))) (Some 0) 2 (with_chain_id later_index 0 1) _ 3 8
    rpc_indexed (served_ok _) eq_refl ltac:(vm_compute; reflexivity) eq_refl eq_refl eq_refl
    ltac:(done) ltac:(done) later_indexed ltac:(done) ltac:(vm_compute; reflexivity)) as (_ & H & _).
  exact H.
Defined.

(** A block of two transactions, indexed. *)
#[local] Instance eth_codec : Codec := {|
  write_u64 := @write_u64 _ (simple_codec (fun _ => 0));
  read_u64 := @read_u64 _ (simple_codec (fun _ => 0));
  write_bool := @write_bool _ (simple_codec (fun _ => 0));
  read_bool := @read_bool _ (simple_codec (fun _ => 0));
  write_usize := @write_usize _ (simple_codec (fun _ => 0));
  read_usize := @read_usize _ (simple_codec (fun _ => 0));
  write_vec := @write_vec _ (simple_codec (fun _ => 0));
  read_vec := @read_vec _ (simple_codec (fun _ => 0));
  read_bytes := @read_bytes _ (simple_codec (fun _ => 0));
  u64_size := @u64_size _ (simple_codec (fun _ => 0));
  bool_size := @bool_size _ (simple_codec (fun _ => 0));
  usize_size := @usize_size _ (simple_codec (fun _ => 0));
  vec_size := @vec_size _ (simple_codec (fun _ => 0));
  bytes_size := @bytes_size _ (simple_codec (fun _ => 0));
|}.
Definition mined_block : Block := mkBlock 5 1 10 0 0 [mkTx [0; 3]; mkTx [1; 4]].
Definition mined_api : EthApi (IndexedStateProvider Z) :=
  from_parts 1 (with_chain_id
    (index_finalized_block index_new mined_block exec_context ExecutionOutcome_new) 0 1) None
    GasOracleConfig_default.

Lemma mined_matches_pending_witness :
  exists t, raw_tx_to_pending_rpc [1; 4] = Ok t
    /\ (get_transaction_by_hash mined_api (keccak256 [1; 4])).2
       = Ok (Some (as_mined t (block_id mined_block) 1 1)).
Proof.
  eexists. split; [reflexivity|].
  pose proof (mined_matches_pending mined_api index_new mined_block exec_context ExecutionOutcome_new
    1 (mkTx [1; 4]) _ eq_refl ltac:(vm_compute; repeat constructor; set_solver) eq_refl eq_refl) as H.
  cbn [tx_bytes] in H. rewrite H. reflexivity.
Defined.
