(* ===== verification/RateLimit.v ===== *)
(** Rate limiting of the RPC server (crates/node/rpc/src/server.rs and the
    configuration in config.rs): token buckets over [f64], one per connection
    and one for the whole server, and the middleware that consults them.  The
    clock, in nanoseconds, is read once per request. *)
From Stdlib Require Import SpecFloat.
From S2P Require Import Prelude TxTypes StateDb Changes Bytes QmdbState Executor Execute Indexer Rpc.
From S2P Require Import Filters Float.
Open Scope Z_scope.

Record RateLimitConfig := mkRateLimit { rlc_requests_per_second : u64; rlc_burst_size : u64 }.
Definition RateLimitConfig_default : RateLimitConfig := mkRateLimit 100 200.
Definition RateLimitConfig_disabled : RateLimitConfig := mkRateLimit u64_max u64_max.
Definition is_disabled (c : RateLimitConfig) : bool := rlc_requests_per_second c =? u64_max.

(** ** Token buckets *)

Record TokenBucket := mkBucket {
  tb_requests_per_second : f64;
  tb_burst_size : f64;
  tb_tokens : f64;
  tb_last_refill : Instant;
}.

Definition bucket_new (c : RateLimitConfig) (now : Instant) : TokenBucket :=
  let burst_size :=
    if rlc_requests_per_second c =? 0 then f64_zero
    else
      let bs := f64_of_Z (rlc_burst_size c) in
      if SFltb bs (f64_of_Z 1) then f64_of_Z 1 else bs in
  mkBucket (f64_of_Z (rlc_requests_per_second c)) burst_size burst_size now.

Definition refill (b : TokenBucket) (now : Instant) : TokenBucket :=
  let elapsed := saturating_sub now (tb_last_refill b) in
  if elapsed =? 0 then b
  else if SFeqb (tb_requests_per_second b) f64_zero || SFleb (tb_burst_size b) (tb_tokens b)
  then mkBucket (tb_requests_per_second b) (tb_burst_size b) (tb_tokens b) now
  else
    let replenished := f64_mul (as_secs_f64 elapsed) (tb_requests_per_second b) in
    mkBucket (tb_requests_per_second b) (tb_burst_size b)
      (f64_min (f64_add (tb_tokens b) replenished) (tb_burst_size b)) now.

Definition try_acquire_at (b : TokenBucket) (now : Instant) : TokenBucket * bool :=
  let b := refill b now in
  if SFleb (f64_of_Z 1) (tb_tokens b)
  then (mkBucket (tb_requests_per_second b) (tb_burst_size b)
          (f64_sub (tb_tokens b) (f64_of_Z 1)) (tb_last_refill b), true)
  else (b, false).

(** ** The limiter of the server *)

Definition shared_new (c : RateLimitConfig) (now : Instant) : option TokenBucket :=
  if is_disabled c then None else Some (bucket_new c now).

(** [global_rate_limit_allows]: no limiter allows everything. *)
Definition global_rate_limit_allows (l : option TokenBucket) (now : Instant)
    : option TokenBucket * bool :=
  match l with
  | None => (None, true)
  | Some b => let '(b, ok) := try_acquire_at b now in (Some b, ok)
  end.

(** ** The limiter of connections *)

Definition STALE_BUCKET_NANOS : Duration := 300 * 1000000000.
Definition CLEANUP_INTERVAL : Duration := 60 * 1000000000.

Record PerConnection := mkPerConnection {
  pc_buckets : gmap usize TokenBucket;
  pc_last_cleanup : Instant;
  pc_config : RateLimitConfig;
}.

Definition per_conn_new (c : RateLimitConfig) (now : Instant) : option PerConnection :=
  if is_disabled c then None else Some (mkPerConnection ∅ now c).

(** A bucket that is not swept away. *)
Definition recent (now : Instant) (b : TokenBucket) : Prop :=
  saturating_sub now (tb_last_refill b) < STALE_BUCKET_NANOS.
#[export] Instance recent_dec now b : Decision (recent now b) := ltac:(unfold recent; apply _).

Definition sweep (p : PerConnection) (now : Instant) : PerConnection :=
  if CLEANUP_INTERVAL <=? saturating_sub now (pc_last_cleanup p)
  then mkPerConnection (filter (fun ib => recent now ib.2) (pc_buckets p)) now (pc_config p)
  else p.

Definition conn_try_acquire (p : PerConnection) (now : Instant) (conn_id : usize)
    : PerConnection * bool :=
  let p := sweep p now in
  let bucket := default (bucket_new (pc_config p) now) (pc_buckets p !! conn_id) in
  let '(bucket, ok) := try_acquire_at bucket now in
  (mkPerConnection (<[conn_id := bucket]> (pc_buckets p)) (pc_last_cleanup p) (pc_config p), ok).

(** ** The middleware *)

(** A response of the JSON-RPC server. *)
Inductive MethodResponse : Type :=
| Response (payload : string)
| ErrorResponse (e : ErrorObject).

Definition as_error_code (r : MethodResponse) : option Z :=
  match r with Response _ => None | ErrorResponse e => Some (eob_code e) end.

Definition rate_limited_rpc_response : MethodResponse :=
  ErrorResponse (mkErrorObject LIMIT_EXCEEDED "rate limit exceeded" None).

Definition SUBSCRIPTION_METHODS : list string :=
  ["eth_subscribe"; "eth_unsubscribe"; "kora_subscribe"; "kora_unsubscribe"]%string.
Definition is_subscription_method (m : string) : bool := bool_decide (m ∈ SUBSCRIPTION_METHODS).
Definition subscription_not_available_response : MethodResponse :=
  ErrorResponse (mkErrorObject METHOD_NOT_SUPPORTED
    "Subscriptions are not available over HTTP. Use WebSocket instead." None).

Record Limits := mkLimits {
  lm_per_conn : option PerConnection;
  lm_global : option TokenBucket;
  lm_requests : u64;
}.

(** What [start] builds: both limiters from the one configuration. *)
Definition limits_new (c : RateLimitConfig) (now : Instant) : Limits :=
  mkLimits (per_conn_new c now) (shared_new c now) 0.

(** The limiter of the request's connection, when both are there. *)
Definition conn_allows (l : option PerConnection) (now : Instant) (conn_id : option usize)
    : option PerConnection * bool :=
  match l, conn_id with
  | Some p, Some id => let '(p, ok) := conn_try_acquire p now id in (Some p, ok)
  | _, _ => (l, true)
  end.

(** [RateLimitedRpcService::call] around a service that answers [inner]. *)
Definition service_call (l : Limits) (now : Instant) (conn_id : option usize) (method_name : string)
    (inner : MethodResponse) : Limits * MethodResponse :=
  let requests := wrapping_add u64_max (lm_requests l) 1 in
  let '(per_conn, allowed) := conn_allows (lm_per_conn l) now conn_id in
  if negb allowed then (mkLimits per_conn (lm_global l) requests, rate_limited_rpc_response)
  else
    let '(global, allowed) := global_rate_limit_allows (lm_global l) now in
    let l := mkLimits per_conn global requests in
    if negb allowed then (l, rate_limited_rpc_response)
    else if is_subscription_method method_name
            && bool_decide (as_error_code inner = Some INTERNAL_ERROR)
    then (l, subscription_not_available_response)
    else (l, inner).

(** [enforce_http_rate_limit]: the HTTP status, 200 for what the handler
    answers. *)
Definition enforce_http_rate_limit (l : option TokenBucket) (now : Instant)
    : option TokenBucket * Z :=
  let '(l, ok) := global_rate_limit_allows l now in (l, if ok then 200 else 429).

(** ** Connections do not share their buckets *)

(** The bucket a request of a connection is charged to. *)
Definition bucket_of (p : PerConnection) (now : Instant) (conn_id : usize) : TokenBucket :=
  default (bucket_new (pc_config p) now) (pc_buckets (sweep p now) !! conn_id).

Lemma sweep_config p now : pc_config (sweep p now) = pc_config p.
Proof. unfold sweep. by destruct (_ <=? _). Qed.

Lemma sweep_recent p now id b :
  pc_buckets p !! id = Some b -> recent now b -> pc_buckets (sweep p now) !! id = Some b.
Proof.
  intros Hb Hr. unfold sweep. destruct (_ <=? _); [|done]. by apply map_lookup_filter_Some.
Qed.

Lemma conn_try_acquire_eq p now id :
  conn_try_acquire p now id
  = (mkPerConnection (<[id := (try_acquire_at (bucket_of p now id) now).1]> (pc_buckets (sweep p now)))
       (pc_last_cleanup (sweep p now)) (pc_config p),
     (try_acquire_at (bucket_of p now id) now).2).
Proof.
  unfold conn_try_acquire, bucket_of. rewrite sweep_config.
  by destruct (try_acquire_at _ now).
Qed.

(** The buckets of other connections are not charged. *)
Lemma conn_isolated p now id id' b :
  id <> id' -> pc_buckets p !! id' = Some b -> recent now b ->
  pc_buckets (conn_try_acquire p now id).1 !! id' = Some b.
Proof.
  intros Hne Hb Hr. rewrite conn_try_acquire_eq. cbn [fst pc_buckets].
  rewrite lookup_insert_ne by done. by apply sweep_recent.
Qed.

(** ** One connection against the server *)

(** The limits after requests of one connection alone, all of them let
    through, the last at [t]; the connection was never idle for as long as the
    sweep allows. *)
Inductive served_alone (c : RateLimitConfig) (conn : usize) : Limits -> Instant -> Prop :=
| alone_start t : served_alone c conn (limits_new c t) t
| alone_request l t t' method inner l' r :
    served_alone c conn l t -> t <= t' < t + STALE_BUCKET_NANOS ->
    service_call l t' (Some conn) method inner = (l', r) -> r <> rate_limited_rpc_response ->
    served_alone c conn l' t'.

Lemma refill_same c t : refill (bucket_new c t) t = bucket_new c t.
Proof. unfold refill. cbn [bucket_new tb_last_refill]. unfold saturating_sub. by rewrite Z.sub_diag. Qed.

(** A fresh bucket that lets a request through is as good as one of an earlier
    time. *)
Lemma refill_new c t t' :
  t <= t' -> (try_acquire_at (bucket_new c t') t').2 = true ->
  refill (bucket_new c t) t' = bucket_new c t'.
Proof.
  intros Ht Hok. unfold refill. cbn [bucket_new tb_last_refill tb_requests_per_second tb_burst_size
    tb_tokens]. unfold saturating_sub. destruct (Z.eqb_spec (Z.max 0 (t' - t)) 0).
  { by assert (t = t') as -> by lia. }
  set (burst := if rlc_requests_per_second c =? 0 then _ else _).
  destruct (f64_is_nan burst) eqn:Hn.
  - exfalso. unfold try_acquire_at in Hok. rewrite refill_same in Hok.
    cbn [bucket_new tb_tokens] in Hok. fold burst in Hok. by destruct burst.
  - rewrite f64_le_refl, Hn. cbn [negb]. by rewrite orb_true_r.
Qed.

(** A refused request and one let through, by the two limiters. *)
Lemma service_call_passed l t conn method inner l' r :
  service_call l t (Some conn) method inner = (l', r) -> r <> rate_limited_rpc_response ->
  forall p b, lm_per_conn l = Some p -> lm_global l = Some b ->
  (try_acquire_at (bucket_of p t conn) t).2 = true /\ (try_acquire_at b t).2 = true
  /\ l' = mkLimits (Some (conn_try_acquire p t conn).1) (Some (try_acquire_at b t).1)
            (wrapping_add u64_max (lm_requests l) 1).
Proof.
  intros H Hr p b Hp Hb. unfold service_call, conn_allows, global_rate_limit_allows in H.
  rewrite Hp, Hb, conn_try_acquire_eq in H. rewrite conn_try_acquire_eq.
  destruct (try_acquire_at (bucket_of p t conn) t) as [x []]; cbn [negb fst snd] in *; [|naive_solver].
  destruct (try_acquire_at b t) as [y []]; cbn [negb fst snd] in *; [|naive_solver].
  destruct (_ && _); by simplify_eq.
Qed.

Lemma service_call_refused l t conn method inner p b :
  lm_per_conn l = Some p -> lm_global l = Some b ->
  (try_acquire_at (bucket_of p t conn) t).2 = false \/ (try_acquire_at b t).2 = false ->
  (service_call l t (Some conn) method inner).2 = rate_limited_rpc_response.
Proof.
  intros Hp Hb Hor. unfold service_call, conn_allows, global_rate_limit_allows.
  rewrite Hp, Hb, conn_try_acquire_eq.
  destruct (try_acquire_at (bucket_of p t conn) t) as [x []]; cbn [negb fst snd] in *; [|done].
  destruct (try_acquire_at b t) as [y []]; cbn [negb fst snd] in *; [naive_solver|done].
Qed.

(** Either nothing was asked yet, or both limiters hold the same bucket. *)
Definition in_step (c : RateLimitConfig) (conn : usize) (l : Limits) (t : Instant) : Prop :=
  exists p b, lm_per_conn l = Some p /\ lm_global l = Some b /\ pc_config p = c
    /\ ((pc_buckets p = ∅ /\ b = bucket_new c t)
        \/ (pc_buckets p !! conn = Some b /\ dom (pc_buckets p) ⊆ {[ conn ]} /\ tb_last_refill b = t)).

Lemma sweep_empty p now : pc_buckets p = ∅ -> pc_buckets (sweep p now) = ∅.
Proof. intros H. unfold sweep. destruct (_ <=? _); [|done]. cbn. rewrite H. apply map_filter_empty. Qed.

Lemma sweep_dom p now : dom (pc_buckets (sweep p now)) ⊆ dom (pc_buckets p).
Proof.
  unfold sweep. destruct (_ <=? _); [|done]. cbn. apply subseteq_dom, map_filter_subseteq.
Qed.

Lemma refill_time b t : tb_last_refill b <= t -> tb_last_refill (refill b t) = t.
Proof.
  intros Ht. unfold refill, saturating_sub.
  destruct (Z.eqb_spec (Z.max 0 (t - tb_last_refill b)) 0); [lia|]. by destruct (_ || _).
Qed.

Lemma acquire_time b t : tb_last_refill b <= t -> tb_last_refill (try_acquire_at b t).1 = t.
Proof.
  intros Ht. unfold try_acquire_at. destruct (SFleb _ _); cbn [fst tb_last_refill]; by apply refill_time.
Qed.

Lemma served_in_step c conn l t : is_disabled c = false -> served_alone c conn l t -> in_step c conn l t.
Proof.
  intros Hd. induction 1 as [t|l t t' method inner l' r _ (p & b & Hp & Hb & Hc & Hst) Ht Hcall Hr].
  - unfold limits_new, per_conn_new, shared_new. rewrite Hd.
    eexists (mkPerConnection ∅ t c), (bucket_new c t). cbn. split_and!; try done. by left.
  - destruct (service_call_passed _ _ _ _ _ _ _ Hcall Hr p b Hp Hb) as (Hpass & Hglob & ->).
    rewrite conn_try_acquire_eq. eexists _, _. split_and!; [done..|]. right.
    cbn [fst pc_buckets]. rewrite lookup_insert_eq, dom_insert.
    pose proof (sweep_dom p t') as Hsd. destruct Hst as [[He ->]|(Hlk & Hdom & Htb)].
    + assert (bucket_of p t' conn = bucket_new c t') as Hof.
      { unfold bucket_of. by rewrite (sweep_empty p t' He), lookup_empty, Hc. }
      rewrite Hof in *. rewrite He, dom_empty_L in Hsd. split_and!; [|set_solver|].
      * do 2 f_equal. unfold try_acquire_at. rewrite refill_same, refill_new; done || lia.
      * apply acquire_time. cbn. lia.
    + assert (bucket_of p t' conn = b) as Hof.
      { unfold bucket_of. rewrite (sweep_recent p t' conn b Hlk); [done|].
        unfold recent, saturating_sub, STALE_BUCKET_NANOS in *. lia. }
      rewrite Hof. split_and!; [done|set_solver|]. apply acquire_time. lia.
Qed.

(** One connection can use up the budget of the whole server.  The two limiters are built from
    the same configuration: after any number of requests of a single connection, all let through
    and none more than the idle time after the one before, the bucket of the server holds what the
    bucket of that connection holds; so at an instant at which the connection itself is out of
    tokens, every request of every other connection is refused with the rate-limit error too. *)
Theorem one_client_exhausts_all c conn l t t' other method inner :
  is_disabled c = false -> served_alone c conn l t -> t <= t' < t + STALE_BUCKET_NANOS ->
  (conn_allows (lm_per_conn l) t' (Some conn)).2 = false -> other <> conn ->
  (service_call l t' (Some other) method inner).2 = rate_limited_rpc_response.
Proof.
  intros Hd Hsa Ht Hout Hne.
  destruct (served_in_step c conn l t Hd Hsa) as (p & b & Hp & Hb & Hc & Hst).
  unfold conn_allows in Hout. rewrite Hp, conn_try_acquire_eq in Hout. cbn [snd] in Hout.
  apply (service_call_refused l t' other method inner p b Hp Hb).
  destruct Hst as [[He ->]|(Hlk & Hdom & Htb)].
  - left. assert (forall id, bucket_of p t' id = bucket_new c t') as Hof.
    { intros id. unfold bucket_of. by rewrite (sweep_empty p t' He), lookup_empty, Hc. }
    rewrite Hof in *. done.
  - right. assert (bucket_of p t' conn = b) as Hof.
    { unfold bucket_of. rewrite (sweep_recent p t' conn b Hlk); [done|].
      unfold recent, saturating_sub, STALE_BUCKET_NANOS in *. lia. }
    by rewrite Hof in Hout.
Qed.

(** ** Witness *)

(** A limit of one request per second, with a burst of two: connection 1 takes
    both tokens, connection 2 gets none. *)
Definition tight : RateLimitConfig := mkRateLimit 1 2.
Definition tight0 : Limits := limits_new tight 0.
Definition tight1 : Limits := (service_call tight0 5 (Some 1) "eth_chainId" (Response "0x1")).1.
Definition tight2 : Limits := (service_call tight1 5 (Some 1) "eth_chainId" (Response "0x1")).1.

Lemma one_client_exhausts_all_witness :
  (service_call tight2 5 (Some 2) "eth_chainId" (Response "0x1")).2 = rate_limited_rpc_response.
Proof.
  apply (one_client_exhausts_all tight 1 tight2 5 5 2 "eth_chainId" (Response "0x1") eq_refl).
  - apply (alone_request tight 1 tight1 5 5 "eth_chainId" (Response "0x1") tight2 (Response "0x1"));
      [|done|vm_compute; reflexivity|discriminate].
    apply (alone_request tight 1 tight0 0 5 "eth_chainId" (Response "0x1") tight1 (Response "0x1"));
      [apply alone_start|done|vm_compute; reflexivity|discriminate].
  - done.
  - vm_compute. reflexivity.
  - discriminate.
Defined.
