(* ===== verification/NetAddr.v ===== *)
(** Socket addresses as the standard library parses them ([SocketAddr]'s
    [FromStr], core::net), which the transport and the command line rely on to
    tell addresses from host names. *)
From Stdlib Require Import Ascii.
From S2P Require Import Prelude Text.
Open Scope Z_scope.

(** ** Addresses *)

Definition u16_max : Z := 65535.

Inductive SocketAddr :=
| SocketV4 (octets : list Z) (port : Z)
| SocketV6 (segments : list Z) (scope_id : Z) (port : Z).

(** ** The parser

    A reader takes what it needs from the front of the input; one that fails
    takes nothing. *)
Abbreviation AddrReader T := (string -> option (T * string)) (only parsing).

Definition read_given_char (c : ascii) : AddrReader unit := fun s =>
  match s with String x s => if Ascii.eqb x c then Some (tt, s) else None | EmptyString => None end.

(** The digits from the front, at most [n] of them: their value, their number. *)
Fixpoint read_digits (n : nat) (radix max acc : Z) (count : nat) (s : string)
    : option (Z * nat * string) :=
  match n, s with
  | S n, String c rest =>
      match digit_value radix c with
      | Some d =>
          let acc := acc * radix + d in
          if max <? acc then None else read_digits n radix max acc (S count) rest
      | None => Some (acc, count, s)
      end
  | _, _ => Some (acc, count, s)
  end.

(** [read_number]: [max_digits] is [None] for no limit. *)
Definition read_number (radix max : Z) (max_digits : option nat) (allow_zero_prefix : bool)
    : AddrReader Z := fun s =>
  let has_leading_zero := match s with String c _ => Ascii.eqb c "0"%char | EmptyString => false end in
  match max_digits with
  | Some n =>
      (** A further digit past the limit fails. *)
      match read_digits (S n) radix max 0 0 s with
      | Some (v, count, rest) =>
          if (count =? 0)%nat || (n <? count)%nat then None
          else if negb allow_zero_prefix && has_leading_zero && (1 <? count)%nat then None
          else Some (v, rest)
      | None => None
      end
  | None =>
      match read_digits (String.length s) radix max 0 0 s with
      | Some (v, count, rest) =>
          if (count =? 0)%nat then None
          else if negb allow_zero_prefix && has_leading_zero && (1 <? count)%nat then None
          else Some (v, rest)
      | None => None
      end
  end.

(** [read_separator]: the separator before every item but the first. *)
Definition read_separator {T} (sep : ascii) (index : nat) (r : AddrReader T) : AddrReader T := fun s =>
  if (0 <? index)%nat then '(_, s) ← read_given_char sep s; r s else r s.

Fixpoint read_octets (n index : nat) : AddrReader (list Z) := fun s =>
  match n with
  | O => Some ([], s)
  | S n =>
      '(o, s) ← read_separator "."%char index (read_number 10 255 (Some 3%nat) false) s;
      '(l, s) ← read_octets n (S index) s;
      Some (o :: l, s)
  end.
Definition read_ipv4_addr : AddrReader (list Z) := read_octets 4 0.

(** [read_groups]: up to [n] groups of an IPv6 address, the last two perhaps
    as an IPv4 address; the flag says that this was so. *)
Fixpoint read_groups (n index : nat) (s : string) : list Z * bool * string :=
  match n with
  | O => ([], false, s)
  | S n' =>
      match (if (0 <? n')%nat then read_separator ":"%char index read_ipv4_addr s else None) with
      | Some (o, s) =>
          (match o with
           | [a; b; c; d] => [a * 256 + b; c * 256 + d]
           | _ => []
           end, true, s)
      | None =>
          match read_separator ":"%char index (read_number 16 65535 (Some 4%nat) true) s with
          | Some (g, s) => let '(l, v4, s) := read_groups n' (S index) s in (g :: l, v4, s)
          | None => ([], false, s)
          end
      end
  end.

Definition read_ipv6_addr : AddrReader (list Z) := fun s =>
  let '(head, head_ipv4, s) := read_groups 8 0 s in
  if (length head =? 8)%nat then Some (head, s)
  else if head_ipv4 then None
  else
    '(_, s) ← read_given_char ":"%char s;
    '(_, s) ← read_given_char ":"%char s;
    let '(tail, _, s) := read_groups (8 - (length head + 1)) 0 s in
    Some (head ++ replicate (8 - length head - length tail) 0 ++ tail, s).

Definition read_port : AddrReader Z := fun s =>
  '(_, s) ← read_given_char ":"%char s; read_number 10 65535 None true s.

Definition read_scope_id : AddrReader Z := fun s =>
  '(_, s) ← read_given_char "%"%char s; read_number 10 4294967295 None true s.

Definition read_socket_addr_v4 : AddrReader SocketAddr := fun s =>
  '(ip, s) ← read_ipv4_addr s;
  '(port, s) ← read_port s;
  Some (SocketV4 ip port, s).

Definition read_socket_addr_v6 : AddrReader SocketAddr := fun s =>
  '(_, s) ← read_given_char "["%char s;
  '(ip, s) ← read_ipv6_addr s;
  let '(scope, s) := default (0, s) (read_scope_id s) in
  '(_, s) ← read_given_char "]"%char s;
  '(port, s) ← read_port s;
  Some (SocketV6 ip scope port, s).

(** The whole input has to be taken. *)
Definition parse_socket_addr (s : string) : option SocketAddr :=
  '(a, rest) ← match read_socket_addr_v4 s with Some r => Some r | None => read_socket_addr_v6 s end;
  match rest with EmptyString => Some a | _ => None end.

(** [Display] of an IPv4 socket address. *)
Definition show_socket_v4 (octets : list Z) (port : Z) : string :=
  match octets with
  | [a; b; c; d] =>
      show_uint a +:+ "." +:+ show_uint b +:+ "." +:+ show_uint c +:+ "." +:+ show_uint d
        +:+ ":" +:+ show_uint port
  | _ => EmptyString
  end.

(** ** What is taken

    Addresses consist of hexadecimal digits and punctuation, so that most host
    names are not addresses. *)
Definition addr_char (c : ascii) : bool :=
  is_some (digit_value 16 c) || Ascii.eqb c "."%char || Ascii.eqb c ":"%char || Ascii.eqb c "["%char
  || Ascii.eqb c "]"%char || Ascii.eqb c "%"%char.

Definition took (s rest : string) : Prop :=
  exists p, s = p +:+ rest /\ all_chars addr_char p = true.
Definition takes {T} (r : AddrReader T) : Prop := forall s v rest, r s = Some (v, rest) -> took s rest.

Lemma took_refl s : took s s.
Proof. by exists EmptyString. Qed.

Lemma took_trans s t u : took s t -> took t u -> took s u.
Proof.
  intros (p & -> & Hp) (q & -> & Hq). exists (p +:+ q). rewrite append_assoc, all_chars_app, Hp, Hq. done.
Qed.

Lemma took_cons c s t : addr_char c = true -> took s t -> took (String c s) t.
Proof. intros Hc (p & -> & Hp). exists (String c p). simpl. by rewrite Hc, Hp. Qed.

Lemma given_char_takes c : addr_char c = true -> takes (read_given_char c).
Proof.
  intros Hc [|x s] v rest; simpl; [done|]. destruct (Ascii.eqb_spec x c) as [->|]; [|done].
  intros [= _ <-]. apply took_cons; [done|apply took_refl].
Qed.

Lemma digit_addr radix c d : radix <= 16 -> digit_value radix c = Some d -> addr_char c = true.
Proof.
  unfold addr_char, digit_value. intros Hr. cbv zeta.
  match goal with |- context [if ?d <? radix then _ else _] => set (n := d) end.
  destruct (n <? radix) eqn:Hn; [|done]. apply Z.ltb_lt in Hn. by rewrite (proj2 (Z.ltb_lt n 16)) by lia.
Qed.

Lemma digits_take n radix max acc count s v k rest :
  radix <= 16 -> read_digits n radix max acc count s = Some (v, k, rest) -> took s rest.
Proof.
  intros Hr. revert acc count s. induction n as [|n IH]; intros acc count s; simpl.
  { intros [= _ _ <-]. apply took_refl. }
  destruct s as [|c s]; [intros [= _ _ <-]; apply took_refl|].
  destruct (digit_value radix c) as [d|] eqn:Hd; [|intros [= _ _ <-]; apply took_refl].
  destruct (max <? _); [done|]. intros H%IH. apply took_cons; [by eapply digit_addr|done].
Qed.

Lemma number_takes radix max md z : radix <= 16 -> takes (read_number radix max md z).
Proof.
  intros Hr s v rest. unfold read_number.
  destruct md as [n|];
    (destruct (read_digits _ _ _ _ _ _) as [[[v' k] rest']|] eqn:Hd; [|done]);
    apply digits_take in Hd; [|done| |done]; repeat (case_match; [done|]); by intros [= _ <-].
Qed.

Lemma separator_takes {T} sep index (r : AddrReader T) :
  addr_char sep = true -> takes r -> takes (read_separator sep index r).
Proof.
  intros Hs Hr s v rest. unfold read_separator. destruct (_ <? _)%nat; [|apply Hr].
  destruct (read_given_char sep s) as [[u s']|] eqn:Hc; [|done]. simpl. intros H%Hr.
  apply given_char_takes in Hc; [|done]. by eapply took_trans.
Qed.

Lemma octets_take n index : takes (read_octets n index).
Proof.
  revert index. induction n as [|n IH]; intros index s v rest; cbn [read_octets].
  { intros [= _ <-]. apply took_refl. }
  destruct (read_separator _ _ _ _) as [[o s1]|] eqn:Ho; [|done]. cbn.
  apply separator_takes in Ho; [|done|by apply number_takes].
  destruct (read_octets n (S index) s1) as [[l s2]|] eqn:Hl; [|done]. cbn. intros [= _ <-].
  apply IH in Hl. by eapply took_trans.
Qed.

Lemma groups_take n index s l v4 rest : read_groups n index s = (l, v4, rest) -> took s rest.
Proof.
  revert index s l v4. induction n as [|n IH]; intros index s l v4; cbn [read_groups].
  { intros [= _ _ <-]. apply took_refl. }
  destruct (if (0 <? n)%nat then _ else _) as [[o s1]|] eqn:Ho.
  { destruct (0 <? n)%nat; [|done]. apply separator_takes in Ho; [|done|apply octets_take].
    by intros [= _ _ <-]. }
  destruct (read_separator ":"%char index (read_number 16 65535 (Some 4%nat) true) s) as [[g s1]|] eqn:Hg; [|intros [= _ _ <-]; apply took_refl].
  apply separator_takes in Hg; [|done|by apply number_takes].
  destruct (read_groups n (S index) s1) as [[l' b] s2] eqn:Hr. intros [= _ _ <-].
  apply IH in Hr. by eapply took_trans.
Qed.

Lemma ipv6_takes : takes read_ipv6_addr.
Proof.
  intros s v rest. unfold read_ipv6_addr. destruct (read_groups 8 0 s) as [[h v4] s1] eqn:Hh.
  apply groups_take in Hh. destruct (_ =? _)%nat; [by intros [= _ <-]|]. destruct v4; [done|].
  destruct (read_given_char ":"%char s1) as [[u s2]|] eqn:H2; [|done]. cbn.
  destruct (read_given_char ":"%char s2) as [[u' s3]|] eqn:H3; [|done]. cbn -[read_groups].
  apply given_char_takes in H2, H3; [|done..].
  destruct (read_groups _ 0 s3) as [[t b] s4] eqn:Ht. apply groups_take in Ht. intros [= _ <-].
  eauto using took_trans.
Qed.

Lemma port_takes : takes read_port.
Proof.
  intros s v rest. unfold read_port. destruct (read_given_char _ s) as [[u s1]|] eqn:H1; [|done]. cbn -[read_number].
  apply given_char_takes in H1; [|done]. intros H2. apply number_takes in H2; [|done]. by eapply took_trans.
Qed.

Lemma scope_takes : takes read_scope_id.
Proof.
  intros s v rest. unfold read_scope_id. destruct (read_given_char _ s) as [[u s1]|] eqn:H1; [|done]. cbn -[read_number].
  apply given_char_takes in H1; [|done]. intros H2. apply number_takes in H2; [|done]. by eapply took_trans.
Qed.

Lemma socket_v4_takes : takes read_socket_addr_v4.
Proof.
  intros s v rest. unfold read_socket_addr_v4. destruct (read_ipv4_addr s) as [[ip s1]|] eqn:H1; [|done]. cbn.
  destruct (read_port s1) as [[p s2]|] eqn:H2; [|done]. cbn. intros [= _ <-].
  apply octets_take in H1. apply port_takes in H2. by eapply took_trans.
Qed.

Lemma socket_v6_takes : takes read_socket_addr_v6.
Proof.
  intros s v rest. unfold read_socket_addr_v6. destruct (read_given_char _ s) as [[u s1]|] eqn:H1; [|done].
  cbn -[read_ipv6_addr read_port read_given_char].
  destruct (read_ipv6_addr s1) as [[ip s2]|] eqn:H2; [|done]. cbn -[read_port read_given_char].
  destruct (default (0, s2) (read_scope_id s2)) as [sc s3] eqn:H3.
  assert (took s2 s3).
  { destruct (read_scope_id s2) as [[x y]|] eqn:Hs; cbn in H3; injection H3 as _ <-;
      [by apply scope_takes in Hs|apply took_refl]. }
  destruct (read_given_char _ s3) as [[u' s4]|] eqn:H4; [|done]. cbn -[read_port].
  destruct (read_port s4) as [[p s5]|] eqn:H5; [|done]. cbn. intros [= _ <-].
  apply given_char_takes in H1, H4; [|done..]. apply ipv6_takes in H2. apply port_takes in H5.
  eauto 6 using took_trans.
Qed.

(** A string with any other character is not an address. *)
Lemma parse_socket_addr_chars s a : parse_socket_addr s = Some a -> all_chars addr_char s = true.
Proof.
  unfold parse_socket_addr.
  destruct (match read_socket_addr_v4 s with Some _ => _ | None => _ end) as [[x rest]|] eqn:Hr; [|done].
  assert (took s rest) as (p & -> & Hp).
  { destruct (read_socket_addr_v4 s) as [[y r]|] eqn:H4;
      [injection Hr as _ <-; by apply socket_v4_takes in H4|by apply socket_v6_takes in Hr]. }
  cbn. destruct rest; [|done]. intros _. by rewrite append_nil.
Qed.

(** ** Printed addresses are read back *)

Definition ends_number (rest : string) : Prop :=
  match rest with EmptyString => True | String c _ => digit_value 10 c = None end.

Lemma read_digits_printed n max acc k p rest v :
  digits 10 max acc p = Some v -> (String.length p <= n)%nat -> ends_number rest ->
  read_digits n 10 max acc k (p +:+ rest) = Some (v, (k + String.length p)%nat, rest).
Proof.
  intros Hd Hl Hr. revert n acc k Hd Hl. induction p as [|c p IH]; intros n acc k Hd Hl; simpl in *.
  - injection Hd as <-. rewrite Nat.add_0_r. destruct n; [done|]. destruct rest as [|c rest]; [done|].
    simpl. by rewrite Hr.
  - destruct n as [|n]; [lia|]. simpl. destruct (digit_value 10 c) as [d|]; [|done]. simpl in Hd.
    destruct (max <? _); [done|]. rewrite (IH n _ (S k)) by (done || lia). do 3 f_equal. lia.
Qed.

Lemma show_digits n max : 0 <= n <= max -> digits 10 max 0 (show_uint n) = Some n.
Proof.
  intros Hn. pose proof (parse_show_uint n max Hn) as Hp. destruct (show_uint_digits n) as [Hall Hne]; [lia|].
  unfold parse_uint, from_str_radix in Hp. destruct (show_uint n) as [|c r]; [done|].
  simpl in Hall. apply andb_true_iff in Hall as [Hc _].
  by destruct (Ascii.eqb_spec c "+"%char) as [->|].
Qed.

(** The octets print without leading zeros, in three digits at most. *)
Definition octet_text_ok (o : Z) : bool :=
  let t := show_uint o in
  (0 <? String.length t)%nat && (String.length t <=? 3)%nat
  && match t with String c _ => negb (Ascii.eqb c "0"%char) || (String.length t <=? 1)%nat | EmptyString => false end.

Lemma octet_text o : 0 <= o <= 255 -> octet_text_ok o = true.
Proof.
  intros Ho. assert (Hall : forallb octet_text_ok (seqZ 0 256) = true) by (vm_compute; reflexivity).
  rewrite forallb_forall in Hall. apply Hall, list_elem_of_In, elem_of_seqZ. lia.
Qed.

Lemma read_octet o rest :
  0 <= o <= 255 -> ends_number rest ->
  read_number 10 255 (Some 3%nat) false (show_uint o +:+ rest) = Some (o, rest).
Proof.
  intros Ho Hr. pose proof (octet_text o Ho) as Ht. unfold octet_text_ok in Ht.
  rewrite !andb_true_iff in Ht. destruct Ht as [[H0 H3] Hz]. apply Nat.ltb_lt in H0. apply Nat.leb_le in H3.
  unfold read_number. rewrite (read_digits_printed 4 255 0 0 _ _ o); [|by apply show_digits|lia|done].
  simpl (0 + _)%nat. destruct (show_uint o) as [|c t] eqn:Et; [simpl in H0; lia|].
  rewrite (proj2 (Nat.eqb_neq _ _)) by lia. rewrite (proj2 (Nat.ltb_ge _ _)) by lia. simpl orb.
  change (match String c t +:+ rest with EmptyString => false | String x _ => Ascii.eqb x "0"%char end)
    with (Ascii.eqb c "0"%char).
  destruct (Ascii.eqb c "0"%char); [|done]. apply Nat.leb_le in Hz.
  by rewrite (proj2 (Nat.ltb_ge 1 _)).
Qed.

Lemma read_octets_first n o rest :
  0 <= o <= 255 -> ends_number rest ->
  read_octets (S n) 0 (show_uint o +:+ rest)
  = ('(l, s) ← read_octets n 1 rest; Some (o :: l, s)).
Proof. intros Ho Hr. cbn [read_octets]. unfold read_separator. cbn [Nat.ltb Nat.leb]. by rewrite read_octet. Qed.

Lemma read_octets_next n i o rest :
  0 <= o <= 255 -> ends_number rest ->
  read_octets (S n) (S i) ("." +:+ show_uint o +:+ rest)
  = ('(l, s) ← read_octets n (S (S i)) rest; Some (o :: l, s)).
Proof.
  intros Ho Hr. cbn [read_octets]. unfold read_separator. cbn [Nat.ltb Nat.leb].
  change (read_given_char "."%char ("." +:+ show_uint o +:+ rest)) with (Some (tt, show_uint o +:+ rest)).
  cbn [mbind option_bind]. by rewrite read_octet.
Qed.

Lemma parse_show_v4 a b c d port :
  Forall (fun o => 0 <= o <= 255) [a; b; c; d] -> 0 <= port <= 65535 ->
  parse_socket_addr (show_socket_v4 [a; b; c; d] port) = Some (SocketV4 [a; b; c; d] port).
Proof.
  intros Hf Hp. repeat (apply Forall_cons in Hf as [? Hf]).
  assert (Hport : read_port (":" +:+ show_uint port) = Some (port, EmptyString)).
  { change (read_port (":" +:+ show_uint port)) with (read_number 10 65535 None true (show_uint port)).
    unfold read_number. destruct (show_uint_digits port) as [_ Hne]; [lia|].
    pose proof (read_digits_printed (String.length (show_uint port)) 65535 0 0 (show_uint port) EmptyString port
      (show_digits _ _ Hp) ltac:(lia) I) as Hd. rewrite append_nil in Hd. rewrite Hd.
    destruct (show_uint port) as [|x t]; [done|]. reflexivity. }
  unfold parse_socket_addr, show_socket_v4, read_socket_addr_v4, read_ipv4_addr.
  rewrite read_octets_first by done. rewrite !read_octets_next by done. cbn [read_octets mbind option_bind].
  by rewrite Hport.
Qed.
