(* ===== verification/Json.v ===== *)
(** JSON documents as serde_json's [Value], decoding as serde derives it, and
    the files of a node.

    The text of a document is left out: a file with a document holds its value,
    other files hold bytes that are no text. *)
From S2P Require Import Prelude Text.
Open Scope Z_scope.

(** ** Values *)

(** serde_json's [Value]; numbers are the integers the code uses. *)
Inductive Value :=
| VNull
| VBool (b : bool)
| VNumber (n : Z)
| VString (s : string)
| VArray (l : list Value)
| VObject (fields : gmap string Value).

(** [value[name]]: [Null] where there is no such field. *)
Definition index_value (v : Value) (name : string) : Value :=
  match v with VObject fields => default VNull (fields !! name) | _ => VNull end.

Definition as_str (v : Value) : option string := match v with VString s => Some s | _ => None end.
Definition as_bool (v : Value) : option bool := match v with VBool b => Some b | _ => None end.
Definition as_array (v : Value) : option (list Value) := match v with VArray l => Some l | _ => None end.
Definition as_object (v : Value) : option (gmap string Value) :=
  match v with VObject fields => Some fields | _ => None end.

(** The entries of an object in the order serde_json's map keeps them in, by
    name or as they were added, which its build decides. *)
Class JsonOrder := {
  object_entries : gmap string Value -> list (string * Value);
  object_entries_perm m : Permutation (object_entries m) (map_to_list m);
}.

(** ** Decoding

    The decoders serde derives; the texts of their errors are left out. *)
Abbreviation Decoder A := (Value -> option A) (only parsing).

Definition de_uint (max : Z) : Decoder Z := fun v =>
  match v with VNumber n => if (0 <=? n) && (n <=? max) then Some n else None | _ => None end.
Definition de_nonzero (max : Z) : Decoder Z := fun v =>
  n ← de_uint max v; if n =? 0 then None else Some n.
Definition de_string : Decoder string := as_str.
Definition de_bool : Decoder bool := as_bool.
Definition de_vec {A} (d : Decoder A) : Decoder (list A) := fun v => l ← as_array v; mapM d l.
Definition de_option {A} (d : Decoder A) : Decoder (option A) := fun v =>
  match v with VNull => Some None | _ => x ← d v; Some (Some x) end.

(** The fields of a struct: of an object by name, of an array by position. *)
Definition de_fields (names : list string) : Decoder (gmap string Value) := fun v =>
  match v with
  | VObject fields => Some fields
  | VArray l => if (length names <? length l)%nat then None else Some (list_to_map (zip names l))
  | _ => None
  end.

(** A field that has to be there, and one with a default. *)
Definition de_field {A} (d : Decoder A) (name : string) (fields : gmap string Value) : option A :=
  v ← fields !! name; d v.
Definition de_default {A} (x : A) (d : Decoder A) (name : string) (fields : gmap string Value) : option A :=
  match fields !! name with Some v => d v | None => Some x end.

(** ** Encoding *)

Definition object (fields : list (string * Value)) : Value := VObject (list_to_map fields).
Definition en_option {A} (e : A -> Value) (o : option A) : Value :=
  match o with Some x => e x | None => VNull end.

(** ** Files *)

(** Binary data, or a document in one of the two formats. *)
Inductive File := RawFile (data : bytes) | JsonFile (v : Value) | TomlFile (v : Value).

(** Paths to files; reading or writing a path in [fs_denied] fails. *)
Record Fs := mkFs {
  fs_files : gmap string File;
  fs_denied : gset string;
}.

Inductive IoError := NotFound | PermissionDenied | InvalidData | StorageFull.

Definition fs_read (fs : Fs) (path : string) : result File IoError :=
  if decide (path ∈ fs_denied fs) then Err PermissionDenied else ok_or (fs_files fs !! path) NotFound.

Definition fs_write (fs : Fs) (path : string) (f : File) : result Fs IoError :=
  if decide (path ∈ fs_denied fs) then Err PermissionDenied
  else Ok (mkFs (<[path := f]> (fs_files fs)) (fs_denied fs)).

Definition fs_exists (fs : Fs) (path : string) : bool := is_some (fs_files fs !! path).

(** The bytes of a document, as its serializer wrote them. *)
Class DocText := { doc_bytes : Value -> bytes }.

(** [fs::read], and [read_to_string] with [serde_json::from_str]. *)
Definition fs_read_raw `{DT : !DocText} (fs : Fs) (path : string) : result bytes IoError :=
  let? f := fs_read fs path in
  match f with RawFile data => Ok data | JsonFile v | TomlFile v => Ok (doc_bytes v) end.
Definition fs_read_json (fs : Fs) (path : string) : result Value IoError :=
  let? f := fs_read fs path in
  match f with JsonFile v => Ok v | _ => Err InvalidData end.

(** [Path::join] with a relative path. *)
Definition path_join (dir name : string) : string := dir +:+ "/" +:+ name.

(** ** Programs on files: they return a value or an error and leave the files
    as they were changed until then. *)
Definition FsIo (E A : Type) : Type := Fs -> result A E * Fs.
Definition io_ret {E A} (x : A) : FsIo E A := fun fs => (Ok x, fs).
Definition io_fail {E A} (e : E) : FsIo E A := fun fs => (Err e, fs).
Definition io_bind {E A B} (m : FsIo E A) (k : A -> FsIo E B) : FsIo E B := fun fs =>
  match m fs with (Ok x, fs) => k x fs | (Err e, fs) => (Err e, fs) end.
Definition io_lift {E A} (r : result A E) : FsIo E A := fun fs => (r, fs).
Definition io_read_err {E A} (err : IoError -> E) (f : Fs -> result A IoError) : FsIo E A := fun fs =>
  (map_err err (f fs), fs).
Definition io_write_err {E} (err : IoError -> E) (path : string) (f : File) : FsIo E unit := fun fs =>
  match fs_write fs path f with Ok fs => (Ok tt, fs) | Err e => (Err (err e), fs) end.

Notation "'let*' x ':=' m 'in' k" := (io_bind m (fun y => match y with x => k end))
  (at level 10, x pattern, m at level 100, k at level 200) : kora_scope.

(** The field of a list of fields. *)
Fixpoint assoc {A} (name : string) (l : list (string * A)) : option A :=
  match l with
  | [] => None
  | (k, x) :: l => if String.eqb k name then Some x else assoc name l
  end.

(** ** Lemmas *)

Lemma lookup_assoc {A} (l : list (string * A)) name : (list_to_map l : gmap string A) !! name = assoc name l.
Proof.
  induction l as [|[k x] l IH]; cbn; [apply lookup_empty|].
  destruct (String.eqb_spec k name) as [->|Hne]; [apply lookup_insert_eq|].
  by rewrite lookup_insert_ne.
Qed.

Lemma de_field_object {A} (d : Decoder A) name l :
  de_field d name (list_to_map l) = assoc name l ≫= d.
Proof. unfold de_field. by rewrite lookup_assoc. Qed.

Lemma de_default_object {A} (x : A) (d : Decoder A) name l :
  de_default x d name (list_to_map l) = match assoc name l with Some v => d v | None => Some x end.
Proof. unfold de_default. by rewrite lookup_assoc. Qed.

(** A field with a default that satisfies what its decoder guarantees. *)
Lemma de_default_inv {A} (P : A -> Prop) x (d : Decoder A) name fields y :
  de_default x d name fields = Some y -> P x -> (forall v z, d v = Some z -> P z) -> P y.
Proof. unfold de_default. destruct (fields !! name) as [v|]; [by eauto|]. by intros [= <-]. Qed.

Lemma de_uint_inv max v n : de_uint max v = Some n -> 0 <= n <= max.
Proof. destruct v; cbn; try done. destruct (_ && _) eqn:E; [|done]. intros [= <-]. lia. Qed.

Lemma de_nonzero_inv max v n : de_nonzero max v = Some n -> 0 < n <= max.
Proof.
  unfold de_nonzero. destruct (de_uint max v) as [m|] eqn:E; cbn; [|done].
  apply de_uint_inv in E. destruct (Z.eqb_spec m 0); [done|]. intros [= <-]. lia.
Qed.

Lemma de_vec_inv {A} (P : A -> Prop) (d : Decoder A) v l :
  de_vec d v = Some l -> (forall v x, d v = Some x -> P x) -> Forall P l.
Proof.
  unfold de_vec. destruct (as_array v) as [vs|]; cbn; [|done]. intros H Hd.
  apply mapM_Some in H. induction H; constructor; eauto.
Qed.

Lemma de_uint_ok max n : 0 <= n <= max -> de_uint max (VNumber n) = Some n.
Proof. intros Hn. cbn. by rewrite (proj2 (Z.leb_le 0 n)), (proj2 (Z.leb_le n max)) by lia. Qed.

Lemma de_nonzero_ok max n : 0 < n <= max -> de_nonzero max (VNumber n) = Some n.
Proof.
  intros Hn. unfold de_nonzero. rewrite de_uint_ok by lia. cbn. by rewrite (proj2 (Z.eqb_neq n 0)) by lia.
Qed.

Lemma de_vec_ok {A} (d : Decoder A) (e : A -> Value) l :
  Forall (fun x => d (e x) = Some x) l -> de_vec d (VArray (e <$> l)) = Some l.
Proof. intros Hl. cbn. induction Hl as [|x l Hx _ IH]; cbn; [done|]. by rewrite Hx, IH. Qed.

Lemma de_option_ok {A} (d : Decoder A) (e : A -> Value) o :
  (forall x, o = Some x -> d (e x) = Some x /\ e x <> VNull) -> de_option d (en_option e o) = Some o.
Proof.
  destruct o as [x|]; intros Ho; [|done]. destruct (Ho x eq_refl) as [Hd Hn]. cbn. unfold de_option.
  destruct (e x); [done|..]; by rewrite Hd.
Qed.

Lemma fs_write_read fs path f fs' :
  fs_write fs path f = Ok fs' -> fs_read fs' path = Ok f /\ fs_denied fs' = fs_denied fs
  /\ forall p, p <> path -> fs_files fs' !! p = fs_files fs !! p.
Proof.
  unfold fs_write, fs_read. destruct (decide _) as [|Hd]; [done|]. intros [= <-]. cbn.
  rewrite decide_False by done. rewrite lookup_insert_eq. split; [done|]. split; [done|].
  intros p Hp. by rewrite lookup_insert_ne.
Qed.

(** Documents without text. *)
#[export] Instance empty_text : DocText := {| doc_bytes := fun _ => [] |}.

(** The order by name. *)
#[export] Instance sorted_order : JsonOrder.
Proof.
  refine {| object_entries := fun m => sort_by (cmp_on fst String.compare) (map_to_list m) |}.
  intros m. apply sort_by_perm.
Defined.
