(* ===== verification/Config.v ===== *)
(** The configuration of a node (crates/node/config/src): its sections with
    their defaults, decoding and encoding, validation, loading from a file, the
    validator set and the validator's key file. *)
From Stdlib Require Import Ascii.
From S2P Require Import Prelude Text Hex Json Bytes TxTypes Codec Block Dkg.
Open Scope Z_scope.

Definition u32_max : Z := 4294967295.

(** [str::trim], of ASCII white space. *)
Definition is_space (c : ascii) : bool :=
  let n := Z.of_N (N_of_ascii c) in (n =? 32) || ((9 <=? n) && (n <=? 13)).
Fixpoint trim_start (s : string) : string :=
  match s with String c r => if is_space c then trim_start r else s | EmptyString => s end.
Fixpoint trim_end (s : string) : string :=
  match s with
  | EmptyString => EmptyString
  | String c r =>
      match trim_end r with
      | EmptyString => if is_space c then EmptyString else String c EmptyString
      | r => String c r
      end
  end.
Definition trim (s : string) : string := trim_end (trim_start s).

(** Hexadecimal text and addresses as alloy-primitives reads and writes them. *)
Class AlloyText := {
  alloy_hex_encode : bytes -> string;
  alloy_hex_decode : string -> option bytes;
  show_address_lower : Address -> string;
  parse_address : string -> option Address;
}.

(** What its documentation says of them. *)
Class AlloyTextLaws `{AlloyText} := {
  alloy_hex_chars b : bytes_ok b -> all_chars is_hex (alloy_hex_encode b) = true;
  alloy_hex_back b : bytes_ok b -> alloy_hex_decode (alloy_hex_encode b) = Some b;
  alloy_hex_bytes s b : alloy_hex_decode s = Some b -> bytes_ok b;
  address_back a : in_width 160 a -> parse_address (show_address_lower a) = Some a;
  address_width s a : parse_address s = Some a -> in_width 160 a;
  address_no_space a : all_chars (fun c => negb (is_space c)) (show_address_lower a) = true;
}.

(** The integers the TOML serializer writes. *)
Class TomlText := { toml_int : Z -> bool }.

(** The ed25519 private key of a 32-byte seed. *)
Class KeySeed `{LIB : DkgLib} := { key_of_seed : bytes -> PrivateKey }.

(** ** Errors (error.rs) *)

Inductive ConfigError :=
| ConfigRead (path : string) (source : IoError)
| TomlParse
| JsonParse
| TomlSerialize
| InvalidKeyLength (len : usize)
| ConfigWrite (path : string) (source : IoError)
| CreateDir (path : string) (source : IoError)
| InvalidParticipantKeyLength (len : usize)
| InvalidParticipantKey
| InvalidValue (msg : string).

(** ** Consensus (consensus.rs) *)

Definition DEFAULT_THRESHOLD : u32 := 2.
Definition DEFAULT_BLOCK_CODEC_MAX_TXS : usize := 10000.
Definition DEFAULT_BLOCK_CODEC_MAX_TX_BYTES : usize := 8 * 1024 * 1024.
Definition DEFAULT_SIMPLEX_REPLAY_BUFFER_BYTES : usize := 16 * 1024 * 1024.
Definition DEFAULT_SIMPLEX_WRITE_BUFFER_BYTES : usize := 16 * 1024 * 1024.
Definition DEFAULT_SIMPLEX_LEADER_TIMEOUT_SECS : u64 := 1.
Definition DEFAULT_SIMPLEX_CERTIFICATION_TIMEOUT_SECS : u64 := 2.
Definition DEFAULT_SIMPLEX_TIMEOUT_RETRY_SECS : u64 := 1.
Definition DEFAULT_SIMPLEX_FETCH_TIMEOUT_SECS : u64 := 5.
Definition DEFAULT_SIMPLEX_ACTIVITY_TIMEOUT_VIEWS : u64 := 20.
Definition DEFAULT_SIMPLEX_SKIP_TIMEOUT_VIEWS : u64 := 10.
Definition DEFAULT_SIMPLEX_FETCH_CONCURRENT : usize := 8.

Record ConsensusBlockCodecConfig := mkBlockCodec {
  bc_max_txs : usize;
  bc_max_tx_bytes : usize;
}.
Definition block_codec_default : ConsensusBlockCodecConfig :=
  mkBlockCodec DEFAULT_BLOCK_CODEC_MAX_TXS DEFAULT_BLOCK_CODEC_MAX_TX_BYTES.

Record ConsensusSimplexConfig := mkSimplex {
  sx_replay_buffer_bytes : usize;
  sx_write_buffer_bytes : usize;
  sx_leader_timeout_secs : u64;
  sx_certification_timeout_secs : u64;
  sx_timeout_retry_secs : u64;
  sx_fetch_timeout_secs : u64;
  sx_activity_timeout_views : u64;
  sx_skip_timeout_views : u64;
  sx_fetch_concurrent : usize;
}.
Definition simplex_default : ConsensusSimplexConfig :=
  mkSimplex DEFAULT_SIMPLEX_REPLAY_BUFFER_BYTES DEFAULT_SIMPLEX_WRITE_BUFFER_BYTES
    DEFAULT_SIMPLEX_LEADER_TIMEOUT_SECS DEFAULT_SIMPLEX_CERTIFICATION_TIMEOUT_SECS
    DEFAULT_SIMPLEX_TIMEOUT_RETRY_SECS DEFAULT_SIMPLEX_FETCH_TIMEOUT_SECS
    DEFAULT_SIMPLEX_ACTIVITY_TIMEOUT_VIEWS DEFAULT_SIMPLEX_SKIP_TIMEOUT_VIEWS
    DEFAULT_SIMPLEX_FETCH_CONCURRENT.

Record ConsensusConfig := mkConsensus {
  cc_validator_key : option string;
  cc_threshold : u32;
  cc_participants : list bytes;
  cc_block_codec : ConsensusBlockCodecConfig;
  cc_simplex : ConsensusSimplexConfig;
}.
Definition consensus_default : ConsensusConfig :=
  mkConsensus None DEFAULT_THRESHOLD [] block_codec_default simplex_default.

(** ** Network, execution and RPC (network.rs, execution.rs, rpc.rs) *)

Definition DEFAULT_LISTEN_ADDR : string := "0.0.0.0:30303".
Record NetworkConfig := mkNetwork {
  nw_listen_addr : string;
  nw_dialable_addr : option string;
  nw_bootstrap_peers : list string;
  nw_tx_gossip : bool;
}.
Definition network_default : NetworkConfig := mkNetwork DEFAULT_LISTEN_ADDR None [] false.

Definition DEFAULT_GAS_LIMIT : u64 := 250000000.
Record ExecutionConfig := mkExecution {
  xc_gas_limit : u64;
  xc_fee_recipient : option Address;
}.
Definition execution_default : ExecutionConfig := mkExecution DEFAULT_GAS_LIMIT None.

Definition DEFAULT_HTTP_ADDR : string := "0.0.0.0:8545".
Definition DEFAULT_WS_ADDR : string := "0.0.0.0:8546".
Record RpcConfig := mkRpcConfig { rc_http_addr : string; rc_ws_addr : string }.
Definition rpc_default : RpcConfig := mkRpcConfig DEFAULT_HTTP_ADDR DEFAULT_WS_ADDR.

(** ** The node (node.rs) *)

Definition DEFAULT_CHAIN_ID : u64 := 1.
Definition DEFAULT_DATA_DIR : string := "/var/lib/kora".
Definition DEFAULT_WORKER_THREADS_CAP : usize := 8.

Record NodeConfig := mkNode {
  nc_chain_id : u64;
  nc_data_dir : string;
  nc_worker_threads : usize;
  nc_consensus : ConsensusConfig;
  nc_network : NetworkConfig;
  nc_execution : ExecutionConfig;
  nc_rpc : RpcConfig;
}.

(** [available]: the parallelism the system reports, at least one. *)
Definition default_worker_threads (available : option usize) : usize :=
  match available with Some n => Z.min n DEFAULT_WORKER_THREADS_CAP | None => 4 end.

Definition node_default (available : option usize) : NodeConfig :=
  mkNode DEFAULT_CHAIN_ID DEFAULT_DATA_DIR (default_worker_threads available)
    consensus_default network_default execution_default rpc_default.

Definition config_validate (c : NodeConfig) : result unit ConfigError :=
  if nc_worker_threads c =? 0 then Err (InvalidValue "worker_threads must be >= 1") else Ok tt.

(** [Path::extension] and [Path::parent]. *)
Fixpoint drop_slashes (s : string) : string :=
  match s with
  | EmptyString => EmptyString
  | String c r =>
      match drop_slashes r with
      | EmptyString => if Ascii.eqb c "/"%char then EmptyString else String c EmptyString
      | r => String c r
      end
  end.
Definition file_name (path : string) : string :=
  let path := drop_slashes path in
  match rsplit_once "/"%char path with Some (_, name) => name | None => path end.
Definition extension (path : string) : option string :=
  '(stem, ext) ← rsplit_once "."%char (file_name path);
  match stem with EmptyString => None | _ => Some ext end.
Definition parent_dir (path : string) : option string := fst <$> rsplit_once "/"%char (drop_slashes path).

Section config.
Context `{AT : !AlloyText} `{LIB : !DkgLib} `{KS : !KeySeed} `{DT : !DocText} `{TT : !TomlText}.

(** *** Validator set *)

Definition participant_key (b : bytes) : result PublicKey ConfigError :=
  if negb (len b =? 32) then Err (InvalidParticipantKeyLength (len b))
  else match read_pk b with Ok (pk, _) => Ok pk | Err _ => Err InvalidParticipantKey end.

Fixpoint participant_keys_of (l : list bytes) : result (list PublicKey) ConfigError :=
  match l with
  | [] => Ok []
  | b :: l => let? pk := participant_key b in let? pks := participant_keys_of l in Ok (pk :: pks)
  end.
Definition build_validator_set (c : ConsensusConfig) : result (list PublicKey) ConfigError :=
  participant_keys_of (cc_participants c).

(** *** Decoding *)

Definition de_block_codec : Decoder ConsensusBlockCodecConfig := fun v =>
  f ← de_fields ["max_txs"; "max_tx_bytes"] v;
  a ← de_default DEFAULT_BLOCK_CODEC_MAX_TXS (de_nonzero u64_max) "max_txs" f;
  b ← de_default DEFAULT_BLOCK_CODEC_MAX_TX_BYTES (de_nonzero u64_max) "max_tx_bytes" f;
  Some (mkBlockCodec a b).

Definition simplex_fields : list string :=
  ["replay_buffer_bytes"; "write_buffer_bytes"; "leader_timeout_secs"; "certification_timeout_secs";
   "timeout_retry_secs"; "fetch_timeout_secs"; "activity_timeout_views"; "skip_timeout_views";
   "fetch_concurrent"].
Definition de_simplex : Decoder ConsensusSimplexConfig := fun v =>
  f ← de_fields simplex_fields v;
  a ← de_default DEFAULT_SIMPLEX_REPLAY_BUFFER_BYTES (de_nonzero u64_max) "replay_buffer_bytes" f;
  b ← de_default DEFAULT_SIMPLEX_WRITE_BUFFER_BYTES (de_nonzero u64_max) "write_buffer_bytes" f;
  c ← de_default DEFAULT_SIMPLEX_LEADER_TIMEOUT_SECS (de_nonzero u64_max) "leader_timeout_secs" f;
  d ← de_default DEFAULT_SIMPLEX_CERTIFICATION_TIMEOUT_SECS (de_nonzero u64_max) "certification_timeout_secs" f;
  e ← de_default DEFAULT_SIMPLEX_TIMEOUT_RETRY_SECS (de_nonzero u64_max) "timeout_retry_secs" f;
  g ← de_default DEFAULT_SIMPLEX_FETCH_TIMEOUT_SECS (de_nonzero u64_max) "fetch_timeout_secs" f;
  h ← de_default DEFAULT_SIMPLEX_ACTIVITY_TIMEOUT_VIEWS (de_nonzero u64_max) "activity_timeout_views" f;
  i ← de_default DEFAULT_SIMPLEX_SKIP_TIMEOUT_VIEWS (de_nonzero u64_max) "skip_timeout_views" f;
  j ← de_default DEFAULT_SIMPLEX_FETCH_CONCURRENT (de_nonzero u64_max) "fetch_concurrent" f;
  Some (mkSimplex a b c d e g h i j).

(** [deserialize_participants]. *)
Definition de_participant (v : Value) : option bytes :=
  s ← de_string v; alloy_hex_decode (default s (strip_prefix "0x" s)).
Definition deserialize_participants : Decoder (list bytes) := de_vec de_participant.

Definition de_consensus : Decoder ConsensusConfig := fun v =>
  f ← de_fields ["validator_key"; "threshold"; "participants"; "block_codec"; "simplex"] v;
  k ← de_default None (de_option de_string) "validator_key" f;
  t ← de_default DEFAULT_THRESHOLD (de_uint u32_max) "threshold" f;
  p ← de_default [] deserialize_participants "participants" f;
  b ← de_default block_codec_default de_block_codec "block_codec" f;
  s ← de_default simplex_default de_simplex "simplex" f;
  Some (mkConsensus k t p b s).

Definition de_network : Decoder NetworkConfig := fun v =>
  f ← de_fields ["listen_addr"; "dialable_addr"; "bootstrap_peers"; "tx_gossip"] v;
  a ← de_default DEFAULT_LISTEN_ADDR de_string "listen_addr" f;
  d ← de_default None (de_option de_string) "dialable_addr" f;
  b ← de_default [] (de_vec de_string) "bootstrap_peers" f;
  g ← de_default false de_bool "tx_gossip" f;
  Some (mkNetwork a d b g).

(** [deserialize_optional_address]. *)
Definition deserialize_optional_address : Decoder (option Address) := fun v =>
  o ← de_option de_string v;
  match o with
  | None => Some None
  | Some s => a ← parse_address (trim s); Some (Some a)
  end.

Definition de_execution : Decoder ExecutionConfig := fun v =>
  f ← de_fields ["gas_limit"; "fee_recipient"] v;
  g ← de_default DEFAULT_GAS_LIMIT (de_uint u64_max) "gas_limit" f;
  r ← de_default None deserialize_optional_address "fee_recipient" f;
  Some (mkExecution g r).

Definition de_rpc : Decoder RpcConfig := fun v =>
  f ← de_fields ["http_addr"; "ws_addr"] v;
  h ← de_default DEFAULT_HTTP_ADDR de_string "http_addr" f;
  w ← de_default DEFAULT_WS_ADDR de_string "ws_addr" f;
  Some (mkRpcConfig h w).

Definition de_node (available : option usize) : Decoder NodeConfig := fun v =>
  f ← de_fields ["chain_id"; "data_dir"; "worker_threads"; "consensus"; "network"; "execution"; "rpc"] v;
  i ← de_default DEFAULT_CHAIN_ID (de_uint u64_max) "chain_id" f;
  d ← de_default DEFAULT_DATA_DIR de_string "data_dir" f;
  w ← de_default (default_worker_threads available) (de_uint u64_max) "worker_threads" f;
  c ← de_default consensus_default de_consensus "consensus" f;
  n ← de_default network_default de_network "network" f;
  e ← de_default execution_default de_execution "execution" f;
  r ← de_default rpc_default de_rpc "rpc" f;
  Some (mkNode i d w c n e r).
(** *** Encoding

    A field that is [None] is [null] in JSON and left out in TOML. *)
Inductive Format := Json | Toml.

Definition en_none (fmt : Format) (name : string) (o : option Value) : list (string * Value) :=
  match o, fmt with
  | Some v, _ => [(name, v)]
  | None, Json => [(name, VNull)]
  | None, Toml => []
  end.
(** [skip_serializing_if = "Option::is_none"]. *)
Definition en_skip (name : string) (o : option Value) : list (string * Value) :=
  match o with Some v => [(name, v)] | None => [] end.

Definition en_block_codec (c : ConsensusBlockCodecConfig) : Value :=
  object [("max_txs", VNumber (bc_max_txs c)); ("max_tx_bytes", VNumber (bc_max_tx_bytes c))].

Definition simplex_values (c : ConsensusSimplexConfig) : list Z :=
  [sx_replay_buffer_bytes c; sx_write_buffer_bytes c; sx_leader_timeout_secs c;
   sx_certification_timeout_secs c; sx_timeout_retry_secs c; sx_fetch_timeout_secs c;
   sx_activity_timeout_views c; sx_skip_timeout_views c; sx_fetch_concurrent c].
Definition en_simplex (c : ConsensusSimplexConfig) : Value :=
  object (zip simplex_fields (VNumber <$> simplex_values c)).

Definition serialize_participants (l : list bytes) : Value :=
  VArray ((fun p => VString (alloy_hex_encode p)) <$> l).

Definition en_consensus (fmt : Format) (c : ConsensusConfig) : Value :=
  object (en_none fmt "validator_key" (VString <$> cc_validator_key c) ++
    [("threshold", VNumber (cc_threshold c));
     ("participants", serialize_participants (cc_participants c));
     ("block_codec", en_block_codec (cc_block_codec c));
     ("simplex", en_simplex (cc_simplex c))]).

Definition en_network (c : NetworkConfig) : Value :=
  object (("listen_addr", VString (nw_listen_addr c)) ::
    en_skip "dialable_addr" (VString <$> nw_dialable_addr c) ++
    [("bootstrap_peers", VArray (VString <$> nw_bootstrap_peers c));
     ("tx_gossip", VBool (nw_tx_gossip c))]).

(** [serialize_optional_address], reached for an address only. *)
Definition en_execution (c : ExecutionConfig) : Value :=
  object (("gas_limit", VNumber (xc_gas_limit c)) ::
    en_skip "fee_recipient" (VString ∘ show_address_lower <$> xc_fee_recipient c)).

Definition en_rpc (c : RpcConfig) : Value :=
  object [("http_addr", VString (rc_http_addr c)); ("ws_addr", VString (rc_ws_addr c))].

Definition en_node (fmt : Format) (c : NodeConfig) : Value :=
  object [("chain_id", VNumber (nc_chain_id c)); ("data_dir", VString (nc_data_dir c));
    ("worker_threads", VNumber (nc_worker_threads c)); ("consensus", en_consensus fmt (nc_consensus c));
    ("network", en_network (nc_network c)); ("execution", en_execution (nc_execution c));
    ("rpc", en_rpc (nc_rpc c))].

Definition node_integers (c : NodeConfig) : list Z :=
  let s := nc_consensus c in
  [nc_chain_id c; nc_worker_threads c; cc_threshold s; bc_max_txs (cc_block_codec s);
   bc_max_tx_bytes (cc_block_codec s); xc_gas_limit (nc_execution c)] ++ simplex_values (cc_simplex s).

Definition to_json (c : NodeConfig) : result File ConfigError := Ok (JsonFile (en_node Json c)).
Definition to_toml (c : NodeConfig) : result File ConfigError :=
  if forallb toml_int (node_integers c) then Ok (TomlFile (en_node Toml c)) else Err TomlSerialize.

(** *** Loading *)

Definition from_toml (available : option usize) (f : File) : result NodeConfig ConfigError :=
  match f with TomlFile v => ok_or (de_node available v) TomlParse | _ => Err TomlParse end.
Definition from_json (available : option usize) (f : File) : result NodeConfig ConfigError :=
  match f with JsonFile v => ok_or (de_node available v) JsonParse | _ => Err JsonParse end.

(** [read_to_string]. *)
Definition fs_read_text (fs : Fs) (path : string) : result File IoError :=
  let? f := fs_read fs path in
  match f with RawFile _ => Err InvalidData | f => Ok f end.
Definition from_toml_file available (fs : Fs) (path : string) : result NodeConfig ConfigError :=
  let? f := map_err (ConfigRead path) (fs_read_text fs path) in from_toml available f.
Definition from_json_file available (fs : Fs) (path : string) : result NodeConfig ConfigError :=
  let? f := map_err (ConfigRead path) (fs_read_text fs path) in from_json available f.

Definition config_load (available : option usize) (fs : Fs) (path : option string)
    : result NodeConfig ConfigError :=
  let? config :=
    match path with
    | None => Ok (node_default available)
    | Some p =>
        if String.eqb (default "toml" (extension p)) "json" then from_json_file available fs p
        else from_toml_file available fs p
    end in
  let? _ := config_validate config in
  Ok config.

(** *** The validator's key

    [seed]: the 32 bytes of the random generator, used where a key is made;
    [cut]: the number of bytes that are written when writing them fails. *)
Definition key_path (c : NodeConfig) : string :=
  default (path_join (nc_data_dir c) "validator.key") (cc_validator_key (nc_consensus c)).

Definition create_dir_all (fs : Fs) (dir : string) : result unit IoError :=
  if decide (dir ∈ fs_denied fs) then Err PermissionDenied else Ok tt.

(** [write_all] to the file that was just created or truncated. *)
Definition write_all (cut : option nat) (fs : Fs) (path : string) (data : bytes)
    : result unit IoError * Fs :=
  let written := match cut with Some n => take n data | None => data end in
  let fs := mkFs (<[path := RawFile written]> (fs_files fs)) (fs_denied fs) in
  (match cut with Some _ => Err StorageFull | None => Ok tt end, fs).

Definition validator_key (c : NodeConfig) (seed : bytes) (cut : option nat) (fs : Fs)
    : result PrivateKey ConfigError * Fs :=
  let path := key_path c in
  match fs_read_raw fs path with
  | Ok key_bytes =>
      (if negb (len key_bytes =? 32) then Err (InvalidKeyLength (len key_bytes))
       else Ok (key_of_seed key_bytes), fs)
  | Err NotFound =>
      match match parent_dir path with
            | Some parent => map_err (CreateDir parent) (create_dir_all fs parent)
            | None => Ok tt
            end with
      | Err e => (Err e, fs)
      | Ok _ =>
          match fs_write fs path (RawFile []) with
          | Err e => (Err (ConfigWrite path e), fs)
          | Ok fs =>
              match write_all cut fs path seed with
              | (Err e, fs) => (Err (ConfigWrite path e), fs)
              | (Ok _, fs) => (Ok (key_of_seed seed), fs)
              end
          end
      end
  | Err e => (Err (ConfigRead path e), fs)
  end.

Definition validator_public_key (c : NodeConfig) (seed : bytes) (cut : option nat) (fs : Fs)
    : result PublicKey ConfigError * Fs :=
  let '(r, fs) := validator_key c seed cut fs in
  (let? k := r in Ok (public_key k), fs).
End config.

(** ** Well-formed configurations *)

Definition nonzero_u64 (x : Z) : Prop := 0 < x <= u64_max.

Record block_codec_wf (c : ConsensusBlockCodecConfig) : Prop := {
  wf_max_txs : nonzero_u64 (bc_max_txs c);
  wf_max_tx_bytes : nonzero_u64 (bc_max_tx_bytes c);
}.
Definition simplex_wf (c : ConsensusSimplexConfig) : Prop := Forall nonzero_u64 (simplex_values c).
Record consensus_wf (c : ConsensusConfig) : Prop := {
  wf_threshold : 0 <= cc_threshold c <= u32_max;
  wf_participants : Forall bytes_ok (cc_participants c);
  wf_block_codec : block_codec_wf (cc_block_codec c);
  wf_simplex : simplex_wf (cc_simplex c);
}.
Record execution_wf (c : ExecutionConfig) : Prop := {
  wf_gas_limit : 0 <= xc_gas_limit c <= u64_max;
  wf_fee_recipient a : xc_fee_recipient c = Some a -> in_width 160 a;
}.
Record node_wf (c : NodeConfig) : Prop := {
  wf_chain_id : 0 <= nc_chain_id c <= u64_max;
  wf_worker_threads : 0 <= nc_worker_threads c <= u64_max;
  wf_consensus : consensus_wf (nc_consensus c);
  wf_execution : execution_wf (nc_execution c);
}.

(** ** Lemmas *)

Lemma trim_id s : all_chars (fun c => negb (is_space c)) s = true -> trim s = s.
Proof.
  intros H. unfold trim. assert (trim_end s = s) as E.
  { induction s as [|c s IH]; [done|]. cbn in H |- *. apply andb_true_iff in H as [Hc Hs].
    rewrite IH by done. destruct s; [|done]. by destruct (is_space c). }
  destruct s as [|c s]; [done|]. cbn in H. apply andb_true_iff in H as [Hc _].
  cbn [trim_start]. by destruct (is_space c).
Qed.

Lemma block_codec_default_wf : block_codec_wf block_codec_default.
Proof. by split. Qed.
Lemma simplex_default_wf : simplex_wf simplex_default.
Proof. by repeat constructor. Qed.
Lemma consensus_default_wf : consensus_wf consensus_default.
Proof. split; [done|done|apply block_codec_default_wf|apply simplex_default_wf]. Qed.
Lemma execution_default_wf : execution_wf execution_default.
Proof. by split. Qed.

(** One step of a decoder: a field of known value, or a field that was read. *)
Ltac de_step :=
  rewrite de_default_object; cbn [assoc String.eqb Ascii.eqb Bool.eqb app zip zip_with fmap list_fmap].
Ltac de_inv :=
  repeat match goal with
  | H : context [mbind _ (?x : option _)] |- _ => let E := fresh "E" in destruct x eqn:E; cbn in H; [|done]
  end.

Section config_laws.
Context `{AT : !AlloyText} `{ATL : !AlloyTextLaws} `{LIB : !DkgLib} `{KS : !KeySeed} `{DT : !DocText} `{TT : !TomlText}.
#[local] Set Default Proof Using "Type*".

Lemma block_codec_back c : block_codec_wf c -> de_block_codec (en_block_codec c) = Some c.
Proof.
  intros [H1 H2]. unfold de_block_codec, en_block_codec. cbn [de_fields object mbind option_bind].
  de_step. rewrite de_nonzero_ok by done. cbn [mbind option_bind].
  de_step. rewrite de_nonzero_ok by done. cbn. by destruct c.
Qed.

Lemma simplex_back c : simplex_wf c -> de_simplex (en_simplex c) = Some c.
Proof.
  unfold simplex_wf, de_simplex, en_simplex. destruct c as [a b c d e f g h i].
  cbn [simplex_values]. intros H. cbn -[list_to_map de_default de_nonzero]. repeat (apply Forall_cons in H as [? H]).
  repeat (de_step; rewrite de_nonzero_ok by done; cbn [mbind option_bind]). done.
Qed.
Lemma participants_back l : Forall bytes_ok l -> deserialize_participants (serialize_participants l) = Some l.
Proof.
  intros H. apply (de_vec_ok _ (fun p => VString (alloy_hex_encode p))). eapply Forall_impl; [done|].
  intros b Hb. unfold de_participant. cbn -[strip_prefix]. rewrite hex_chars_plain by (by apply alloy_hex_chars). by apply alloy_hex_back.
Qed.

Lemma consensus_back fmt c : consensus_wf c -> de_consensus (en_consensus fmt c) = Some c.
Proof.
  intros [Ht Hp Hb Hs]. destruct c as [k t p b s]. cbn in Ht, Hp, Hb, Hs.
  unfold de_consensus, en_consensus. cbn [de_fields object mbind option_bind].
  destruct k as [k|], fmt; cbn [en_none fmap option_fmap option_map cc_validator_key];
    repeat (de_step; rewrite ?de_uint_ok, ?participants_back, ?block_codec_back, ?simplex_back by done;
      cbn [mbind option_bind de_option de_string as_str]); done.
Qed.

Lemma strings_back l : de_vec de_string (VArray (VString <$> l)) = Some l.
Proof. apply de_vec_ok. by apply Forall_true. Qed.

Lemma network_back c : de_network (en_network c) = Some c.
Proof.
  destruct c as [a d b g]. unfold de_network, en_network. cbn [de_fields object mbind option_bind].
  destruct d as [d|]; cbn [en_skip fmap option_fmap option_map nw_dialable_addr];
    repeat (de_step; cbn [mbind option_bind de_option de_string as_str de_bool as_bool
      nw_listen_addr nw_bootstrap_peers nw_tx_gossip]; rewrite ?strings_back); done.
Qed.

Lemma execution_back c : execution_wf c -> de_execution (en_execution c) = Some c.
Proof.
  destruct c as [g r]. intros [Hg Hr]. cbn in Hg, Hr. unfold de_execution, en_execution.
  cbn [de_fields object mbind option_bind].
  destruct r as [r|]; cbn [en_skip fmap option_fmap option_map xc_fee_recipient xc_gas_limit];
    repeat de_step; rewrite de_uint_ok by done; cbn [mbind option_bind]; [|done].
  unfold deserialize_optional_address. cbn. rewrite trim_id by apply address_no_space.
  by rewrite address_back by auto.
Qed.

Lemma rpc_back c : de_rpc (en_rpc c) = Some c.
Proof. destruct c. unfold de_rpc, en_rpc. cbn [de_fields object mbind option_bind]. by repeat (de_step; cbn). Qed.

Lemma node_back available fmt c : node_wf c -> de_node available (en_node fmt c) = Some c.
Proof.
  destruct c as [i d w c n e r]. intros [Hi Hw Hc He]. cbn in Hi, Hw, Hc, He. unfold de_node, en_node.
  cbn [de_fields object mbind option_bind].
  repeat (de_step; cbn [nc_chain_id nc_data_dir nc_worker_threads nc_consensus nc_network nc_execution nc_rpc];
    rewrite ?de_uint_ok, ?consensus_back, ?network_back, ?execution_back, ?rpc_back by done;
    cbn [mbind option_bind de_string as_str]). done.
Qed.

(** What is decoded is well-formed. *)
Lemma nonzero_default x name fields y :
  de_default x (de_nonzero u64_max) name fields = Some y -> nonzero_u64 x -> nonzero_u64 y.
Proof. intros H Hx. eapply de_default_inv; [done|done|apply de_nonzero_inv]. Qed.

Lemma de_block_codec_wf v c : de_block_codec v = Some c -> block_codec_wf c.
Proof. unfold de_block_codec. intros H. de_inv. simplify_eq. by split; eapply nonzero_default. Qed.

Lemma de_simplex_wf v c : de_simplex v = Some c -> simplex_wf c.
Proof.
  unfold de_simplex. intros H. de_inv. simplify_eq. unfold simplex_wf. cbn.
  repeat apply Forall_cons_2; [by eapply nonzero_default..|apply Forall_nil_2].
Qed.

Lemma de_participant_ok v b : de_participant v = Some b -> bytes_ok b.
Proof. unfold de_participant. intros H. de_inv. by eapply alloy_hex_bytes. Qed.

Lemma de_consensus_wf v c : de_consensus v = Some c -> consensus_wf c.
Proof.
  unfold de_consensus. intros H. de_inv. simplify_eq. split; cbn.
  - eapply (de_default_inv (fun n => 0 <= n <= u32_max)); [done|done|apply de_uint_inv].
  - eapply de_default_inv; [done|by apply Forall_nil_2|].
    intros w ps Hps. by eapply de_vec_inv; [|apply de_participant_ok].
  - eapply de_default_inv; [done|apply block_codec_default_wf|apply de_block_codec_wf].
  - eapply de_default_inv; [done|apply simplex_default_wf|apply de_simplex_wf].
Qed.

Lemma de_address_width v o a : deserialize_optional_address v = Some o -> o = Some a -> in_width 160 a.
Proof.
  unfold deserialize_optional_address. destruct (de_option _ v) as [[s|]|]; cbn; try done; [|by intros [= <-]].
  destruct (parse_address _) as [b|] eqn:E; cbn; [|done]. intros [= <-] [= <-]. by eapply address_width.
Qed.

Lemma de_execution_wf v c : de_execution v = Some c -> execution_wf c.
Proof.
  unfold de_execution. intros H. de_inv. simplify_eq. split; cbn.
  - eapply (de_default_inv (fun n => 0 <= n <= u64_max)); [done|done|apply de_uint_inv].
  - eapply (de_default_inv (fun o => forall a, o = Some a -> in_width 160 a)); [done|done|].
    eauto using de_address_width.
Qed.

(** The parallelism the system reports. *)
Definition available_ok (available : option usize) : Prop :=
  forall n, available = Some n -> 1 <= n <= u64_max.

Lemma default_worker_threads_ok available :
  available_ok available -> 1 <= default_worker_threads available <= DEFAULT_WORKER_THREADS_CAP.
Proof.
  unfold default_worker_threads, DEFAULT_WORKER_THREADS_CAP. destruct available as [n|]; [|lia].
  intros H. specialize (H n eq_refl). lia.
Qed.

Lemma node_default_wf available : available_ok available -> node_wf (node_default available).
Proof.
  intros H%default_worker_threads_ok. split; [done| |apply consensus_default_wf|apply execution_default_wf].
  cbn. unfold DEFAULT_WORKER_THREADS_CAP, u64_max in *. lia.
Qed.

Lemma de_node_wf available v c : available_ok available -> de_node available v = Some c -> node_wf c.
Proof.
  intros Hw%default_worker_threads_ok. unfold de_node. intros H. de_inv. simplify_eq. split; cbn.
  - eapply (de_default_inv (fun n => 0 <= n <= u64_max)); [done|done|apply de_uint_inv].
  - eapply (de_default_inv (fun n => 0 <= n <= u64_max)); [done| |apply de_uint_inv].
    unfold DEFAULT_WORKER_THREADS_CAP, u64_max in *. lia.
  - eapply de_default_inv; [done|apply consensus_default_wf|apply de_consensus_wf].
  - eapply de_default_inv; [done|apply execution_default_wf|apply de_execution_wf].
Qed.

Lemma config_load_wf available fs path c :
  available_ok available -> config_load available fs path = Ok c -> node_wf c /\ 1 <= nc_worker_threads c.
Proof.
  intros Ha. unfold config_load. destruct (match path with None => _ | _ => _ end) as [d|] eqn:E; cbn; [|done].
  assert (node_wf d) as Hd.
  { destruct path as [p|]; [|simplify_eq; by apply node_default_wf].
    unfold from_json_file, from_toml_file in E. destruct (fs_read_text fs p) as [f|]; cbn in E; [|by case_match].
    unfold from_json, from_toml in E.
    case_match; destruct f; try done; destruct (de_node available v) eqn:Hv; cbn in E; try done;
      simplify_eq; by eapply de_node_wf. }
  unfold config_validate. destruct (Z.eqb_spec (nc_worker_threads d) 0); [done|]. intros [= <-].
  split; [done|]. destruct Hd. lia.
Qed.

Lemma config_load_saved available fs fs' path c f :
  node_wf c -> 1 <= nc_worker_threads c -> fs_write fs path f = Ok fs' ->
  (to_json c = Ok f /\ extension path = Some "json" \/ to_toml c = Ok f /\ extension path <> Some "json") ->
  config_load available fs' (Some path) = Ok c.
Proof.
  intros Hwf Hw Hf Hx.
  assert (config_validate c = Ok tt) as Hv by (unfold config_validate; by rewrite (proj2 (Z.eqb_neq _ 0)) by lia).
  apply fs_write_read in Hf as (Hf & _ & _).
  unfold config_load. destruct (String.eqb_spec (default "toml" (extension path)) "json") as [He|He].
  - destruct Hx as [[[= <-] _]|[_ Hx]]; [|destruct (extension path); cbn in He; congruence].
    unfold from_json_file, fs_read_text. rewrite Hf.
    cbn -[de_node en_node config_validate]. rewrite node_back by done. cbn -[config_validate]. by rewrite Hv.
  - destruct Hx as [[_ Hx]|[Hx _]]; [by rewrite Hx in He|].
    unfold to_toml in Hx. destruct (forallb _ _); [|done]. injection Hx as <-.
    unfold from_toml_file, fs_read_text. rewrite Hf.
    cbn -[de_node en_node config_validate]. rewrite node_back by done. cbn -[config_validate]. by rewrite Hv.
Qed.

(** C33: a configuration that loads, from the defaults, JSON or TOML, has at
    least one worker thread and every number in the range of its type, and
    writing it to a file, as JSON under a name that ends in .json or as TOML
    under another, and loading that file gives it back. *)
Theorem config_saves_and_loads available available' fs path c :
  available_ok available -> config_load available fs path = Ok c ->
  node_wf c /\ 1 <= nc_worker_threads c /\
  forall fs1 fs2 path' f, fs_write fs1 path' f = Ok fs2 ->
    (to_json c = Ok f /\ extension path' = Some "json" \/ to_toml c = Ok f /\ extension path' <> Some "json") ->
    config_load available' fs2 (Some path') = Ok c.
Proof.
  intros Ha H. destruct (config_load_wf _ _ _ _ Ha H) as [Hwf Hw]. split; [done|]. split; [done|].
  intros. by eapply config_load_saved.
Qed.

(** C34: the validator's key is made once: what a call returns is what every
    later call returns, whatever the random generator gives; a key that is there
    is not written over, and no other file changes.  A call that fails changes no
    file, with one exception: when the file is created and writing the 32 bytes
    fails, the file stays with the bytes written so far, and every later call
    refuses it for its length. *)
Theorem validator_key_stable c seed cut fs :
  len seed = 32 -> (forall n, cut = Some n -> (n < 32)%nat) ->
  match validator_key c seed cut fs with
  | (Ok k, fs') =>
      (forall seed' cut', validator_key c seed' cut' fs' = (Ok k, fs'))
      /\ (fs_exists fs (key_path c) = true -> fs' = fs)
      /\ forall p, p <> key_path c -> fs_files fs' !! p = fs_files fs !! p
  | (Err _, fs') =>
      fs' = fs
      \/ exists n, cut = Some n /\ fs_exists fs (key_path c) = false
         /\ fs_files fs' = <[key_path c := RawFile (take n seed)]> (fs_files fs)
         /\ forall seed' cut', validator_key c seed' cut' fs'
              = (Err (InvalidKeyLength (Z.of_nat n)), fs')
  end.
Proof.
  intros Hl Hcut. unfold validator_key.
  destruct (fs_read_raw fs (key_path c)) as [b|[| | |]] eqn:E; [|..|by left|by left|by left].
  - destruct (Z.eqb_spec (len b) 32) as [Hb|Hb]; cbn; [|by left].
    split; [|done]. intros seed' cut'. rewrite E. by rewrite (proj2 (Z.eqb_eq _ _) Hb).
  - destruct (match parent_dir _ with None => _ | _ => _ end); [|by left].
    destruct (fs_write fs (key_path c) (RawFile [])) as [fs'|] eqn:Ew; [|by left].
    assert (fs_exists fs (key_path c) = false /\ key_path c ∉ fs_denied fs) as [Hex Hd].
    { unfold fs_exists. unfold fs_read_raw, fs_read in E. destruct (decide _); [done|].
      by destruct (fs_files fs !! key_path c) as [[]|]; cbn in E |- *. }
    unfold fs_write in Ew. rewrite decide_False in Ew by done. injection Ew as <-.
    assert (forall data, fs_read_raw (mkFs (<[key_path c := RawFile data]> (fs_files fs)) (fs_denied fs))
      (key_path c) = Ok data) as Hr.
    { intros data. unfold fs_read_raw, fs_read. cbn. by rewrite decide_False, lookup_insert_eq. }
    unfold write_all. cbn [fs_files fs_denied]. rewrite insert_insert_eq. destruct cut as [n|].
    + right. exists n. split_and!; [done|done|done|]. intros seed' cut'. rewrite Hr.
      assert (len (take n seed) = Z.of_nat n) as Hlen
        by (specialize (Hcut n eq_refl); unfold len in *; rewrite length_take; lia).
      rewrite Hlen, (proj2 (Z.eqb_neq _ _)); [done|]. specialize (Hcut n eq_refl). lia.
    + split_and!.
      * intros seed' cut'. rewrite Hr. by rewrite (proj2 (Z.eqb_eq _ _) Hl).
      * congruence.
      * intros p Hp. cbn. by rewrite lookup_insert_ne.
Qed.
End config_laws.

(** ** Witnesses *)

Lemma is_hex_not_space c : is_hex c = true -> negb (is_space c) = true.
Proof. destruct c as [[] [] [] [] [] [] [] []]; done. Qed.

#[export] Instance hex_alloy : AlloyText := {|
  alloy_hex_encode := hex_text; alloy_hex_decode := hex_bytes;
  show_address_lower := address_text; parse_address := text_address;
|}.

#[export] Instance hex_alloy_laws : @AlloyTextLaws hex_alloy.
Proof.
  split; cbn.
  - apply hex_text_chars.
  - apply hex_back.
  - apply hex_bytes_ok.
  - apply address_text_back.
  - apply text_address_width.
  - intros a. unfold address_text. rewrite all_chars_app. apply andb_true_iff. split; [done|].
    eapply all_chars_impl, hex_text_chars, be_bytes_ok. apply is_hex_not_space.
Defined.

#[export] Instance toy_seed : @KeySeed toy_lib := {| key_of_seed := be_value |}.
#[export] Instance i64_toml : TomlText := {| toml_int := fun n => n <? 2 ^ 63 |}.

(** A configuration with a chain id TOML has no integer for, and one without. *)
Definition sample_config (chain_id : Z) : Value :=
  object [("chain_id", VNumber chain_id); ("data_dir", VString "/data/node0"); ("worker_threads", VNumber 3);
    ("consensus", object [("participants", VArray [VString "0x0a0b"]);
       ("simplex", object [("fetch_concurrent", VNumber 2)])]);
    ("execution", object [("fee_recipient", VString " 0x00000000000000000000000000000000000000ff ")])].
Definition sample_fs : Fs :=
  mkFs {["/etc/a.toml" := TomlFile (sample_config 7); "/etc/b.json" := JsonFile (sample_config (2 ^ 63))]} ∅.

Lemma config_saves_and_loads_witness :
  exists c d f, config_load (Some 64) sample_fs (Some "/etc/a.toml") = Ok c
  /\ config_load (Some 64) sample_fs (Some "/etc/b.json") = Ok d
  /\ to_toml c = Ok f /\ to_toml d = Err TomlSerialize
  /\ xc_fee_recipient (nc_execution c) = Some 255 /\ cc_participants (nc_consensus c) = [[10; 11]]
  /\ config_load None (mkFs {["/tmp/c" := f]} ∅) (Some "/tmp/c") = Ok c.
Proof.
  destruct (config_load (Some 64) sample_fs (Some "/etc/a.toml")) as [c|] eqn:Hc; [|by vm_compute in Hc].
  destruct (config_load (Some 64) sample_fs (Some "/etc/b.json")) as [d|] eqn:Hd; [|by vm_compute in Hd].
  destruct (to_toml c) as [f|] eqn:Hf; [|by vm_compute in Hc; simplify_eq].
  exists c, d, f. split_and!; try done; [by vm_compute in Hd; simplify_eq|by vm_compute in Hc; simplify_eq..|].
  refine (proj2 (proj2 (config_saves_and_loads (Some 64) None sample_fs (Some "/etc/a.toml") c _ Hc))
    (mkFs ∅ ∅) _ "/tmp/c" f _ _); [by intros n [= <-]|done|by right].
Defined.

(** A key that is made and kept; and a write that is cut after 5 bytes. *)
Lemma validator_key_stable_witness :
  let c := node_default None in
  let seed := be_bytes 32 77 in
  (exists fs k, validator_key c seed None (mkFs ∅ ∅) = (Ok k, fs)
   /\ fs_files fs !! "/var/lib/kora/validator.key" = Some (RawFile seed)
   /\ forall seed' cut', validator_key c seed' cut' fs = (Ok k, fs))
  /\ exists fs e, validator_key c seed (Some 5%nat) (mkFs ∅ ∅) = (Err e, fs)
   /\ forall seed' cut', validator_key c seed' cut' fs = (Err (InvalidKeyLength 5), fs).
Proof.
  split.
  - pose proof (validator_key_stable (node_default None) (be_bytes 32 77) None (mkFs ∅ ∅) eq_refl
      ltac:(done)) as H.
    eexists _, _. split; [reflexivity|]. split; [reflexivity|]. exact (proj1 H).
  - pose proof (validator_key_stable (node_default None) (be_bytes 32 77) (Some 5%nat) (mkFs ∅ ∅) eq_refl
      ltac:(intros n [= <-]; lia)) as H.
    eexists _, _. split; [reflexivity|]. destruct H as [H|(n & [= <-] & _ & _ & H)]; [discriminate H|].
    exact H.
Defined.
