(* ===== verification/Transport.v ===== *)
(** The network transport (crates/network/transport/src): parsing of peers and
    addresses, the configuration and its builders, the registration of the six
    channels; and the simulated transport (crates/network/transport-sim/src). *)
From Stdlib Require Import Ascii.
From S2P Require Import Prelude Text Hex NetAddr Json Bytes TxTypes Codec Block Dkg Config.
Open Scope Z_scope.

(** Which texts are host names is the choice of commonware-utils. *)
Class HostnameLib := { hostname_ok : string -> bool }.

(** The hex crate writes hexadecimal digits. *)
Class HexLaws `{LIB : DkgLib} := {
  hex_encode_chars b : bytes_ok b -> all_chars is_hex (hex_encode b) = true;
}.

(** ** Errors (error.rs) *)

Inductive TransportError :=
| InvalidListenAddr (addr : string)
| InvalidDialableAddr (addr : string)
| InvalidBootstrapPeer (peer : string)
| InvalidPublicKeyHex (hex : string)
| InvalidPublicKeyLength (len : usize)
| InvalidPublicKey
| InvalidHostname (host : string)
| InvalidPort (port : string).

(** Where a peer is dialled (commonware-p2p). *)
Inductive Ingress := IngressSocket (a : SocketAddr) | IngressDns (host : string) (port : Z).

(** ** Parsing (config.rs) *)

Section parsing.
Context `{HL : !HostnameLib} `{LIB : !DkgLib}.

Definition parse_ingress (addr : string) : result Ingress TransportError :=
  match parse_socket_addr addr with
  | Some socket => Ok (IngressSocket socket)
  | None =>
      let? (host, port_str) := ok_or (rsplit_once ":"%char addr) (InvalidDialableAddr addr) in
      let? port := ok_or (parse_uint u16_max port_str) (InvalidPort port_str) in
      if hostname_ok host then Ok (IngressDns host port) else Err (InvalidHostname host)
  end.

Definition parse_listen_addr (addr : string) : result SocketAddr TransportError :=
  ok_or (parse_socket_addr addr) (InvalidListenAddr addr).

Definition parse_bootstrapper (peer : string) : result (PublicKey * Ingress) TransportError :=
  let? (pk_hex, addr) := ok_or (split_once "@"%char peer) (InvalidBootstrapPeer peer) in
  let pk_hex := default pk_hex (strip_prefix "0x" pk_hex) in
  let? pk_bytes := map_err (fun _ => InvalidPublicKeyHex pk_hex) (hex_decode pk_hex) in
  if negb (len pk_bytes =? 32) then Err (InvalidPublicKeyLength (len pk_bytes))
  else
    let? (public_key, _) := map_err (fun _ => InvalidPublicKey) (read_pk pk_bytes) in
    let? ingress := parse_ingress addr in
    Ok (public_key, ingress).

Fixpoint parse_bootstrappers (peers : list string) : result (list (PublicKey * Ingress)) TransportError :=
  match peers with
  | [] => Ok []
  | p :: peers =>
      let? b := parse_bootstrapper p in
      let? bs := parse_bootstrappers peers in
      Ok (b :: bs)
  end.

(** ** Network configuration (ext.rs) *)

Definition parse_network_config (c : NetworkConfig)
    : result (SocketAddr * Ingress * list (PublicKey * Ingress)) TransportError :=
  let? listen_addr := ok_or (parse_socket_addr (nw_listen_addr c)) (InvalidListenAddr (nw_listen_addr c)) in
  let? dialable :=
    match nw_dialable_addr c with
    | Some d => let? addr := ok_or (parse_socket_addr d) (InvalidListenAddr d) in Ok (IngressSocket addr)
    | None => Ok (IngressSocket listen_addr)
    end in
  let? bootstrappers := parse_bootstrappers (nw_bootstrap_peers c) in
  Ok (listen_addr, dialable, bootstrappers).
End parsing.

(** ** Transport configuration (config.rs) *)

Definition DEFAULT_MAX_MESSAGE_SIZE : u32 := 1024 * 1024.
Definition DEFAULT_CONSENSUS_BACKLOG : usize := 2048.
Definition DEFAULT_BLOCK_BACKLOG : usize := 2048.
Definition DEFAULT_RESOLVER_BACKLOG : usize := 2048.
Definition DEFAULT_GOSSIP_BACKLOG : usize := 1024.
Definition DEFAULT_NAMESPACE : string := "_COMMONWARE_KORA_NETWORK".

(** The arguments of the discovery network's two configurations. *)
Record DiscoveryArgs `{DkgLib} := mkDiscoveryArgs {
  da_crypto : PrivateKey;
  da_namespace : string;
  da_listen : SocketAddr;
  da_dialable : Ingress;
  da_bootstrappers : list (PublicKey * Ingress);
  da_max_message_size : u32;
}.

(** The discovery network of commonware-p2p: its configuration, the network
    with its oracle, and one end of a channel. *)
Class Discovery `{LIB : DkgLib} := {
  DConfig : Type;
  Network : Type;
  Oracle : Type;
  Channel : Type;
  Quota : Type;
  discovery_recommended : DiscoveryArgs -> DConfig;
  discovery_local : DiscoveryArgs -> DConfig;
  set_allow_private_ips : bool -> DConfig -> DConfig;
  set_allow_dns : bool -> DConfig -> DConfig;
  network_new : DConfig -> Network * Oracle;
  register : u64 -> Quota -> usize -> Network -> Network * Channel;
  network_start : Network -> Network;
  quota_per_second : u32 -> Quota;
}.

Definition CHANNEL_VOTES : u64 := 0.
Definition CHANNEL_CERTS : u64 := 1.
Definition CHANNEL_RESOLVER : u64 := 2.
Definition CHANNEL_BLOCKS : u64 := 3.
Definition CHANNEL_BACKFILL : u64 := 4.
Definition CHANNEL_TX_GOSSIP : u64 := 5.

Section transport.
Context `{LIB : !DkgLib} `{HL : !HostnameLib} `{D : !Discovery}.

Record TransportConfig := mkTransport {
  tc_inner : DConfig;
  tc_consensus_backlog : usize;
  tc_block_backlog : usize;
  tc_resolver_backlog : usize;
  tc_gossip_backlog : usize;
}.

Definition recommended (a : DiscoveryArgs) : TransportConfig :=
  mkTransport (discovery_recommended a) DEFAULT_CONSENSUS_BACKLOG DEFAULT_BLOCK_BACKLOG
    DEFAULT_RESOLVER_BACKLOG DEFAULT_GOSSIP_BACKLOG.
Definition local (a : DiscoveryArgs) : TransportConfig :=
  mkTransport (discovery_local a) DEFAULT_CONSENSUS_BACKLOG DEFAULT_BLOCK_BACKLOG
    DEFAULT_RESOLVER_BACKLOG DEFAULT_GOSSIP_BACKLOG.

Definition with_backlog (n : usize) (c : TransportConfig) : TransportConfig :=
  mkTransport (tc_inner c) n n n n.
Definition with_consensus_backlog (n : usize) (c : TransportConfig) : TransportConfig :=
  mkTransport (tc_inner c) n (tc_block_backlog c) (tc_resolver_backlog c) (tc_gossip_backlog c).
Definition with_block_backlog (n : usize) (c : TransportConfig) : TransportConfig :=
  mkTransport (tc_inner c) (tc_consensus_backlog c) n (tc_resolver_backlog c) (tc_gossip_backlog c).
Definition with_resolver_backlog (n : usize) (c : TransportConfig) : TransportConfig :=
  mkTransport (tc_inner c) (tc_consensus_backlog c) (tc_block_backlog c) n (tc_gossip_backlog c).
Definition with_gossip_backlog (n : usize) (c : TransportConfig) : TransportConfig :=
  mkTransport (tc_inner c) (tc_consensus_backlog c) (tc_block_backlog c) (tc_resolver_backlog c) n.
Definition with_inner (f : DConfig -> DConfig) (c : TransportConfig) : TransportConfig :=
  mkTransport (f (tc_inner c)) (tc_consensus_backlog c) (tc_block_backlog c) (tc_resolver_backlog c)
    (tc_gossip_backlog c).
Definition with_allow_private_ips (allow : bool) : TransportConfig -> TransportConfig :=
  with_inner (set_allow_private_ips allow).
Definition with_allow_dns (allow : bool) : TransportConfig -> TransportConfig :=
  with_inner (set_allow_dns allow).

(** ** Building (builder.rs, network_provider.rs) *)

Record SimplexChannels := mkSimplexChannels {
  ch_votes : Channel; ch_certs : Channel; ch_resolver : Channel }.
Record MarshalChannels := mkMarshalChannels { ch_blocks : Channel; ch_backfill : Channel }.
Record NetworkTransport := mkNetworkTransport {
  nt_oracle : Oracle;
  nt_handle : Network;
  nt_simplex : SimplexChannels;
  nt_marshal : MarshalChannels;
  nt_tx_gossip : Channel;
}.

Definition build_with_quota (quota : Quota) (c : TransportConfig) : NetworkTransport :=
  let '(network, oracle) := network_new (tc_inner c) in
  let '(network, votes) := register CHANNEL_VOTES quota (tc_consensus_backlog c) network in
  let '(network, certs) := register CHANNEL_CERTS quota (tc_consensus_backlog c) network in
  let '(network, resolver) := register CHANNEL_RESOLVER quota (tc_resolver_backlog c) network in
  let '(network, blocks) := register CHANNEL_BLOCKS quota (tc_block_backlog c) network in
  let '(network, backfill) := register CHANNEL_BACKFILL quota (tc_resolver_backlog c) network in
  let '(network, tx_gossip) := register CHANNEL_TX_GOSSIP quota (tc_gossip_backlog c) network in
  mkNetworkTransport oracle (network_start network) (mkSimplexChannels votes certs resolver)
    (mkMarshalChannels blocks backfill) tx_gossip.
Definition default_quota : Quota := quota_per_second 1000.
Definition build (c : TransportConfig) : NetworkTransport := build_with_quota default_quota c.

(** The provider's bundle, without the oracle, and its control. *)
Record TransportBundle := mkTransportBundle {
  tb_simplex : SimplexChannels;
  tb_marshal : MarshalChannels;
  tb_tx_gossip : Channel;
  tb_handle : Network;
}.
Record NetworkTransportProvider := mkProvider { np_config : TransportConfig; np_quota : Quota }.
Definition provider_build (p : NetworkTransportProvider) : result (TransportBundle * Oracle) TransportError :=
  let c := np_config p in
  let quota := np_quota p in
  let '(network, oracle) := network_new (tc_inner c) in
  let '(network, votes) := register CHANNEL_VOTES quota (tc_consensus_backlog c) network in
  let '(network, certs) := register CHANNEL_CERTS quota (tc_consensus_backlog c) network in
  let '(network, resolver) := register CHANNEL_RESOLVER quota (tc_resolver_backlog c) network in
  let '(network, blocks) := register CHANNEL_BLOCKS quota (tc_block_backlog c) network in
  let '(network, backfill) := register CHANNEL_BACKFILL quota (tc_resolver_backlog c) network in
  let '(network, tx_gossip) := register CHANNEL_TX_GOSSIP quota (tc_gossip_backlog c) network in
  let handle := network_start network in
  Ok (mkTransportBundle (mkSimplexChannels votes certs resolver) (mkMarshalChannels blocks backfill)
        tx_gossip handle, oracle).

Definition network_args (crypto : PrivateKey) (c : NetworkConfig) : result DiscoveryArgs TransportError :=
  let? (listen_addr, dialable, bootstrappers) := parse_network_config c in
  Ok (mkDiscoveryArgs LIB crypto DEFAULT_NAMESPACE listen_addr dialable bootstrappers DEFAULT_MAX_MESSAGE_SIZE).

Definition build_local_transport (c : NetworkConfig) (crypto : PrivateKey)
    : result NetworkTransport TransportError :=
  let? args := network_args crypto c in
  Ok (build (with_allow_private_ips true (local args))).
Definition build_transport (c : NetworkConfig) (crypto : PrivateKey)
    : result NetworkTransport TransportError :=
  let? args := network_args crypto c in
  Ok (build (recommended args)).
End transport.

(** ** Simulation (transport-sim) *)

Definition PORT_BASE_MIN : u16 := 40000.
Definition PORT_BASE_MAX : u16 := 65535 - 1024.

Definition socket_port (s : SocketAddr) : Z := match s with SocketV4 _ p => p | SocketV6 _ _ p => p end.

(** [SocketAddr::new] has no scope; the sum of the ports wraps around in a
    release build. *)
Definition remap_socket (socket : SocketAddr) (port_offset : u16) : SocketAddr :=
  let port := socket_port socket in
  if 1024 <=? port then socket
  else
    let remapped := (port + port_offset) `mod` 65536 in
    match socket with
    | SocketV4 ip _ => SocketV4 ip remapped
    | SocketV6 ip _ _ => SocketV6 ip 0 remapped
    end.

(** The context of a simulated node; [inner] stands for the runtime's own. *)
Record SimContext := mkSimContext {
  force_base_addr : bool;
  base_addr : list Z;
  port_offset : u16;
}.

(** [r1], [r2]: the two draws of the system's generator; [pid]: the process. *)
Definition sim_context_new (r1 r2 pid : u32) : SimContext :=
  let span := PORT_BASE_MAX - PORT_BASE_MIN + 1 in
  let base := PORT_BASE_MIN + r1 `mod` span in
  let seed := Z.lxor r2 pid in
  mkSimContext true
    [127; Z.shiftr seed 16 `mod` 256; Z.shiftr seed 8 `mod` 256; seed `mod` 256] base.

(** [clone], [child], [with_attribute], [with_span] and the context of a
    spawned task. *)
Definition sim_child (c : SimContext) : SimContext := mkSimContext false (base_addr c) (port_offset c).

(** [Ipv4Addr::to_bits]. *)
Definition to_bits (octets : list Z) : u32 := be_value octets.

(** [next_u32]: the base address once, then the system's generator [r]. *)
Definition sim_next_u32 (c : SimContext) (r : u32) : u32 * SimContext :=
  if force_base_addr c then (to_bits (base_addr c), sim_child c) else (r, c).

(** The address the runtime binds or dials for a socket. *)
Definition sim_address (c : SimContext) (socket : SocketAddr) : SocketAddr :=
  remap_socket socket (port_offset c).

Inductive SimTransportError := ChannelRegistration (msg : string).

(** The simulated network of commonware-p2p. *)
Class SimNetwork := {
  SimOracle : Type;
  SimChannel : Type;
  SimNodeControl : Type;
  SimQuota : Type;
  sim_add_link : PublicKey -> PublicKey -> SimOracle -> result SimOracle string;
  sim_register : u64 -> SimQuota -> SimNodeControl -> result (SimNodeControl * SimChannel) string;
}.

Section simulation.
Context `{SN : !SimNetwork}.

(** [connect_all]: the oracle after it, and whether a link failed. *)
Fixpoint connect_from (a : PublicKey) (peers : list PublicKey) (o : SimOracle) : result SimOracle string * SimOracle :=
  match peers with
  | [] => (Ok o, o)
  | b :: peers =>
      if a =? b then connect_from a peers o
      else match sim_add_link a b o with
           | Ok o => connect_from a peers o
           | Err e => (Err e, o)
           end
  end.
Fixpoint connect_each (from peers : list PublicKey) (o : SimOracle) : result SimOracle string * SimOracle :=
  match from with
  | [] => (Ok o, o)
  | a :: from =>
      match connect_from a peers o with
      | (Ok o, _) => connect_each from peers o
      | (Err e, o) => (Err e, o)
      end
  end.
Definition connect_all (peers : list PublicKey) (o : SimOracle) : result SimOracle string * SimOracle :=
  connect_each peers peers o.

Record SimChannels := mkSimChannels {
  sim_votes : SimChannel;
  sim_certs : SimChannel;
  sim_resolver : SimChannel;
  sim_blocks : SimChannel;
  sim_backfill : SimChannel;
  sim_tx_gossip : SimChannel;
}.

Definition register_named (name : string) (id : u64) (quota : SimQuota) (c : SimNodeControl)
    : result (SimNodeControl * SimChannel) SimTransportError :=
  map_err (fun e => ChannelRegistration (name +:+ ": " +:+ e)) (sim_register id quota c).

Definition register_node_channels (c : SimNodeControl) (quota : SimQuota)
    : result (SimNodeControl * SimChannels) SimTransportError :=
  let? (c, votes) := register_named "votes" CHANNEL_VOTES quota c in
  let? (c, certs) := register_named "certs" CHANNEL_CERTS quota c in
  let? (c, resolver) := register_named "resolver" CHANNEL_RESOLVER quota c in
  let? (c, blocks) := register_named "blocks" CHANNEL_BLOCKS quota c in
  let? (c, backfill) := register_named "backfill" CHANNEL_BACKFILL quota c in
  let? (c, tx_gossip) := register_named "tx_gossip" CHANNEL_TX_GOSSIP quota c in
  Ok (c, mkSimChannels votes certs resolver blocks backfill tx_gossip).
End simulation.

(** ** Lemmas: addresses and peers *)

Lemma show_uint_no_colon n : 0 <= n -> all_chars (fun x => negb (Ascii.eqb x ":"%char)) (show_uint n) = true.
Proof.
  intros Hn. destruct (show_uint_digits n Hn) as [H _]. eapply all_chars_impl; [|done].
  intros c. by destruct c as [[] [] [] [] [] [] [] []].
Qed.

Section parsing_laws.
Context `{HL : !HostnameLib} `{LIB : !DkgLib}.

(** A host name that has a character no address has, with a port. *)
Definition dns_host (host : string) : Prop := hostname_ok host = true /\ all_chars addr_char host = false.

Lemma parse_ingress_dns host port :
  dns_host host -> 0 <= port <= u16_max ->
  parse_ingress (host +:+ ":" +:+ show_uint port) = Ok (IngressDns host port).
Proof.
  intros [Hok Hh] Hp. unfold parse_ingress.
  destruct (parse_socket_addr _) as [a|] eqn:E.
  { apply parse_socket_addr_chars in E. by rewrite all_chars_app, Hh in E. }
  change (":" +:+ show_uint port) with (String ":"%char (show_uint port)).
  rewrite rsplit_once_app by (apply show_uint_no_colon; lia). cbn -[parse_uint].
  rewrite parse_show_uint by done. cbn. by rewrite Hok.
Qed.

Lemma parse_ingress_v4 a b c d port :
  Forall (fun o => 0 <= o <= 255) [a; b; c; d] -> 0 <= port <= 65535 ->
  parse_ingress (show_socket_v4 [a; b; c; d] port) = Ok (IngressSocket (SocketV4 [a; b; c; d] port)).
Proof. intros Ho Hp. unfold parse_ingress. by rewrite parse_show_v4. Qed.
(** What was parsed as a host name with its port. *)
Lemma parse_ingress_port addr host port :
  parse_ingress addr = Ok (IngressDns host port) ->
  hostname_ok host = true /\ parse_socket_addr addr = None
  /\ exists p, addr = host +:+ ":" +:+ p /\ parse_uint u16_max p = Some port.
Proof.
  unfold parse_ingress. destruct (parse_socket_addr addr); [done|].
  destruct (rsplit_once ":" addr) as [[h p]|] eqn:E; cbn -[parse_uint]; [|done].
  destruct (parse_uint u16_max p) as [n|] eqn:Ep; cbn; [|done].
  destruct (hostname_ok h) eqn:Eh; [|done]. intros [= <- <-]. split; [done|]. split; [done|].
  exists p. split; [|done]. by apply rsplit_once_Some in E.
Qed.
Context `{LAWS : !DkgLaws} `{HX : !HexLaws}.
#[local] Set Default Proof Using "Type*".

(** The text of a peer: its key in hexadecimal, an at sign, its address. *)
Lemma parse_bootstrapper_text pk addr i :
  pk_ok pk -> parse_ingress addr = Ok i ->
  parse_bootstrapper (hex_encode (write_pk pk) +:+ "@" +:+ addr) = Ok (pk, i).
Proof.
  intros Hpk Hi. pose proof (hex_encode_chars _ (pk_bytes pk)) as Hc. unfold parse_bootstrapper.
  change ("@" +:+ addr) with (String "@"%char addr). rewrite split_once_app.
  2:{ eapply all_chars_impl; [|done]. intros c. by destruct c as [[] [] [] [] [] [] [] []]. }
  cbn -[strip_prefix]. rewrite hex_chars_plain by done. cbn. rewrite hex_law by apply pk_bytes. cbn.
  unfold len. rewrite pk_length. cbn.
  pose proof (pk_law pk Hpk []) as Hr. rewrite app_nil_r in Hr. rewrite Hr. cbn. by rewrite Hi.
Qed.

Lemma parse_bootstrappers_text l :
  Forall (fun e => pk_ok e.1.1 /\ parse_ingress e.2 = Ok e.1.2) l ->
  parse_bootstrappers ((fun e => hex_encode (write_pk e.1.1) +:+ "@" +:+ e.2) <$> l) = Ok l.*1.
Proof.
  induction 1 as [|[[pk i] addr] l [Hpk Hi] _ IH]; [done|]. cbn -[parse_bootstrapper].
  rewrite (parse_bootstrapper_text pk addr i) by done. cbn. cbn in IH. by rewrite IH.
Qed.
End parsing_laws.

(** ** The two builders *)

Section builders.
Context `{LIB : !DkgLib} `{HL : !HostnameLib} `{D : !Discovery}.

Definition bundle_of (t : NetworkTransport) : TransportBundle :=
  mkTransportBundle (nt_simplex t) (nt_marshal t) (nt_tx_gossip t) (nt_handle t).

(** The transport provider builds the network the transport builder builds:
    the same channels with the same backlogs in the same order, and it never
    fails. *)
Theorem provider_builds_transport c quota :
  let t := build_with_quota quota c in
  provider_build (mkProvider c quota) = Ok (bundle_of t, nt_oracle t).
Proof.
  unfold provider_build, build_with_quota. cbn. destruct (network_new _) as [n o].
  repeat (destruct (register _ _ _ _) as [? ?]). done.
Qed.

(** A dialable address with a host name, which the parser of dialable
    addresses accepts, makes the network configuration fail, with the error
    of an invalid listen address, whatever else it holds. *)
Theorem dialable_host_rejected c d host port crypto :
  nw_dialable_addr c = Some d -> parse_ingress d = Ok (IngressDns host port) ->
  exists addr, build_local_transport c crypto = Err (InvalidListenAddr addr)
    /\ build_transport c crypto = Err (InvalidListenAddr addr)
    /\ (is_some (parse_socket_addr (nw_listen_addr c)) = true -> addr = d).
Proof.
  intros Hd (_ & Hs & _)%parse_ingress_port. unfold build_local_transport, build_transport, network_args, parse_network_config.
  destruct (parse_socket_addr (nw_listen_addr c)) as [l|];
    cbn -[parse_socket_addr parse_bootstrappers]; [|by eexists].
  rewrite Hd, Hs. by eexists.
Qed.

(** A configuration that parses is used as it is: the listen address is also
    dialled where none is given. *)
Lemma parse_network_config_default c l bs :
  nw_dialable_addr c = None -> parse_socket_addr (nw_listen_addr c) = Some l ->
  parse_bootstrappers (nw_bootstrap_peers c) = Ok bs ->
  parse_network_config c = Ok (l, IngressSocket l, bs).
Proof. intros Hd Hl Hb. unfold parse_network_config. by rewrite Hl, Hd, Hb. Qed.
End builders.

(** ** The simulated network *)

Lemma sim_offset r1 r2 pid :
  let c := sim_context_new r1 r2 pid in PORT_BASE_MIN <= port_offset c <= PORT_BASE_MAX.
Proof.
  cbn. unfold PORT_BASE_MIN, PORT_BASE_MAX. pose proof (Z.mod_pos_bound r1 (65535 - 1024 - 40000 + 1)). lia.
Qed.

(** Every socket a simulated node binds or dials has an unprivileged port
    of 16 bits: a privileged port is moved by the node's offset without
    overflow, so that different ones stay different, other ports are kept, and
    doing it twice changes nothing. *)
Theorem sim_ports r1 r2 pid s :
  0 <= socket_port s <= u16_max ->
  let c := sim_context_new r1 r2 pid in
  let t := sim_address c s in
  1024 <= socket_port t <= u16_max
  /\ sim_address c t = t
  /\ (1024 <= socket_port s -> t = s)
  /\ (socket_port s < 1024 -> socket_port t = socket_port s + port_offset c).
Proof.
  cbv zeta. intros Hp. pose proof (sim_offset r1 r2 pid) as Ho. cbv zeta in Ho.
  set (off := port_offset _) in *. unfold sim_address. fold off.
  assert (forall u, 1024 <= socket_port u -> remap_socket u off = u) as Hid.
  { intros u Hu. unfold remap_socket. by rewrite (proj2 (Z.leb_le _ _) Hu). }
  destruct (Z.le_gt_cases 1024 (socket_port s)) as [Hs|Hs].
  { rewrite (Hid s Hs). split_and!; [lia|lia|by apply Hid|done|lia]. }
  assert (socket_port (remap_socket s off) = socket_port s + off) as Ht.
  { unfold remap_socket. rewrite (proj2 (Z.leb_gt _ _) Hs).
    unfold PORT_BASE_MIN, PORT_BASE_MAX in Ho. destruct s; cbn in *; apply Z.mod_small; lia. }
  unfold PORT_BASE_MIN, PORT_BASE_MAX, u16_max in *.
  split_and!; [lia|lia|apply Hid; lia|lia|done].
Qed.

(** The first number a node's context draws is its address, in 127.0.0.0/8; its
    children draw from the system. *)
Lemma sim_draw r1 r2 pid r :
  let c := sim_context_new r1 r2 pid in
  let '(x, c') := sim_next_u32 c r in
  127 * 2 ^ 24 <= x < 128 * 2 ^ 24 /\ c' = sim_child c /\ forall q, sim_next_u32 c' q = (q, c').
Proof.
  cbv zeta. unfold sim_next_u32, sim_context_new. cbn [force_base_addr base_addr].
  split; [|by split]. unfold to_bits.
  assert (forall x y z, be_value [127; x; y; z] = ((127 * 256 + x) * 256 + y) * 256 + z) as ->
    by (intros; unfold be_value; cbn [foldl]; lia).
  assert (forall x, 0 <= x `mod` 256 < 256) as Hm by (intros; by apply Z.mod_pos_bound).
  pose proof (Hm (Z.shiftr (Z.lxor r2 pid) 16)). pose proof (Hm (Z.shiftr (Z.lxor r2 pid) 8)).
  pose proof (Hm (Z.lxor r2 pid)). lia.
Qed.

Section links.
Context `{SN : !SimNetwork}.
Variable link : PublicKey -> PublicKey -> SimOracle -> SimOracle.
Hypothesis add_link_ok : forall a b o, a <> b -> sim_add_link a b o = Ok (link a b o).

(** The ordered pairs of different peers. *)
Definition peer_pairs (from peers : list PublicKey) : list (PublicKey * PublicKey) :=
  a ← from; pair a <$> filter (fun b => a <> b) peers.

Lemma connect_from_links a peers o :
  let o' := foldl (fun o e => link e.1 e.2 o) o (pair a <$> filter (fun b => a <> b) peers) in
  connect_from a peers o = (Ok o', o').
Proof using add_link_ok.
  revert o. induction peers as [|b peers IH]; intros o; [done|]. cbn [connect_from].
  destruct (Z.eqb_spec a b) as [->|Hne]; [rewrite filter_cons_False by naive_solver; apply IH|].
  rewrite filter_cons_True, add_link_ok by done. apply IH.
Qed.

(** Connecting all peers of a simulated network adds a link from each peer
    to each other peer, once for each pair of positions, in the order of the
    list, and none from a peer to itself. *)
Theorem connect_all_links peers o :
  let o' := foldl (fun o e => link e.1 e.2 o) o (peer_pairs peers peers) in
  connect_all peers o = (Ok o', o')
  /\ forall a b, (a, b) ∈ peer_pairs peers peers <-> a ∈ peers /\ b ∈ peers /\ a <> b.
Proof using add_link_ok.
  split.
  - unfold connect_all. generalize peers at 1 3 5 as from. intros from. revert o.
    induction from as [|a from IH]; intros o; [done|]. cbn [connect_each].
    rewrite connect_from_links, IH. unfold peer_pairs. rewrite bind_cons, foldl_app. done.
  - intros a b. unfold peer_pairs. rewrite list_elem_of_bind. setoid_rewrite list_elem_of_fmap.
    setoid_rewrite list_elem_of_filter. naive_solver.
Qed.
End links.

(** ** Witnesses *)

#[export] Instance list_sim_network : SimNetwork := {|
  SimOracle := list (Z * Z); SimChannel := Z; SimNodeControl := list Z; SimQuota := unit;
  sim_add_link := fun a b o => Ok (o ++ [(a, b)]);
  sim_register := fun id _ c => if bool_decide (id ∈ c) then Err "taken" else Ok (id :: c, id);
|}.

Lemma connect_all_links_witness :
  connect_all [1; 2; 1] [] = (Ok [(1, 2); (2, 1); (2, 1); (1, 2)], [(1, 2); (2, 1); (2, 1); (1, 2)]).
Proof.
  exact (proj1 (connect_all_links (SN := list_sim_network) (fun a b o => o ++ [(a, b)])
    (fun _ _ _ _ => eq_refl) [1; 2; 1] [])).
Defined.

Lemma sim_ports_witness :
  socket_port (sim_address (sim_context_new 5 6 7) (SocketV4 [127; 0; 0; 1] 80)) = 40085.
Proof.
  exact (proj2 (proj2 (proj2 (sim_ports 5 6 7 (SocketV4 [127; 0; 0; 1] 80)
    ltac:(cbn; unfold u16_max; lia)))) ltac:(cbn; lia)).
Defined.
