(* ===== verification/Genesis.v ===== *)
(** The genesis file of a node (crates/node/domain/src/bootstrap.rs): the
    chain, its first timestamp and the accounts that hold funds. *)
From Stdlib Require Import Ascii.
From S2P Require Import Prelude Text Hex Json Bytes TxTypes Codec Block Dkg Config.
Open Scope Z_scope.

(** Addresses as alloy displays them, and [U256::from_str]. *)
Class GenesisText `{AlloyText} := {
  show_address : Address -> string;
  parse_u256 : string -> option Z;
}.

(** A displayed address parses, and so do 40 hexadecimal digits in any case and
    the decimal text of a number. *)
Class GenesisLaws `{GenesisText} := {
  hex_address_parses s h :
    s = "0x" +:+ h -> all_chars is_hex h = true -> String.length h = 40%nat -> is_some (parse_address s) = true;
  show_address_back a : in_width 160 a -> parse_address (show_address a) = Some a;
  decimal_back n : in_width 256 n -> parse_u256 (show_uint n) = Some n;
}.

Record BootstrapConfig := mkBootstrap {
  bs_chain_id : u64;
  bs_genesis_alloc : list (Address * Z);
  bs_bootstrap_txs : list Tx;
  bs_genesis_timestamp : u64;
}.

Inductive BootstrapError :=
| BootstrapIo (e : IoError)
| BootstrapJson
| BootstrapParse (what : string).

Record AllocationJson := mkAllocation { al_address : string; al_balance : string }.
Record GenesisJson := mkGenesis {
  gj_chain_id : u64;
  gj_timestamp : u64;
  gj_allocations : list AllocationJson;
}.

Definition de_allocation : Decoder AllocationJson := fun v =>
  f ← de_fields ["address"; "balance"] v;
  a ← de_field de_string "address" f;
  b ← de_field de_string "balance" f;
  Some (mkAllocation a b).
Definition de_genesis : Decoder GenesisJson := fun v =>
  f ← de_fields ["chain_id"; "timestamp"; "allocations"] v;
  c ← de_field (de_uint u64_max) "chain_id" f;
  t ← de_field (de_uint u64_max) "timestamp" f;
  a ← de_field (de_vec de_allocation) "allocations" f;
  Some (mkGenesis c t a).

Definition en_allocation (a : AllocationJson) : Value :=
  object [("address", VString (al_address a)); ("balance", VString (al_balance a))].
Definition en_genesis (g : GenesisJson) : Value :=
  object [("chain_id", VNumber (gj_chain_id g)); ("timestamp", VNumber (gj_timestamp g));
    ("allocations", VArray (en_allocation <$> gj_allocations g))].

Definition bootstrap_new (chain_id : u64) (alloc : list (Address * Z)) (txs : list Tx) : BootstrapConfig :=
  mkBootstrap chain_id alloc txs 0.
Definition with_genesis_timestamp (t : u64) (b : BootstrapConfig) : BootstrapConfig :=
  mkBootstrap (bs_chain_id b) (bs_genesis_alloc b) (bs_bootstrap_txs b) t.

Section genesis.
Context `{AT : !AlloyText} `{GT : !GenesisText}.

Fixpoint parse_allocations (l : list AllocationJson) : result (list (Address * Z)) BootstrapError :=
  match l with
  | [] => Ok []
  | a :: l =>
      let? address := ok_or (parse_address (al_address a)) (BootstrapParse "invalid address") in
      let? balance := ok_or (parse_u256 (al_balance a)) (BootstrapParse "invalid balance") in
      let? rest := parse_allocations l in
      Ok ((address, balance) :: rest)
  end.

Definition bootstrap_load (fs : Fs) (genesis_path : string) : result BootstrapConfig BootstrapError :=
  let? f := map_err BootstrapIo (fs_read_text fs genesis_path) in
  let? genesis := ok_or (match f with JsonFile v => de_genesis v | _ => None end) BootstrapJson in
  let? alloc := parse_allocations (gj_allocations genesis) in
  Ok (mkBootstrap (gj_chain_id genesis) alloc [] (gj_timestamp genesis)).

(** ** Lemmas *)

Lemma allocation_back a : de_allocation (en_allocation a) = Some a.
Proof.
  destruct a. unfold de_allocation, en_allocation. cbn [de_fields object mbind option_bind].
  by repeat (rewrite de_field_object; cbn).
Qed.

Lemma genesis_back g :
  0 <= gj_chain_id g <= u64_max -> 0 <= gj_timestamp g <= u64_max -> de_genesis (en_genesis g) = Some g.
Proof.
  destruct g as [c t l]. intros Hc Ht. cbn in Hc, Ht. unfold de_genesis, en_genesis. cbn [de_fields object mbind option_bind].
  rewrite !de_field_object. cbn -[de_uint de_vec]. rewrite !de_uint_ok by done. cbn -[de_vec].
  rewrite (de_vec_ok _ en_allocation); [done|]. apply Forall_true. intros a. apply allocation_back.
Qed.

Lemma parse_allocations_ok l l' :
  Forall2 (fun a e => parse_address (al_address a) = Some e.1 /\ parse_u256 (al_balance a) = Some e.2) l l' ->
  parse_allocations l = Ok l'.
Proof.
  induction 1 as [|a [x b] l l' [Hx Hb] _ IH]; [done|]. cbn in *. by rewrite Hx, Hb, IH.
Qed.
End genesis.
