(* ===== verification/Keygen.v ===== *)
(** The tool that sets a devnet up (bin/keygen/src): identity keys, peers and
    genesis of a network (setup.rs) and the threshold shares of a trusted
    dealer (dkg_deal.rs), on the file system the nodes read. *)
From Stdlib Require Import Ascii.
From S2P Require Import Prelude Text Hex NetAddr Json Bytes TxTypes Codec Block Dkg DkgParticipant DkgCeremony.
From S2P Require Import Config Transport Genesis.
Open Scope Z_scope.

(** ** Errors *)

Inductive KeygenError :=
| KgIo (e : IoError)
| KgPanic
| KgJson
| KgMissingPublicKey
| KgHex
| KgPublicKey
| KgDuplicate
| KgDeal
| KgMissingShare (node : nat).

#[local] Abbreviation Io := (FsIo KeygenError) (only parsing).
#[local] Abbreviation io_read := (io_read_err KgIo) (only parsing).
#[local] Abbreviation io_write := (io_write_err KgIo) (only parsing).

(** ** Setup (setup.rs) *)

Definition GENESIS_BALANCE : string := "1000000000000000000000000".
Definition LOADGEN_ACCOUNT_COUNT : Z := 50.

Record SetupArgs := mkSetupArgs {
  sa_validators : usize;
  sa_secondary_peers : usize;
  sa_chain_id : u64;
  sa_output_dir : string;
  sa_base_port : u16;
}.

Record PeersConfig := mkPeersConfig {
  pc_validators : usize;
  pc_quorum : u32;
  pc_participants : list string;
  pc_secondary_participants : list string;
  pc_bootstrappers : gmap string string;
}.
Definition en_peers (p : PeersConfig) : Value :=
  object [("validators", VNumber (pc_validators p)); ("quorum", VNumber (pc_quorum p));
    ("participants", VArray (VString <$> pc_participants p));
    ("secondary_participants", VArray (VString <$> pc_secondary_participants p));
    ("bootstrappers", VObject (VString <$> pc_bootstrappers p))].

Record NodeSetupConfig := mkNodeSetup { ns_index : usize; ns_public_key : string; ns_port : u16 }.
Definition en_node_setup (s : NodeSetupConfig) : Value :=
  object [("validator_index", VNumber (ns_index s)); ("public_key", VString (ns_public_key s));
    ("port", VNumber (ns_port s))].

(** The address of a secp256k1 secret key (k256 and keccak). *)
Class LoadgenKeys := {
  address_of_secret : bytes -> Address;
  address_of_secret_width b : in_width 160 (address_of_secret b);
}.

Definition node_name (prefix : string) (i : nat) : string := prefix +:+ show_uint (Z.of_nat i).

Definition funded_allocation (address : string) : AllocationJson := mkAllocation address GENESIS_BALANCE.

Definition FUNDED : list string :=
  ["0x0000000000000000000000000000000000000001"; "0xEb1Ba7Fc58b3416361a0EE07d140c91410c0AA8c";
   "0xa883208a74152107475a3Fa6b0c21121894B647F"; "0x105be5081ceba05be11976150abc277ee365fc3f";
   "0x30b68d56AE9173566055a69ee7cCB0E755B6a201"; "0xDdE169289B51C512268D0b11EE2b15160b1e1793";
   "0xde738C4084dDE5083A7959235Fd230e27eAFC63B"].

(** The dealing of shares by one party (commonware-cryptography), to a sorted
    set of players. *)
Class DealLib `{LIB : DkgLib} := {
  deal : Rng -> list PublicKey -> result (Output * gmap PublicKey Share) string;
}.

(** It succeeds for players, and the share of each has the number of its
    position among them; the quorum is the one for a third of faults. *)
Class DealLaws `{DL : DealLib} := {
  quorum_third n : 1 <= n <= u32_max -> quorum n = n - (n - 1) `div` 3;
  deal_ok rng ps : ps <> [] -> exists o s, deal rng ps = Ok (o, s);
  deal_shares rng ps o s pk k :
    deal rng ps = Ok (o, s) -> position (Z.eqb pk) ps = Some k ->
    exists sh, s !! pk = Some sh /\ share_index sh = Z.of_nat k;
}.

Section keygen.
Context `{AT : !AlloyText} `{GT : !GenesisText} `{LIB : !DkgLib} `{KS : !KeySeed} `{DT : !DocText} `{LK : !LoadgenKeys}
  `{DL : !DealLib}.

Definition loadgen_secret (seed : Z) : bytes := replicate 31 0 ++ [seed].
Definition loadgen_address (seed : Z) : Address := address_of_secret (loadgen_secret seed).
Definition funded_loadgen_allocations : list AllocationJson :=
  (fun seed => funded_allocation (show_address (loadgen_address seed))) <$> seqZ 1 LOADGEN_ACCOUNT_COUNT.

(** [seeds]: what the random generator gives for a new key. *)
Variable seeds : string -> bytes.

(** The key of a node: the one in its file, or a new one.  [copy_from_slice]
    panics on another length. *)
Definition identity_key (key_path : string) : Io PrivateKey := fun fs =>
  if fs_exists fs key_path then
    (let* b := io_read (fun fs => fs_read_raw fs key_path) in
     if len b =? 32 then io_ret (key_of_seed b) else io_fail KgPanic) fs
  else
    (let seed := seeds key_path in
     let* _ := io_write key_path (RawFile seed) in
     io_ret (key_of_seed seed)) fs.

Definition key_hex (key : PrivateKey) : string := hex_encode (write_pk (public_key key)).

(** One turn of the loops over the validators and the secondary peers. *)
Definition setup_node (args : SetupArgs) (prefix : string) (i : nat) : Io string :=
  let node_dir := path_join (sa_output_dir args) (node_name prefix i) in
  let* _ := io_read (fun fs => create_dir_all fs node_dir) in
  let* key := identity_key (path_join node_dir "validator.key") in
  let pk_hex := key_hex key in
  let* _ := io_write (path_join node_dir "setup.json")
              (JsonFile (en_node_setup (mkNodeSetup (Z.of_nat i) pk_hex (sa_base_port args)))) in
  io_ret pk_hex.

Fixpoint setup_validators (args : SetupArgs) (ids : list nat) (bootstrappers : gmap string string)
    : Io (list string * gmap string string) :=
  match ids with
  | [] => io_ret ([], bootstrappers)
  | i :: ids =>
      let* pk_hex := setup_node args "node" i in
      let hostname := node_name "node" i +:+ ":" +:+ show_uint (sa_base_port args) in
      let* (participants, bootstrappers) := setup_validators args ids (<[pk_hex := hostname]> bootstrappers) in
      io_ret (pk_hex :: participants, bootstrappers)
  end.

Fixpoint setup_secondary (args : SetupArgs) (ids : list nat) : Io (list string) :=
  match ids with
  | [] => io_ret []
  | i :: ids =>
      let* pk_hex := setup_node args "secondary" i in
      let* participants := setup_secondary args ids in
      io_ret (pk_hex :: participants)
  end.

Definition setup_genesis (args : SetupArgs) : GenesisJson :=
  mkGenesis (sa_chain_id args) 0 ((funded_allocation <$> FUNDED) ++ funded_loadgen_allocations).

Definition validator_indices (n : usize) : list nat := seq 0 (Z.to_nat n).

Definition setup_run (args : SetupArgs) : Io unit :=
  let q := quorum (sa_validators args) in
  let out := sa_output_dir args in
  let* _ := io_read (fun fs => create_dir_all fs out) in
  let* (participants, bootstrappers) := setup_validators args (validator_indices (sa_validators args)) ∅ in
  let* secondary := setup_secondary args (validator_indices (sa_secondary_peers args)) in
  let peers := mkPeersConfig (sa_validators args) q participants secondary bootstrappers in
  let* _ := io_write (path_join out "peers.json") (JsonFile (en_peers peers)) in
  io_write (path_join out "genesis.json") (JsonFile (en_genesis (setup_genesis args))).

(** ** The trusted dealer (dkg_deal.rs) *)

Definition en_output (o : OutputJson) : Value :=
  object [("group_public_key", VString (oj_group_public_key o));
    ("public_polynomial", VString (oj_public_polynomial o)); ("threshold", VNumber (oj_threshold o));
    ("participants", VNumber (oj_participants o));
    ("participant_keys", VArray (VString <$> oj_participant_keys o))].
Definition en_share (s : ShareJson) : Value :=
  object [("index", VNumber (sj_index s)); ("secret", VString (sj_secret s))].

(** The public key a node's setup file names. *)
Definition deal_participant (out : string) (i : nat) : Io PublicKey :=
  let* f := io_read (fun fs => fs_read_text fs (path_join (path_join out (node_name "node" i)) "setup.json")) in
  let* setup := io_lift (match f with JsonFile v => Ok v | _ => Err KgJson end) in
  let* pk_hex := io_lift (ok_or (as_str (index_value setup "public_key")) KgMissingPublicKey) in
  let* pk_bytes := io_lift (map_err (fun _ => KgHex) (hex_decode pk_hex)) in
  let* (pk, _) := io_lift (map_err (fun _ => KgPublicKey) (read_pk pk_bytes)) in
  io_ret pk.

Fixpoint deal_participants (out : string) (ids : list nat) : Io (list PublicKey) :=
  match ids with
  | [] => io_ret []
  | i :: ids =>
      let* pk := deal_participant out i in
      let* pks := deal_participants out ids in
      io_ret (pk :: pks)
  end.

(** [try_collect] into a set: sorted, an error on duplicates. *)
Definition try_collect (l : list PublicKey) : option (list PublicKey) :=
  if decide (NoDup l) then Some (sort_by Z.compare l) else None.

Fixpoint write_shares (out : string) (output : OutputJson) (shares : gmap PublicKey Share) (i : nat)
    (participants : list PublicKey) : Io unit :=
  match participants with
  | [] => io_ret tt
  | pk :: participants =>
      let* share := io_lift (ok_or (shares !! pk) (KgMissingShare i)) in
      let node_dir := path_join out (node_name "node" i) in
      let* _ := io_write (path_join node_dir "output.json") (JsonFile (en_output output)) in
      let* _ := io_write (path_join node_dir "share.key")
                  (JsonFile (en_share (mkShareJson (share_index share) (hex_encode (write_share share))))) in
      write_shares out output shares (S i) participants
  end.

Definition deal_run (validators : usize) (out : string) (rng : Rng) : Io unit :=
  let q := quorum validators in
  let* participants := deal_participants out (validator_indices validators) in
  let* participants_set := io_lift (ok_or (try_collect participants) KgDuplicate) in
  let participant_keys := (fun pk => hex_encode (write_pk pk)) <$> participants_set in
  let* (public_output, shares) := io_lift (map_err (fun _ => KgDeal) (deal rng participants_set)) in
  let output := mkOutputJson (hex_encode (write_group_key public_output))
                  (hex_encode (write_polynomial public_output)) q validators participant_keys in
  write_shares out output shares 0 participants.
End keygen.
