(* ===== verification/Cli.v ===== *)
(** The command line of a node (bin/kora/src/cli.rs): configuration, peers and
    what each command checks before it starts a node; the threshold scheme
    (crates/node/runner/src/scheme.rs), the start of the runner (runner.rs) and
    the legacy service (crates/node/service/src/service.rs). *)
From Stdlib Require Import Ascii.
From S2P Require Import Prelude Text Hex NetAddr Json Bytes TxTypes Codec Block Dkg DkgParticipant DkgCeremony.
From S2P Require Import NodeState Config Transport Genesis Keygen.
Open Scope Z_scope.

(** ** Arguments *)

Record DkgArgs := mkDkgArgs { ga_peers : string; ga_force_restart : bool }.
Record ValidatorArgs := mkValidatorArgs {
  va_peers : option string; va_metrics_addr : string; va_tx_gossip : bool }.
Record SecondaryArgs := mkSecondaryArgs {
  ra_peers : string; ra_rpc_addr : string; ra_metrics_addr : string }.
Inductive Commands :=
| CommandDkg (a : DkgArgs)
| CommandValidator (a : ValidatorArgs)
| CommandSecondary (a : SecondaryArgs).

Record Cli := mkCli {
  cli_command : option Commands;
  cli_config : option string;
  cli_chain_id : option u64;
  cli_data_dir : option string;
}.

(** What the process finds: the parallelism, the bytes of the random generator
    (and where writing them to the key file would stop) and the variable that
    names a storage directory. *)
Record Env := mkEnv {
  en_available : option usize;
  en_seed : bytes;
  en_key_cut : option nat;
  en_runtime_dir : option string;
}.

Inductive CliError :=
| CliConfig (e : ConfigError)
| CliIo (e : IoError)
| CliJson
| CliMissing (what : string)
| CliHex
| CliPublicKey
| CliAddress (what addr : string)
| CliNotParticipant
| CliNoDkgOutput
| CliDkg (e : DkgError)
| CliScheme (what : string)
| CliGenesis (e : BootstrapError)
| CliChainId (genesis node : u64)
| CliCount (participants : usize)
| CliNoParticipants
| CliShareIndex (index count : u32)
| CliNotSecondary
| CliTransport (e : TransportError)
| CliValidatorSet
| CliPanic.

#[local] Abbreviation Io := (FsIo CliError) (only parsing).

(** The threshold scheme of commonware-consensus. *)
Class SchemeLib `{LIB : DkgLib} := {
  Scheme : Type;
  Sharing : Type;
  read_sharing : u32 -> Reader Sharing;
  read_share : Reader Share;
  scheme_signer : list PublicKey -> Sharing -> Share -> option Scheme;
  scheme_participants : Scheme -> list PublicKey;
}.

(** The shares of a dealing sign for its players. *)
Class SchemeLaws `{LIB : DkgLib} `{DL : !DealLib} `{SL : !SchemeLib} := {
  dealt_scheme rng ps o s pk sh :
    deal rng ps = Ok (o, s) -> s !! pk = Some sh -> len ps <= u32_max ->
    exists sharing rest share rest' scheme,
      read_sharing (len ps) (write_polynomial o) = Ok (sharing, rest)
      /\ read_share (write_share sh) = Ok (share, rest')
      /\ scheme_signer ps sharing share = Some scheme
      /\ scheme_participants scheme = ps;
}.

(** [Set::from_iter_dedup]. *)
Definition from_iter_dedup (l : list PublicKey) : list PublicKey := sort_by Z.compare (remove_dups l).

Record PeersInfo := mkPeersInfo {
  pi_participants : list PublicKey;
  pi_secondary : list PublicKey;
  pi_bootstrappers : list (PublicKey * string);
}.

Definition runtime_storage_directory_from (data_dir : string) (override_dir : option string) : string :=
  match override_dir with
  | Some EmptyString | None => path_join data_dir "runtime"
  | Some path => path
  end.

Definition block_codec_cfg (c : ConsensusBlockCodecConfig) : BlockCfg :=
  mkBlockCfg (bc_max_txs c) (bc_max_tx_bytes c).

Section cli.
Context `{AT : !AlloyText} `{GT : !GenesisText} `{LIB : !DkgLib} `{KS : !KeySeed} `{DT : !DocText} `{JO : !JsonOrder}
  `{HL : !HostnameLib} `{D : !Discovery} `{SL : !SchemeLib}.

(** [load_config]: the options of the command line over the file. *)
Definition load_config (cli : Cli) (env : Env) (fs : Fs) : result NodeConfig CliError :=
  let? c := map_err CliConfig (config_load (en_available env) fs (cli_config cli)) in
  let chain_id := default (nc_chain_id c) (cli_chain_id cli) in
  let data_dir := default (nc_data_dir c) (cli_data_dir cli) in
  Ok (mkNode chain_id data_dir (nc_worker_threads c) (nc_consensus c) (nc_network c) (nc_execution c) (nc_rpc c)).

Definition set_network (c : NodeConfig) (n : NetworkConfig) : NodeConfig :=
  mkNode (nc_chain_id c) (nc_data_dir c) (nc_worker_threads c) (nc_consensus c) n (nc_execution c) (nc_rpc c).
Definition set_bootstrap_peers (c : NodeConfig) (peers : list string) : NodeConfig :=
  let n := nc_network c in
  set_network c (mkNetwork (nw_listen_addr n) (nw_dialable_addr n) peers (nw_tx_gossip n)).
Definition set_tx_gossip (c : NodeConfig) (b : bool) : NodeConfig :=
  let n := nc_network c in
  set_network c (mkNetwork (nw_listen_addr n) (nw_dialable_addr n) (nw_bootstrap_peers n) b).

Definition format_bootstrappers (l : list (PublicKey * string)) : list string :=
  (fun e => hex_encode (write_pk e.1) +:+ "@" +:+ e.2) <$> l.

Definition parse_public_key (pk_hex : string) : result PublicKey CliError :=
  let? b := map_err (fun _ => CliHex) (hex_decode pk_hex) in
  let? (pk, _) := map_err (fun _ => CliPublicKey) (read_pk b) in
  Ok pk.
Fixpoint parse_public_keys (keys : list string) : result (list PublicKey) CliError :=
  match keys with
  | [] => Ok []
  | k :: keys =>
      let? pk := parse_public_key k in
      let? pks := parse_public_keys keys in
      Ok (pk :: pks)
  end.

Fixpoint parse_peer_entries (l : list (string * Value)) : result (list (PublicKey * string)) CliError :=
  match l with
  | [] => Ok []
  | (pk_hex, addr) :: l =>
      let? pk := parse_public_key pk_hex in
      let? addr := ok_or (as_str addr) (CliMissing "invalid address") in
      let? rest := parse_peer_entries l in
      Ok ((pk, addr) :: rest)
  end.

(** [load_peers]; entries of the lists that are no strings are left out. *)
Definition peers_of (json : Value) : result PeersInfo CliError :=
  let? participants := ok_or (as_array (index_value json "participants")) (CliMissing "missing participants") in
  let? participants := parse_public_keys (omap as_str participants) in
  let secondary := default [] (as_array (index_value json "secondary_participants")) in
  let? secondary := parse_public_keys (omap as_str secondary) in
  let? obj := ok_or (as_object (index_value json "bootstrappers")) (CliMissing "missing bootstrappers") in
  let? bootstrappers := parse_peer_entries (object_entries obj) in
  Ok (mkPeersInfo participants secondary bootstrappers).
Definition load_peers (fs : Fs) (path : string) : result PeersInfo CliError :=
  let? f := map_err CliIo (fs_read_text fs path) in
  let? json := match f with JsonFile v => Ok v | _ => Err CliJson end in
  peers_of json.

Definition cli_validator_key (c : NodeConfig) (env : Env) : Io PrivateKey := fun fs =>
  let '(r, fs) := validator_key c (en_seed env) (en_key_cut env) fs in (map_err CliConfig r, fs).

(** *** kora dkg *)

Record DkgStart := mkDkgStart {
  gs_config : DkgConfig;
  gs_data_dir : string;
  gs_listen_addr : SocketAddr;
  gs_force_restart : bool;
}.

(** [run_dkg], up to the run of the ceremony. *)
Definition run_dkg (cli : Cli) (args : DkgArgs) (env : Env) : Io DkgStart :=
  let* c := fun fs => (load_config cli env fs, fs) in
  let* peers := fun fs => (load_peers fs (ga_peers args), fs) in
  let* identity_key := cli_validator_key c env in
  let my_pk := public_key identity_key in
  let* index := io_lift (ok_or (position (Z.eqb my_pk) (pi_participants peers)) CliNotParticipant) in
  let listen := nw_listen_addr (nc_network c) in
  let* listen_addr := io_lift (ok_or (parse_socket_addr listen) (CliAddress "listen_addr" listen)) in
  io_ret (mkDkgStart
    (mkDkgConfig identity_key (Z.of_nat index) (pi_participants peers) (nc_chain_id c) (pi_bootstrappers peers))
    (nc_data_dir c) listen_addr (ga_force_restart args)).

(** *** kora validator *)

(** [DkgOutput::exists] and [load] on the data directory. *)
Definition dkg_output_exists (fs : Fs) (data_dir : string) : bool :=
  fs_exists fs (path_join data_dir "output.json") && fs_exists fs (path_join data_dir "share.key").

Definition de_output : Decoder OutputJson := fun v =>
  f ← de_fields ["group_public_key"; "public_polynomial"; "threshold"; "participants"; "participant_keys"] v;
  g ← de_field de_string "group_public_key" f;
  p ← de_field de_string "public_polynomial" f;
  t ← de_field (de_uint u32_max) "threshold" f;
  n ← de_field (de_uint u64_max) "participants" f;
  k ← de_default [] (de_vec de_string) "participant_keys" f;
  Some (mkOutputJson g p t n k).
Definition de_share : Decoder ShareJson := fun v =>
  f ← de_fields ["index"; "secret"] v;
  i ← de_field (de_uint u32_max) "index" f;
  s ← de_field de_string "secret" f;
  Some (mkShareJson i s).

Definition load_dkg_file {A} (d : Decoder A) (fs : Fs) (data_dir name : string) : result A DkgError :=
  let? f := map_err (fun _ => DkgIo name) (fs_read_text fs (path_join data_dir name)) in
  ok_or (match f with JsonFile v => d v | _ => None end) (Serialization name).

Definition dkg_output_load (fs : Fs) (data_dir : string) : result DkgOutput DkgError :=
  let? output := load_dkg_file de_output fs data_dir "output.json" in
  let? share := load_dkg_file de_share fs data_dir "share.key" in
  output_load (mkDisk None (Some output) (Some share)).

Fixpoint read_participants (keys : list bytes) : result (list PublicKey) CliError :=
  match keys with
  | [] => Ok []
  | k :: keys =>
      let? (pk, _) := map_err (fun _ => CliScheme "failed to decode participant key") (read_pk k) in
      let? pks := read_participants keys in
      Ok (pk :: pks)
  end.

Definition load_threshold_scheme (fs : Fs) (data_dir : string) : result Scheme CliError :=
  let? output := map_err CliDkg (dkg_output_load fs data_dir) in
  let? participants := read_participants (participant_keys output) in
  let n := len participants `mod` 2 ^ 32 in
  if n =? 0 then Err (CliScheme "participants cannot be empty")
  else
    let? (group_poly, _) :=
      map_err (fun _ => CliScheme "failed to decode public polynomial") (read_sharing n (public_polynomial output)) in
    let? (share, _) := map_err (fun _ => CliScheme "failed to decode share") (read_share (share_secret output)) in
    ok_or (scheme_signer (from_iter_dedup participants) group_poly share) (CliScheme "share public key mismatch").

(** The runner and the configuration it is started with. *)
Record ValidatorStart := mkValidatorStart {
  vs_scheme : Scheme;
  vs_chain_id : u64;
  vs_bootstrap : BootstrapConfig;
  vs_node_state : NodeState;
  vs_rpc_addr : SocketAddr;
  vs_metrics_addr : SocketAddr;
  vs_secondary_peers : list PublicKey;
  vs_config : NodeConfig;
}.

(** [run_validator], up to [run_standalone]. *)
Definition run_validator (cli : Cli) (args : ValidatorArgs) (env : Env) (fs : Fs)
    : result ValidatorStart CliError :=
  let? c := load_config cli env fs in
  let c := if va_tx_gossip args then set_tx_gossip c true else c in
  if negb (dkg_output_exists fs (nc_data_dir c)) then Err CliNoDkgOutput
  else
    let? dkg_output := map_err CliDkg (dkg_output_load fs (nc_data_dir c)) in
    let? scheme := load_threshold_scheme fs (nc_data_dir c) in
    let? (c, secondary) :=
      match va_peers args with
      | Some path =>
          let? peers := load_peers fs path in
          Ok (set_bootstrap_peers c (format_bootstrappers (pi_bootstrappers peers)), pi_secondary peers)
      | None => Ok (c, [])
      end in
    let? bootstrap := map_err CliGenesis (bootstrap_load fs (path_join (nc_data_dir c) "genesis.json")) in
    if negb (bs_chain_id bootstrap =? nc_chain_id c)
    then Err (CliChainId (bs_chain_id bootstrap) (nc_chain_id c))
    else
      let http := rc_http_addr (nc_rpc c) in
      let? rpc_addr := ok_or (parse_socket_addr http) (CliAddress "rpc.http_addr" http) in
      let count := do_participants dkg_output in
      if u32_max <? count then Err (CliCount count)
      else if count =? 0 then Err CliNoParticipants
      else
        let index := do_share_index dkg_output in
        if count <=? index then Err (CliShareIndex index count)
        else
          let? node_state := ok_or (ns_with_validator_count (nc_chain_id c) index count) CliPanic in
          let metrics := va_metrics_addr args in
          let? metrics_addr := ok_or (parse_socket_addr metrics) (CliAddress "--metrics-addr" metrics) in
          Ok (mkValidatorStart scheme (nc_chain_id c) bootstrap node_state rpc_addr metrics_addr secondary c).

(** [run_standalone], up to the run of the node: its transport, the peers its
    oracle tracks and the limits of its blocks, if it handles blocks. *)
Record Running := mkRunning {
  rn_storage : string;
  rn_transport : NetworkTransport;
  rn_validators : list PublicKey;
  rn_secondary : list PublicKey;
  rn_block_cfg : option BlockCfg;
}.
Definition run_standalone (v : ValidatorStart) (env : Env) : Io Running :=
  let c := vs_config v in
  let storage := runtime_storage_directory_from (nc_data_dir c) (en_runtime_dir env) in
  let* key := cli_validator_key c env in
  let* transport := io_lift (map_err CliTransport (build_local_transport (nc_network c) key)) in
  io_ret (mkRunning storage transport (scheme_participants (vs_scheme v))
    (from_iter_dedup (vs_secondary_peers v)) (Some (block_codec_cfg (cc_block_codec (nc_consensus c))))).

(** *** kora secondary, up to the moment it has joined the network; the metrics
    server and the health log it then starts, and its end on a signal, have no
    part in the model. *)

Definition run_secondary (cli : Cli) (args : SecondaryArgs) (env : Env) : Io Running :=
  let* c := fun fs => (load_config cli env fs, fs) in
  let* peers := fun fs => (load_peers fs (ra_peers args), fs) in
  let c := set_bootstrap_peers c (format_bootstrappers (pi_bootstrappers peers)) in
  let* identity_key := cli_validator_key c env in
  let my_pk := public_key identity_key in
  if negb (bool_decide (my_pk ∈ pi_secondary peers)) then io_fail CliNotSecondary
  else
    let* _ := io_lift (ok_or (parse_socket_addr (ra_metrics_addr args))
                         (CliAddress "--metrics-addr" (ra_metrics_addr args))) in
    let* _ := io_lift (ok_or (parse_socket_addr (ra_rpc_addr args))
                         (CliAddress "--rpc-addr" (ra_rpc_addr args))) in
    let storage := runtime_storage_directory_from (nc_data_dir c) (en_runtime_dir env) in
    let* transport := io_lift (map_err CliTransport (build_local_transport (nc_network c) identity_key)) in
    io_ret (mkRunning storage transport (from_iter_dedup (pi_participants peers))
      (from_iter_dedup (pi_secondary peers)) None).

(** *** The legacy node: its transport and the validators its oracle tracks, if
    there are any. *)
Definition run_legacy (cli : Cli) (env : Env) : Io (NetworkTransport * option (list PublicKey)) :=
  let* c := fun fs => (load_config cli env fs, fs) in
  let* key := cli_validator_key c env in
  let* transport := io_lift (map_err CliTransport (build_local_transport (nc_network c) key)) in
  let* validators := io_lift (map_err CliConfig (build_validator_set (nc_consensus c))) in
  match validators with
  | [] => io_ret (transport, None)
  | _ =>
      let* set := io_lift (ok_or (try_collect validators) CliValidatorSet) in
      io_ret (transport, Some set)
  end.

(** [run]. *)
Inductive Started :=
| StartedDkg (s : DkgStart)
| StartedValidator (v : ValidatorStart) (r : Running)
| StartedSecondary (r : Running)
| StartedLegacy (t : NetworkTransport) (validators : option (list PublicKey)).
Definition cli_run (cli : Cli) (env : Env) : Io Started :=
  match cli_command cli with
  | Some (CommandDkg args) => let* s := run_dkg cli args env in io_ret (StartedDkg s)
  | Some (CommandValidator args) =>
      let* v := fun fs => (run_validator cli args env fs, fs) in
      let* r := run_standalone v env in
      io_ret (StartedValidator v r)
  | Some (CommandSecondary args) => let* r := run_secondary cli args env in io_ret (StartedSecondary r)
  | None => let* (t, validators) := run_legacy cli env in io_ret (StartedLegacy t validators)
  end.
End cli.
