(* ===== verification/Devnet.v ===== *)
(** A devnet from its setup to running nodes: the files bin/keygen writes are
    the files bin/kora reads. *)
From Stdlib Require Import Ascii.
From S2P Require Import Prelude Text Hex NetAddr Json Bytes TxTypes Codec Block Dkg DkgParticipant DkgCeremony.
From S2P Require Import NodeState Config Transport Genesis Keygen Cli.
Open Scope Z_scope.

(** ** Paths *)

Definition no_slash (s : string) : bool := all_chars (fun c => negb (Ascii.eqb c "/"%char)) s.

Lemma path_join_inj d d' a b :
  no_slash a = true -> no_slash b = true -> path_join d a = path_join d' b -> d = d' /\ a = b.
Proof.
  unfold path_join. intros Ha Hb E.
  assert (rsplit_once "/" (d +:+ String "/" a) = Some (d, a)) as E1 by by apply rsplit_once_app.
  assert (rsplit_once "/" (d' +:+ String "/" b) = Some (d', b)) as E2 by by apply rsplit_once_app.
  change (d +:+ String "/" a = d' +:+ String "/" b) in E. rewrite E, E2 in E1. by simplify_eq.
Qed.

Definition is_prefix (p : string) : Prop := p = "node" \/ p = "secondary".

Lemma append_inj_l a b c : a +:+ b = a +:+ c -> b = c.
Proof. induction a as [|x a IH]; simpl; [done|]. intros [= E]. by apply IH. Qed.

Lemma node_name_inj p q i j :
  is_prefix p -> is_prefix q -> node_name p i = node_name q j -> p = q /\ i = j.
Proof.
  unfold node_name. intros [->| ->] [->| ->] E; try done.
  all: apply append_inj_l, show_uint_inj in E; [split; [done|lia]|lia|lia].
Qed.

Lemma node_name_no_slash p i : is_prefix p -> no_slash (node_name p i) = true.
Proof.
  intros Hp. unfold no_slash, node_name. rewrite all_chars_app. apply andb_true_iff.
  split; [by destruct Hp as [->| ->]|]. destruct (show_uint_digits (Z.of_nat i)) as [H _]; [lia|].
  eapply all_chars_impl; [|done]. intros c. by destruct c as [[] [] [] [] [] [] [] []].
Qed.

(** A node of the network: its kind and its number. *)
Abbreviation Node := (string * nat)%type (only parsing).

Section files.
Context (out : string).

Definition node_dir (n : Node) : string := path_join out (node_name n.1 n.2).
Definition node_file (n : Node) (name : string) : string := path_join (node_dir n) name.

Lemma node_dir_inj n m : is_prefix n.1 -> is_prefix m.1 -> node_dir n = node_dir m -> n = m.
Proof.
  intros Hn Hm E. apply path_join_inj in E as [_ E]; [|by apply node_name_no_slash..].
  apply node_name_inj in E as [??]; [|done..]. destruct n, m. by f_equal.
Qed.

Lemma node_file_inj n m a b :
  is_prefix n.1 -> is_prefix m.1 -> no_slash a = true -> no_slash b = true ->
  node_file n a = node_file m b -> n = m /\ a = b.
Proof.
  intros Hn Hm Ha Hb E. apply path_join_inj in E as [E ?]; [|done..]. by apply node_dir_inj in E.
Qed.

Lemma node_file_ne n m a b :
  is_prefix n.1 -> is_prefix m.1 -> no_slash a = true -> no_slash b = true -> n <> m \/ a <> b ->
  node_file n a <> node_file m b.
Proof. intros ???? Hne E%node_file_inj; naive_solver. Qed.

Lemma node_file_top n a b :
  no_slash a = true -> no_slash b = true -> a <> b -> node_file n a <> path_join out b.
Proof. intros Ha Hb Hne E. by apply path_join_inj in E as [_ ?]. Qed.
End files.

(** ** Setup *)

Section setup.
Context `{AT : !AlloyText} `{GT : !GenesisText} `{LIB : !DkgLib} `{KS : !KeySeed} `{DT : !DocText} `{LK : !LoadgenKeys}.
Context (args : SetupArgs).
#[local] Abbreviation out := (sa_output_dir args) (only parsing).

Definition key_file (n : Node) : string := node_file out n "validator.key".
Definition setup_file (n : Node) : string := node_file out n "setup.json".

(** The seed of a node's key: the one in its file, or a new one. *)
Definition node_seed (seeds : string -> bytes) (fs : Fs) (n : Node) : bytes :=
  match fs_files fs !! key_file n with Some (RawFile b) => b | _ => seeds (key_file n) end.
Definition node_hex (seed : bytes) : string := key_hex (key_of_seed seed).
Definition node_setup (n : Node) (seed : bytes) : Value :=
  en_node_setup (mkNodeSetup (Z.of_nat n.2) (node_hex seed) (sa_base_port args)).

(** The files after the turn of a node. *)
Definition put_node (seeds : string -> bytes) (fs : Fs) (n : Node) : Fs :=
  let seed := node_seed seeds fs n in
  mkFs (<[setup_file n := JsonFile (node_setup n seed)]> (<[key_file n := RawFile seed]> (fs_files fs)))
    (fs_denied fs).

(** A key file that is there has a seed of 32 bytes. *)
Definition key_ok (fs : Fs) (n : Node) : Prop :=
  forall f, fs_files fs !! key_file n = Some f -> exists b, f = RawFile b /\ len b = 32.

Record node_settled (fs : Fs) (n : Node) (seed : bytes) : Prop := {
  settled_key : fs_files fs !! key_file n = Some (RawFile seed);
  settled_len : len seed = 32;
  settled_setup : fs_files fs !! setup_file n = Some (JsonFile (node_setup n seed));
}.

Lemma key_setup_ne n m : is_prefix n.1 -> is_prefix m.1 -> key_file n <> setup_file m.
Proof. intros ??. apply node_file_ne; try done. by right. Qed.
Lemma key_file_ne n m : is_prefix n.1 -> is_prefix m.1 -> n <> m -> key_file n <> key_file m.
Proof. intros ???. apply node_file_ne; try done. by left. Qed.
Lemma setup_file_ne n m : is_prefix n.1 -> is_prefix m.1 -> n <> m -> setup_file n <> setup_file m.
Proof. intros ???. apply node_file_ne; try done. by left. Qed.

Lemma fs_write_free fs path f : fs_denied fs = ∅ -> fs_write fs path f = Ok (mkFs (<[path := f]> (fs_files fs)) ∅).
Proof. intros Hd. unfold fs_write. rewrite Hd. by rewrite decide_False by set_solver. Qed.
Lemma fs_read_free fs path : fs_denied fs = ∅ -> fs_read fs path = ok_or (fs_files fs !! path) NotFound.
Proof. intros Hd. unfold fs_read. rewrite Hd. by rewrite decide_False by set_solver. Qed.
Lemma create_dir_free fs dir : fs_denied fs = ∅ -> create_dir_all fs dir = Ok tt.
Proof. intros Hd. unfold create_dir_all. rewrite Hd. by rewrite decide_False by set_solver. Qed.

Section run.
Context (seeds : string -> bytes) (seeds_len : forall p, len (seeds p) = 32).

Lemma node_seed_len fs n : key_ok fs n -> len (node_seed seeds fs n) = 32.
Proof using seeds_len.
  intros Hk. unfold node_seed. destruct (fs_files fs !! key_file n) as [f|] eqn:E; [|done].
  destruct (Hk f E) as (b & -> & Hb). done.
Qed.

Lemma setup_node_run fs n :
  fs_denied fs = ∅ -> is_prefix n.1 -> key_ok fs n ->
  setup_node seeds args n.1 n.2 fs = (Ok (node_hex (node_seed seeds fs n)), put_node seeds fs n).
Proof using seeds_len.
  intros Hd Hp Hk. unfold setup_node, io_bind, io_read_err. rewrite create_dir_free by done. cbn [map_err].
  change (path_join (path_join out (node_name n.1 n.2)) "validator.key") with (key_file n).
  change (path_join (path_join out (node_name n.1 n.2)) "setup.json") with (setup_file n).
  unfold identity_key, fs_exists, put_node, node_seed. destruct (fs_files fs !! key_file n) as [f|] eqn:E; cbn [is_some].
  - destruct (Hk f E) as (b & -> & Hb). unfold io_bind, io_read_err, fs_read_raw.
    rewrite fs_read_free, E by done. cbn. rewrite Hb. cbn. unfold io_write_err. rewrite fs_write_free by done.
    cbn. rewrite (insert_id (fs_files fs) (key_file n) (RawFile b)), Hd by done. by destruct n.
  - unfold io_bind, io_write_err. rewrite fs_write_free by done. cbn. rewrite fs_write_free by done. cbn.
    rewrite Hd. by destruct n.
Qed.

(** A node's turn settles it and leaves the files of other nodes. *)
Lemma put_node_other fs n path :
  path <> key_file n -> path <> setup_file n -> fs_files (put_node seeds fs n) !! path = fs_files fs !! path.
Proof. intros H1 H2. cbn. by rewrite !lookup_insert_ne. Qed.

Lemma put_node_settled fs n :
  is_prefix n.1 -> key_ok fs n -> node_settled (put_node seeds fs n) n (node_seed seeds fs n).
Proof using seeds_len.
  intros Hp Hk. split; cbn; [|by apply node_seed_len|by rewrite lookup_insert_eq].
  rewrite lookup_insert_ne by (apply not_eq_sym; by apply key_setup_ne). by rewrite lookup_insert_eq.
Qed.

Lemma put_node_key fs n m :
  is_prefix n.1 -> is_prefix m.1 -> n <> m ->
  fs_files (put_node seeds fs n) !! key_file m = fs_files fs !! key_file m.
Proof.
  intros. apply put_node_other; [by apply key_file_ne; auto|by apply key_setup_ne].
Qed.

Lemma put_node_seed fs n m :
  is_prefix n.1 -> is_prefix m.1 -> n <> m ->
  node_seed seeds (put_node seeds fs n) m = node_seed seeds fs m.
Proof. intros. unfold node_seed at 1. by rewrite put_node_key. Qed.

Lemma put_node_key_ok fs n m :
  is_prefix n.1 -> is_prefix m.1 -> n <> m -> key_ok fs m -> key_ok (put_node seeds fs n) m.
Proof. intros ??? Hk f. rewrite put_node_key by done. apply Hk. Qed.

(** The turns of nodes, one after the other. *)
Definition put_nodes (fs : Fs) (ns : list Node) : Fs := foldl (put_node seeds) fs ns.

Definition nodes_ok (fs : Fs) (ns : list Node) : Prop :=
  fs_denied fs = ∅ /\ NoDup ns /\ Forall (fun n => is_prefix n.1 /\ key_ok fs n) ns.

Lemma nodes_ok_cons fs n ns :
  nodes_ok fs (n :: ns) ->
  is_prefix n.1 /\ key_ok fs n /\ nodes_ok (put_node seeds fs n) ns
  /\ forall m, m ∈ ns -> is_prefix m.1 /\ n <> m.
Proof.
  intros (Hd & [Hn Hnd]%NoDup_cons & [[Hp Hk] Hall]%Forall_cons). rewrite Forall_forall in Hall.
  assert (forall m, m ∈ ns -> is_prefix m.1 /\ n <> m) as Hne.
  { intros m Hm. split; [by apply Hall|]. by intros ->. }
  split_and!; try done. split_and!; [done|done|]. apply Forall_forall. intros m Hm. destruct (Hall m Hm) as [? Hkm]. split; [done|].
  apply put_node_key_ok; [done|done|by apply Hne|done].
Qed.

Lemma put_nodes_other fs ns path :
  (forall n, n ∈ ns -> path <> key_file n /\ path <> setup_file n) ->
  fs_files (put_nodes fs ns) !! path = fs_files fs !! path.
Proof.
  unfold put_nodes. revert fs. induction ns as [|n ns IH]; intros fs H; [done|]. cbn [foldl].
  rewrite IH by (intros m Hm; apply H; by right).
  destruct (H n ltac:(by left)). by apply put_node_other.
Qed.

Lemma put_nodes_denied fs ns : fs_denied (put_nodes fs ns) = fs_denied fs.
Proof. unfold put_nodes. revert fs. induction ns as [|n ns IH]; intros fs; [done|]. cbn [foldl]. by rewrite IH. Qed.

Lemma put_nodes_settled fs ns n :
  nodes_ok fs ns -> n ∈ ns -> node_settled (put_nodes fs ns) n (node_seed seeds fs n).
Proof using seeds_len.
  revert fs. induction ns as [|m ns IH]; intros fs Hok Hn; [by apply not_elem_of_nil in Hn|].
  apply nodes_ok_cons in Hok as (Hp & Hk & Hok & Hne). unfold put_nodes. cbn [foldl].
  apply elem_of_cons in Hn as [->|Hn].
  - destruct (put_node_settled fs m Hp Hk) as [S1 S2 S3].
    split; [rewrite <- S1|done|rewrite <- S3]; apply (put_nodes_other _ ns); intros k Hk';
      destruct (Hne k Hk'); split.
    all: try (by apply key_file_ne); try (by apply setup_file_ne); try (by apply key_setup_ne).
    apply not_eq_sym. by apply key_setup_ne.
  - destruct (Hne n Hn). rewrite <- (put_node_seed fs m n) by done. by apply IH.
Qed.

(** Settled nodes stay as they are. *)
Lemma put_node_id fs n seed : node_settled fs n seed -> put_node seeds fs n = fs.
Proof.
  intros [Hk _ Hs]. unfold put_node, node_seed. rewrite Hk. cbn. rewrite (insert_id (fs_files fs)) by done.
  rewrite insert_id by done. by destruct fs.
Qed.

Lemma put_nodes_id fs ns :
  (forall n, n ∈ ns -> exists seed, node_settled fs n seed) -> put_nodes fs ns = fs.
Proof.
  unfold put_nodes. induction ns as [|n ns IH]; intros H; [done|]. cbn [foldl].
  destruct (H n) as [seed Hn]; [by left|]. rewrite (put_node_id fs n seed) by done.
  apply IH. intros m Hm. apply H. by right.
Qed.

Lemma nodes_ok_app fs ns ms :
  nodes_ok fs (ns ++ ms) ->
  nodes_ok fs ns /\ nodes_ok (put_nodes fs ns) ms
  /\ forall m, m ∈ ms -> node_seed seeds (put_nodes fs ns) m = node_seed seeds fs m.
Proof.
  revert fs. induction ns as [|n ns IH]; intros fs Hok.
  { split_and!; [|done|done]. destruct Hok. by repeat split; [|constructor|constructor]. }
  pose proof Hok as Hok'. cbn in Hok'. apply nodes_ok_cons in Hok' as (Hp & Hk & Hok' & Hne).
  apply IH in Hok' as (H1 & H2 & H3). unfold put_nodes. cbn [foldl]. split_and!; [|done|].
  - destruct Hok as (Hd & Hnd & Hall). apply NoDup_app in Hnd as (Hnd & _). by apply Forall_app in Hall as [Hall _].
  - intros m Hm. rewrite <- (put_node_seed fs n m); [by apply H3|done|..]; apply Hne; 
    apply elem_of_app; by right.
Qed.

Definition node_hexes (fs : Fs) (ns : list Node) : list string :=
  (fun n => node_hex (node_seed seeds fs n)) <$> ns.

Lemma node_hexes_put fs n ns :
  nodes_ok fs (n :: ns) -> node_hexes (put_node seeds fs n) ns = node_hexes fs ns.
Proof.
  intros (Hp & _ & _ & Hne)%nodes_ok_cons. unfold node_hexes. apply list_fmap_ext.
  intros i m Hm%list_elem_of_lookup_2. destruct (Hne m Hm). by rewrite put_node_seed.
Qed.

Lemma setup_secondary_run fs ids :
  let ns := pair "secondary" <$> ids in
  nodes_ok fs ns -> setup_secondary seeds args ids fs = (Ok (node_hexes fs ns), put_nodes fs ns).
Proof using seeds_len.
  cbv zeta. revert fs. induction ids as [|i ids IH]; intros fs Hok; [done|].
  pose proof Hok as (Hp & Hk & Hok' & _)%nodes_ok_cons. cbn [setup_secondary]. unfold io_bind at 1.
  change (setup_node seeds args "secondary" i fs)
    with (setup_node seeds args ("secondary", i).1 ("secondary", i).2 fs).
  rewrite setup_node_run by (try done; apply Hok). unfold io_bind. rewrite IH by done. cbn [io_ret].
  unfold io_ret. do 2 f_equal. cbn. by rewrite (node_hexes_put fs ("secondary", i)) by done.
Qed.

Definition hostname (i : nat) : string := node_name "node" i +:+ ":" +:+ show_uint (sa_base_port args).
Definition put_hosts (bs : gmap string string) (l : list (string * nat)) : gmap string string :=
  foldl (fun b e => <[e.1 := hostname e.2]> b) bs l.

Lemma setup_validators_run fs ids bs :
  let ns := pair "node" <$> ids in
  nodes_ok fs ns ->
  setup_validators seeds args ids bs fs
  = (Ok (node_hexes fs ns, put_hosts bs (zip (node_hexes fs ns) ids)), put_nodes fs ns).
Proof using seeds_len.
  cbv zeta. revert fs bs. induction ids as [|i ids IH]; intros fs bs Hok; [done|].
  pose proof Hok as (Hp & Hk & Hok' & _)%nodes_ok_cons. cbn [setup_validators]. unfold io_bind at 1.
  change (setup_node seeds args "node" i fs) with (setup_node seeds args ("node", i).1 ("node", i).2 fs).
  rewrite setup_node_run by (try done; apply Hok). unfold io_bind. rewrite IH by done. unfold io_ret.
  by rewrite (node_hexes_put fs ("node", i)) by done.
Qed.

(** The nodes of the network, and the files after the setup. *)
Definition validator_nodes : list Node := pair "node" <$> validator_indices (sa_validators args).
Definition secondary_nodes : list Node := pair "secondary" <$> validator_indices (sa_secondary_peers args).
Definition network_nodes : list Node := validator_nodes ++ secondary_nodes.

Definition peers_file : string := path_join out "peers.json".
Definition genesis_file : string := path_join out "genesis.json".
Definition setup_peers (fs : Fs) : PeersConfig :=
  let hexes := node_hexes fs validator_nodes in
  mkPeersConfig (sa_validators args) (quorum (sa_validators args)) hexes (node_hexes fs secondary_nodes)
    (put_hosts ∅ (zip hexes (validator_indices (sa_validators args)))).
Definition setup_fs (fs : Fs) : Fs :=
  mkFs (<[genesis_file := JsonFile (en_genesis (setup_genesis args))]>
         (<[peers_file := JsonFile (en_peers (setup_peers fs))]> (fs_files (put_nodes fs network_nodes)))) ∅.

Lemma setup_run_ok fs :
  nodes_ok fs network_nodes -> setup_run seeds args fs = (Ok tt, setup_fs fs).
Proof using seeds_len.
  intros Hok. pose proof Hok as (Hv & Hs & Hseed)%nodes_ok_app. unfold setup_run, io_bind, io_read_err.
  rewrite create_dir_free by apply Hok. cbn [map_err]. rewrite setup_validators_run by done.
  rewrite setup_secondary_run by done. fold validator_nodes secondary_nodes.
  assert (node_hexes (put_nodes fs validator_nodes) secondary_nodes = node_hexes fs secondary_nodes) as ->.
  { apply list_fmap_ext. intros i m Hm%list_elem_of_lookup_2. by rewrite Hseed. }
  assert (fs_denied (put_nodes (put_nodes fs validator_nodes) secondary_nodes) = ∅) as Hd.
  { rewrite !put_nodes_denied. apply Hok. }
  unfold io_write_err. rewrite fs_write_free by done. rewrite fs_write_free by done. cbn [fs_files].
  unfold setup_fs, network_nodes, put_nodes. by rewrite foldl_app.
Qed.

Lemma network_prefix n : n ∈ network_nodes -> is_prefix n.1.
Proof.
  unfold network_nodes, validator_nodes, secondary_nodes. rewrite elem_of_app, !list_elem_of_fmap.
  intros [(i & -> & _)|(i & -> & _)]; [by left|by right].
Qed.

Lemma setup_settled fs n :
  nodes_ok fs network_nodes -> n ∈ network_nodes ->
  node_settled (setup_fs fs) n (node_seed seeds fs n).
Proof using seeds_len.
  intros Hok Hn. destruct (put_nodes_settled fs network_nodes n Hok Hn) as [H1 H2 H3].
  split; [|done|]; cbn; rewrite !lookup_insert_ne; [done| | |done| |].
  all: apply not_eq_sym; by apply node_file_top.
Qed.
End run.

Lemma node_seed_settled seeds fs n seed : node_settled fs n seed -> node_seed seeds fs n = seed.
Proof. intros [Hk _ _]. unfold node_seed. by rewrite Hk. Qed.

Section again.
Context (seeds seeds' : string -> bytes) (seeds_len : forall p, len (seeds p) = 32)
  (seeds_len' : forall p, len (seeds' p) = 32).

Lemma setup_nodes_ok fs : nodes_ok fs network_nodes -> nodes_ok (setup_fs seeds fs) network_nodes.
Proof using seeds_len.
  intros Hok. pose proof Hok as (Hd & Hnd & _). split_and!; [done|done|]. apply Forall_forall. intros n Hn.
  split; [by apply network_prefix|]. destruct (setup_settled seeds seeds_len fs n Hok Hn) as [Hk Hl _].
  intros f. rewrite Hk. intros [= <-]. by eexists.
Qed.

(** A second setup finds everything in place. *)
Lemma setup_fs_again fs :
  nodes_ok fs network_nodes -> setup_fs seeds' (setup_fs seeds fs) = setup_fs seeds fs.
Proof using seeds_len.
  intros Hok.
  assert (forall n, n ∈ network_nodes -> node_seed seeds' (setup_fs seeds fs) n = node_seed seeds fs n) as Hseed.
  { intros n Hn. eapply node_seed_settled. by apply setup_settled. }
  assert (setup_peers seeds' (setup_fs seeds fs) = setup_peers seeds fs) as Hp.
  { assert (forall ns, (forall n, n ∈ ns -> n ∈ network_nodes) ->
      node_hexes seeds' (setup_fs seeds fs) ns = node_hexes seeds fs ns) as E.
    { intros ns Hns. apply list_fmap_ext. intros i n Hn%list_elem_of_lookup_2. by rewrite Hseed by auto. }
    unfold setup_peers. rewrite !E; [done|..]; intros n Hn; apply elem_of_app; auto. }
  unfold setup_fs at 1. rewrite Hp.
  rewrite (put_nodes_id seeds' (setup_fs seeds fs))
    by (intros n Hn; eexists; by apply setup_settled).
  rewrite (insert_id (fs_files (setup_fs seeds fs))).
  2:{ cbn. rewrite lookup_insert_ne, lookup_insert_eq; [done|]. intros E. by apply path_join_inj in E as [_ ?]. }
  rewrite insert_id by (cbn; by rewrite lookup_insert_eq). done.
Qed.
End again.
End setup.

(** ** Peers *)

Section peers.
Context `{AT : !AlloyText} `{GT : !GenesisText} `{LIB : !DkgLib} `{KS : !KeySeed} `{DT : !DocText} `{LK : !LoadgenKeys}
  `{JO : !JsonOrder} `{LAWS : !DkgLaws}.
#[local] Set Default Proof Using "Type*".

Lemma parse_public_key_hex pk : pk_ok pk -> parse_public_key (hex_encode (write_pk pk)) = Ok pk.
Proof.
  intros Hpk. unfold parse_public_key. rewrite hex_law by apply pk_bytes. cbn.
  pose proof (pk_law pk Hpk []) as Hr. rewrite app_nil_r in Hr. by rewrite Hr.
Qed.

Lemma parse_public_keys_hex l :
  Forall pk_ok l -> parse_public_keys ((fun pk => hex_encode (write_pk pk)) <$> l) = Ok l.
Proof.
  induction 1 as [|pk l Hpk _ IH]; [done|]. cbn -[parse_public_key]. rewrite parse_public_key_hex by done.
  cbn in IH. by rewrite IH.
Qed.

Lemma pk_hex_inj a b : pk_ok a -> pk_ok b -> hex_encode (write_pk a) = hex_encode (write_pk b) -> a = b.
Proof.
  intros Ha Hb E. pose proof (parse_public_key_hex a Ha) as H1. rewrite E, parse_public_key_hex in H1 by done.
  by injection H1.
Qed.

Lemma pk_hexes_nodup l : Forall pk_ok l -> NoDup l -> NoDup ((fun pk => hex_encode (write_pk pk)) <$> l).
Proof.
  intros Hl. rewrite Forall_forall in Hl. induction 1 as [|pk l Hn _ IH]; [apply NoDup_nil_2|].
  rewrite fmap_cons. apply NoDup_cons. split.
  - rewrite list_elem_of_fmap. intros (q & E & Hq). apply pk_hex_inj in E; [by subst|apply Hl; set_solver..].
  - apply IH. set_solver.
Qed.

Definition peer_entry (e : PublicKey * string) : string * Value := (hex_encode (write_pk e.1), VString e.2).

Lemma parse_peer_entries_hex l :
  Forall pk_ok l.*1 -> parse_peer_entries (peer_entry <$> l) = Ok l.
Proof.
  induction l as [|[pk a] l IH]; [done|]. intros [Hpk Hl]%Forall_cons. cbn -[parse_public_key] in *.
  rewrite parse_public_key_hex by done. cbn. by rewrite IH.
Qed.

Lemma put_hosts_list args bs l :
  NoDup l.*1 -> (forall k, k ∈ l.*1 -> bs !! k = None) ->
  map_to_list (put_hosts args bs l) ≡ₚ ((fun e => (e.1, hostname args e.2)) <$> l) ++ map_to_list bs.
Proof.
  unfold put_hosts. revert bs. induction l as [|[k i] l IH]; intros bs Hnd Hbs; [done|]. cbn [foldl fst snd].
  apply NoDup_cons in Hnd as [Hk Hnd]. rewrite IH; [|done|].
  - rewrite map_to_list_insert by (apply Hbs; by left). cbn. by rewrite <- Permutation_middle.
  - intros k' Hk'. rewrite lookup_insert_ne by (intros ->; done). apply Hbs. by right.
Qed.

(** The peers of a document written by the setup. *)
Lemma peers_of_setup args (pks secondary : list PublicKey) (ids : list nat) v q :
  Forall pk_ok pks -> Forall pk_ok secondary -> NoDup pks -> length ids = length pks ->
  let hexes := (fun pk => hex_encode (write_pk pk)) <$> pks in
  exists bs, bs ≡ₚ zip pks (hostname args <$> ids)
  /\ peers_of (en_peers (mkPeersConfig v q hexes ((fun pk => hex_encode (write_pk pk)) <$> secondary)
                           (put_hosts args ∅ (zip hexes ids))))
     = Ok (mkPeersInfo pks secondary bs).
Proof.
  intros Hp Hs Hnd Hlen hexes.
  assert (forall l : list string, omap as_str (VString <$> l) = l) as Ho
    by (intros l; induction l as [|x l IH]; [done|]; cbn; by f_equal).
  assert (NoDup (zip hexes ids).*1) as Hnd'.
  { rewrite fst_zip by (unfold hexes; rewrite length_fmap; lia). by apply pk_hexes_nodup. }
  pose proof (put_hosts_list args ∅ (zip hexes ids) Hnd' ltac:(intros; apply lookup_empty)) as Hm.
  rewrite map_to_list_empty, app_nil_r in Hm.
  assert (object_entries (VString <$> put_hosts args ∅ (zip hexes ids))
          ≡ₚ peer_entry <$> zip pks (hostname args <$> ids)) as He.
  { rewrite object_entries_perm, map_to_list_fmap, Hm. unfold hexes. clear -Hlen.
    revert ids Hlen. induction pks as [|pk pks IH]; intros [|i ids] Hlen; try done. cbn. constructor.
    apply IH. cbn in Hlen. lia. }
  apply Permutation_map_inv in He as (bs & He & Hbs). exists bs. split; [done|].
  unfold peers_of, en_peers. cbn [index_value object pc_participants pc_secondary_participants pc_bootstrappers].
  rewrite !lookup_assoc. cbn [assoc String.eqb Ascii.eqb Bool.eqb default from_option id as_array as_object ok_or].
  rewrite !Ho. unfold hexes. rewrite !parse_public_keys_hex by done. fold hexes.
  rewrite He. rewrite parse_peer_entries_hex; [done|].
  eapply Forall_Permutation; [done|by apply fmap_Permutation, symmetry|].
  rewrite fst_zip; [done|]. rewrite length_fmap. lia.
Qed.
End peers.

(** ** The setup of a network *)

Section devnet.
Context `{AT : !AlloyText} `{GT : !GenesisText} `{LIB : !DkgLib} `{KS : !KeySeed} `{DT : !DocText} `{LK : !LoadgenKeys}
  `{JO : !JsonOrder} `{LAWS : !DkgLaws}.
Context (args : SetupArgs).
#[local] Abbreviation out := (sa_output_dir args) (only parsing).

Definition seed_pk (seed : bytes) : PublicKey := public_key (key_of_seed seed).
Definition node_pk (seeds : string -> bytes) (fs : Fs) (n : Node) : PublicKey := seed_pk (node_seed args seeds fs n).

Lemma network_nodup : NoDup (network_nodes args).
Proof.
  unfold network_nodes, validator_nodes, secondary_nodes. apply NoDup_app. split_and!.
  - apply NoDup_fmap_2; [by intros ?? [=]|apply NoDup_seq].
  - intros n. rewrite !list_elem_of_fmap. intros (i & -> & _) (j & [=] & _).
  - apply NoDup_fmap_2; [by intros ?? [=]|apply NoDup_seq].
Qed.

(** A file system a setup can start from: nothing is denied, and the keys that
    are there have 32 bytes. *)
Definition setup_ready (fs : Fs) : Prop :=
  fs_denied fs = ∅ /\ forall n, n ∈ network_nodes args -> key_ok args fs n.

Lemma setup_ready_ok fs : setup_ready fs -> nodes_ok args fs (network_nodes args).
Proof.
  intros [Hd Hk]. split_and!; [done|apply network_nodup|]. apply Forall_forall. intros n Hn.
  split; [by eapply network_prefix|by apply Hk].
Qed.

Lemma validator_key_settled fs n seed c env_seed cut :
  fs_denied fs = ∅ -> node_settled args fs n seed -> key_path c = key_file args n ->
  validator_key c env_seed cut fs = (Ok (key_of_seed seed), fs).
Proof.
  intros Hd [Hk Hl _] Hp. unfold validator_key, fs_read_raw. rewrite Hp, fs_read_free, Hk by done. cbn.
  by rewrite Hl.
Qed.

Definition pk_hex (pk : PublicKey) : string := hex_encode (write_pk pk).

Lemma node_hexes_pks seeds fs ns : node_hexes args seeds fs ns = pk_hex <$> (node_pk seeds fs <$> ns).
Proof. unfold node_hexes. rewrite <- list_fmap_compose. done. Qed.

Lemma load_peers_setup seeds fs :
  let pks := node_pk seeds fs <$> validator_nodes args in
  let secondary := node_pk seeds fs <$> secondary_nodes args in
  Forall pk_ok pks -> Forall pk_ok secondary -> NoDup pks ->
  exists bs, bs ≡ₚ zip pks (hostname args <$> validator_indices (sa_validators args))
  /\ forall fs', fs_denied fs' = ∅ ->
       fs_files fs' !! peers_file args = Some (JsonFile (en_peers (setup_peers args seeds fs))) ->
       load_peers fs' (peers_file args) = Ok (mkPeersInfo pks secondary bs).
Proof using LAWS.
  intros pks secondary Hp Hs Hnd.
  destruct (peers_of_setup args pks secondary (validator_indices (sa_validators args)) (sa_validators args)
    (quorum (sa_validators args)) Hp Hs Hnd) as (bs & Hbs & E).
  { unfold pks, validator_nodes. by rewrite !length_fmap. }
  exists bs. split; [done|]. intros fs' Hd Hf. unfold load_peers, fs_read_text. rewrite fs_read_free, Hf by done.
  cbn [ok_or map_err]. unfold setup_peers. rewrite !node_hexes_pks. exact E.
Qed.

(** The keys of a network as the participants of a configuration. *)
Lemma build_validator_set_back c pks :
  Forall pk_ok pks -> cc_participants c = write_pk <$> pks -> build_validator_set c = Ok pks.
Proof using LAWS.
  intros Hok Hc. unfold build_validator_set. rewrite Hc. clear Hc.
  induction Hok as [|pk pks Hpk _ IH]; [done|]. cbn. unfold participant_key, len. rewrite pk_length. cbn.
  pose proof (pk_law pk Hpk []) as Hr. rewrite app_nil_r in Hr. rewrite Hr. cbn in IH. by rewrite IH.
Qed.

(** Setting a devnet up gives every node a key and a list of peers that it
    reads back: it succeeds, keeps the keys that are there, and a second setup
    changes nothing; each node loads the key whose public part the setup has
    written, and with distinct keys the file of peers loads with the keys of
    the validators and of the secondary peers in order and the host of each
    validator. *)
Theorem devnet_setup seeds seeds' fs :
  setup_ready fs -> (forall p, len (seeds p) = 32) -> (forall p, len (seeds' p) = 32) ->
  exists fs', setup_run seeds args fs = (Ok tt, fs')
  /\ setup_run seeds' args fs' = (Ok tt, fs')
  /\ (forall n f, n ∈ network_nodes args -> fs_files fs !! key_file args n = Some f ->
        fs_files fs' !! key_file args n = Some f)
  /\ (forall n c s cut, n ∈ network_nodes args -> key_path c = key_file args n ->
        validator_public_key c s cut fs' = (Ok (node_pk seeds fs n), fs'))
  /\ let pks := node_pk seeds fs <$> validator_nodes args in
     let secondary := node_pk seeds fs <$> secondary_nodes args in
     (Forall pk_ok pks -> Forall pk_ok secondary -> NoDup pks ->
      exists bs, load_peers fs' (peers_file args) = Ok (mkPeersInfo pks secondary bs)
        /\ bs ≡ₚ zip pks (hostname args <$> validator_indices (sa_validators args))).
Proof using LAWS.
  intros Hr Hl Hl'. apply setup_ready_ok in Hr as Hok. exists (setup_fs args seeds fs). split_and!.
  - by apply setup_run_ok.
  - rewrite setup_run_ok by (try done; by apply setup_nodes_ok). by rewrite setup_fs_again.
  - intros n f Hn Hf. destruct (setup_settled args seeds Hl fs n Hok Hn) as [Hk _ _]. rewrite Hk.
    unfold node_seed. rewrite Hf. destruct (proj2 Hr n Hn f Hf) as (b & -> & _). done.
  - intros n c s cut Hn Hp. unfold validator_public_key.
    by rewrite (validator_key_settled _ n (node_seed args seeds fs n)) by (try done; by apply setup_settled).
  - intros pks secondary Hp Hs Hnd. destruct (load_peers_setup seeds fs Hp Hs Hnd) as (bs & Hbs & E).
    exists bs. split; [|done]. apply E; [done|]. cbn. rewrite lookup_insert_ne, lookup_insert_eq; [done|].
    intros E'. by apply path_join_inj in E' as [_ ?].
Qed.
End devnet.
