(* ===== verification/DevnetStart.v ===== *)
(** From the setup of a devnet and the dealing of its shares to validators that
    start: every check of the command line passes on the files the two steps
    have written. *)
From Stdlib Require Import Ascii.
From S2P Require Import Prelude Text Hex NetAddr Json Bytes TxTypes Codec Block Dkg DkgParticipant DkgCeremony DkgLive.
From S2P Require Import NodeState Config Transport Genesis Keygen Cli Devnet.
Open Scope Z_scope.

(** ** Lists of keys *)

Lemma remove_dups_id (l : list Z) : NoDup l -> remove_dups l = l.
Proof.
  induction 1 as [|x l Hx _ IH]; [done|]. cbn [remove_dups]. case_decide; [done|]. by rewrite IH.
Qed.

Lemma dedup_sorted l : NoDup l -> from_iter_dedup (sort_by Z.compare l) = sort_by Z.compare l.
Proof.
  intros Hl. unfold from_iter_dedup. rewrite remove_dups_id by (by rewrite sort_by_perm).
  apply (sort_by_perm_eq Z.compare); [|by rewrite sort_by_perm]. intros x y _ _. apply Z.compare_eq.
Qed.

Lemma position_elem (l : list Z) x :
  x ∈ l -> exists k, position (Z.eqb x) l = Some k /\ (k < length l)%nat.
Proof.
  induction l as [|y l IH]; [by intros ?%not_elem_of_nil|]. cbn. destruct (Z.eqb_spec x y) as [->|Hne].
  { intros _. exists O. split; [done|lia]. }
  intros [->|Hx]%elem_of_cons; [done|]. destruct (IH Hx) as (k & -> & Hk). exists (S k). split; [done|lia].
Qed.

Lemma zip_fmap_r {A B C} (l : list A) (k : list B) (f : B -> C) :
  zip l (f <$> k) = (fun e => (e.1, f e.2)) <$> zip l k.
Proof. revert k. induction l as [|x l IH]; intros [|y k]; try done. cbn. f_equal. apply IH. Qed.

(** ** Documents *)

Section documents.
Context `{LIB : !DkgLib}.

Lemma output_back o :
  0 <= oj_threshold o <= u32_max -> 0 <= oj_participants o <= u64_max -> de_output (en_output o) = Some o.
Proof.
  destruct o as [g p t n k]. intros Ht Hn. cbn in Ht, Hn. unfold de_output, en_output.
  cbn [de_fields object mbind option_bind]. rewrite !de_field_object. rewrite de_default_object.
  cbn -[de_uint de_vec]. rewrite !de_uint_ok by done. cbn -[de_vec]. by rewrite strings_back.
Qed.

Lemma share_back s : 0 <= sj_index s <= u32_max -> de_share (en_share s) = Some s.
Proof.
  destruct s as [i x]. intros Hi. cbn in Hi. unfold de_share, en_share.
  cbn [de_fields object mbind option_bind]. rewrite !de_field_object. cbn -[de_uint]. by rewrite de_uint_ok.
Qed.
End documents.

(** ** The dealer *)

Section dealing.
Context `{AT : !AlloyText} `{GT : !GenesisText} `{LIB : !DkgLib} `{KS : !KeySeed} `{DT : !DocText} `{LK : !LoadgenKeys}
  `{JO : !JsonOrder} `{LAWS : !DkgLaws} `{DL : !DealLib}.
Context (args : SetupArgs).
#[local] Abbreviation out := (sa_output_dir args) (only parsing).

Lemma deal_participant_run fs i seed :
  fs_denied fs = ∅ -> node_settled args fs ("node", i) seed -> pk_ok (seed_pk seed) ->
  deal_participant out i fs = (Ok (seed_pk seed), fs).
Proof using LAWS.
  intros Hd [_ _ Hs] Hpk. unfold deal_participant, io_bind, io_read_err, fs_read_text.
  change (path_join (path_join out (node_name "node" i)) "setup.json") with (setup_file args ("node", i)).
  rewrite fs_read_free, Hs by done. cbn [ok_or map_err io_lift].
  unfold io_lift. cbn [index_value node_setup en_node_setup object ns_public_key]. rewrite lookup_assoc.
  cbn -[hex_decode hex_encode read_pk write_pk node_hex]. unfold node_hex, key_hex.
  rewrite hex_law by apply pk_bytes. cbn.
  pose proof (pk_law (seed_pk seed) Hpk []) as Hr. rewrite app_nil_r in Hr. unfold seed_pk in Hr. by rewrite Hr.
Qed.

Lemma deal_participants_run fs ids (seed : nat -> bytes) :
  fs_denied fs = ∅ ->
  (forall i, i ∈ ids -> node_settled args fs ("node", i) (seed i) /\ pk_ok (seed_pk (seed i))) ->
  deal_participants out ids fs = (Ok ((fun i => seed_pk (seed i)) <$> ids), fs).
Proof using LAWS.
  intros Hd. induction ids as [|i ids IH]; intros H; [done|]. cbn [deal_participants]. unfold io_bind at 1.
  destruct (H i) as [Hs Hp]; [by left|]. rewrite (deal_participant_run fs i (seed i)) by done. unfold io_bind.
  rewrite IH by (intros j Hj; apply H; by right). done.
Qed.

(** The share file of a node. *)
Definition share_doc (sh : Share) : Value :=
  en_share (mkShareJson (share_index sh) (hex_encode (write_share sh))).
Definition dealt_path (path : string) : Prop :=
  exists i name, path = node_file out ("node", i) name /\ (name = "output.json" \/ name = "share.key").

Lemma write_shares_run output shares pks fs i :
  fs_denied fs = ∅ -> (forall pk, pk ∈ pks -> is_some (shares !! pk) = true) ->
  exists fs', write_shares out output shares i pks fs = (Ok tt, fs') /\ fs_denied fs' = ∅
  /\ (forall path, (forall j name, (i <= j)%nat -> (name = "output.json" \/ name = "share.key") ->
        path <> node_file out ("node", j) name) -> fs_files fs' !! path = fs_files fs !! path)
  /\ (forall k pk sh, pks !! k = Some pk -> shares !! pk = Some sh ->
        fs_files fs' !! node_file out ("node", i + k)%nat "output.json" = Some (JsonFile (en_output output))
        /\ fs_files fs' !! node_file out ("node", i + k)%nat "share.key" = Some (JsonFile (share_doc sh))).
Proof.
  revert fs i. induction pks as [|pk pks IH]; intros fs i Hd Hall; [by exists fs|].
  assert (forall j k a b, no_slash a = true -> no_slash b = true -> j <> k \/ a <> b ->
    node_file out ("node", j) a <> node_file out ("node", k) b) as Hne.
  { intros j k a b Ha Hb H. apply node_file_ne; [by left|by left|done|done|]. destruct H; [left; congruence|by right]. }
  destruct (shares !! pk) as [sh|] eqn:Esh.
  2:{ specialize (Hall pk ltac:(by left)). by rewrite Esh in Hall. }
  cbn [write_shares]. unfold io_bind, io_lift, io_write_err. rewrite Esh. cbn [ok_or].
  change (path_join (path_join out (node_name "node" i)) ?n) with (node_file out ("node", i) n).
  rewrite fs_write_free by done. rewrite fs_write_free by done. cbn [fs_files].
  destruct (IH (mkFs (<[node_file out ("node", i) "share.key" := JsonFile (share_doc sh)]>
    (<[node_file out ("node", i) "output.json" := JsonFile (en_output output)]> (fs_files fs))) ∅) (S i))
    as (fs' & E & Hd' & Hother & Hfiles); [done|intros q Hq; apply Hall; by right|].
  exists fs'. split; [exact E|]. split; [done|]. split.
  - intros path Hp. rewrite Hother by (intros; apply Hp; [lia|done]). cbn.
    by rewrite !lookup_insert_ne by (apply not_eq_sym, Hp; [lia|auto]).
  - intros [|k] q sh' Hk Hsh.
    + injection Hk as <-. rewrite Esh in Hsh. injection Hsh as <-. rewrite Nat.add_0_r.
      rewrite !Hother.
      2-3: intros j name Hj [->| ->]; apply Hne; try done; left; lia.
      cbn. rewrite lookup_insert_eq, lookup_insert_ne, lookup_insert_eq; [done|]. apply Hne; [done|done|by right].
    + replace (i + S k)%nat with (S i + k)%nat by lia. by apply (Hfiles k q).
Qed.
End dealing.

(** ** A network that starts *)

Section start.
Context `{AT : !AlloyText} `{GT : !GenesisText} `{GL : !GenesisLaws} `{LIB : !DkgLib} `{KS : !KeySeed} `{DT : !DocText}
  `{LK : !LoadgenKeys} `{JO : !JsonOrder} `{LAWS : !DkgLaws} `{HX : !HexLaws} `{DL : !DealLib} `{DLL : !DealLaws}
  `{HL : !HostnameLib} `{D : !Discovery} `{SL : !SchemeLib} `{SLL : !SchemeLaws}.
#[local] Set Default Proof Using "Type*".

(** *** Genesis *)

Lemma funded_parse a : a ∈ FUNDED -> is_some (parse_address a) = true.
Proof.
  intros Ha. assert (exists h, a = "0x" +:+ h /\ all_chars is_hex h = true /\ String.length h = 40%nat) as (h & E & Hc & Hl).
  { unfold FUNDED in Ha. repeat (apply elem_of_cons in Ha as [->|Ha]; [by eexists|]). by apply not_elem_of_nil in Ha. }
  by eapply hex_address_parses.
Qed.

Lemma balance_parse : parse_u256 GENESIS_BALANCE = Some (10 ^ 24).
Proof.
  replace GENESIS_BALANCE with (show_uint (10 ^ 24)) by (vm_compute; reflexivity).
  apply decimal_back. split; vm_compute; congruence.
Qed.

(** The genesis file of the setup loads with its 57 accounts. *)
Lemma setup_genesis_load args fs path :
  0 <= sa_chain_id args <= u64_max -> fs_denied fs = ∅ ->
  fs_files fs !! path = Some (JsonFile (en_genesis (setup_genesis args))) ->
  exists alloc, bootstrap_load fs path = Ok (mkBootstrap (sa_chain_id args) alloc [] 0)
  /\ length alloc = 57%nat /\ Forall (fun e => e.2 = 10 ^ 24) alloc.
Proof.
  intros Hc Hd Hf. unfold bootstrap_load, fs_read_text. rewrite fs_read_free, Hf by done. cbn [ok_or map_err].
  rewrite genesis_back by done. cbn [ok_or].
  set (addr := fun a => default 0 (parse_address a)).
  set (l := gj_allocations (setup_genesis args)).
  assert (parse_allocations l = Ok ((fun a => (addr (al_address a), 10 ^ 24)) <$> l)) as E.
  { apply parse_allocations_ok, Forall2_fmap_r, Forall_Forall2_diag, Forall_forall. intros a Ha.
    assert (is_some (parse_address (al_address a)) = true /\ al_balance a = GENESIS_BALANCE) as [Hp ->].
    { change (a ∈ (funded_allocation <$> FUNDED) ++ funded_loadgen_allocations) in Ha.
      apply elem_of_app in Ha as [Ha|Ha].
      - apply list_elem_of_fmap in Ha as (s & -> & Hs).
        split; [by apply funded_parse|done].
      - unfold funded_loadgen_allocations in Ha. apply list_elem_of_fmap in Ha as (s & -> & Hs).
        split; [|done]. cbn. by rewrite show_address_back by apply address_of_secret_width. }
    split; [|apply balance_parse]. cbn. unfold addr. by destruct (parse_address (al_address a)). }
  rewrite E. eexists. split; [done|]. split; [by rewrite length_fmap|].
  apply Forall_fmap, Forall_true. done.
Qed.

(** *** The dealer's output *)

Lemma dealt_output_load fs dir (n : usize) o sh ps :
  1 <= n <= u32_max -> 0 <= share_index sh <= u32_max -> fs_denied fs = ∅ ->
  fs_files fs !! path_join dir "output.json"
    = Some (JsonFile (en_output (mkOutputJson (hex_encode (write_group_key o)) (hex_encode (write_polynomial o))
        (quorum n) n (pk_hex <$> ps)))) ->
  fs_files fs !! path_join dir "share.key" = Some (JsonFile (share_doc sh)) ->
  dkg_output_exists fs dir = true
  /\ dkg_output_load fs dir
     = Ok (mkDkgOutput (write_group_key o) (write_polynomial o) (quorum n) n (share_index sh) (write_share sh)
             (write_pk <$> ps)).
Proof.
  intros Hn Hi Hd Ho Hs. split; [unfold dkg_output_exists, fs_exists; by rewrite Ho, Hs|].
  assert (0 <= quorum n <= u32_max) as Hq.
  { rewrite quorum_third by done. pose proof (Z.div_pos (n - 1) 3). pose proof (Z.mul_div_le (n - 1) 3). lia. }
  unfold dkg_output_load, load_dkg_file, fs_read_text. rewrite !fs_read_free, Ho, Hs by done. cbn [ok_or map_err].
  rewrite output_back by (cbn; unfold u64_max, u32_max in *; lia). cbn [ok_or].
  unfold share_doc. rewrite share_back by done. cbn [ok_or].
  set (r := mkDkgOutput (write_group_key o) _ _ _ _ _ _).
  pose proof (output_load_save r ps (mkDisk None None None) eq_refl eq_refl) as H. cbn in H |- *.
  rewrite <- list_fmap_compose in H. destruct (output_bytes o). apply H; [done|done|apply share_bytes].
Qed.

Lemma read_participants_back ps : Forall pk_ok ps -> read_participants (write_pk <$> ps) = Ok ps.
Proof.
  induction 1 as [|pk ps Hpk _ IH]; [done|]. cbn. pose proof (pk_law pk Hpk []) as Hr.
  rewrite app_nil_r in Hr. rewrite Hr. cbn. cbn in IH. by rewrite IH.
Qed.

Lemma dealt_scheme_load fs dir rng n o s pk sh pks :
  let ps := sort_by Z.compare pks in
  deal rng ps = Ok (o, s) -> s !! pk = Some sh -> NoDup pks -> Forall pk_ok pks -> 1 <= len pks <= u32_max ->
  dkg_output_load fs dir
    = Ok (mkDkgOutput (write_group_key o) (write_polynomial o) (quorum n) n (share_index sh) (write_share sh)
            (write_pk <$> ps)) ->
  exists scheme, load_threshold_scheme fs dir = Ok scheme /\ scheme_participants scheme = ps.
Proof.
  intros ps Hdeal Hsh Hnd Hok Hlen Hload.
  assert (len ps = len pks) as Hl by (unfold len, ps; by rewrite sort_by_perm).
  destruct (dealt_scheme rng ps o s pk sh Hdeal Hsh) as (sharing & r & share & r' & scheme & H1 & H2 & H3 & H4); [lia|].
  exists scheme. split; [|done]. unfold load_threshold_scheme. rewrite Hload. cbn [map_err participant_keys public_polynomial share_secret].
  rewrite read_participants_back by (unfold ps; by rewrite sort_by_perm).
  rewrite Z.mod_small by (unfold u32_max in *; lia). rewrite (proj2 (Z.eqb_neq _ 0)) by lia.
  rewrite H1. cbn [map_err]. rewrite H2. cbn [map_err]. unfold ps. rewrite dedup_sorted by done. fold ps. by rewrite H3.
Qed.

(** *** The files after both steps *)

Section network.
Context (args : SetupArgs) (seeds : string -> bytes) (seeds_len : forall p, len (seeds p) = 32).
Context (fs : Fs) (ready : setup_ready args fs).
#[local] Abbreviation out := (sa_output_dir args) (only parsing).

Definition validator_pks : list PublicKey := node_pk args seeds fs <$> validator_nodes args.
Definition validator_set : list PublicKey := sort_by Z.compare validator_pks.

Lemma validator_pks_indices :
  validator_pks = (fun i => seed_pk (node_seed args seeds fs ("node", i))) <$> validator_indices (sa_validators args).
Proof. unfold validator_pks, validator_nodes. by rewrite <- list_fmap_compose. Qed.

Lemma validator_index_node i : i ∈ validator_indices (sa_validators args) -> ("node", i) ∈ network_nodes args.
Proof.
  intros Hi. apply elem_of_app. left. unfold validator_nodes. apply list_elem_of_fmap. by eexists.
Qed.

Lemma validator_pks_length : length validator_pks = Z.to_nat (sa_validators args).
Proof. rewrite validator_pks_indices, length_fmap. apply length_seq. Qed.

Lemma deal_reads :
  Forall pk_ok validator_pks ->
  deal_participants out (validator_indices (sa_validators args)) (setup_fs args seeds fs)
  = (Ok validator_pks, setup_fs args seeds fs).
Proof.
  intros Hok. rewrite validator_pks_indices in Hok |- *. rewrite Forall_fmap, Forall_forall in Hok.
  apply (deal_participants_run args (setup_fs args seeds fs) _ (fun i => node_seed args seeds fs ("node", i))); [done|].
  intros i Hi. split; [|by apply Hok].
  apply setup_settled; [done|by apply setup_ready_ok|by apply validator_index_node].
Qed.

(** What a validator finds in its directory. *)
Record validator_files (fs' : Fs) (o : Output) (i : nat) (sh : Share) : Prop := {
  vf_key : node_settled args fs' ("node", i) (node_seed args seeds fs ("node", i));
  vf_output : fs_files fs' !! node_file out ("node", i) "output.json"
    = Some (JsonFile (en_output (mkOutputJson (hex_encode (write_group_key o)) (hex_encode (write_polynomial o))
        (quorum (sa_validators args)) (sa_validators args) (pk_hex <$> validator_set))));
  vf_share : fs_files fs' !! node_file out ("node", i) "share.key" = Some (JsonFile (share_doc sh));
}.

Lemma dealt_network rng :
  1 <= sa_validators args <= u32_max -> Forall pk_ok validator_pks -> NoDup validator_pks ->
  exists o s fs', deal rng validator_set = Ok (o, s)
  /\ deal_run (sa_validators args) out rng (setup_fs args seeds fs) = (Ok tt, fs') /\ fs_denied fs' = ∅
  /\ fs_files fs' !! peers_file args = fs_files (setup_fs args seeds fs) !! peers_file args
  /\ fs_files fs' !! genesis_file args = fs_files (setup_fs args seeds fs) !! genesis_file args
  /\ forall i, i ∈ validator_indices (sa_validators args) ->
       exists k sh, position (Z.eqb (node_pk args seeds fs ("node", i))) validator_set = Some k
         /\ (k < length validator_pks)%nat /\ s !! node_pk args seeds fs ("node", i) = Some sh
         /\ share_index sh = Z.of_nat k /\ validator_files fs' o i sh.
Proof.
  intros Hn Hok Hnd. pose proof validator_pks_length as Hlen.
  destruct (deal_ok rng validator_set) as (o & s & Hdeal).
  { intros E. assert (length validator_set = 0%nat) as E' by by rewrite E.
    unfold validator_set in E'. rewrite sort_by_perm in E'. lia. }
  assert (forall pk, pk ∈ validator_pks -> exists k sh, position (Z.eqb pk) validator_set = Some k
    /\ (k < length validator_pks)%nat /\ s !! pk = Some sh /\ share_index sh = Z.of_nat k) as Hshare.
  { intros pk Hpk. destruct (position_elem validator_set pk) as (k & Hk & Hlt); [unfold validator_set; by rewrite sort_by_perm|].
    destruct (deal_shares rng validator_set o s pk k Hdeal Hk) as (sh & Hs & Hi).
    exists k, sh. split_and!; try done. unfold validator_set in Hlt. by rewrite sort_by_perm in Hlt. }
  set (output := mkOutputJson (hex_encode (write_group_key o)) (hex_encode (write_polynomial o))
    (quorum (sa_validators args)) (sa_validators args) (pk_hex <$> validator_set)).
  destruct (write_shares_run args output s validator_pks (setup_fs args seeds fs) 0) as (fs' & E & Hd & Hother & Hfiles).
  { done. }
  { intros pk Hpk. destruct (Hshare pk Hpk) as (k & sh & _ & _ & -> & _). done. }
  exists o, s, fs'. split; [done|]. split.
  { unfold deal_run, io_bind. rewrite deal_reads by done. unfold io_lift, try_collect. rewrite decide_True by done.
    cbn [ok_or]. fold validator_set. rewrite Hdeal. cbn [map_err]. exact E. }
  split; [done|]. split.
  { apply Hother. intros j name _ [->| ->]; apply not_eq_sym; by apply node_file_top. }
  split.
  { apply Hother. intros j name _ [->| ->]; apply not_eq_sym; by apply node_file_top. }
  intros i Hi. assert (validator_pks !! i = Some (node_pk args seeds fs ("node", i))) as Hpi.
  { rewrite validator_pks_indices, list_lookup_fmap. unfold validator_indices in *. apply elem_of_seq in Hi.
    rewrite lookup_seq_lt by lia. done. }
  destruct (Hshare _ (list_elem_of_lookup_2 _ _ _ Hpi)) as (k & sh & H1 & H2 & H3 & H4).
  exists k, sh. split_and!; try done. destruct (Hfiles i _ sh Hpi H3) as [F1 F2].
  destruct (setup_settled args seeds seeds_len fs ("node", i)) as [S1 S2 S3];
    [by apply setup_ready_ok|by apply validator_index_node|].
  split; [|exact F1|exact F2].
  split; [rewrite <- S1|done|rewrite <- S3]; apply Hother; intros j name _ Hname; apply node_file_ne;
    try (by left); try done; try (by destruct Hname as [->| ->]); right; by destruct Hname as [->| ->].
Qed.

(** *** Peers and addresses *)

(** Where the nodes dial the validators. *)
Definition validator_ingress : list (PublicKey * Ingress) :=
  zip validator_pks ((fun i => IngressDns (node_name "node" i) (sa_base_port args))
                       <$> validator_indices (sa_validators args)).

Lemma node_host_parses i :
  0 <= sa_base_port args <= u16_max -> hostname_ok (node_name "node" i) = true ->
  parse_ingress (hostname args i) = Ok (IngressDns (node_name "node" i) (sa_base_port args)).
Proof. intros Hp Hh. apply parse_ingress_dns; [|done]. by split. Qed.

Lemma bootstrappers_parse bs :
  Forall pk_ok validator_pks -> 0 <= sa_base_port args <= u16_max ->
  (forall i, hostname_ok (node_name "node" i) = true) ->
  bs ≡ₚ zip validator_pks (hostname args <$> validator_indices (sa_validators args)) ->
  exists ing, parse_bootstrappers (format_bootstrappers bs) = Ok ing /\ ing ≡ₚ validator_ingress.
Proof.
  intros Hok Hp Hh Hbs. set (ids := validator_indices (sa_validators args)) in *.
  rewrite zip_fmap_r in Hbs. apply Permutation_map_inv in Hbs as (l & -> & Hl).
  set (f := fun e : PublicKey * nat => ((e.1, IngressDns (node_name "node" e.2) (sa_base_port args)), hostname args e.2)).
  exists (f <$> l).*1. split.
  - rewrite <- (parse_bootstrappers_text (f <$> l)).
    + unfold format_bootstrappers. by rewrite <- !list_fmap_compose.
    + apply Forall_fmap, Forall_forall. intros [pk i] Hi. cbn. split; [|by apply node_host_parses].
      rewrite Forall_forall in Hok. apply Hok. rewrite <- Hl in Hi. apply elem_of_zip_l in Hi. done.
  - unfold validator_ingress. fold ids. rewrite zip_fmap_r, Hl, <- list_fmap_compose. done.
Qed.

(** *** The command line of a validator *)

Context (env : Env) (gossip : bool).
Definition validator_args : ValidatorArgs := mkValidatorArgs (Some (peers_file args)) "0.0.0.0:9002" gossip.
Definition validator_cli (i : nat) : Cli :=
  mkCli (Some (CommandValidator validator_args)) None (Some (sa_chain_id args)) (Some (node_dir out ("node", i))).
Definition validator_config (i : nat) (peers : list string) : NodeConfig :=
  mkNode (sa_chain_id args) (node_dir out ("node", i)) (default_worker_threads (en_available env)) consensus_default
    (mkNetwork DEFAULT_LISTEN_ADDR None peers gossip) execution_default rpc_default.

Lemma validator_config_load i fs' :
  available_ok (en_available env) ->
  load_config (validator_cli i) env fs'
  = Ok (mkNode (sa_chain_id args) (node_dir out ("node", i)) (default_worker_threads (en_available env))
          consensus_default network_default execution_default rpc_default).
Proof.
  intros Ha%default_worker_threads_ok. unfold load_config, config_load. cbn [cli_config validator_cli].
  unfold config_validate. cbn [nc_worker_threads node_default]. by rewrite (proj2 (Z.eqb_neq _ 0)) by lia.
Qed.

Lemma validator_run i fs' o s rng sh k bs secondary alloc :
  available_ok (en_available env) -> 1 <= sa_validators args <= u32_max ->
  Forall pk_ok validator_pks -> NoDup validator_pks -> deal rng validator_set = Ok (o, s) ->
  s !! node_pk args seeds fs ("node", i) = Some sh -> share_index sh = Z.of_nat k ->
  (k < length validator_pks)%nat -> fs_denied fs' = ∅ -> validator_files fs' o i sh ->
  load_peers fs' (peers_file args) = Ok (mkPeersInfo validator_pks secondary bs) ->
  bootstrap_load fs' (node_file out ("node", i) "genesis.json") = Ok (mkBootstrap (sa_chain_id args) alloc [] 0) ->
  exists v, run_validator (validator_cli i) validator_args env fs' = Ok v
  /\ scheme_participants (vs_scheme v) = validator_set
  /\ ns_validator_index (vs_node_state v) = Z.of_nat k /\ ns_validator_count (vs_node_state v) = sa_validators args
  /\ vs_bootstrap v = mkBootstrap (sa_chain_id args) alloc [] 0 /\ vs_secondary_peers v = secondary
  /\ vs_config v = validator_config i (format_bootstrappers bs).
Proof.
  intros Ha Hn Hok Hnd Hdeal Hsh Hi Hk Hd [_ Ho Hs] Hpeers Hgen.
  pose proof validator_pks_length as Hlen.
  destruct (dealt_output_load fs' (node_dir out ("node", i)) (sa_validators args) o sh validator_set)
    as [Hex Hload]; [done|unfold u32_max in *; lia|done|done|done|].
  destruct (dealt_scheme_load fs' (node_dir out ("node", i)) rng (sa_validators args) o s _ sh validator_pks
    Hdeal Hsh Hnd Hok) as (scheme & Hscheme & Hpart); [unfold len; lia|done|].
  unfold run_validator. rewrite validator_config_load by done.
  set (c := if va_tx_gossip validator_args then _ else _).
  assert (c = mkNode (sa_chain_id args) (node_dir out ("node", i)) (default_worker_threads (en_available env))
    consensus_default (mkNetwork DEFAULT_LISTEN_ADDR None [] gossip) execution_default rpc_default) as ->
    by (subst c; cbn; by destruct gossip).
  cbn [nc_data_dir]. rewrite Hex. cbn [negb]. rewrite Hload. cbn [map_err]. rewrite Hscheme.
  cbn [va_peers validator_args]. rewrite Hpeers.
  cbn [set_bootstrap_peers set_network nc_data_dir nc_network pi_bootstrappers pi_secondary].
  change (path_join (node_dir out ("node", i)) "genesis.json") with (node_file out ("node", i) "genesis.json").
  rewrite Hgen. cbn [map_err bs_chain_id nc_chain_id]. rewrite Z.eqb_refl. cbn [negb nc_rpc rc_http_addr rpc_default].
  destruct (parse_socket_addr DEFAULT_HTTP_ADDR) as [rpc|] eqn:Er; [|by vm_compute in Er].
  cbn [ok_or do_participants do_share_index va_metrics_addr validator_args].
  rewrite (proj2 (Z.ltb_ge _ _)), (proj2 (Z.eqb_neq _ 0)), (proj2 (Z.leb_gt _ _)) by lia.
  unfold ns_with_validator_count. rewrite (proj2 (Z.eqb_neq _ 0)), (proj2 (Z.ltb_lt _ _)) by lia. cbn [negb ok_or].
  destruct (parse_socket_addr "0.0.0.0:9002") as [m|] eqn:Em; [|by vm_compute in Em].
  eexists. split; [done|]. split_and!; try done.
Qed.

Definition listen_default : SocketAddr := SocketV4 [0; 0; 0; 0] 30303.

Lemma validator_standalone v i fs' bs ing :
  node_settled args fs' ("node", i) (node_seed args seeds fs ("node", i)) -> fs_denied fs' = ∅ ->
  vs_config v = validator_config i (format_bootstrappers bs) ->
  parse_bootstrappers (format_bootstrappers bs) = Ok ing ->
  exists r, run_standalone v env fs' = (Ok r, fs')
  /\ rn_validators r = scheme_participants (vs_scheme v)
  /\ rn_secondary r = from_iter_dedup (vs_secondary_peers v)
  /\ rn_transport r = build (with_allow_private_ips true (local (mkDiscoveryArgs LIB
       (key_of_seed (node_seed args seeds fs ("node", i))) DEFAULT_NAMESPACE listen_default
       (IngressSocket listen_default) ing DEFAULT_MAX_MESSAGE_SIZE))).
Proof.
  intros Hs Hd Hc Hing. unfold run_standalone, io_bind, cli_validator_key. rewrite Hc.
  rewrite (validator_key_settled args fs' ("node", i) (node_seed args seeds fs ("node", i))) by done.
  cbn [map_err]. unfold io_lift, build_local_transport, network_args.
  rewrite (parse_network_config_default _ listen_default ing) by (try done; by vm_compute).
  eexists. split; [done|]. split_and!; done.
Qed.

(** C32: a devnet starts.  After the setup of a network with distinct keys and
    the dealing of its shares, with the genesis file copied into its directory,
    every validator passes all checks of the command line and runs: it changes
    no file; all validators track the same set, the sorted keys of the network;
    each has the number of its own key in that set; the genesis has the chain
    of the setup and 57 accounts; and its transport dials all validators. *)
Theorem devnet_validators_start rng :
  let secondary := node_pk args seeds fs <$> secondary_nodes args in
  available_ok (en_available env) -> 1 <= sa_validators args <= u32_max ->
  0 <= sa_chain_id args <= u64_max -> 0 <= sa_base_port args <= u16_max ->
  (forall i, hostname_ok (node_name "node" i) = true) ->
  Forall pk_ok validator_pks -> NoDup validator_pks -> Forall pk_ok secondary ->
  exists fs1 fs2 genesis, setup_run seeds args fs = (Ok tt, fs1)
  /\ deal_run (sa_validators args) out rng fs1 = (Ok tt, fs2) /\ fs_denied fs2 = ∅
  /\ fs_files fs2 !! genesis_file args = Some genesis
  /\ forall i fs3, i ∈ validator_indices (sa_validators args) ->
       fs_write fs2 (node_file out ("node", i) "genesis.json") genesis = Ok fs3 ->
       exists v r ing k, cli_run (validator_cli i) env fs3 = (Ok (StartedValidator v r), fs3)
         /\ rn_validators r = validator_set /\ rn_secondary r = from_iter_dedup secondary
         /\ position (Z.eqb (node_pk args seeds fs ("node", i))) validator_set = Some k
         /\ ns_validator_index (vs_node_state v) = Z.of_nat k
         /\ ns_validator_count (vs_node_state v) = sa_validators args
         /\ bs_chain_id (vs_bootstrap v) = sa_chain_id args /\ length (bs_genesis_alloc (vs_bootstrap v)) = 57%nat
         /\ rn_transport r = build (with_allow_private_ips true (local (mkDiscoveryArgs LIB
              (key_of_seed (node_seed args seeds fs ("node", i))) DEFAULT_NAMESPACE listen_default
              (IngressSocket listen_default) ing DEFAULT_MAX_MESSAGE_SIZE)))
         /\ ing ≡ₚ validator_ingress.
Proof.
  intros secondary Ha Hn Hc Hp Hh Hok Hnd Hsec.
  destruct (dealt_network rng Hn Hok Hnd) as (o & s & fs2 & Hdeal & Hrun & Hd & Hpeers & Hgen & Hfiles).
  destruct (load_peers_setup args seeds fs Hok Hsec Hnd) as (bs & Hbs & Hload).
  destruct (bootstrappers_parse bs Hok Hp Hh Hbs) as (ing & Hing & Hperm).
  exists (setup_fs args seeds fs), fs2, (JsonFile (en_genesis (setup_genesis args))).
  split; [apply setup_run_ok; [done|by apply setup_ready_ok]|]. split; [done|]. split; [done|].
  split; [rewrite Hgen; cbn; by rewrite lookup_insert_eq|].
  intros i fs3 Hi Hw. destruct (Hfiles i Hi) as (k & sh & Hk & Hkl & Hsh & Hidx & Hvf).
  rewrite fs_write_free in Hw by done. injection Hw as <-. set (fs3 := mkFs _ ∅).
  assert (forall path, path <> node_file out ("node", i) "genesis.json" -> fs_files fs3 !! path = fs_files fs2 !! path)
    as Hother by (intros path Hne; cbn; by rewrite lookup_insert_ne).
  assert (validator_files fs3 o i sh) as Hvf3.
  { destruct Hvf as [[S1 S2 S3] F1 F2].
    split; [split; [rewrite <- S1|done|rewrite <- S3]|rewrite <- F1|rewrite <- F2]; apply Hother;
      apply node_file_ne; try done; try (by left); by right. }
  destruct (setup_genesis_load args fs3 (node_file out ("node", i) "genesis.json") Hc) as (alloc & Halloc & Hlen & _);
    [done|cbn; by rewrite lookup_insert_eq|].
  destruct (validator_run i fs3 o s rng sh k bs secondary alloc) as (v & Hv & V1 & V2 & V3 & V4 & V5 & V6); try done.
  { apply Hload; [done|]. rewrite Hother, Hpeers by (apply not_eq_sym; by apply node_file_top).
    cbn. rewrite lookup_insert_ne, lookup_insert_eq; [done|]. intros E. by apply path_join_inj in E as [_ ?]. }
  destruct (validator_standalone v i fs3 bs ing) as (r & Hr & R1 & R2 & R3); [apply Hvf3|done|done|done|].
  exists v, r, ing, k. split_and!; try done.
  - unfold cli_run. cbn [cli_command validator_cli]. unfold io_bind. rewrite Hv, Hr. done.
  - by rewrite R1.
  - by rewrite R2, V5.
  - by rewrite V4.
  - by rewrite V4.
Qed.

(** *** The other commands *)

Definition node_cli (command : Commands) (n : Node) : Cli :=
  mkCli (Some command) None (Some (sa_chain_id args)) (Some (node_dir out n)).

Lemma node_config_load command n fs' :
  available_ok (en_available env) ->
  exists c, load_config (node_cli command n) env fs' = Ok c
  /\ nc_network c = network_default /\ nc_chain_id c = sa_chain_id args /\ nc_data_dir c = node_dir out n
  /\ key_path c = key_file args n.
Proof.
  intros Ha%default_worker_threads_ok. unfold load_config, config_load. cbn [cli_config node_cli].
  unfold config_validate. cbn [nc_worker_threads node_default]. rewrite (proj2 (Z.eqb_neq _ 0)) by lia.
  eexists. split; [done|]. done.
Qed.

(** The keys of the network's nodes, in the setup's order. *)
Definition secondary_pks : list PublicKey := node_pk args seeds fs <$> secondary_nodes args.

Definition secondary_args : SecondaryArgs := mkSecondaryArgs (peers_file args) "0.0.0.0:8545" "0.0.0.0:9002".
Definition dkg_args : DkgArgs := mkDkgArgs (peers_file args) false.

Lemma setup_node_files n :
  n ∈ network_nodes args -> node_settled args (setup_fs args seeds fs) n (node_seed args seeds fs n)
  /\ fs_files (setup_fs args seeds fs) !! peers_file args = Some (JsonFile (en_peers (setup_peers args seeds fs))).
Proof.
  intros Hn. split; [apply setup_settled; [done|by apply setup_ready_ok|done]|].
  cbn. rewrite lookup_insert_ne, lookup_insert_eq; [done|]. intros E. by apply path_join_inj in E as [_ ?].
Qed.

(** After the setup, a node that is listed as a secondary peer starts as
    one and tracks the validators and the secondary peers of the network; any
    other node of the network is refused, with the files unchanged. *)
Theorem devnet_secondary_start n :
  available_ok (en_available env) -> 0 <= sa_base_port args <= u16_max ->
  (forall i, hostname_ok (node_name "node" i) = true) ->
  Forall pk_ok validator_pks -> NoDup validator_pks -> Forall pk_ok secondary_pks -> n ∈ network_nodes args ->
  exists fs', setup_run seeds args fs = (Ok tt, fs')
  /\ if bool_decide (node_pk args seeds fs n ∈ secondary_pks)
     then exists r, cli_run (node_cli (CommandSecondary secondary_args) n) env fs' = (Ok (StartedSecondary r), fs')
            /\ rn_validators r = validator_set /\ rn_secondary r = from_iter_dedup secondary_pks
     else cli_run (node_cli (CommandSecondary secondary_args) n) env fs' = (Err CliNotSecondary, fs').
Proof.
  intros Ha Hp Hh Hok Hnd Hsec Hn. exists (setup_fs args seeds fs).
  split; [apply setup_run_ok; [done|by apply setup_ready_ok]|].
  destruct (load_peers_setup args seeds fs Hok Hsec Hnd) as (bs & Hbs & Hload).
  destruct (bootstrappers_parse bs Hok Hp Hh Hbs) as (ing & Hing & _).
  destruct (setup_node_files n Hn) as [Hs Hpf].
  destruct (node_config_load (CommandSecondary secondary_args) n (setup_fs args seeds fs) Ha) as (c & Hc & Hnet & _ & _ & Hk).
  unfold cli_run. cbn [cli_command node_cli]. unfold run_secondary, io_bind. rewrite Hc.
  cbn [ra_peers secondary_args]. rewrite Hload by done. cbn [pi_bootstrappers pi_secondary pi_participants].
  unfold cli_validator_key.
  rewrite (validator_key_settled args _ n (node_seed args seeds fs n)) by done. cbn [map_err].
  change (public_key (key_of_seed (node_seed args seeds fs n))) with (node_pk args seeds fs n). fold secondary_pks.
  destruct (bool_decide _); cbn [negb]; [|done].
  unfold io_lift. cbn [ra_metrics_addr ra_rpc_addr secondary_args].
  destruct (parse_socket_addr "0.0.0.0:9002") as [m|] eqn:Em; [|by vm_compute in Em]. cbn [ok_or].
  destruct (parse_socket_addr "0.0.0.0:8545") as [a|] eqn:Er; [|by vm_compute in Er]. cbn [ok_or].
  unfold build_local_transport, network_args. cbn [set_bootstrap_peers set_network nc_network]. rewrite Hnet.
  rewrite (parse_network_config_default _ listen_default ing) by (try done; by vm_compute).
  eexists. split; [done|]. split; [|done]. cbn. unfold validator_set, from_iter_dedup. fold validator_pks.
  by rewrite remove_dups_id.
Qed.

(** After the setup, each validator can run the key generation: it takes
    part with its own key at its own place among the keys of all validators. *)
Theorem devnet_dkg_start i :
  available_ok (en_available env) -> Forall pk_ok validator_pks -> NoDup validator_pks -> Forall pk_ok secondary_pks ->
  i ∈ validator_indices (sa_validators args) ->
  exists fs' s, setup_run seeds args fs = (Ok tt, fs')
  /\ cli_run (node_cli (CommandDkg dkg_args) ("node", i)) env fs' = (Ok (StartedDkg s), fs')
  /\ validator_index (gs_config s) = Z.of_nat i /\ dk_participants (gs_config s) = validator_pks
  /\ validator_pks !! i = Some (my_public_key (gs_config s)) /\ dk_chain_id (gs_config s) = sa_chain_id args
  /\ (forall pk, pk ∈ validator_pks -> known_peer (gs_config s) pk = true).
Proof.
  intros Ha Hok Hnd Hsec Hi. exists (setup_fs args seeds fs).
  destruct (load_peers_setup args seeds fs Hok Hsec Hnd) as (bs & Hbs & Hload).
  destruct (setup_node_files ("node", i) (validator_index_node i Hi)) as [Hs Hpf].
  destruct (node_config_load (CommandDkg dkg_args) ("node", i) (setup_fs args seeds fs) Ha) as (c & Hc & Hnet & Hch & _ & Hk).
  assert (validator_pks !! i = Some (node_pk args seeds fs ("node", i))) as Hpi.
  { rewrite validator_pks_indices, list_lookup_fmap. unfold validator_indices in *. apply elem_of_seq in Hi.
    rewrite lookup_seq_lt by lia. done. }
  assert (position (Z.eqb (node_pk args seeds fs ("node", i))) validator_pks = Some i) as Hpos.
  { apply position_Some. split; [by eexists; split; [|apply Z.eqb_refl]|]. intros j y Hj Hy. apply Z.eqb_neq. intros E. rewrite <- E in Hy.
    pose proof (NoDup_lookup _ _ _ _ Hnd Hpi Hy). lia. }
  unfold cli_run. cbn [cli_command node_cli]. unfold run_dkg, io_bind. rewrite Hc.
  cbn [ga_peers dkg_args]. rewrite Hload by done. unfold cli_validator_key.
  rewrite (validator_key_settled args _ ("node", i) (node_seed args seeds fs ("node", i))) by done.
  cbn [map_err pi_participants pi_bootstrappers].
  change (public_key (key_of_seed (node_seed args seeds fs ("node", i)))) with (node_pk args seeds fs ("node", i)).
  fold validator_pks. rewrite Hpos. unfold io_lift. cbn [ok_or]. rewrite Hnet.
  destruct (parse_socket_addr (nw_listen_addr network_default)) as [a|] eqn:Er; [|by vm_compute in Er].
  eexists. split; [apply setup_run_ok; [done|by apply setup_ready_ok]|]. split; [done|]. cbn. split_and!; try done.
  intros pk Hpk. unfold known_peer. apply bool_decide_eq_true. cbn. fold validator_pks in Hbs. rewrite Hbs, fst_zip; [done|].
  rewrite length_fmap. rewrite validator_pks_length. unfold validator_indices. rewrite length_seq. lia.
Qed.
End network.
End start.

(** ** Witnesses *)

#[export] Instance toy_deal : @DealLib toy_lib.
Proof. exact (Build_DealLib toy_lib (fun _ ps => Ok (ps, list_to_map (zip ps (Z.of_nat <$> seq 0 (length ps)))))). Defined.

Lemma toy_share_lookup ps pk k m :
  position (Z.eqb pk) ps = Some k ->
  (list_to_map (zip ps (Z.of_nat <$> seq m (length ps))) : gmap Z Z) !! pk = Some (Z.of_nat (m + k)).
Proof.
  revert k m. induction ps as [|p ps IH]; intros k m; [done|]. cbn.
  destruct (Z.eqb_spec pk p) as [->|Hne].
  - intros [= <-]. rewrite lookup_insert_eq. do 2 f_equal. lia.
  - destruct (position (Z.eqb pk) ps) as [j|]; [|done]. intros [= <-]. rewrite lookup_insert_ne by done.
    rewrite (IH j (S m) eq_refl). do 2 f_equal. lia.
Qed.

#[export] Instance toy_deal_laws : @DealLaws toy_lib toy_deal.
Proof.
  split.
  - done.
  - intros rng ps _. by eexists _, _.
  - intros rng ps o s pk k [= <- <-] Hk. exists (Z.of_nat k). split; [|done]. by apply (toy_share_lookup ps pk k 0).
Defined.

#[export] Instance toy_scheme : @SchemeLib toy_lib := {|
  Scheme := list Z; Sharing := bytes;
  read_sharing := fun _ b => Ok (b, []);
  read_share := read_fixed 32;
  scheme_signer := fun ps _ _ => Some ps;
  scheme_participants := fun ps => ps;
|}.

#[export] Instance toy_scheme_laws : @SchemeLaws toy_lib toy_deal toy_scheme.
Proof.
  split. intros rng ps o s pk sh [= <- <-] Hsh _.
  assert (exists x r, read_fixed 32 (write_share sh) = Ok (x, r)) as (x & r & Hr).
  { unfold read_fixed. cbn [write_share toy_lib]. rewrite be_bytes_length. cbn. by eexists _, _. }
  by eexists _, _, _, _, _.
Defined.

#[export] Instance toy_hex_laws : @HexLaws toy_lib := {| hex_encode_chars := hex_text_chars |}.
#[export] Instance any_hostname : HostnameLib := {| hostname_ok := fun _ => true |}.

(** A network that records what is registered. *)
#[export] Instance toy_discovery : @Discovery toy_lib := {|
  DConfig := @DiscoveryArgs toy_lib * bool * bool; Network := list (Z * Z) * bool; Oracle := unit; Channel := Z;
  Quota := Z;
  discovery_recommended := fun a => (a, false, false);
  discovery_local := fun a => (a, true, false);
  set_allow_private_ips := fun b c => (c.1.1, b, c.2);
  set_allow_dns := fun b c => (c.1, b);
  network_new := fun _ => (([], false), tt);
  register := fun id _ backlog n => ((n.1 ++ [(id, backlog)], n.2), id);
  network_start := fun n => (n.1, true);
  quota_per_second := fun q => q;
|}.

#[export] Instance toy_loadgen : LoadgenKeys.
Proof.
  refine {| address_of_secret := fun b => be_value b `mod` 2 ^ 160 |}.
  intros b. apply Z.mod_pos_bound. lia.
Defined.

#[export] Instance hex_genesis : @GenesisText hex_alloy := {|
  show_address := address_text; parse_u256 := parse_uint (2 ^ 256 - 1) |}.

Lemma hex_bytes_chars n h :
  all_chars is_hex h = true -> String.length h = (2 * n)%nat -> exists b, hex_bytes h = Some b /\ length b = n.
Proof.
  revert h. induction n as [|n IH]; intros h Hc Hl; [destruct h; [by exists []|done]|].
  destruct h as [|x [|y h]]; cbn in Hl; [lia|lia|]. cbn [all_chars] in Hc. rewrite !andb_true_iff in Hc.
  destruct Hc as (Hx & Hy & Hc). unfold is_hex in Hx, Hy. cbn [hex_bytes].
  destruct (digit_value 16 x) as [a|]; [|done]. destruct (digit_value 16 y) as [c|]; [|done].
  destruct (IH h Hc) as (b & -> & Hb); [lia|]. cbn. eexists. split; [done|]. cbn. by f_equal.
Qed.

#[export] Instance hex_genesis_laws : @GenesisLaws hex_alloy hex_genesis.
Proof.
  split.
  - intros s h -> Hc Hl. cbn [parse_address hex_alloy]. unfold text_address. rewrite strip_prefix_app. cbn [mbind option_bind].
    destruct (hex_bytes_chars 20 h Hc Hl) as (b & -> & Hb). cbn [mbind option_bind]. unfold len. by rewrite Hb.
  - apply address_text_back.
  - intros n Hn. apply parse_show_uint. unfold in_width in Hn. lia.
Defined.

Definition demo_args : SetupArgs := mkSetupArgs 4 1 1337 "/shared" 30303.
Definition demo_seeds (path : string) : bytes := be_bytes 32 (be_value (string_bytes path)).
Definition empty_fs : Fs := mkFs ∅ ∅.

Lemma demo_ready : setup_ready demo_args empty_fs.
Proof. split; [done|]. intros n _ f H. cbn in H. by rewrite lookup_empty in H. Qed.

Lemma demo_pk_ok n : pk_ok (node_pk demo_args demo_seeds empty_fs n).
Proof.
  unfold node_pk, node_seed. cbn [fs_files empty_fs]. rewrite lookup_empty. unfold demo_seeds, seed_pk.
  cbn [pk_ok toy_laws public_key toy_lib key_of_seed toy_seed]. rewrite be_value_bytes. apply Z.mod_pos_bound. lia.
Qed.

Lemma demo_nodup : NoDup (validator_pks demo_args demo_seeds empty_fs).
Proof. apply (bool_decide_eq_true_1 _). vm_compute. reflexivity. Qed.

Lemma devnet_validators_start_witness :
  exists fs1 fs2 fs3 v r, setup_run demo_seeds demo_args empty_fs = (Ok tt, fs1)
  /\ deal_run (LIB := toy_lib) 4 "/shared" 7 fs1 = (Ok tt, fs2)
  /\ cli_run (validator_cli demo_args true 2) (mkEnv None [] None None) fs3 = (Ok (StartedValidator v r), fs3)
  /\ ns_validator_index (vs_node_state v) = 2 /\ nt_handle (rn_transport r)
     = ([(0, 2048); (1, 2048); (2, 2048); (3, 2048); (4, 2048); (5, 1024)], true).
Proof.
  destruct (devnet_validators_start demo_args demo_seeds (fun p => be_bytes_len 32 _) empty_fs demo_ready
    (mkEnv None [] None None) true (7 : @Rng toy_lib)) as (fs1 & fs2 & g & H1 & H2 & Hd & H3 & H4).
  - by intros n [=].
  - by vm_compute.
  - by vm_compute.
  - by vm_compute.
  - done.
  - apply Forall_fmap, Forall_true, demo_pk_ok.
  - exact demo_nodup.
  - apply Forall_fmap, Forall_true, demo_pk_ok.
  - pose proof (fs_write_free fs2 (node_file "/shared" ("node", 2%nat) "genesis.json") g Hd) as Hw.
    destruct (H4 2%nat _ ltac:(apply elem_of_seq; vm_compute; lia) Hw)
      as (v & r & ing & k & Hrun & _ & _ & Hk & Hi & _ & _ & _ & Ht & _).
    eexists fs1, fs2, _, v, r. split_and!; [exact H1|exact H2|exact Hrun| |by rewrite Ht].
    rewrite Hi. vm_compute in Hk. by injection Hk as <-.
Defined.

Lemma devnet_setup_witness :
  exists fs' bs, setup_run demo_seeds demo_args empty_fs = (Ok tt, fs')
  /\ setup_run (fun _ => be_bytes 32 1) demo_args fs' = (Ok tt, fs')
  /\ load_peers fs' (peers_file demo_args)
     = Ok (mkPeersInfo (node_pk demo_args demo_seeds empty_fs <$> validator_nodes demo_args)
             (node_pk demo_args demo_seeds empty_fs <$> secondary_nodes demo_args) bs).
Proof.
  destruct (devnet_setup demo_args demo_seeds (fun _ => be_bytes 32 1) empty_fs demo_ready
    (fun p => be_bytes_len 32 _) (fun p => be_bytes_len 32 _)) as (fs' & H1 & H2 & _ & _ & H3).
  destruct H3 as (bs & Hb & Hp).
  - apply Forall_fmap, Forall_true, demo_pk_ok.
  - apply Forall_fmap, Forall_true, demo_pk_ok.
  - exact demo_nodup.
  - exists fs', bs. exact (conj H1 (conj H2 Hb)).
Defined.
