(* ===== verification/Loadgen.v ===== *)
(** The load generator (bin/loadgen/src/main.rs): its accounts, the requests it
    sends and how it reads the answers, and the run of its tasks, which share
    the counters and the permits for submissions, as an interleaving of steps. *)
From Stdlib Require Import Ascii.
From S2P Require Import Prelude Text Hex Json Bytes TxTypes Codec Block Dkg Config Genesis Keygen.
Open Scope Z_scope.

Definition MIN_LOADGEN_ACCOUNTS : usize := 1.
Definition MAX_LOADGEN_ACCOUNTS : usize := 255.
Definition MAX_RETRY_ATTEMPTS : u64 := 10.

(** ** Accounts *)

Definition loadgen_seeds (accounts : usize) : option (list Z) :=
  if (MIN_LOADGEN_ACCOUNTS <=? accounts) && (accounts <=? MAX_LOADGEN_ACCOUNTS)
  then Some (seqZ 1 accounts) else None.

(** ** Requests *)

Definition parse_json_rpc_quantity (quantity : string) : option u64 :=
  value ← strip_prefix "0x" quantity;
  match value with EmptyString => None | _ => from_str_radix 16 u64_max value end.

Definition is_transport_error (err : string) : bool :=
  contains "error sending request" err || contains "Connection refused" err
  || contains "connection refused" err || contains "timed out" err || contains "connection closed" err
  || contains "broken pipe" err || contains "reset by peer" err.

(** An endpoint: what it answers to a transaction and to a query for a nonce;
    the text of the error otherwise. *)
Record Endpoint := mkEndpoint {
  ep_send : bytes -> result string string;
  ep_count : Address -> result u64 string;
}.

(** [get_nonce_from_any]. *)
Fixpoint get_nonce_from (clients : list Endpoint) (address : Address) (last_err : option string)
    : result u64 string :=
  match clients with
  | [] => Err (default "no RPC clients configured" last_err)
  | c :: clients =>
      match ep_count c address with
      | Ok nonce => Ok nonce
      | Err e => get_nonce_from clients address (Some e)
      end
  end.
Definition get_nonce_from_any (clients : list Endpoint) (address : Address) : result u64 string :=
  get_nonce_from clients address None.

(** [errors.join("; ")]. *)
Fixpoint join_errors (l : list string) : string :=
  match l with
  | [] => EmptyString
  | [e] => e
  | e :: l => e +:+ "; " +:+ join_errors l
  end.

(** The other endpoints, in order; with the result, those that were asked. *)
Fixpoint send_others (clients : list Endpoint) (raw_tx : bytes) (skip i : nat) (errors : list string)
    : result string string * list nat :=
  match clients with
  | [] => (Err ("all RPC endpoints failed: " +:+ join_errors errors), [])
  | c :: clients =>
      if (i =? skip)%nat then send_others clients raw_tx skip (S i) errors
      else
        match ep_send c raw_tx with
        | Ok hash => (Ok hash, [i])
        | Err e =>
            let '(r, asked) := send_others clients raw_tx skip (S i) (errors ++ [e]) in
            (r, i :: asked)
        end
  end.

(** [send_raw_transaction_to]; [None] is the remainder by zero or the index out
    of range, which panic. *)
Definition send_raw_transaction_to (clients : list Endpoint) (raw_tx : bytes) (target_idx : nat)
    : option (result string string * list nat) :=
  if (length clients =? 0)%nat then None
  else
    let idx := (target_idx mod length clients)%nat in
    c ← clients !! idx;
    match ep_send c raw_tx with
    | Ok hash => Some (Ok hash, [idx])
    | Err e =>
        if negb (is_transport_error e) then Some (Err e, [idx])
        else
          let '(r, asked) := send_others clients raw_tx idx 0 [e] in
          Some (r, idx :: asked)
    end.

(** ** The task of an account *)

(** A task takes up its loop; waits for a permit, after a delay if it retries;
    has its transaction in flight; sleeps after a nonce gap; has a query for its
    nonce in flight, after a gap or because the nonce was too low; or is done. *)
Inductive Phase :=
| Idle
| Waiting (nonce : u64) (attempts : Z)
| InFlight (nonce : u64) (attempts : Z)
| Pausing
| Asking (gap : bool)
| Stopped.

Record Task := mkTask {
  tk_count : u64;
  tk_sent : u64;
  tk_nonce : u64;
  tk_phase : Phase;
}.

(** Counters of all tasks, the free permits and whether there is a deadline. *)
Record World := mkWorld {
  lw_tasks : list Task;
  lw_success : u64;
  lw_failure : u64;
  lw_resyncs : u64;
  lw_permits : Z;
  lw_deadline : bool;
}.

(** The share of the [idx]th of [n] accounts. *)
Definition account_count (total_txs : u64) (n idx : Z) : u64 :=
  total_txs `div` n + (if idx <? total_txs `mod` n then 1 else 0).

Definition loadgen_init (total_txs : u64) (concurrency : usize) (deadline : bool) (nonces : list u64)
    : option World :=
  if concurrency =? 0 then None
  else
    let n := len nonces in
    Some (mkWorld (imap (fun idx nonce => mkTask (account_count total_txs n (Z.of_nat idx)) 0 nonce Idle) nonces)
            0 0 0 concurrency deadline).

(** What an answer makes of a transaction. *)
Inductive Outcome := Sent | TooLow | InPool | Gap | Transient.
Definition classify (r : result string string) : Outcome :=
  match r with
  | Ok _ => Sent
  | Err e =>
      if contains "nonce too low" e then TooLow
      else if contains "already in pool" e then InPool
      else if contains "nonce gap" e then Gap
      else Transient
  end.

(** What happens to one task: it takes up its loop, with the deadline passed or
    not; it gets a permit; its transaction is answered; its sleep is over; its
    query is answered, with the chain's nonce if it succeeds. *)
Inductive Event :=
| EvTurn (passed : bool)
| EvAcquire
| EvReply (r : result string string)
| EvResume
| EvNonce (chain_nonce : option u64).

Definition set_task (w : World) (i : nat) (t : Task) : World :=
  mkWorld (<[i := t]> (lw_tasks w)) (lw_success w) (lw_failure w) (lw_resyncs w) (lw_permits w) (lw_deadline w).
Definition with_counts (w : World) (success failure resyncs : Z) (permits : Z) : World :=
  mkWorld (lw_tasks w) (lw_success w + success) (lw_failure w + failure) (lw_resyncs w + resyncs)
    (lw_permits w + permits) (lw_deadline w).

Definition turn (w : World) (i : nat) (t : Task) (passed : bool) : option World :=
  match tk_phase t with
  | Idle =>
      Some (set_task w i
        (if tk_sent t <? tk_count t then
           if lw_deadline w && passed then mkTask (tk_count t) (tk_sent t) (tk_nonce t) Stopped
           else mkTask (tk_count t) (tk_sent t) (wrapping_add u64_max (tk_nonce t) 1) (Waiting (tk_nonce t) 0)
         else mkTask (tk_count t) (tk_sent t) (tk_nonce t) Stopped))
  | _ => None
  end.

Definition acquire (w : World) (i : nat) (t : Task) : option World :=
  match tk_phase t with
  | Waiting n a =>
      if lw_permits w <=? 0 then None
      else Some (with_counts (set_task w i (mkTask (tk_count t) (tk_sent t) (tk_nonce t) (InFlight n a))) 0 0 0 (-1))
  | _ => None
  end.

(** The answer to a transaction: the permit is given back before the answer is
    looked at. *)
Definition reply (w : World) (i : nat) (t : Task) (r : result string string) : option World :=
  match tk_phase t with
  | InFlight n attempts =>
      let attempts := attempts + 1 in
      Some match classify r with
        | Sent | InPool =>
            with_counts (set_task w i (mkTask (tk_count t) (tk_sent t + 1) (tk_nonce t) Idle)) 1 0 0 1
        | TooLow =>
            with_counts (set_task w i (mkTask (tk_count t) (tk_sent t) (tk_nonce t) (Asking false))) 0 0 0 1
        | Gap =>
            with_counts (set_task w i (mkTask (tk_count t) (tk_sent t) (tk_nonce t) Pausing)) 0 0 0 1
        | Transient =>
            if MAX_RETRY_ATTEMPTS <=? attempts
            then with_counts (set_task w i (mkTask (tk_count t) (tk_sent t + 1) (tk_nonce t) Idle)) 0 1 0 1
            else with_counts (set_task w i (mkTask (tk_count t) (tk_sent t) (tk_nonce t) (Waiting n attempts))) 0 0 0 1
        end
  | _ => None
  end.

Definition resume (w : World) (i : nat) (t : Task) : option World :=
  match tk_phase t with
  | Pausing => Some (set_task w i (mkTask (tk_count t) (tk_sent t) (tk_nonce t) (Asking true)))
  | _ => None
  end.

(** The answer to a query, made without a permit.  A nonce that was too low
    counts as sent, a gap does not. *)
Definition answer (w : World) (i : nat) (t : Task) (chain_nonce : option u64) : option World :=
  match tk_phase t with
  | Asking gap =>
      let resynced := default (tk_nonce t) chain_nonce in
      let resync := if is_some chain_nonce then 1 else 0 in
      let sent := if gap then 0 else 1 in
      Some (with_counts (set_task w i (mkTask (tk_count t) (tk_sent t + sent) resynced Idle)) sent 0 resync 0)
  | _ => None
  end.

Definition load_step (w : World) (i : nat) (e : Event) : option World :=
  t ← lw_tasks w !! i;
  match e with
  | EvTurn passed => turn w i t passed
  | EvAcquire => acquire w i t
  | EvReply r => reply w i t r
  | EvResume => resume w i t
  | EvNonce chain => answer w i t chain
  end.

Fixpoint load_run (w : World) (l : list (nat * Event)) : option World :=
  match l with
  | [] => Some w
  | (i, e) :: l => w ← load_step w i e; load_run w l
  end.

(** All tasks are done, or stopped at the deadline. *)
Definition finished (w : World) : bool :=
  forallb (fun t => match tk_phase t with Stopped => true | _ => false end) (lw_tasks w).

(** ** Verification after the run *)

(** Of an account with its starting and its next nonce, for the nonce on the
    chain: the confirmed and the pending transactions. *)
Definition verify_account (starting expected chain : u64) : Z * Z :=
  (saturating_sub chain starting, saturating_sub expected chain).

(** ** Lemmas: sums *)

Lemma sum_insert {A} (f : A -> Z) l i x y :
  l !! i = Some x -> sum_Z (f <$> <[i := y]> l) = sum_Z (f <$> l) - f x + f y.
Proof.
  intros Hi. rewrite <- (take_drop_middle l i x Hi) at 2. rewrite insert_take_drop by (by eapply lookup_lt_Some).
  rewrite !fmap_app, !sum_Z_app, !fmap_cons, !sum_Z_cons. lia.
Qed.

Lemma sum_Z_zero l : Forall (fun x => x = 0) l -> sum_Z l = 0.
Proof. unfold sum_Z. induction 1; cbn; lia. Qed.

Lemma account_counts_sum total (nonces : list u64) :
  nonces <> [] -> 0 <= total ->
  sum_Z (tk_count <$> imap (fun idx nonce => mkTask (account_count total (len nonces) (Z.of_nat idx)) 0 nonce Idle) nonces)
  = total.
Proof.
  intros Hne Ht. set (n := len nonces). unfold account_count.
  assert (0 < n) as Hn by (unfold n, len; destruct nonces; [done|cbn; lia]).
  pose proof (Z.mod_pos_bound total n Hn) as Hr. pose proof (Z.div_mod total n) as Hd.
  set (q := total `div` n) in *. set (r := total `mod` n) in *.
  assert (forall (l : list u64) (k : nat),
    sum_Z (tk_count <$> imap (fun idx nonce => mkTask (q + (if Z.of_nat (k + idx) <? r then 1 else 0)) 0 nonce Idle) l)
    = len l * q + (Z.min (Z.of_nat k + len l) (Z.max r (Z.of_nat k)) - Z.of_nat k)) as H.
  { induction l as [|x l IH]; intros k; [unfold len; cbn; lia|]. rewrite imap_cons, fmap_cons. unfold sum_Z. cbn [foldr].
    fold (sum_Z (tk_count <$> imap ((fun idx nonce => mkTask (q + (if Z.of_nat (k + idx) <? r then 1 else 0)) 0 nonce Idle) ∘ S) l)).
    rewrite (imap_ext _ (fun idx nonce => mkTask (q + (if Z.of_nat (S k + idx) <? r then 1 else 0)) 0 nonce Idle))
      by (intros j y _; cbn [compose]; by replace (k + S j)%nat with (S k + j)%nat by lia).
    rewrite IH. rewrite len_cons. cbn [tk_count]. rewrite Nat.add_0_r.
    pose proof (len_nonneg l). destruct (Z.ltb_spec (Z.of_nat k) r); lia. }
  specialize (H nonces 0%nat). cbn [Nat.add] in H. fold n in H. rewrite H. lia.
Qed.

(** ** The invariant of a run *)

Definition in_flight (t : Task) : Z := match tk_phase t with InFlight _ _ => 1 | _ => 0 end.

Record task_ok (deadline : bool) (t : Task) : Prop := {
  tk_range : 0 <= tk_sent t <= tk_count t;
  tk_phase_ok :
    match tk_phase t with
    | Idle => True
    | Waiting _ a | InFlight _ a => 0 <= a < MAX_RETRY_ATTEMPTS /\ tk_sent t < tk_count t
    | Pausing | Asking _ => tk_sent t < tk_count t
    | Stopped => tk_sent t = tk_count t \/ deadline = true
    end;
}.

Record load_inv (total concurrency : Z) (w : World) : Prop := {
  li_tasks : Forall (task_ok (lw_deadline w)) (lw_tasks w);
  li_total : sum_Z (tk_count <$> lw_tasks w) = total;
  li_sent : lw_success w + lw_failure w = sum_Z (tk_sent <$> lw_tasks w);
  li_counters : 0 <= lw_success w /\ 0 <= lw_failure w;
  li_permits : 0 <= lw_permits w;
  li_flight : lw_permits w + sum_Z (in_flight <$> lw_tasks w) = concurrency;
}.

Lemma loadgen_init_inv total concurrency deadline nonces w :
  nonces <> [] -> 0 <= total -> 0 <= concurrency ->
  loadgen_init total concurrency deadline nonces = Some w ->
  load_inv total concurrency w /\ length (lw_tasks w) = length nonces /\ lw_deadline w = deadline
  /\ Forall (fun t => tk_phase t = Idle /\ tk_sent t = 0) (lw_tasks w) /\ 0 < concurrency.
Proof.
  intros Hne Ht Hc. unfold loadgen_init. destruct (Z.eqb_spec concurrency 0); [done|]. intros [= <-]. cbn.
  assert (forall P : Task -> Prop, (forall idx nonce, 0 <= account_count total (len nonces) (Z.of_nat idx) ->
    P (mkTask (account_count total (len nonces) (Z.of_nat idx)) 0 nonce Idle)) ->
    Forall P (imap (fun idx nonce => mkTask (account_count total (len nonces) (Z.of_nat idx)) 0 nonce Idle) nonces)) as HF.
  { intros P HP. apply Forall_lookup. intros i t Hi. apply list_lookup_imap_Some in Hi as (x & _ & ->). apply HP.
    assert (0 < len nonces) as Hn by (unfold len; destruct nonces; [done|cbn; lia]).
    unfold account_count. pose proof (Z.div_pos total (len nonces) Ht Hn). destruct (_ <? _); lia. }
  assert (forall f : Task -> Z, (forall c n, f (mkTask c 0 n Idle) = 0) ->
    sum_Z (f <$> imap (fun idx nonce => mkTask (account_count total (len nonces) (Z.of_nat idx)) 0 nonce Idle) nonces) = 0) as HZ.
  { intros f Hf. apply sum_Z_zero, Forall_fmap, HF. intros. apply Hf. }
  split_and!; [|by rewrite length_imap|done|by apply HF|lia].
  split; cbn; [by apply HF; intros; split; cbn; lia|by apply account_counts_sum|by rewrite HZ|done|lia|rewrite HZ; [lia|done]].
Qed.

Lemma with_counts_0 w : with_counts w 0 0 0 0 = w.
Proof. destruct w. unfold with_counts. cbn. by rewrite !Z.add_0_r. Qed.

Lemma load_inv_put total concurrency w i t t' ds df dr dp :
  load_inv total concurrency w -> lw_tasks w !! i = Some t -> task_ok (lw_deadline w) t' ->
  tk_count t' = tk_count t -> tk_sent t' = tk_sent t + (ds + df) -> 0 <= ds -> 0 <= df ->
  0 <= lw_permits w + dp -> dp = in_flight t - in_flight t' ->
  load_inv total concurrency (with_counts (set_task w i t') ds df dr dp).
Proof.
  intros [H1 H2 H3 H4 H5 H6] Hi Ht Hc Hs Hds Hdf Hp Hdp. split; cbn.
  - by apply Forall_insert.
  - rewrite (sum_insert tk_count _ _ t) by done. lia.
  - rewrite (sum_insert tk_sent _ _ t) by done. lia.
  - lia.
  - lia.
  - rewrite (sum_insert in_flight _ _ t) by done. lia.
Qed.

(** The potential of a task: what the steps it can still take without a gap
    cost, where the answer to a query costs [q] and every other step one. *)
Definition potential (q : Z) (t : Task) : Z :=
  let left := tk_count t - tk_sent t in
  match tk_phase t with
  | Idle => (21 + q) * left + 1
  | Waiting _ a => (21 + q) * left - 2 * a
  | InFlight _ a => (21 + q) * left - 2 * a - 1
  | Pausing => (21 + q) * left + 2 + q
  | Asking gap => if gap then (21 + q) * left + 1 + q else (21 + q) * left - 20
  | Stopped => 0
  end.
Definition step_cost (q : Z) (e : Event) : Z := match e with EvNonce _ => q | _ => 1 end.

Definition is_gap (e : Event) : bool :=
  match e with EvReply r => match classify r with Gap => true | _ => false end | _ => false end.

(** A step of a task as an update: what the counters and the task become. *)
Record step_update (w : World) (e : Event) (t t' : Task) (ds df dr dp : Z) : Prop := {
  su_ok : task_ok (lw_deadline w) t';
  su_count : tk_count t' = tk_count t;
  su_sent : tk_sent t' = tk_sent t + (ds + df);
  su_success : 0 <= ds;
  su_failure : 0 <= df;
  su_permits : 0 <= lw_permits w + dp;
  su_flight : dp = in_flight t - in_flight t';
  su_potential : is_gap e = false -> forall q, 0 <= q <= 1 ->
    step_cost q e + potential q t' <= potential q t;
}.

(** Closes the arithmetic of an update whose task is in a known phase. *)
Ltac update_arith :=
  unfold in_flight, potential, step_cost, is_gap, MAX_RETRY_ATTEMPTS in *;
  repeat match goal with H : tk_phase _ = _ |- _ => rewrite ?H; clear H end; cbn;
  try done; try lia;
  try (intros _ q Hq; assert (q = 0 \/ q = 1) as [-> | ->] by lia; lia).

Lemma turn_update w i t passed w' :
  task_ok (lw_deadline w) t -> 0 <= lw_permits w -> turn w i t passed = Some w' ->
  exists t', w' = with_counts (set_task w i t') 0 0 0 0 /\ step_update w (EvTurn passed) t t' 0 0 0 0.
Proof.
  intros [Hr Hp] Hperm. unfold turn. destruct (tk_phase t) eqn:Ep; [|done..]. intros [= <-].
  eexists. split; [symmetry; apply with_counts_0|].
  destruct (Z.ltb_spec (tk_sent t) (tk_count t)) as [Hlt|Hge]; [destruct (lw_deadline w && passed) eqn:Ed|].
  all: split; update_arith; (split; cbn; [lia|]).
  - right. by apply andb_true_iff in Ed as [-> _].
  - unfold MAX_RETRY_ATTEMPTS. lia.
Qed.

Lemma acquire_update w i t w' :
  task_ok (lw_deadline w) t -> acquire w i t = Some w' ->
  exists t', w' = with_counts (set_task w i t') 0 0 0 (-1) /\ step_update w EvAcquire t t' 0 0 0 (-1).
Proof.
  intros [Hr Hp]. unfold acquire. destruct (tk_phase t) as [|n a| | | |] eqn:Ep; [done| |done..].
  destruct (Z.leb_spec (lw_permits w) 0); [done|]. intros [= <-]. eexists. split; [done|].
  by split; update_arith.
Qed.

Lemma reply_update w i t r w' :
  task_ok (lw_deadline w) t -> 0 <= lw_permits w -> reply w i t r = Some w' ->
  exists t' ds df dr, w' = with_counts (set_task w i t') ds df dr 1 /\ step_update w (EvReply r) t t' ds df dr 1.
Proof.
  intros [Hr Hp] Hperm. unfold reply. destruct (tk_phase t) as [| |n a| | |] eqn:Ep; [done|done| |done..].
  intros [= <-]. destruct Hp as [Ha Hlt]. unfold MAX_RETRY_ATTEMPTS in *.
  destruct (classify r) eqn:Ec; [..|destruct (Z.leb_spec 10 (a + 1))].
  all: eexists _, _, _, _; split; [done|].
  all: split; update_arith; try by rewrite Ec.
  all: split; cbn; unfold MAX_RETRY_ATTEMPTS; try done; lia.
Qed.

Lemma resume_update w i t w' :
  task_ok (lw_deadline w) t -> 0 <= lw_permits w -> resume w i t = Some w' ->
  exists t', w' = with_counts (set_task w i t') 0 0 0 0 /\ step_update w EvResume t t' 0 0 0 0.
Proof.
  intros [Hr Hp] Hperm. unfold resume. destruct (tk_phase t) eqn:Ep; try done. intros [= <-].
  eexists. split; [symmetry; apply with_counts_0|].
  by split; update_arith.
Qed.

Lemma answer_update w i t c w' :
  task_ok (lw_deadline w) t -> 0 <= lw_permits w -> answer w i t c = Some w' ->
  exists t' ds dr, w' = with_counts (set_task w i t') ds 0 dr 0 /\ step_update w (EvNonce c) t t' ds 0 dr 0.
Proof.
  intros [Hr Hp] Hperm. unfold answer. destruct (tk_phase t) as [| | | |gap|] eqn:Ep; try done. intros [= <-].
  eexists _, _, _. split; [done|].
  destruct gap; (split; update_arith); (split; cbn; [lia|done]).
Qed.

Lemma load_step_update total concurrency w i e w' :
  load_inv total concurrency w -> load_step w i e = Some w' ->
  exists t t' ds df dr dp, lw_tasks w !! i = Some t /\ w' = with_counts (set_task w i t') ds df dr dp
  /\ step_update w e t t' ds df dr dp.
Proof.
  intros [H1 _ _ _ H5 _]. unfold load_step. destruct (lw_tasks w !! i) as [t|] eqn:Hi; cbn; [|done].
  assert (task_ok (lw_deadline w) t) as Ht by by eapply Forall_lookup_1.
  destruct e as [passed| |r| |c]; intros H.
  - apply turn_update in H as (t' & ? & ?); [|done|done]. by eexists t, t', _, _, _, _.
  - apply acquire_update in H as (t' & ? & ?); [|done]. by eexists t, t', _, _, _, _.
  - apply reply_update in H as (t' & ds & df & dr & ? & ?); [|done|done]. by eexists t, t', _, _, _, _.
  - apply resume_update in H as (t' & ? & ?); [|done|done]. by eexists t, t', _, _, _, _.
  - apply answer_update in H as (t' & ds & dr & ? & ?); [|done|done]. by eexists t, t', _, _, _, _.
Qed.

Lemma load_step_inv total concurrency w i e w' :
  load_inv total concurrency w -> load_step w i e = Some w' ->
  load_inv total concurrency w' /\ lw_deadline w' = lw_deadline w
  /\ (is_gap e = false -> forall q, 0 <= q <= 1 ->
      step_cost q e + sum_Z (potential q <$> lw_tasks w') <= sum_Z (potential q <$> lw_tasks w)).
Proof.
  intros Hinv H. destruct (load_step_update _ _ _ _ _ _ Hinv H) as (t & t' & ds & df & dr & dp & Hi & -> & U).
  destruct U. split_and!; [by eapply load_inv_put|done|]. intros Hg q Hq. cbn.
  rewrite (sum_insert (potential q) _ _ t) by done. specialize (su_potential0 Hg q Hq). lia.
Qed.

Lemma potential_nonneg q dl t : 0 <= q <= 1 -> task_ok dl t -> 0 <= potential q t.
Proof.
  intros Hq [Hr Hp]. unfold potential, MAX_RETRY_ATTEMPTS in *.
  destruct (tk_phase t) as [| | | |[]|]; nia.
Qed.

Lemma load_run_inv total concurrency w l w' :
  load_inv total concurrency w -> load_run w l = Some w' ->
  load_inv total concurrency w' /\ lw_deadline w' = lw_deadline w
  /\ (forallb (fun e => negb (is_gap e.2)) l = true -> forall q, 0 <= q <= 1 ->
      sum_Z ((fun e => step_cost q e.2) <$> l) + sum_Z (potential q <$> lw_tasks w')
      <= sum_Z (potential q <$> lw_tasks w)).
Proof.
  revert w. induction l as [|[i e] l IH]; intros w Hinv; cbn.
  { intros [= <-]. split_and!; [done|done|]. intros _ q _. reflexivity. }
  destruct (load_step w i e) as [w1|] eqn:E; cbn; [|done]. intros H.
  apply load_step_inv with (total := total) (concurrency := concurrency) in E as (H1 & H2 & H3); [|done].
  destruct (IH w1 H1 H) as (H4 & H5 & H6). split_and!; [done|congruence|].
  intros [Hg Hl]%andb_true_iff q Hq. apply negb_true_iff in Hg. specialize (H3 Hg q Hq). specialize (H6 Hl q Hq).
  unfold sum_Z in *. lia.
Qed.

(** A run that is not finished can go on, without a gap. *)
Lemma unfinished_task (l : list Task) :
  forallb (fun t => match tk_phase t with Stopped => true | _ => false end) l = false ->
  exists i t, l !! i = Some t /\ tk_phase t <> Stopped.
Proof.
  induction l as [|t l IH]; cbn; [done|]. intros [H|H]%andb_false_iff.
  - exists 0%nat, t. split; [done|]. by destruct (tk_phase t).
  - destruct (IH H) as (i & t' & Hi & Ht). by exists (S i), t'.
Qed.

Lemma flying_task (l : list Task) :
  0 < sum_Z (in_flight <$> l) -> exists i t n a, l !! i = Some t /\ tk_phase t = InFlight n a.
Proof.
  induction l as [|t l IH]; [unfold sum_Z; cbn; lia|]. rewrite fmap_cons, sum_Z_cons. unfold in_flight at 1.
  destruct (tk_phase t) as [| |n a| | |] eqn:E.
  3: intros _; by exists 0%nat, t, n, a.
  all: intros H; destruct IH as (i & t' & n' & a' & Hi & Ht); [lia|]; by exists (S i), t', n', a'.
Qed.

Lemma load_progress total concurrency w :
  load_inv total concurrency w -> 0 < concurrency -> finished w = false ->
  exists i e w', load_step w i e = Some w' /\ is_gap e = false.
Proof.
  intros [H1 _ _ _ H5 H6] Hc Hf.
  assert (forall i t n a, lw_tasks w !! i = Some t -> tk_phase t = InFlight n a ->
    exists i e w', load_step w i e = Some w' /\ is_gap e = false) as Hfly.
  { intros i t n a Hi Hp. exists i, (EvReply (Ok EmptyString)). unfold load_step. rewrite Hi. cbn. unfold reply.
    rewrite Hp. by eexists. }
  destruct (unfinished_task _ Hf) as (i & t & Hi & Ht). destruct (tk_phase t) as [|n a|n a| |gap|] eqn:Ep;
    [| |by eapply Hfly| | |done].
  - exists i, (EvTurn false). unfold load_step. rewrite Hi. cbn. unfold turn. rewrite Ep. by eexists.
  - destruct (Z.leb_spec (lw_permits w) 0).
    + destruct (flying_task (lw_tasks w)) as (j & t' & n' & a' & Hj & Ht'); [lia|]. by eapply Hfly.
    + exists i, EvAcquire. unfold load_step. rewrite Hi. cbn. unfold acquire. rewrite Ep.
      rewrite (proj2 (Z.leb_gt _ _)) by lia. by eexists.
  - exists i, EvResume. unfold load_step. rewrite Hi. cbn. unfold resume. rewrite Ep. by eexists.
  - exists i, (EvNonce None). unfold load_step. rewrite Hi. cbn. unfold answer. rewrite Ep. by eexists.
Qed.

Lemma in_flight_nonneg l : 0 <= sum_Z (in_flight <$> l).
Proof. apply sum_Z_nonneg, Forall_fmap, Forall_true. intros t. cbn. unfold in_flight. destruct (tk_phase t); lia. Qed.

Lemma sent_le_count dl l : Forall (task_ok dl) l -> sum_Z (tk_sent <$> l) <= sum_Z (tk_count <$> l).
Proof. induction 1 as [|t l [Ht _] _ IH]; [done|]. rewrite !fmap_cons, !sum_Z_cons. lia. Qed.

Lemma finished_sent l :
  Forall (task_ok false) l -> forallb (fun t => match tk_phase t with Stopped => true | _ => false end) l = true ->
  sum_Z (tk_sent <$> l) = sum_Z (tk_count <$> l).
Proof.
  induction 1 as [|t l [_ Ht] _ IH]; [done|]. cbn [forallb]. intros [Hp Hl]%andb_true_iff.
  rewrite !fmap_cons, !sum_Z_cons. rewrite (IH Hl). destruct (tk_phase t); try done. destruct Ht; [lia|done].
Qed.

(** The answer to a query for a nonce. *)
Definition is_query (e : Event) : bool := match e with EvNonce _ => true | _ => false end.

Lemma cost_steps (l : list (nat * Event)) :
  sum_Z ((fun e => step_cost 0 e.2) <$> l) = len (filter (fun e => is_query e.2 = false) l).
Proof.
  induction l as [|[i e] l IH]; [done|]. rewrite fmap_cons, sum_Z_cons, filter_cons, IH.
  destruct e; cbn [step_cost is_query snd]; case_decide; try done; rewrite ?len_cons; lia.
Qed.

Lemma cost_all (l : list (nat * Event)) : sum_Z ((fun e => step_cost 1 e.2) <$> l) = len l.
Proof.
  induction l as [|[i e] l IH]; [done|]. rewrite fmap_cons, sum_Z_cons, len_cons, IH. destruct e; cbn; lia.
Qed.

Lemma init_potential q total w :
  Forall (fun t => tk_phase t = Idle /\ tk_sent t = 0) (lw_tasks w) -> sum_Z (tk_count <$> lw_tasks w) = total ->
  sum_Z (potential q <$> lw_tasks w) = (21 + q) * total + len (lw_tasks w).
Proof.
  intros Hidle <-. induction Hidle as [|t ts [Hp Hs] _ IH]; [unfold len, sum_Z; cbn; lia|].
  rewrite !fmap_cons, !sum_Z_cons, IH, len_cons. unfold potential at 1. rewrite Hp, Hs. lia.
Qed.

(** ** Theorems *)

(** C35: whatever the tasks of a load test do and in whatever order, with
    every answer the endpoints can give: at most as many transactions are being
    submitted as the concurrency allows (the queries for a nonce are made
    without a permit and are not among them), at most as many transactions are
    accounted for as were asked for, and when all tasks have ended and there was
    no deadline, each one is counted exactly once, as a success or a failure. *)
Theorem loadgen_accounting total concurrency deadline nonces w l w' :
  nonces <> [] -> 0 <= total -> 0 <= concurrency ->
  loadgen_init total concurrency deadline nonces = Some w -> load_run w l = Some w' ->
  0 <= sum_Z (in_flight <$> lw_tasks w') <= concurrency
  /\ 0 <= lw_success w' + lw_failure w' <= total
  /\ (finished w' = true -> deadline = false -> lw_success w' + lw_failure w' = total).
Proof.
  intros Hn Ht Hc Hi Hr. destruct (loadgen_init_inv _ _ _ _ _ Hn Ht Hc Hi) as (Hinv & _ & Hd & _ & _).
  destruct (load_run_inv _ _ _ _ _ Hinv Hr) as ([H1 H2 H3 H4 H5 H6] & Hd' & _).
  pose proof (in_flight_nonneg (lw_tasks w')). pose proof (sent_le_count _ _ H1).
  split_and!; [lia|lia|lia|lia|]. intros Hf ->. rewrite Hd', Hd in H1. rewrite H3, <- H2. by apply finished_sent.
Qed.

(** C36: a load test whose endpoints report no nonce gap comes to its end: no
    matter how its tasks interleave, it takes at most 21 steps for each
    transaction and one for each account, not counting the answers to nonce
    queries, and at most 22 for each transaction with them; and as long as a
    task is not done some step is possible, so that no task waits forever for a
    permit. *)
Theorem loadgen_ends total concurrency deadline nonces w l w' :
  nonces <> [] -> 0 <= total -> 0 <= concurrency ->
  loadgen_init total concurrency deadline nonces = Some w -> load_run w l = Some w' ->
  forallb (fun e => negb (is_gap e.2)) l = true ->
  len (filter (fun e => is_query e.2 = false) l) <= 21 * total + len nonces
  /\ len l <= 22 * total + len nonces
  /\ (finished w' = false -> exists i e w'', load_step w' i e = Some w'' /\ is_gap e = false).
Proof.
  intros Hn Ht Hc Hi Hr Hg. destruct (loadgen_init_inv _ _ _ _ _ Hn Ht Hc Hi) as (Hinv & Hlen & _ & Hidle & Hpos).
  destruct (load_run_inv _ _ _ _ _ Hinv Hr) as (Hinv' & _ & Hpot). specialize (Hpot Hg).
  assert (forall q, 0 <= q <= 1 ->
    sum_Z ((fun e => step_cost q e.2) <$> l) <= (21 + q) * total + len nonces) as Hq.
  { intros q Hq. specialize (Hpot q Hq). rewrite (init_potential q total w) in Hpot by apply Hinv || done.
    unfold len. rewrite <- Hlen.
    assert (0 <= sum_Z (potential q <$> lw_tasks w')); [|unfold len in Hpot; lia].
    apply sum_Z_nonneg, Forall_fmap. eapply Forall_impl; [apply Hinv'|]. intros t. by apply potential_nonneg. }
  split_and!.
  - specialize (Hq 0). rewrite cost_steps in Hq. lia.
  - specialize (Hq 1). rewrite cost_all in Hq. lia.
  - by apply (load_progress total concurrency).
Qed.

(** The requests in flight, with the queries for a nonce. *)
Definition requests (t : Task) : Z := match tk_phase t with InFlight _ _ | Asking _ => 1 | _ => 0 end.

(** With a concurrency of one, two requests are in flight at once: the permit
    is given back before the query for the nonce is made. *)
Lemma requests_exceed_concurrency :
  exists w w', loadgen_init 2 1 false [5; 0] = Some w
  /\ load_run w [(0%nat, EvTurn false); (1%nat, EvTurn false); (0%nat, EvAcquire);
       (0%nat, EvReply (Err "RPC error: nonce too low")); (1%nat, EvAcquire)] = Some w'
  /\ sum_Z (requests <$> lw_tasks w') = 2.
Proof. by eexists _, _; split; [reflexivity|]; split; [vm_compute; reflexivity|]. Qed.

(** The endpoints that accept a transaction. *)
Definition accepts (clients : list Endpoint) (raw_tx : bytes) (i : nat) : bool :=
  match clients !! i with Some c => is_ok (ep_send c raw_tx) | None => false end.

Lemma send_others_spec raw_tx skip clients : forall (acc : nat -> bool) i errors r asked,
  (forall j c, clients !! j = Some c -> acc (i + j)%nat = is_ok (ep_send c raw_tx)) ->
  send_others clients raw_tx skip i errors = (r, asked) ->
  Forall (fun j => i <= j < i + length clients /\ j <> skip)%nat asked /\ NoDup asked
  /\ len (filter (fun j => acc j = true) asked) = (if is_ok r then 1 else 0)
  /\ (is_ok r = false -> forall j, (i <= j < i + length clients)%nat -> j <> skip -> j ∈ asked).
Proof.
  induction clients as [|c clients IH]; intros acc i errors r asked Hacc; cbn [send_others].
  { intros [= <- <-]. split_and!; [constructor|constructor|done|]. cbn. intros _ j Hj. lia. }
  assert (forall j c', clients !! j = Some c' -> acc (S i + j)%nat = is_ok (ep_send c' raw_tx)) as Hacc'.
  { intros j c' Hj. replace (S i + j)%nat with (i + S j)%nat by lia. by apply Hacc. }
  assert (forall l, Forall (fun j => S i <= j < S i + length clients /\ j <> skip)%nat l ->
    Forall (fun j => i <= j < i + length (c :: clients) /\ j <> skip)%nat l) as Hmono.
  { intros l Hl. eapply Forall_impl; [exact Hl|]. cbn. intros j Hj. lia. }
  destruct (Nat.eqb_spec i skip) as [->|Hne].
  { intros H. destruct (IH acc (S skip) errors r asked Hacc' H) as (H1 & H2 & H3 & H4).
    split_and!; [by apply Hmono|done|done|]. cbn. intros Hr j Hj Hjs. apply H4; [done|lia|done]. }
  pose proof (Hacc 0%nat c eq_refl) as H0. rewrite Nat.add_0_r in H0.
  destruct (ep_send c raw_tx) as [h|e].
  { intros [= <- <-]. split_and!; [repeat constructor; cbn; lia|apply NoDup_singleton| |done].
    by rewrite filter_cons_True by done. }
  destruct (send_others clients raw_tx skip (S i) (errors ++ [e])) as [r' asked'] eqn:E. intros [= <- <-].
  destruct (IH acc (S i) _ r' asked' Hacc' E) as (H1 & H2 & H3 & H4). split_and!.
  - constructor; [cbn; lia|by apply Hmono].
  - constructor; [|done]. intros Hin. rewrite Forall_forall in H1. apply H1 in Hin. lia.
  - rewrite filter_cons_False by (rewrite H0; done). done.
  - cbn. intros Hr j Hj Hjs. destruct (decide (j = i)) as [->|]; [by left|]. right. apply H4; [done|lia|done].
Qed.

(** Sending a transaction asks each endpoint at most once, the one of its
    account first, and stops at the first that accepts it, so that at most
    one endpoint accepts it; it succeeds exactly when one does; another endpoint
    is asked only when the first cannot be reached, and then all are before
    it fails. *)
Theorem send_to_one_endpoint clients raw_tx target r asked :
  send_raw_transaction_to clients raw_tx target = Some (r, asked) ->
  let idx := (target mod length clients)%nat in
  NoDup asked /\ head asked = Some idx
  /\ len (filter (fun j => accepts clients raw_tx j = true) asked) = (if is_ok r then 1 else 0)
  /\ (forall c h, clients !! idx = Some c -> ep_send c raw_tx = Ok h -> asked = [idx])
  /\ (forall c e, clients !! idx = Some c -> ep_send c raw_tx = Err e ->
        if is_transport_error e
        then is_ok r = false -> forall j, (j < length clients)%nat -> j ∈ asked
        else asked = [idx] /\ r = Err e).
Proof.
  unfold send_raw_transaction_to. destruct (Nat.eqb_spec (length clients) 0); [done|].
  set (idx := (target mod length clients)%nat). destruct (clients !! idx) as [c|] eqn:Hc; cbn; [|done].
  assert (accepts clients raw_tx idx = is_ok (ep_send c raw_tx)) as Ha by (unfold accepts; by rewrite Hc).
  destruct (ep_send c raw_tx) as [h|e] eqn:Es.
  { intros [= <- <-]. split_and!; [apply NoDup_singleton|done|by rewrite filter_cons_True by done|done|].
    intros c' e' [= <-]. by rewrite Es. }
  destruct (is_transport_error e) eqn:Et; cbn.
  - destruct (send_others clients raw_tx idx 0 [e]) as [r' asked'] eqn:E. intros [= <- <-].
    destruct (send_others_spec raw_tx idx clients (accepts clients raw_tx) 0 [e] r' asked') as (H1 & H2 & H3 & H4);
      [intros j c' Hj; cbn; unfold accepts; by rewrite Hj|done|].
    split_and!; [|done|by rewrite filter_cons_False by (rewrite Ha; done)| |].
    + constructor; [|done]. intros Hin. rewrite Forall_forall in H1. apply H1 in Hin. lia.
    + intros c' h [= <-]. by rewrite Es.
    + intros c' e' [= <-]. rewrite Es. intros [= <-]. rewrite Et. intros Hr j Hj.
      destruct (decide (j = idx)) as [->|]; [by left|]. right. apply H4; [done|lia|done].
  - intros [= <- <-]. split_and!; [apply NoDup_singleton|done|by rewrite filter_cons_False by (rewrite Ha; done)| |].
    + intros c' h [= <-]. by rewrite Es.
    + intros c' e' [= <-]. rewrite Es. intros [= <-]. by rewrite Et.
Qed.

(** ** The accounts and the genesis of the devnet *)

Section accounts.
Context `{AT : !AlloyText} `{GT : !GenesisText} `{LK : !LoadgenKeys}.

(** [Account::new]: its address, the one of the secret with its seed. *)
Definition account_address (seed : Z) : Address := address_of_secret (replicate 31 0 ++ [seed]).

(** Up to 50 accounts of a load test are funded by the setup of a devnet, each
    by its own entry; the seeds past them have none. *)
Lemma loadgen_accounts_funded accounts seeds :
  loadgen_seeds accounts = Some seeds ->
  length seeds = Z.to_nat accounts
  /\ forall i seed, seeds !! i = Some seed ->
       if Z.of_nat i <? LOADGEN_ACCOUNT_COUNT
       then funded_loadgen_allocations !! i = Some (funded_allocation (show_address (account_address seed)))
       else funded_loadgen_allocations !! i = None.
Proof.
  unfold loadgen_seeds. destruct (_ && _) eqn:E; [|done]. intros [= <-]. split; [apply length_seqZ|].
  intros i seed Hi. apply lookup_seqZ in Hi as [-> Hi]. unfold funded_loadgen_allocations, LOADGEN_ACCOUNT_COUNT.
  rewrite list_lookup_fmap. destruct (Z.ltb_spec (Z.of_nat i) 50).
  - by rewrite lookup_seqZ_lt by lia.
  - by rewrite lookup_seqZ_ge by lia.
Qed.
End accounts.

(** ** Witnesses *)

Definition demo_load : list (nat * Event) :=
  [(0, EvTurn false); (1, EvTurn false); (0, EvAcquire); (0, EvReply (Err "RPC error: nonce too low")); (0, EvNonce (Some 9%Z));
   (1, EvAcquire); (1, EvReply (Err "timed out")); (1, EvAcquire); (1, EvReply (Ok "0x1"));
   (1, EvTurn false); (0, EvTurn false); (0, EvAcquire); (0, EvReply (Ok "0x2")); (0, EvTurn false)]%nat.

Definition demo_world : World :=
  mkWorld [mkTask 2 2 10 Stopped; mkTask 1 1 1 Stopped] 3 0 1 1 false.

Lemma loadgen_accounting_witness :
  exists w, loadgen_init 3 1 false [5; 0] = Some w /\ load_run w demo_load = Some demo_world
  /\ lw_success demo_world + lw_failure demo_world = 3.
Proof.
  eexists. split; [reflexivity|]. split; [by vm_compute|].
  refine (proj2 (proj2 (loadgen_accounting 3 1 false [5; 0] _ demo_load demo_world _ _ _ eq_refl _)) eq_refl eq_refl);
    [done|lia|lia|by vm_compute].
Defined.

Lemma loadgen_ends_witness :
  exists w, loadgen_init 3 1 false [5; 0] = Some w /\ load_run w demo_load = Some demo_world
  /\ len demo_load <= 22 * 3 + 2.
Proof.
  eexists. split; [reflexivity|]. split; [by vm_compute|].
  refine (proj1 (proj2 (loadgen_ends 3 1 false [5; 0] _ demo_load demo_world _ _ _ eq_refl _ _)));
    [done|lia|lia|by vm_compute|by vm_compute].
Defined.

Definition demo_endpoints : list Endpoint :=
  [mkEndpoint (fun _ => Err "connection refused") (fun _ => Err "down");
   mkEndpoint (fun _ => Ok "0x2") (fun _ => Ok 4);
   mkEndpoint (fun _ => Ok "0x3") (fun _ => Ok 5)].

Lemma send_to_one_endpoint_witness :
  send_raw_transaction_to demo_endpoints [1] 3 = Some (Ok "0x2", [0; 1]%nat)
  /\ len (filter (fun j => accepts demo_endpoints [1] j = true) [0; 1]%nat) = 1.
Proof.
  split; [by vm_compute|].
  exact (proj1 (proj2 (proj2 (send_to_one_endpoint demo_endpoints [1] 3 (Ok "0x2") [0; 1]%nat
    ltac:(by vm_compute))))).
Defined.
