(* ===== verification/Limits.v ===== *)
(** The size limits of four components side by side: what the validator and the
    pool admit (crates/node/txpool/src/config.rs), what the proposer selects
    (crates/node/txpool/src/pool.rs), what the block codec admits
    (crates/node/config/src/consensus.rs) and what the transport carries
    (crates/network/transport/src/config.rs). *)
From S2P Require Import Prelude Bytes TxTypes Codec Block Dkg Config Transport Cli SenderQueue Pool PoolInv PoolOps PoolProps PoolBuild.
Open Scope Z_scope.

(** The codec writes an integer of 64 bits in eight bytes, and a vector as its
    length, a varint of at most five bytes, and its items. *)
Class CodecSizes `{CD : Codec} := {
  u64_size_8 : u64_size = 8;
  bytes_size_near b : len b <= bytes_size b <= len b + 5;
  vec_size_near {T} (size : T -> usize) l : sum_Z (size <$> l) <= vec_size size l <= sum_Z (size <$> l) + 5;
}.

Section limits.
Context `{EXT : !External}.
#[local] Set Default Proof Using "Type*".

(** ** A sender's transactions in a pool *)

(** Adds the transactions one after the other; the error of the first that is
    rejected. *)
Fixpoint add_all (p : TransactionPool) (txs : list OrderedTransaction) : result TransactionPool TxPoolError :=
  match txs with
  | [] => Ok p
  | tx :: rest =>
      match pool_add p tx with
      | (p', Ok _) => add_all p' rest
      | (_, Err e) => Err e
      end
  end.

(** Transactions of one sender with consecutive nonces, none twice. *)
Record in_line (s : Address) (n0 : u64) (txs : list OrderedTransaction) : Prop := {
  ln_sender : Forall (fun tx => ot_sender tx = s) txs;
  ln_nonce : forall (i : nat) tx, txs !! i = Some tx -> ot_nonce tx = n0 + Z.of_nat i;
  ln_range : 0 <= n0 /\ n0 + len txs <= u64_max;
  ln_hash : NoDup (ot_hash <$> txs);
  ln_id : NoDup (ordered_tx_id <$> txs);
}.

(** A pool that holds the transactions [l] of [s], all of them pending, and
    nothing else. *)
Record holds (s : Address) (n0 : u64) (l : list OrderedTransaction) (p : TransactionPool) : Prop := {
  ho_config : tp_config p = PoolConfig_default;
  ho_wf : inner_wf (tp_inner p);
  ho_queues : by_sender (tp_inner p) = match l with [] => ∅ | _ => {[ s := mkSQ s n0 l [] ]} end;
}.

Lemma holds_in s n0 l p x : holds s n0 l p -> in_queues (by_sender (tp_inner p)) x -> x ∈ l.
Proof.
  intros [_ _ Hq] (q & Hx & Hin). rewrite Hq in Hx. destruct l as [|y l]; [by rewrite lookup_empty in Hx|].
  apply lookup_singleton_Some in Hx as [_ <-]. unfold sq_all in Hin. cbn in Hin. by rewrite app_nil_r in Hin.
Qed.

Lemma holds_target s n0 l p tx :
  holds s n0 l p -> ot_sender tx = s -> ot_nonce tx = n0 + len l ->
  target_queue (tp_inner p) tx = mkSQ s n0 l [].
Proof.
  intros [_ _ Hq] Hs Hn. unfold target_queue. rewrite Hq, Hs. destruct l as [|y l].
  - rewrite lookup_empty. cbn. unfold sq_new. f_equal. unfold len in Hn. cbn in Hn. lia.
  - by rewrite lookup_singleton_eq.
Qed.

Lemma holds_counts s n0 l p :
  holds s n0 l p -> pending_count (tp_inner p) = len l /\ queued_count (tp_inner p) = 0.
Proof.
  intros [_ Hw Hq]. rewrite (iw_pending _ Hw), (iw_queued _ Hw), Hq. unfold queues. destruct l as [|y l].
  - by rewrite map_to_list_empty.
  - rewrite map_to_list_singleton. unfold sum_Z, sq_pending_count, sq_queued_count, len. cbn. lia.
Qed.

Lemma holds_fresh s n0 l tx p :
  holds s n0 l p -> NoDup (ot_hash <$> l ++ [tx]) -> NoDup (ordered_tx_id <$> l ++ [tx]) ->
  by_hash (tp_inner p) !! ot_hash tx = None /\ by_id (tp_inner p) !! ordered_tx_id tx = None.
Proof.
  intros Hp. rewrite !fmap_app. intros (_ & Hh & _)%NoDup_app (_ & Hi & _)%NoDup_app.
  pose proof (ho_wf _ _ _ _ Hp) as Hw.
  assert (forall h x, by_hash (tp_inner p) !! h = Some x -> ot_hash x = h /\ x ∈ l) as Hin.
  { intros h x [Hx Hq]%by_hash_lookup; [|done]. split; [done|]. by eapply holds_in. }
  split.
  - destruct (by_hash _ !! _) as [x|] eqn:E; [|done]. apply Hin in E as [Ex Hx].
    destruct (Hh (ot_hash x)); [by apply list_elem_of_fmap_2|]. rewrite Ex. by apply list_elem_of_singleton.
  - destruct (by_id _ !! _) as [h|] eqn:E; [|done].
    apply (ix_id _ _ _ (pr_index _ _ (iw_rel _ Hw))) in E as (x & [_ Hx]%Hin & Ex).
    destruct (Hi (ordered_tx_id x)); [by apply list_elem_of_fmap_2|]. rewrite Ex. by apply list_elem_of_singleton.
Qed.

Lemma no_eviction config I :
  pending_count I <= max_pending_txs config -> queued_count I <= max_queued_txs config ->
  add_evict config I = (I, []).
Proof.
  intros Hp Hq. unfold add_evict.
  assert (forall fuel, evict_loop_pending fuel (max_pending_txs config) I = (I, [])) as ->
    by (intros []; cbn; [done|by rewrite (proj2 (Z.ltb_ge _ _)) by lia]).
  assert (forall fuel, evict_loop_queued fuel (max_queued_txs config) I = (I, [])) as ->
    by (intros []; cbn; [done|by rewrite (proj2 (Z.ltb_ge _ _)) by lia]).
  done.
Qed.

Lemma line_last s n0 l tx :
  in_line s n0 (l ++ [tx]) ->
  ot_sender tx = s /\ ot_nonce tx = n0 + len l /\ 0 <= n0 /\ n0 + len l < u64_max.
Proof.
  intros [Hs Hn Hr _ _]. apply Forall_app in Hs as [_ Hs]. apply Forall_inv in Hs.
  specialize (Hn (length l) tx (list_lookup_middle _ _ _ _ eq_refl)). rewrite len_app in Hr.
  unfold len in *. cbn in Hr. split_and!; [exact Hs|lia|lia|lia].
Qed.

Lemma line_target s n0 l tx p :
  holds s n0 l p -> in_line s n0 (l ++ [tx]) ->
  insertion_target (by_sender (tp_inner p) !! s) tx = Pending.
Proof.
  intros [_ _ Hq] Hl. destruct (line_last _ _ _ _ Hl) as (Hs & Hn & H0 & Hm). rewrite Hq.
  destruct l as [|y l]; [by rewrite lookup_empty|]. rewrite lookup_singleton_eq. unfold insertion_target.
  assert (existing_nonce_tx (mkSQ s n0 (y :: l) []) (ot_nonce tx) = None) as ->.
  { unfold existing_nonce_tx. cbn [sq_pending sq_queued]. rewrite app_nil_r.
    destruct (list_find _ _) as [[i z]|] eqn:E; [|done]. apply list_find_Some in E as (Hz & Hnz & _).
    pose proof (ln_nonce _ _ _ Hl i z (lookup_app_l_Some _ _ _ _ Hz)). apply lookup_lt_Some in Hz.
    unfold len in Hn. lia. }
  cbn [sq_next_nonce sq_pending]. pose proof (len_nonneg (y :: l)). unfold wrapping_add, wrap.
  rewrite Z.mod_small by lia. by rewrite Hn, Z.eqb_refl.
Qed.

Lemma line_guard s n0 l tx p :
  holds s n0 l p -> in_line s n0 (l ++ [tx]) -> len l < 256 ->
  add_guard PoolConfig_default (tp_inner p) tx = Ok tt.
Proof.
  intros Hp Hl Hlen. destruct (line_last _ _ _ _ Hl) as (Hs & Hn & H0 & Hm).
  destruct (holds_fresh _ _ _ _ _ Hp (ln_hash _ _ _ Hl) (ln_id _ _ _ Hl)) as [Fh Fi].
  destruct (holds_counts _ _ _ _ Hp) as [Hc _]. pose proof (len_nonneg l).
  unfold add_guard. rewrite Fh, Fi, Hs, (line_target _ _ _ _ _ Hp Hl). rewrite !bool_decide_false by (by intros [? ?]).
  cbn [orb]. rewrite (ho_queues _ _ _ _ Hp).
  assert (reject_underpriced_when_full PoolConfig_default (tp_inner p) tx Pending = Ok tt) as Hr.
  { unfold reject_underpriced_when_full. rewrite Hc. cbn [max_pending_txs PoolConfig_default].
    by rewrite (proj2 (Z.leb_gt _ _)) by lia. }
  destruct l as [|y l]; [by rewrite lookup_empty|]. rewrite lookup_singleton_eq. cbn [sq_next_nonce].
  rewrite (proj2 (Z.ltb_ge _ _)) by lia. unfold sq_total_count. cbn [sq_pending sq_queued max_txs_per_sender PoolConfig_default].
  by rewrite (proj2 (Z.leb_gt _ _)) by (change (len []) with 0; lia).
Qed.

(** The next transaction of the sender is admitted, behind the others. *)
Lemma line_add s n0 l tx p :
  holds s n0 l p -> in_line s n0 (l ++ [tx]) -> len l < 256 ->
  exists p', pool_add p tx = (p', Ok tt) /\ holds s n0 (l ++ [tx]) p'.
Proof.
  intros Hp Hl Hlen. destruct (line_last _ _ _ _ Hl) as (Hs & Hn & H0 & Hm). pose proof (len_nonneg l).
  destruct (holds_fresh _ _ _ _ _ Hp (ln_hash _ _ _ Hl) (ln_id _ _ _ Hl)) as [Fh Fi].
  pose proof (holds_target _ _ _ _ _ Hp Hs Hn) as Ht. set (q' := mkSQ s n0 (l ++ [tx]) []).
  assert (sq_insert (mkSQ s n0 l []) tx = (q', None)) as Hins.
  { unfold sq_insert, next_pending_nonce, saturating_add. cbn [sq_next_nonce sq_pending].
    rewrite (proj2 (Z.ltb_ge _ _)), Z.min_r, Hn, Z.eqb_refl by lia. done. }
  set (I1 := update_counts (mkPoolInner (<[ot_hash tx := tx]> (by_hash (tp_inner p)))
    (<[ordered_tx_id tx := ot_hash tx]> (by_id (tp_inner p))) (<[ot_sender tx := q']> (by_sender (tp_inner p)))
    (pending_count (tp_inner p)) (queued_count (tp_inner p)))).
  assert (add_insert (tp_inner p) tx = (I1, Ok None)) as Hadd.
  { unfold add_insert. fold (target_queue (tp_inner p) tx). by rewrite Ht, Hins. }
  assert (sq_wf (mkSQ s n0 l [])) as Hwf by (rewrite <- Ht; apply target_queue_wf; [apply Hp|unfold tx_ok; lia]).
  assert (inner_wf I1) as Hw1.
  { apply add_insert_free; [apply Hp|unfold tx_ok; lia|done|done| |done|].
    - change q' with (fst (q', @None OrderedTransaction)). rewrite <- Hins.
      apply sq_insert_spec; [done|lia|done].
    - intros x. rewrite Ht. unfold sq_all, q'. cbn. rewrite !app_nil_r. set_solver. }
  assert (by_sender I1 = {[ s := q' ]}) as Hq1.
  { cbn. rewrite Hs, (ho_queues _ _ _ _ Hp). destruct l; [apply insert_empty|apply insert_singleton_eq]. }
  assert (holds s n0 (l ++ [tx]) (with_inner p I1)) as Hh1.
  { split; [apply Hp|done|]. cbn [tp_inner with_inner]. rewrite Hq1. by destruct l. }
  destruct (holds_counts _ _ _ _ Hh1) as [Hc1 Hc2]. cbn [tp_inner with_inner] in Hc1, Hc2.
  assert (add_evict PoolConfig_default I1 = (I1, [])) as Hev.
  { apply no_eviction; [|by rewrite Hc2]. rewrite Hc1, len_app. change (len [tx]) with 1. cbn. lia. }
  exists (sync_metrics (send_events (with_inner p I1) (add_events tx None [] false))).
  unfold pool_add. rewrite (ho_config _ _ _ _ Hp), (line_guard _ _ _ _ _ Hp Hl Hlen), Hadd, Hev. split; [done|].
  unfold sync_metrics. cbn. by destruct Hh1, (tp_metrics p).
Qed.
Lemma line_add_all s n0 rest : forall l p,
  holds s n0 l p -> in_line s n0 (l ++ rest) -> len (l ++ rest) <= 256 ->
  exists p', add_all p rest = Ok p' /\ holds s n0 (l ++ rest) p'.
Proof.
  induction rest as [|tx rest IH]; intros l p Hp Hl Hlen.
  { rewrite app_nil_r. by exists p. }
  assert (l ++ tx :: rest = (l ++ [tx]) ++ rest) as E by (by rewrite <- app_assoc).
  rewrite E in Hl, Hlen |- *. destruct (line_add s n0 l tx p Hp) as (p1 & Hadd & H1).
  - destruct Hl as [Hs Hn Hr Hh Hi]. rewrite !fmap_app in Hh, Hi. split.
    + by apply Forall_app in Hs as [? _].
    + intros i x Hx. apply Hn. by apply lookup_app_l_Some.
    + rewrite len_app in Hr. pose proof (len_nonneg rest). lia.
    + rewrite fmap_app. by apply NoDup_app in Hh as (? & _).
    + rewrite fmap_app. by apply NoDup_app in Hi as (? & _).
  - rewrite !len_app in Hlen. change (len [tx]) with 1 in Hlen. pose proof (len_nonneg rest). lia.
  - destruct (IH (l ++ [tx]) p1 H1 Hl Hlen) as (p' & Hp' & H'). exists p'. cbn [add_all]. by rewrite Hadd.
Qed.

(** The proposer selects all of them, in the order of their nonces. *)
Lemma line_build s n0 l p max_txs :
  holds s n0 l p -> Forall (fun tx => ot_sender tx = s) l -> len l < max_txs ->
  mempool_build p max_txs ∅ = ordered_to_tx <$> l.
Proof.
  intros Hp Hs Hlen. pose proof (ho_wf _ _ _ _ Hp) as Hw. pose proof (len_nonneg l).
  destruct (build_valid p max_txs ∅ Hw ltac:(lia)) as (-> & _ & Hnd & _ & Hin & _).
  set (L := build_txs p max_txs ∅) in *.
  assert (forall x, x ∈ L -> x ∈ l) as Hsub.
  { intros x [(s' & q & Hq & Hx)%elem_of_all_pending _]%Hin. apply (holds_in s n0 l p x Hp).
    exists q. rewrite (in_queues_key _ _ _ _ (pr_queues _ _ (iw_rel _ Hw)) Hq); [|unfold sq_all; set_solver].
    split; [done|]. unfold sq_all. set_solver. }
  assert (len L <= len l) as HLl by (apply Nat2Z.inj_le, submseteq_length, NoDup_submseteq; done).
  destruct (build_txs_prefix p max_txs ∅ s Hw) as [_ Hall]. fold L in Hall. specialize (Hall ltac:(lia)).
  assert (of_sender s L = L) as Hof.
  { apply list_filter_all, Forall_forall. intros x Hx. rewrite Forall_forall in Hs. by apply Hs, Hsub. }
  rewrite <- Hof, Hall, (ho_queues _ _ _ _ Hp). f_equal. destruct l as [|y l]; [by rewrite lookup_empty|].
  rewrite lookup_singleton_eq. cbn [option_fmap option_map fmap default from_option].
  apply list_filter_all, Forall_forall. intros x _. apply not_elem_of_empty.
Qed.

(** ** Blocks on the wire *)

Context `{CD : !Codec} `{CL : !CodecLaws} `{CS : !CodecSizes}.

(** A block is on the wire what its transactions hold, a header of 112 bytes
    and at most five bytes for each length. *)
Lemma block_wire b :
  block_ok b ->
  let data := sum_Z ((fun tx => len (tx_bytes tx)) <$> b_txs b) in
  112 + data <= len (block_write b) <= 112 + data + 5 * len (b_txs b) + 5.
Proof.
  intros Hb data. rewrite block_size by done. unfold block_encode_size. rewrite u64_size_8.
  pose proof (vec_size_near tx_encode_size (b_txs b)).
  assert (data <= sum_Z (tx_encode_size <$> b_txs b) <= data + 5 * len (b_txs b)); [|lia].
  unfold data. clear -CS. induction (b_txs b) as [|tx l IH]; [done|].
  rewrite !fmap_cons, !sum_Z_cons, len_cons. pose proof (bytes_size_near (tx_bytes tx)).
  unfold tx_encode_size at 1 3. lia.
Qed.

Lemma sum_sizes max l :
  Forall (fun tx => len (tx_bytes tx) <= max) l -> sum_Z ((fun tx => len (tx_bytes tx)) <$> l) <= max * len l.
Proof.
  induction 1 as [|tx l Hx _ IH]; [unfold sum_Z, len; cbn; lia|]. rewrite fmap_cons, sum_Z_cons, len_cons. lia.
Qed.

Lemma sum_full max l :
  Forall (fun tx => len (tx_bytes tx) = max) l -> sum_Z ((fun tx => len (tx_bytes tx)) <$> l) = max * len l.
Proof.
  induction 1 as [|tx l Hx _ IH]; [unfold sum_Z, len; cbn; lia|]. rewrite fmap_cons, sum_Z_cons, len_cons. lia.
Qed.

(** C37: with the default settings, seven transactions of a size the validator
    admits always make a block that fits into a message of the transport, and
    nothing keeps a block from having more: eight transactions or more of one
    sender, of the largest size admitted, up to the limit for a sender, are all
    admitted by an empty pool and all selected for the next block, and every
    block with them is one the codec decodes and longer than the largest
    message. *)
Theorem block_outgrows_message s n0 txs :
  in_line s n0 txs -> 8 <= len txs <= max_txs_per_sender PoolConfig_default ->
  Forall (fun tx => len (tx_bytes (ordered_to_tx tx)) = max_tx_size PoolConfig_default) txs ->
  (forall b, block_ok b -> len (b_txs b) <= 7 ->
    Forall (fun tx => len (tx_bytes tx) <= max_tx_size PoolConfig_default) (b_txs b) ->
    len (block_write b) <= DEFAULT_MAX_MESSAGE_SIZE)
  /\ exists p built, add_all (pool_new PoolConfig_default) txs = Ok p
    /\ built = mempool_build p (cfg_max_txs (block_codec_cfg block_codec_default)) ∅
    /\ built = ordered_to_tx <$> txs
    /\ forall b, block_ok b -> b_txs b = built ->
         block_read_cfg (block_codec_cfg block_codec_default) (block_write b) = Ok (b, [])
         /\ DEFAULT_MAX_MESSAGE_SIZE < len (block_write b).
Proof.
  cbn [max_tx_size max_txs_per_sender PoolConfig_default]. unfold DEFAULT_MAX_MESSAGE_SIZE.
  intros Hl Hn Hsize. split.
  { intros b Hb Hc Hs%sum_sizes. pose proof (block_wire b Hb) as Hw. cbv zeta in Hw. lia. }
  destruct (line_add_all s n0 txs [] (pool_new PoolConfig_default)) as (p & Hadd & Hp);
    [by split; [|apply empty_wf|]|done|cbn [app]; lia|]. cbn [app] in Hp.
  assert (Forall (fun tx => len (tx_bytes tx) = 128 * 1024) (ordered_to_tx <$> txs)) as Hfull by (by apply Forall_fmap).
  exists p, (ordered_to_tx <$> txs).
  change (cfg_max_txs (block_codec_cfg block_codec_default)) with 10000.
  split_and!; [done|symmetry; apply (line_build s n0); [done|apply Hl|lia]|done|].
  assert (len (ordered_to_tx <$> txs) = len txs) as Hlen by (unfold len; by rewrite length_fmap).
  intros b Hb Etxs. rewrite <- Etxs in Hfull, Hlen. split.
  - assert (within_cfg (block_codec_cfg block_codec_default) b) as Hw.
    { split; [change (len (b_txs b) <= 10000); lia|]. eapply Forall_impl; [exact Hfull|]. cbn. intros tx ->. by vm_compute. }
    pose proof (block_back _ b Hb Hw []) as H. by rewrite app_nil_r in H.
  - pose proof (block_wire b Hb) as Hw. cbv zeta in Hw. rewrite (sum_full _ _ Hfull) in Hw. lia.
Qed.
End limits.

(** ** Witness *)

(** An encoding of envelopes that begins with the nonce and is as long as a
    transaction may be, and a hash that tells them apart. *)
Definition wide_bytes (e : TxEnvelope) : bytes := env_nonce e :: replicate (Z.to_nat (128 * 1024 - 1)) 0.
Definition wide_hash (b : bytes) : B256 := nth 4 b 0.

#[local] Instance wide_ext : External := {|
  keccak256 := wide_hash;
  rlp_encode := wide_bytes;
  encode_2718 := wide_bytes;
  decode_2718 := fun b => Err "unsupported";
  codec_bytes := fun b => be_bytes 4 (len b) ++ b;
  recover_address := fun _ => None;
|}.
#[local] Instance wide_codec : Codec := let c := simple_codec wide_hash in {|
  write_u64 := @write_u64 _ c; read_u64 := @read_u64 _ c;
  write_bool := @write_bool _ c; read_bool := @read_bool _ c;
  write_usize := @write_usize _ c; read_usize := @read_usize _ c;
  write_vec := @write_vec _ c; read_vec := @read_vec _ c; read_bytes := @read_bytes _ c;
  u64_size := @u64_size _ c; bool_size := @bool_size _ c; usize_size := @usize_size _ c;
  vec_size := @vec_size _ c; bytes_size := @bytes_size _ c;
|}.
#[local] Instance wide_laws : CodecLaws.
Proof. destruct (simple_laws wide_hash). by split. Qed.
#[local] Instance wide_sizes : CodecSizes.
Proof. split; cbn; intros; lia. Qed.

Definition wide_tx (i : nat) : OrderedTransaction :=
  mkOT (Z.of_nat i) 42 (Z.of_nat i) 7 100
    (Legacy (mkTxLegacy (Some 1) (Z.of_nat i) 7 21000 None 0 []) (mkSignature 1 1 false)).
Definition wide_txs : list OrderedTransaction := wide_tx <$> seq 0 8.
Definition wide_block : Block := mkBlock 1 2 3 4 5 (ordered_to_tx <$> wide_txs).

Lemma wide_len tx : len (tx_bytes (ordered_to_tx tx)) = 128 * 1024.
Proof.
  cbn [tx_bytes ordered_to_tx encode_2718 wide_ext]. unfold wide_bytes, len. cbn [length].
  rewrite length_replicate. lia.
Qed.

Lemma wide_id i : ordered_tx_id (wide_tx i) = Z.of_nat i.
Proof.
  unfold ordered_tx_id, tx_id. cbn [keccak256 codec_bytes wide_ext]. rewrite wide_len. reflexivity.
Qed.

Lemma wide_in_line : in_line 42 0 wide_txs.
Proof.
  split.
  - by apply Forall_fmap, Forall_true.
  - intros i tx. unfold wide_txs. rewrite list_lookup_fmap. intros (j & [Hj _]%lookup_seq & ->)%fmap_Some. cbn. lia.
  - split; by vm_compute.
  - apply (bool_decide_unpack _). by vm_compute.
  - unfold wide_txs. rewrite <- list_fmap_compose, (list_fmap_ext _ Z.of_nat) by (intros; apply wide_id).
    apply (bool_decide_unpack _). by vm_compute.
Qed.

Lemma wide_block_ok : block_ok wide_block.
Proof.
  split; [unfold in_width; cbn; lia..| |unfold in_width, len; cbn; lia].
  apply Forall_fmap, Forall_fmap, Forall_forall. intros i Hi%elem_of_seq.
  split; [cbn [compose]; rewrite wide_len; unfold in_width; lia|].
  constructor; [cbn; lia|]. apply Forall_replicate. lia.
Qed.

Lemma block_outgrows_message_witness :
  1024 * 1024 < len (block_write wide_block)
  /\ exists p, add_all (pool_new PoolConfig_default) wide_txs = Ok p
     /\ mempool_build p 10000 ∅ = ordered_to_tx <$> wide_txs.
Proof.
  destruct (block_outgrows_message 42 0 wide_txs wide_in_line) as (_ & p & built & Hp & Hb & Ht & Hblock);
    [unfold len; cbn; lia|apply Forall_forall; intros tx _; apply wide_len|].
  split; [|exists p; split; [exact Hp|by rewrite <- Ht, Hb]].
  apply (Hblock wide_block wide_block_ok). by rewrite Ht.
Defined.
