(* ===== verification/RpcServer.v ===== *)
(** The RPC server's configuration and start (crates/node/rpc/src/config.rs and
    server.rs): the CORS layer, the addresses of the two servers, the assembly
    of the method table and what is up once both tasks have run.  The header
    syntax of the http crate, the CORS layer of tower-http, the method table of
    jsonrpsee and the host's sockets are classes. *)
From S2P Require Import Prelude Text NetAddr TxTypes Pool NodeState Rpc Filters Fees Eth RateLimit.
Open Scope Z_scope.

(** ** Configuration *)

Record CorsConfig := mkCors {
  allowed_origins : list string;
  allowed_methods : list string;
  allowed_headers : list string;
  cors_max_age : u64;
}.

Definition CorsConfig_default : CorsConfig :=
  mkCors ["http://localhost:3000"%string] ["GET"; "POST"; "OPTIONS"]%string
    ["Content-Type"%string] 3600.

Definition cors_none : CorsConfig := mkCors [] [] [] 0.

Definition cors_permissive : CorsConfig :=
  mkCors ["*"%string] ["GET"; "POST"; "PUT"; "DELETE"; "OPTIONS"]%string ["*"%string] 86400.

Record RpcServerConfig := mkRpcServerConfig {
  rsc_http_addr : SocketAddr;
  rsc_jsonrpc_addr : SocketAddr;
  rsc_chain_id : u64;
  rsc_cors : CorsConfig;
  rsc_rate_limit : RateLimitConfig;
  rsc_max_connections : u32;
  rsc_max_subscriptions : u32;
  rsc_max_batch_size : u32;
}.

Definition rpc_config_new (http_addr jsonrpc_addr : SocketAddr) (chain_id : u64)
    : RpcServerConfig :=
  mkRpcServerConfig http_addr jsonrpc_addr chain_id CorsConfig_default RateLimitConfig_default
    100 32 100.

Definition single_addr (addr : SocketAddr) (chain_id : u64) : RpcServerConfig :=
  rpc_config_new addr addr chain_id.

(** "127.0.0.1:8545", for both. *)
Definition local_8545 : SocketAddr := SocketV4 [127; 0; 0; 1] 8545.

Definition RpcServerConfig_default : RpcServerConfig :=
  mkRpcServerConfig local_8545 local_8545 1 CorsConfig_default RateLimitConfig_default 100 32 100.

Definition with_cors_origins (c : RpcServerConfig) (origins : list string) : RpcServerConfig :=
  let cors := rsc_cors c in
  mkRpcServerConfig (rsc_http_addr c) (rsc_jsonrpc_addr c) (rsc_chain_id c)
    (mkCors origins (allowed_methods cors) (allowed_headers cors) (cors_max_age cors))
    (rsc_rate_limit c) (rsc_max_connections c) (rsc_max_subscriptions c) (rsc_max_batch_size c).

Definition with_rate_limit_burst (c : RpcServerConfig) (requests_per_second burst_size : u64)
    : RpcServerConfig :=
  mkRpcServerConfig (rsc_http_addr c) (rsc_jsonrpc_addr c) (rsc_chain_id c) (rsc_cors c)
    (mkRateLimit requests_per_second burst_size) (rsc_max_connections c)
    (rsc_max_subscriptions c) (rsc_max_batch_size c).

(** Only the rate changes. *)
Definition with_rate_limit (c : RpcServerConfig) (requests_per_second : u64) : RpcServerConfig :=
  with_rate_limit_burst c requests_per_second (rlc_burst_size (rsc_rate_limit c)).

(** ** The CORS layer *)

(** What [str::parse] makes of a header value, a method and a header name. *)
Class HttpText := {
  header_value : string -> option string;
  http_method : string -> option string;
  header_name : string -> option string;
  origin_list_ok : list string -> bool;  (** [AllowOrigin::list] does not panic *)
}.

(** [HeaderValue] keeps the text it is parsed from, and "*" is one;
    [AllowOrigin::list] panics on a list with the wildcard, and only then. *)
Class HttpTextLaws `{HttpText} := {
  header_value_text s v : header_value s = Some v -> v = s;
  header_value_star : header_value "*" = Some "*"%string;
  origin_list_star l : origin_list_ok l = bool_decide ("*"%string ∉ l);
}.

Inductive Allow := AllowAny | AllowList (items : list string).

Record CorsLayer := mkCorsLayer {
  layer_origin : Allow;
  layer_methods : Allow;
  layer_headers : Allow;
  layer_max_age : option u64;
}.

(** [CorsLayer::new]: no origin is allowed, nothing is sent. *)
Definition cors_layer_new : CorsLayer := mkCorsLayer (AllowList []) (AllowList []) (AllowList []) None.

(** [AllowOrigin::list] of the origins that parse; [None] is its panic. *)
Definition allow_origin_list `{HttpText} (origins : list string) : option Allow :=
  let origins := omap header_value origins in
  if origin_list_ok origins then Some (AllowList origins) else None.

Definition allow_or_any (parse : string -> option string) (items : list string) : Allow :=
  if existsb (String.eqb "*") items then AllowAny else AllowList (omap parse items).

(** [None] is the panic. *)
Definition build_cors_layer `{HttpText} (c : CorsConfig) : option CorsLayer :=
  match allowed_origins c with
  | [] => Some cors_layer_new
  | origins =>
      origin ← (match origins with
                | [o] => if String.eqb o "*" then Some AllowAny
                         else allow_origin_list origins
                | _ => allow_origin_list origins
                end);
      Some (mkCorsLayer origin (allow_or_any http_method (allowed_methods c))
              (allow_or_any header_name (allowed_headers c)) (Some (cors_max_age c)))
  end.

(** ** The server *)

Definition port_of (a : SocketAddr) : u16 :=
  match a with SocketV4 _ p => p | SocketV6 _ _ p => p end.

(** The port after the given one; as the release profile compiles the addition,
    it wraps.  [SocketAddr::new] sets no scope. *)
Definition default_http_addr (a : SocketAddr) : SocketAddr :=
  match a with
  | SocketV4 ip p => SocketV4 ip (wrapping_add u16_max p 1)
  | SocketV6 ip _ p => SocketV6 ip 0 (wrapping_add u16_max p 1)
  end.

Record RpcServer (S : Type) := mkRpcServer {
  rs_state : NodeState;
  rs_http_addr : SocketAddr;
  rs_jsonrpc_addr : SocketAddr;
  rs_chain_id : u64;
  rs_tx_submit : option (bytes -> result unit RpcError);
  rs_txpool : option TransactionPool;
  rs_provider : S;
  rs_cors : CorsConfig;
  rs_rate_limit : RateLimitConfig;
  rs_max_connections : u32;
  rs_max_subscriptions : u32;
  rs_max_batch_size : u32;
  rs_peer_count : u64;
  rs_pending_tx : bool;  (** a pending transaction channel is there *)
  rs_mempool : bool;  (** a mempool event channel is there *)
}.
Arguments mkRpcServer {S}.
Arguments rs_state {S}.
Arguments rs_http_addr {S}.
Arguments rs_jsonrpc_addr {S}.
Arguments rs_chain_id {S}.
Arguments rs_tx_submit {S}.
Arguments rs_txpool {S}.
Arguments rs_provider {S}.
Arguments rs_cors {S}.
Arguments rs_rate_limit {S}.
Arguments rs_max_connections {S}.
Arguments rs_max_subscriptions {S}.
Arguments rs_max_batch_size {S}.
Arguments rs_peer_count {S}.
Arguments rs_pending_tx {S}.
Arguments rs_mempool {S}.

Definition with_state_provider {S} (state : NodeState) (addr : SocketAddr) (chain_id : u64)
    (provider : S) : RpcServer S :=
  mkRpcServer state (default_http_addr addr) addr chain_id None None provider CorsConfig_default
    RateLimitConfig_default 100 32 100 0 false false.

(** [RpcServer::with_chain_id] and, with chain 1, [RpcServer::new]. *)
Definition with_chain_id (state : NodeState) (addr : SocketAddr) (chain_id : u64)
    : RpcServer unit := with_state_provider state addr chain_id tt.
Definition rpc_server_new (state : NodeState) (addr : SocketAddr) : RpcServer unit :=
  with_chain_id state addr 1.

Definition from_config {S} (state : NodeState) (c : RpcServerConfig) (provider : S)
    : RpcServer S :=
  mkRpcServer state (rsc_http_addr c) (rsc_jsonrpc_addr c) (rsc_chain_id c) None None provider
    (rsc_cors c) (rsc_rate_limit c) (rsc_max_connections c) (rsc_max_subscriptions c)
    (rsc_max_batch_size c) 0 false false.

(** What the node sets on a server it has made: the callback, the pool, the
    number of peers, the channels it has. *)
Definition node_server {S} (state : NodeState) (addr : SocketAddr) (chain_id : u64) (provider : S)
    (tx_submit : bytes -> result unit RpcError) (txpool : TransactionPool) (peer_count : u64)
    (pending_tx mempool : bool) : RpcServer S :=
  let r := with_state_provider state addr chain_id provider in
  mkRpcServer (rs_state r) (rs_http_addr r) (rs_jsonrpc_addr r) (rs_chain_id r) (Some tx_submit)
    (Some txpool) (rs_provider r) (rs_cors r) (rs_rate_limit r) (rs_max_connections r)
    (rs_max_subscriptions r) (rs_max_batch_size r) peer_count pending_tx mempool.

(** ** The method table *)

(** jsonrpsee's [RpcModule]: a name is registered once, also across a merge. *)
Class MethodTable (T : Type) := {
  table_new : T;
  table_register : T -> string -> option T;
  table_merge : T -> T -> option T;
  table_names : T -> list string;
}.

Class MethodTableLaws (T : Type) `{MethodTable T} := {
  names_new : table_names table_new = [];
  names_register t n :
    n ∉ table_names t -> exists t', table_register t n = Some t' /\ table_names t' ≡ₚ n :: table_names t;
  names_merge t u :
    (forall n, n ∈ table_names t -> n ∈ table_names u -> False) ->
    exists t', table_merge t u = Some t' /\ table_names t' ≡ₚ table_names t ++ table_names u;
}.

Definition namespace (ns : string) (names : list string) : list string :=
  map (fun n => ns +:+ "_" +:+ n) names.

Definition ETH_METHODS : list string := namespace "eth"
  ["chainId"; "blockNumber"; "getBalance"; "getTransactionCount"; "getCode"; "getStorageAt";
   "sendRawTransaction"; "call"; "estimateGas"; "getBlockByNumber"; "getBlockByHash";
   "getTransactionByHash"; "getTransactionReceipt"; "gasPrice"; "maxPriorityFeePerGas";
   "feeHistory"; "accounts"; "protocolVersion"; "syncing"; "getLogs"; "newFilter";
   "newBlockFilter"; "newPendingTransactionFilter"; "getFilterChanges"; "getFilterLogs";
   "uninstallFilter"]%string.
Definition NET_METHODS : list string := namespace "net" ["version"; "listening"; "peerCount"]%string.
Definition WEB3_METHODS : list string := namespace "web3" ["clientVersion"; "sha3"]%string.
Definition KORA_METHODS : list string := namespace "kora" ["nodeStatus"]%string.
Definition TXPOOL_METHODS : list string := namespace "txpool" ["content"; "status"; "inspect"]%string.
(** [subscription_module] registers a method to subscribe and one to unsubscribe, twice. *)
Definition SUBSCRIPTION_METHODS : list string :=
  ["eth_subscribe"; "eth_unsubscribe"; "kora_subscribe"; "kora_unsubscribe"]%string.

(** A module of the given methods, [None] where a name is there already. *)
Fixpoint module_of {T} `{MethodTable T} (t : T) (names : list string) : option T :=
  match names with
  | [] => Some t
  | n :: names => t ← table_register t n; module_of t names
  end.

(** [module.merge] of the modules in turn. *)
Fixpoint merge_all {T} `{MethodTable T} (t : T) (apis : list (list string)) : option T :=
  match apis with
  | [] => Some t
  | api :: apis => m ← module_of table_new api; t ← table_merge t m; merge_all t apis
  end.

(** The namespaces [RpcServer::start] merges, in its order; the pool's only
    where there is a pool. *)
Definition server_apis {S} (r : RpcServer S) : list (list string) :=
  [ETH_METHODS; NET_METHODS; WEB3_METHODS; KORA_METHODS]
    ++ (match rs_txpool r with Some _ => [TXPOOL_METHODS] | None => [] end)
    ++ [SUBSCRIPTION_METHODS].

(** The eth namespace's state when the server starts. *)
Definition server_eth_api {S} (r : RpcServer S) : EthApi S :=
  let a := from_parts (rs_chain_id r) (rs_provider r) (rs_tx_submit r) GasOracleConfig_default in
  let a := api_with_node_state a (rs_state r) in
  let a := if rs_pending_tx r then Eth.with_pending_tx_broadcast a else a in
  let a := if rs_mempool r then api_with_mempool_broadcast a else a in
  match rs_txpool r with Some pool => api_with_txpool a pool | None => a end.

Definition server_net_api {S} (r : RpcServer S) : NetApi :=
  net_set_peer_count (net_new (rs_chain_id r)) (rs_peer_count r).

(** ** Start *)

(** The sockets of the host: whether an address can be bound, given the ones in
    use.  An address of a given port is bound once. *)
Class NetStack := { can_bind : list SocketAddr -> SocketAddr -> bool }.
Class NetStackLaws `{NetStack} := {
  bound_once used a : port_of a <> 0 -> a ∈ used -> can_bind used a = false;
}.

(** The HTTP status server: /status and /health. *)
Record HttpServer := mkHttpServer {
  hs_state : NodeState;
  hs_cors : CorsLayer;
  hs_max_connections : usize;
  hs_limiter : option TokenBucket;
}.

Definition build_http_router (state : NodeState) (cors : CorsLayer) (max_connections : u32)
    (limiter : option TokenBucket) : HttpServer :=
  mkHttpServer state cors max_connections limiter.

Inductive HttpBody := StatusBody (s : NodeStatus) | OkBody | NoBody.

Definition status_handler (s : NodeState) (uptime_secs : u64) : Z * HttpBody :=
  (200, StatusBody (status s uptime_secs)).
Definition health_handler : Z * HttpBody := (200, OkBody).

(** The JSON-RPC server. *)
Record JsonServer (T S : Type) := mkJsonServer {
  js_module : T;
  js_eth : EthApi S;
  js_net : NetApi;
  js_cors : CorsLayer;
  js_limits : Limits;
  js_max_connections : u32;
  js_max_subscriptions : u32;
  js_max_batch_size : u32;
}.
Arguments mkJsonServer {T S}.
Arguments js_module {T S}.
Arguments js_eth {T S}.
Arguments js_net {T S}.
Arguments js_cors {T S}.
Arguments js_limits {T S}.
Arguments js_max_connections {T S}.
Arguments js_max_subscriptions {T S}.
Arguments js_max_batch_size {T S}.

Section start.
Context `{HttpText} `{NetStack} {T S : Type} `{MethodTable T}.

(** The HTTP task: the server, unless its address cannot be bound. *)
Definition http_task (r : RpcServer S) (cors : CorsLayer) (now : Instant)
    (used : list SocketAddr) : option HttpServer * list SocketAddr :=
  if can_bind used (rs_http_addr r) then
    (Some (build_http_router (rs_state r) cors (rs_max_connections r)
             (shared_new (rs_rate_limit r) now)),
     rs_http_addr r :: used)
  else (None, used).

(** The JSON-RPC task; a socket whose task returns is closed again. *)
Definition jsonrpc_task (r : RpcServer S) (cors : CorsLayer) (now : Instant)
    (used : list SocketAddr) : option (JsonServer T S) * list SocketAddr :=
  if can_bind used (rs_jsonrpc_addr r) then
    match merge_all table_new (server_apis r) with
    | Some module =>
        (Some (mkJsonServer module (server_eth_api r) (server_net_api r) cors
                 (limits_new (rs_rate_limit r) now) (rs_max_connections r)
                 (rs_max_subscriptions r) (rs_max_batch_size r)),
         rs_jsonrpc_addr r :: used)
    | None => (None, used)
    end
  else (None, used).

(** [RpcServer::start]: two tasks, in the order they reach their binds; [None]
    is a panic before either is spawned. *)
Definition rpc_start (r : RpcServer S) (now : Instant) (http_first : bool)
    (used : list SocketAddr) : option (option HttpServer * option (JsonServer T S)) :=
  cors ← build_cors_layer (rs_cors r);
  Some (if http_first then
          let '(h, used) := http_task r cors now used in (h, (jsonrpc_task r cors now used).1)
        else
          let '(j, used) := jsonrpc_task r cors now used in ((http_task r cors now used).1, j)).
End start.

(** A GET request to the status server: the rate limit comes before the routes. *)
Definition http_request (h : HttpServer) (path : string) (now : Instant) (uptime_secs : u64)
    : HttpServer * (Z * HttpBody) :=
  let '(l, code) := enforce_http_rate_limit (hs_limiter h) now in
  (mkHttpServer (hs_state h) (hs_cors h) (hs_max_connections h) l,
   if code =? 200 then
     if String.eqb path "/status" then status_handler (hs_state h) uptime_secs
     else if String.eqb path "/health" then health_handler
     else (404, NoBody)
   else (code, NoBody)).

(** ** Properties *)

#[local] Set Default Proof Using "Type*".

Section cors.
Context `{HttpTextLaws}.

Lemma allow_origin_list_some origins :
  is_some (allow_origin_list origins) = bool_decide ("*"%string ∉ origins).
Proof.
  unfold allow_origin_list. rewrite origin_list_star.
  assert (Hst : "*"%string ∈ omap header_value origins <-> "*"%string ∈ origins).
  { rewrite list_elem_of_omap. split.
    - intros (s & Hs & Hv). by apply header_value_text in Hv as ->.
    - intros Hs. exists "*"%string. split; [done|apply header_value_star]. }
  by repeat case_bool_decide; set_solver.
Qed.

(** The CORS settings the server can be built with. *)
Definition cors_ok (c : CorsConfig) : bool :=
  bool_decide ("*"%string ∉ allowed_origins c) || bool_decide (length (allowed_origins c) = 1%nat).

Lemma build_cors_layer_some c : is_some (build_cors_layer c) = cors_ok c.
Proof.
  unfold build_cors_layer, cors_ok. destruct (allowed_origins c) as [|o [|o' os]]; [done|..].
  - destruct (String.eqb_spec o "*") as [->|Ho]; cbn [length]; [by rewrite orb_true_r|].
    pose proof (allow_origin_list_some [o]) as Ha.
    destruct (allow_origin_list [o]); cbn in *; [by rewrite orb_true_r|].
    by rewrite orb_true_r; case_bool_decide; set_solver.
  - pose proof (allow_origin_list_some (o :: o' :: os)) as Ha.
    destruct (allow_origin_list _); cbn [is_some mbind option_bind] in *;
      rewrite <- Ha; by rewrite orb_comm.
Qed.

End cors.

Section table.
Context {T S : Type} `{MethodTableLaws T}.

Lemma module_of_names (t : T) names :
  NoDup (names ++ table_names t) ->
  exists t', module_of t names = Some t' /\ table_names t' ≡ₚ names ++ table_names t.
Proof.
  revert t. induction names as [|n names IH]; intros t Hnd; [by exists t|].
  apply NoDup_cons in Hnd as [Hn Hnd].
  destruct (names_register t n) as (t1 & Ht1 & Hn1); [set_solver|].
  destruct (IH t1) as (t2 & Ht2 & Hn2).
  { rewrite Hn1, <- Permutation_middle. by constructor. }
  exists t2. cbn [module_of]. rewrite Ht1. split; [done|]. by rewrite Hn2, Hn1, <- Permutation_middle.
Qed.

Lemma merge_all_names (t : T) apis :
  NoDup (table_names t ++ concat apis) ->
  exists t', merge_all t apis = Some t' /\ table_names t' ≡ₚ table_names t ++ concat apis.
Proof.
  revert t. induction apis as [|api apis IH]; intros t Hnd; cbn [concat] in *.
  - exists t. by rewrite app_nil_r.
  - rewrite (assoc_L (++)) in Hnd. pose proof Hnd as (Hta & _ & _)%NoDup_app.
    destruct (module_of_names table_new api) as (m & Hm & Hmn).
    { rewrite names_new, app_nil_r. by apply NoDup_app in Hta as (_ & _ & ?). }
    rewrite names_new, app_nil_r in Hmn.
    destruct (names_merge t m) as (t1 & Ht1 & Hn1).
    { intros n Hn. rewrite Hmn. apply NoDup_app in Hta as (_ & Hd & _). by apply Hd. }
    destruct (IH t1) as (t2 & Ht2 & Hn2); [by rewrite Hn1, Hmn|].
    exists t2. cbn [merge_all]. rewrite Hm. cbn [mbind option_bind]. rewrite Ht1. split; [done|].
    by rewrite Hn2, Hn1, Hmn, (assoc_L (++)).
Qed.

Lemma server_apis_nodup (r : RpcServer S) : NoDup (concat (server_apis r)).
Proof. unfold server_apis. destruct (rs_txpool r); by apply (bool_decide_unpack _); vm_compute. Qed.

(** The method table is always built. *)
Lemma server_module (r : RpcServer S) :
  exists m : T, merge_all table_new (server_apis r) = Some m
                /\ table_names m ≡ₚ concat (server_apis r).
Proof.
  destruct (merge_all_names table_new (server_apis r)) as (m & Hm & Hn).
  - rewrite names_new. apply server_apis_nodup.
  - exists m. by rewrite names_new in Hn.
Qed.

End table.

Section props.
Context `{HttpTextLaws} `{NetStackLaws} {T S : Type} `{MethodTableLaws T}.

(** The servers of a configuration whose addresses can be bound together. *)
Lemma rpc_start_serves (r : RpcServer S) now http_first used :
  cors_ok (rs_cors r) ->
  can_bind used (rs_http_addr r) -> can_bind used (rs_jsonrpc_addr r) ->
  can_bind (rs_http_addr r :: used) (rs_jsonrpc_addr r) ->
  can_bind (rs_jsonrpc_addr r :: used) (rs_http_addr r) ->
  exists h j, rpc_start r now http_first used = Some (Some h, Some j)
    /\ hs_state h = rs_state r
    /\ NoDup (table_names (js_module (T := T) j))
    /\ (forall n, n ∈ table_names (js_module j) <-> n ∈ concat (server_apis r))
    /\ js_eth j = server_eth_api r /\ js_net j = server_net_api r.
Proof.
  intros Hc Hh Hj Hhj Hjh. apply Is_true_eq_true in Hh, Hj, Hhj, Hjh.
  rewrite <- build_cors_layer_some in Hc. unfold rpc_start.
  destruct (build_cors_layer (rs_cors r)) as [cors|]; [cbn [mbind option_bind]|done].
  destruct (server_module r) as (m & Hm & Hn).
  assert (Hnd : NoDup (table_names m)) by (rewrite Hn; apply server_apis_nodup).
  unfold http_task, jsonrpc_task. rewrite Hm.
  destruct http_first; rewrite ?Hh, ?Hj, ?Hhj, ?Hjh; eexists _, _; split_and!; try done;
    intros n; cbn [js_module]; by rewrite Hn.
Qed.

(** A server given one address for both of its halves, as
    [RpcServerConfig::single_addr] and the default configuration give it, never
    has both: when neither task has bound yet and the address is free, exactly
    one of the status server and the JSON-RPC server comes up, whichever task
    is first, and [start] reports no error. *)
Theorem single_addr_one_server (state : NodeState) (addr : SocketAddr) (chain_id : u64)
    (provider : S) now http_first used :
  port_of addr <> 0 -> can_bind used addr ->
  exists h j, rpc_start (T := T) (from_config state (single_addr addr chain_id) provider) now
                http_first used = Some (h, j)
    /\ is_some h = http_first /\ is_some j = negb http_first.
Proof.
  intros Hp Hb. apply Is_true_eq_true in Hb. set (r := from_config _ _ _).
  assert (Hc : is_some (build_cors_layer (rs_cors r))).
  { rewrite build_cors_layer_some. by vm_compute. }
  unfold rpc_start. destruct (build_cors_layer _) as [cors|]; [cbn [mbind option_bind]|done].
  destruct (server_module r) as (m & Hm & _).
  assert (Hused : can_bind (addr :: used) addr = false) by (apply bound_once; [done|set_solver]).
  unfold http_task, jsonrpc_task. rewrite Hm. change (rs_http_addr r) with addr.
  change (rs_jsonrpc_addr r) with addr. rewrite Hb. cbn beta iota. rewrite Hused.
  by destruct http_first; eexists _, _; split_and!.
Qed.
End props.

(** The status server of a node listens on the port after the JSON-RPC one,
    and on a port of the host's choice when there is none after it. *)
Lemma default_http_addr_port a :
  0 <= port_of a <= u16_max ->
  port_of (default_http_addr a) = if port_of a =? u16_max then 0 else port_of a + 1.
Proof.
  intros Ha. destruct a as [ip p|ip s p]; cbn [default_http_addr port_of] in *;
    unfold wrapping_add, wrap; destruct (Z.eqb_spec p u16_max) as [->|Hne]; try done;
    apply Z.mod_small; lia.
Qed.

(** ** A small instance *)

Module Toy.
#[local] Instance toy_http : HttpText :=
  {| header_value := Some; http_method := Some; header_name := Some;
     origin_list_ok l := bool_decide ("*"%string ∉ l) |}.
#[local] Instance toy_http_laws : HttpTextLaws.
Proof. split; [by intros ?? [= ->]|done|done]. Qed.

#[local] Instance toy_stack : NetStack :=
  {| can_bind used a := (port_of a =? 0) || negb (existsb (fun b => port_of b =? port_of a) used) |}.
#[local] Instance toy_stack_laws : NetStackLaws.
Proof.
  split. intros used a Hp Hin. cbn. apply orb_false_iff. split; [by apply Z.eqb_neq|].
  apply negb_false_iff, existsb_exists. exists a. split; [by apply list_elem_of_In|apply Z.eqb_refl].
Qed.

#[local] Instance toy_table : MethodTable (list string) :=
  {| table_new := []; table_names t := t;
     table_register t n := if bool_decide (n ∈ t) then None else Some (n :: t);
     table_merge t u :=
       if bool_decide (Forall (fun n => n ∉ t) u) then Some (t ++ u) else None |}.
#[local] Instance toy_table_laws : MethodTableLaws (list string).
Proof.
  split.
  - done.
  - intros t n Hn. exists (n :: t). cbn. by rewrite bool_decide_eq_false_2.
  - intros t u Hd. exists (t ++ u). cbn. rewrite bool_decide_eq_true_2; [done|].
    apply Forall_forall. intros n Hu Ht. by apply (Hd n).
Qed.

Lemma single_addr_one_server_witness :
  exists h j, rpc_start (T := list string)
                (from_config (mkNodeState 1 0 4 0 0 0 0 0 0 0 false 0 0) RpcServerConfig_default tt) 0 true [] = Some (h, j)
    /\ is_some h = true /\ is_some j = false.
Proof. apply (single_addr_one_server (mkNodeState 1 0 4 0 0 0 0 0 0 0 false 0 0) local_8545 1 tt 0 true []); [done|by vm_compute]. Defined.
End Toy.
