(* ===== verification/Subscription.v ===== *)
(** Subscriptions over WebSocket (crates/node/rpc/src/subscription.rs): the
    handlers of eth_subscribe and kora_subscribe and the loops that notify a
    subscriber; and what the node sends on the channel of mempool events,
    which its pool is not connected to.

    Tokio's broadcast channel is given by what a receiver's [recv] returns,
    JSON-RPC parameters by their parsed form, the sink by the results of its
    sends. *)
From S2P Require Import Prelude Text Json TxTypes SenderQueue Pool PoolInv PoolOps PoolProps StateDb Changes StateRoot Bytes QmdbState.
From S2P Require Import Executor Execute Layers Codec Block Snapshots QmdbLedger Ledger NodeState App.
From S2P Require Import AppProps Indexer Reporters Finality Rpc Filters Float Fees Eth.
Open Scope Z_scope.

(** ** Receiving *)

(** What one call of a receiver's [recv] returns: the next event, the number of
    events that were overwritten before they were received, or that no sender
    is left. *)
Inductive RecvResult (T : Type) :=
| Received (event : T)
| Lagged (skipped : u64)
| ChannelClosed.
Arguments Received {T} event.
Arguments Lagged {T} skipped.
Arguments ChannelClosed {T}.

(** What a receive leaves: it waits, has an event, or the channel is closed. *)
Inductive Recv (T : Type) :=
| RecvWaits
| RecvEvent (event : T) (rest : list (RecvResult T))
| RecvEnd.
Arguments RecvWaits {T}.
Arguments RecvEvent {T} event rest.
Arguments RecvEnd {T}.

Fixpoint recv_broadcast {T} (results : list (RecvResult T)) : Recv T :=
  match results with
  | [] => RecvWaits
  | Received event :: rest => RecvEvent event rest
  | Lagged _ :: rest => recv_broadcast rest
  | ChannelClosed :: _ => RecvEnd
  end.

(** ** Notifying *)

Definition wants_full_tx (options : option Value) : bool :=
  match options with
  | Some (VBool full_tx) => full_tx
  | Some (VObject map) => default false (map !! "fullTx" ≫= as_bool)
  | _ => false
  end.

(** What is sent to a subscriber of pending transactions. *)
Inductive PendingNotice := NoticeTx (tx : RpcTransaction) | NoticeHash (hash : B256).

Definition pending_notice (full_tx : bool) (event : PendingTxEvent) : PendingNotice :=
  match event with
  | PendingAdded hash full =>
      if full_tx then match full with Some tx => NoticeTx tx | None => NoticeHash hash end
      else NoticeHash hash
  end.

Section notify.
Context {T M : Type} (message : T -> option M).

(** The loop of a subscription: [message] serializes a notification, [sends] are
    the results of the sink.  A send that fails ends the loop; when the results
    are used up, the task waits. *)
Fixpoint notify_loop (fuel : nat) (results : list (RecvResult T)) (sends : list bool) : list M :=
  match fuel with
  | O => []
  | S fuel =>
      match recv_broadcast results with
      | RecvEvent event rest =>
          match message event, sends with
          | Some m, true :: sends => m :: notify_loop fuel rest sends
          | _, _ => []
          end
      | _ => []
      end
  end.

(** Every receive takes one result at least. *)
Definition notify (results : list (RecvResult T)) (sends : list bool) : list M :=
  notify_loop (length results) results sends.
End notify.

(** How a subscription request ends: rejected, dropped by a client that is gone,
    or served with these notifications. *)
Inductive Served (M : Type) :=
| Rejected (e : ErrorObject)
| AcceptFailed
| Notified (messages : list M).
Arguments Rejected {M} e.
Arguments AcceptFailed {M}.
Arguments Notified {M} messages.

Section handlers.
(** [{:?}] of a string, and the serialization of notifications. *)
Context (show_debug : string -> string).

Definition unsupported_subscription (namespace kind : string) : ErrorObject :=
  mkErrorObject METHOD_NOT_SUPPORTED (namespace +:+ "_subscribe does not support " +:+ show_debug kind) None.

Definition eth_subscribe {M} (json : PendingNotice -> option M)
    (params : result (string * option Value) ErrorObject) (channel : bool) (accepted : bool)
    (results : list (RecvResult PendingTxEvent)) (sends : list bool) : Served M :=
  match params with
  | Err err => Rejected err
  | Ok (kind, options) =>
      if negb (String.eqb kind "newPendingTransactions") then Rejected (unsupported_subscription "eth" kind)
      else if negb channel
      then Rejected (mkErrorObject METHOD_NOT_SUPPORTED "newPendingTransactions subscriptions are not available" None)
      else
        let full_tx := wants_full_tx options in
        if negb accepted then AcceptFailed
        else Notified (notify (fun event => json (pending_notice full_tx event)) results sends)
  end.

Definition kora_subscribe {M} (json : MempoolEvent -> option M)
    (params : result (string * option Value) ErrorObject) (channel : bool) (accepted : bool)
    (results : list (RecvResult MempoolEvent)) (sends : list bool) : Served M :=
  match params with
  | Err err => Rejected err
  | Ok (kind, _) =>
      if negb (String.eqb kind "mempool") then Rejected (unsupported_subscription "kora" kind)
      else if negb channel
      then Rejected (mkErrorObject METHOD_NOT_SUPPORTED "mempool subscriptions are not available" None)
      else if negb accepted then AcceptFailed
      else Notified (notify json results sends)
  end.
End handlers.

(** Tokio's documentation of a receiver that subscribed before [events] were
    sent: events come in order, a gap is reported with its length, and the end
    comes after the last event.  [results] may have come so far. *)
Inductive receives {T} : list T -> list (RecvResult T) -> Prop :=
| rcv_waits events : receives events []
| rcv_event event events results :
    receives events results -> receives (event :: events) (Received event :: results)
| rcv_lagged lost events results :
    lost <> [] -> receives events results -> receives (lost ++ events) (Lagged (len lost) :: results)
| rcv_closed : receives [] [ChannelClosed].

(** The events received, and the number lost. *)
Fixpoint received {T} (results : list (RecvResult T)) : list T :=
  match results with
  | Received event :: rest => event :: received rest
  | _ :: rest => received rest
  | [] => []
  end.
Fixpoint lost_count {T} (results : list (RecvResult T)) : Z :=
  match results with
  | Lagged n :: rest => n + lost_count rest
  | _ :: rest => lost_count rest
  | [] => 0
  end.

(** ** The channel of mempool events *)

Section channel.
Context `{EXT : !External} `{AC : !AlloyConsensus} `{CD : !Codec} `{SH : !Sha256}.
Context {S : Type} `{SP : !StateProvider S}.

Record EventNode := mkEventNode {
  en_pool : TransactionPool;
  en_api : EthApi S;
  en_channel : list MempoolEvent;
}.

(** A pool that sends, if it has a sender, on the channel of the node. *)
Definition attach (p : TransactionPool) (channel : list MempoolEvent) : TransactionPool :=
  mkPool (tp_inner p) (tp_config p) ((fun _ => channel) <$> tp_events p) (tp_metrics p).

(** The RPC server and the reporter of finalized blocks have senders of the
    channel; the pool has the one it was made with. *)
Inductive event_step : EventNode -> EventNode -> Prop :=
| ev_pool n o p :
    pool_step (attach (en_pool n) (en_channel n)) o = p ->
    event_step n (mkEventNode p (en_api n) (default (en_channel n) (tp_events p)))
| ev_send n data a r :
    send_raw_transaction (set_events (en_api n) (ea_pending_tx_broadcast (en_api n)) (Some (en_channel n))) data
      = (a, r) ->
    event_step n (mkEventNode (en_pool n) a (default (en_channel n) (ea_mempool_broadcast a)))
| ev_finalized n b :
    event_step n (mkEventNode (en_pool n) (en_api n)
      (default (en_channel n) (publish_mempool_inclusions (Some (en_channel n)) b))).

Definition is_evicted (e : MempoolEvent) : bool :=
  match e with TxEvicted _ _ => true | _ => false end.
End channel.

(** ** What a subscriber sees *)

Section stream.
Context {T M : Type} (message : T -> option M) (f : T -> M).

Lemma recv_received {T'} (events : list T') results :
  receives events results ->
  match recv_broadcast results with
  | RecvEvent e rest => received results = e :: received rest /\ (length rest < length results)%nat
      /\ exists before after, events = before ++ e :: after /\ receives after rest
  | _ => received results = []
  end.
Proof.
  induction 1 as [events|e events results Hr IH|lost events results Hl Hr IH|]; simpl; [done| | |done].
  - split; [done|]. split; [lia|]. by exists [], events.
  - destruct (recv_broadcast results) as [|e rest|]; [done| |done].
    destruct IH as (-> & Hlen & before & after & -> & Hrest). split; [done|]. split; [lia|].
    exists (lost ++ before), after. by rewrite <- app_assoc.
Qed.

Lemma notify_loop_received fuel events results k :
  (forall e, message e = Some (f e)) -> receives events results ->
  (length results <= fuel)%nat -> (length results <= k)%nat ->
  notify_loop message fuel results (replicate k true) = f <$> received results.
Proof.
  intros Hm. revert events results k. induction fuel as [|fuel IH]; intros events results k Hr Hf Hk.
  { destruct results; [done|simpl in Hf; lia]. }
  cbn [notify_loop]. pose proof (recv_received events results Hr) as Hrec.
  destruct (recv_broadcast results) as [|e rest|]; [by rewrite Hrec| |by rewrite Hrec].
  destruct Hrec as (-> & Hlen & before & after & -> & Hrest). rewrite Hm.
  destruct k as [|k]; [lia|]. simpl. f_equal. apply (IH after); [done|lia|lia].
Qed.

(** Received and lost events are the events sent, in order. *)
Lemma received_events {T'} (events : list T') results :
  receives events results ->
  received results `sublist_of` events
  /\ len (received results) + lost_count results <= len events
  /\ 0 <= lost_count results
  /\ (lost_count results = 0 -> received results `prefix_of` events).
Proof.
  unfold len. induction 1 as [events|e events results Hr (H1 & H2 & H0 & H3)|lost events results Hl Hr (H1 & H2 & H0 & H3)|]; simpl.
  - split; [apply sublist_nil_l|]. split; [lia|]. split; [done|]. intros _. apply prefix_nil.
  - split; [by constructor|]. split; [lia|]. split; [done|]. intros Hz. by apply prefix_cons, H3.
  - rewrite length_app. unfold len. split; [by apply sublist_inserts_l|]. split; [lia|]. split; [lia|].
    intros Hz. destruct lost; [done|]. simpl in Hz. lia.
  - split; [constructor|]. split; [lia|]. split; [done|]. intros _. apply prefix_nil.
Qed.

(** A subscriber whose connection works gets, in order, every event that its
    receiver did not lose to lag; without lag these are the first events since
    it subscribed, and never more are missing than the lag reports and those
    not yet received. *)
Theorem subscriber_stream events results k :
  (forall e, message e = Some (f e)) -> receives events results -> (length results <= k)%nat ->
  notify message results (replicate k true) = f <$> received results
  /\ received results `sublist_of` events
  /\ len (received results) + lost_count results <= len events
  /\ (lost_count results = 0 -> received results `prefix_of` events).
Proof.
  intros Hm Hr Hk. destruct (received_events _ _ Hr) as (H1 & H2 & _ & H3).
  split; [|done]. by apply (notify_loop_received _ events).
Qed.
End stream.

(** ** What the node announces *)

Section announce.
Context `{EXT : !External} `{AC : !AlloyConsensus} `{CD : !Codec} `{SH : !Sha256}.
Context {S : Type} `{SP : !StateProvider S}.

(** A pool without a sender never has one. *)
Lemma pool_step_silent p o : tp_events p = None -> tp_events (pool_step p o) = None.
Proof.
  intros Hp.
  assert (Hadd : forall tx, tp_events (pool_add p tx).1 = None).
  { intros tx. unfold pool_add. repeat case_match; simplify_eq; simpl; by rewrite ?Hp. }
  destruct o as [tx|now tx|h r|s n|ids|now|]; simpl; [done| | |done|done| |done].
  - unfold mempool_insert. destruct (tx_to_ordered now tx) as [ot|]; [|done].
    specialize (Hadd ot). destruct (pool_add p ot) as [p' [?|?]]; done.
  - unfold remove_with_reason. destruct (inner_remove_by_hash _ _) as [i [t|]]; simpl; by rewrite ?Hp.
  - unfold cleanup. destruct (cleanup_loop _ _). simpl. by case_match.
Qed.

(** An accepted submission is announced once on both channels, a refused one on
    none. *)
Lemma send_announces (a : EthApi S) data a' r :
  send_raw_transaction a data = (a', r) ->
  ea_pending_tx_broadcast a' = ea_pending_tx_broadcast a /\ ea_mempool_broadcast a' = ea_mempool_broadcast a
  \/ exists tx, raw_tx_to_pending_rpc data = Ok tx /\ r = Ok (keccak256 data)
     /\ ea_pending_tx_broadcast a'
        = (fun sent => sent ++ [PendingAdded (keccak256 data) (Some tx)]) <$> ea_pending_tx_broadcast a
     /\ ea_mempool_broadcast a'
        = (fun sent => sent ++ [TxAdded (keccak256 data) (rt_from tx) (rt_to tx) (rt_value tx)
                                  (rt_gas_price tx) (rt_nonce tx)]) <$> ea_mempool_broadcast a.
Proof.
  unfold send_raw_transaction. destruct (raw_tx_to_pending_rpc data) as [tx|e]; [|intros [= <- <-]; by left].
  destruct (match ea_tx_submit a with Some _ => _ | None => _ end) as [acc|e]; [|intros [= <- <-]; by left].
  destruct (evict_pending _ _ _) as [[txs order] dr]. intros [= <- <-].
  destruct acc; [right; by exists tx|by left].
Qed.

(** C31: however the node runs, the channel that kora_subscribe serves never
    announces that a transaction left the pool, and an operation of the pool,
    be it an addition from gossip, a replacement, an eviction or an expiry,
    announces nothing: the ledger makes its pool without a sender. *)
Theorem pool_events_not_announced config (a : EthApi S) n :
  rtc event_step (mkEventNode (pool_new config) a []) n ->
  Forall (fun e => is_evicted e = false) (en_channel n)
  /\ forall o, tp_events (pool_step (attach (en_pool n) (en_channel n)) o) = None.
Proof.
  intros Hr.
  enough (tp_events (en_pool n) = None /\ Forall (fun e => is_evicted e = false) (en_channel n)) as [Hp Hc].
  { split; [done|]. intros o. apply pool_step_silent. simpl. by rewrite Hp. }
  revert Hr. apply (rtc_ind_r (fun n => tp_events (en_pool n) = None
    /\ Forall (fun e => is_evicted e = false) (en_channel n))); [by split|].
  intros n1 n2 _ Hst [Hp Hc]. destruct Hst as [n1 o p Ho|n1 data a' r Hs|n1 b]; simpl.
  - assert (Hn : tp_events p = None) by (subst p; apply pool_step_silent; simpl; by rewrite Hp).
    by rewrite Hn.
  - split; [done|]. destruct (send_announces _ _ _ _ Hs) as [[_ ->]|(tx & _ & _ & _ & ->)]; [done|].
    simpl. apply Forall_app. by split; [|repeat constructor].
  - split; [done|]. apply Forall_app. split; [done|]. apply Forall_fmap, Forall_true. done.
Qed.
End announce.

(** ** Examples *)

#[local] Existing Instances app_ext app_codec app_sha fin_alloy.

(** A transaction that is added and removed again. *)
Definition leave_node (p : TransactionPool) : EventNode (S := unit) :=
  mkEventNode p (from_parts 1 tt None GasOracleConfig_default) [].
Definition leave_step (n : EventNode (S := unit)) (o : pool_op) : EventNode :=
  let p := pool_step (attach (en_pool n) (en_channel n)) o in
  mkEventNode p (en_api n) (default (en_channel n) (tp_events p)).
Definition leave_ops : list pool_op := [PAdd (demo_otx 10 5 7 100); PRemove 10 "expired"].

(** The subscribers do not hear that the transaction is gone; a pool with
    a sender would tell them. *)
Lemma pool_events_not_announced_witness :
  let n := foldl leave_step (leave_node (pool_new PoolConfig_default)) leave_ops in
  by_hash (tp_inner (en_pool n)) !! 10 = None
  /\ Forall (fun e => is_evicted e = false) (en_channel n)
  /\ TxEvicted 10 "expired"
     ∈ en_channel (foldl leave_step (leave_node (pool_new_with_events PoolConfig_default)) leave_ops).
Proof.
  intros n. split; [vm_compute; reflexivity|].
  assert (Hr : rtc (event_step (S := unit)) (leave_node (pool_new PoolConfig_default)) n).
  { eapply rtc_l; [exact (ev_pool (leave_node (pool_new PoolConfig_default)) (PAdd (demo_otx 10 5 7 100)) _ eq_refl)|].
    apply rtc_once. exact (ev_pool _ (PRemove 10 "expired") _ eq_refl). }
  split; [exact (proj1 (pool_events_not_announced PoolConfig_default _ n Hr))|].
  match goal with |- _ ∈ ?l => let l' := eval vm_compute in l in change l with l' end.
  right. left.
Defined.

(** A subscriber that lost one event of three. *)
Lemma subscriber_stream_witness :
  notify (fun n : Z => Some (n * 10)) [Lagged 1; Received 2; Received 3; ChannelClosed] (replicate 4 true)
    = [20; 30]
  /\ [2; 3] `sublist_of` [1; 2; 3].
Proof.
  assert (Hr : receives [1; 2; 3] [Lagged 1; Received 2; Received 3; ChannelClosed]).
  { apply (rcv_lagged [1] [2; 3]); [done|]. repeat constructor. }
  destruct (subscriber_stream (fun n : Z => Some (n * 10)) (fun n => n * 10) _ _ 4 (fun _ => eq_refl) Hr
    ltac:(simpl; lia)) as (H1 & H2 & _).
  split; [exact H1|exact H2].
Defined.
