(* ===== verification/Scratch.v ===== *)
(** Storage of the runtime as the node uses it (class [StorageOps], after
    commonware-runtime's traits Storage and Blob) and the wrapper that keeps
    the consensus engine's scratch partitions in memory
    (crates/node/runner/src/no_sync_storage.rs). *)
From S2P Require Import Prelude.

#[local] Set Default Proof Using "Type*".

(** ** The runtime's storage *)


(** The errors the wrapper returns itself, and those of the storage below. *)
Inductive RtError := OffsetOverflow | BlobInsufficientLength | OtherError (code : Z).

(** A store [D] with blobs named by [B]; what is written to a blob is seen by
    every holder of it, so the operations on blobs go through the store. *)
Class StorageOps (D B : Type) := {
  so_open_versioned : D -> string -> bytes -> u16 * u16 -> D * result (B * u64 * u16) RtError;
  so_remove : D -> string -> option bytes -> D * result unit RtError;
  so_scan : D -> string -> result (list bytes) RtError;
  so_read_at : D -> B -> u64 -> usize -> result bytes RtError;
  so_write_at : D -> B -> u64 -> bytes -> D * result unit RtError;
  so_write_at_sync : D -> B -> u64 -> bytes -> D * result unit RtError;
  so_resize : D -> B -> u64 -> D * result unit RtError;
  so_sync : D -> B -> D * result unit RtError;
}.

(** ** The wrapper *)

(** Byte strings in the order of [Vec<u8>]. *)
Fixpoint bytes_cmp (a b : bytes) : comparison :=
  match a, b with
  | [], [] => Eq
  | [], _ :: _ => Lt
  | _ :: _, [] => Gt
  | x :: a, y :: b => then_with (x ?= y) (bytes_cmp a b)
  end.

(** Contents are behind shared pointers: a blob that was removed lives on for
    those who have it open.  [ns_heap] is the memory, [ns_next] the address
    of the next content. *)
Record NoSyncStorage (D : Type) := mkNoSync {
  ns_inner : D;
  ns_partitions : gmap string (gmap bytes Z);
  ns_checkpoint_interval : u64;
  ns_heap : gmap Z bytes;
  ns_next : Z;
}.
Arguments mkNoSync {D}.
Arguments ns_inner {D}.
Arguments ns_partitions {D}.
Arguments ns_checkpoint_interval {D}.
Arguments ns_heap {D}.
Arguments ns_next {D}.

Inductive NoSyncBlob (B : Type) := Memory (content : Z) | Passthrough (blob : B).
Arguments Memory {B} content.
Arguments Passthrough {B} blob.

Definition nosync_new {D} (inner : D) (checkpoint_interval : u64) : NoSyncStorage D :=
  mkNoSync inner ∅ (Z.max checkpoint_interval 1) ∅ 0.

Definition ends_with (s suffix : string) : bool :=
  bool_decide (String.length suffix <= String.length s)%nat
  && bool_decide (String.substring (String.length s - String.length suffix) (String.length suffix) s = suffix).

Definition is_durable_partition (partition : string) : bool :=
  ends_with partition "-application-metadata".

Definition set_inner {D} (d : NoSyncStorage D) (inner : D) : NoSyncStorage D :=
  mkNoSync inner (ns_partitions d) (ns_checkpoint_interval d) (ns_heap d) (ns_next d).
Definition set_partitions {D} (d : NoSyncStorage D) (ps : gmap string (gmap bytes Z)) : NoSyncStorage D :=
  mkNoSync (ns_inner d) ps (ns_checkpoint_interval d) (ns_heap d) (ns_next d).
Definition set_content {D} (d : NoSyncStorage D) (l : Z) (content : bytes) : NoSyncStorage D :=
  mkNoSync (ns_inner d) (ns_partitions d) (ns_checkpoint_interval d) (<[l := content]> (ns_heap d)) (ns_next d).

(** A handle keeps its content alive, so the address is always there. *)
Definition content_of {D} (d : NoSyncStorage D) (l : Z) : bytes := default [] (ns_heap d !! l).

(** [Vec::resize(len, 0)]. *)
Definition vec_resize (content : bytes) (len : Z) : bytes := resize (Z.to_nat len) 0 content.

(** [content[offset..end].copy_from_slice(buf)]. *)
Definition copy_from_slice (content : bytes) (offset : Z) (buf : bytes) : bytes :=
  take (Z.to_nat offset) content ++ buf ++ drop (Z.to_nat offset + length buf) content.

Section nosync.
Context {D B : Type} `{SO : !StorageOps D B}.

Definition nosync_open_versioned (d : NoSyncStorage D) (partition : string) (name : bytes)
    (versions : u16 * u16) : NoSyncStorage D * result (NoSyncBlob B * u64 * u16) RtError :=
  if is_durable_partition partition then
    let '(inner, r) := so_open_versioned (ns_inner d) partition name versions in
    (set_inner d inner,
     match r with
     | Err e => Err e
     | Ok (blob, size, version) => Ok (Passthrough blob, size, version)
     end)
  else
    let p := default ∅ (ns_partitions d !! partition) in
    match p !! name with
    | Some content =>
        (d, Ok (Memory content, len (content_of d content), snd versions))
    | None =>
        let content := ns_next d in
        (mkNoSync (ns_inner d) (<[partition := <[name := content]> p]> (ns_partitions d))
           (ns_checkpoint_interval d) (<[content := []]> (ns_heap d)) (content + 1),
         Ok (Memory content, 0, snd versions))
    end.

Definition nosync_remove (d : NoSyncStorage D) (partition : string) (name : option bytes)
    : NoSyncStorage D * result unit RtError :=
  if is_durable_partition partition then
    let '(inner, r) := so_remove (ns_inner d) partition name in (set_inner d inner, r)
  else
    match name with
    | Some name => (set_partitions d (alter (delete name) partition (ns_partitions d)), Ok tt)
    | None => (set_partitions d (delete partition (ns_partitions d)), Ok tt)
    end.

Definition nosync_scan (d : NoSyncStorage D) (partition : string) : result (list bytes) RtError :=
  if is_durable_partition partition then so_scan (ns_inner d) partition
  else
    Ok (sort_by bytes_cmp
          (from_option (fun p : gmap bytes Z => (map_to_list p).*1) [] (ns_partitions d !! partition))).

Definition nosync_read_at (d : NoSyncStorage D) (b : NoSyncBlob B) (offset : u64) (n : usize)
    : result bytes RtError :=
  match b with
  | Memory l =>
      let content := content_of d l in
      let end_ := offset + n in
      if u64_max <? end_ then Err OffsetOverflow
      else if len content <? end_ then Err BlobInsufficientLength
      else Ok (take (Z.to_nat n) (drop (Z.to_nat offset) content))
  | Passthrough blob => so_read_at (ns_inner d) blob offset n
  end.

(** What [write_at] and [write_at_sync] do to a blob in memory. *)
Definition memory_write (d : NoSyncStorage D) (l : Z) (offset : u64) (buf : bytes)
    : NoSyncStorage D * result unit RtError :=
  let end_ := offset + len buf in
  if u64_max <? end_ then (d, Err OffsetOverflow)
  else
    let content := content_of d l in
    let content := if len content <? end_ then vec_resize content end_ else content in
    (set_content d l (copy_from_slice content offset buf), Ok tt).

Definition nosync_write_at (d : NoSyncStorage D) (b : NoSyncBlob B) (offset : u64) (buf : bytes)
    : NoSyncStorage D * result unit RtError :=
  match b with
  | Memory l => memory_write d l offset buf
  | Passthrough blob =>
      let '(inner, r) := so_write_at (ns_inner d) blob offset buf in (set_inner d inner, r)
  end.

Definition nosync_write_at_sync (d : NoSyncStorage D) (b : NoSyncBlob B) (offset : u64) (buf : bytes)
    : NoSyncStorage D * result unit RtError :=
  match b with
  | Memory l => memory_write d l offset buf
  | Passthrough blob =>
      let '(inner, r) := so_write_at_sync (ns_inner d) blob offset buf in (set_inner d inner, r)
  end.

Definition nosync_resize (d : NoSyncStorage D) (b : NoSyncBlob B) (n : u64)
    : NoSyncStorage D * result unit RtError :=
  match b with
  | Memory l => (set_content d l (vec_resize (content_of d l) n), Ok tt)
  | Passthrough blob =>
      let '(inner, r) := so_resize (ns_inner d) blob n in (set_inner d inner, r)
  end.

Definition nosync_sync (d : NoSyncStorage D) (b : NoSyncBlob B) : NoSyncStorage D * result unit RtError :=
  match b with
  | Memory _ => (d, Ok tt)
  | Passthrough blob => let '(inner, r) := so_sync (ns_inner d) blob in (set_inner d inner, r)
  end.

(** The wrapper is a storage itself. *)
#[export] Instance nosync_storage : StorageOps (NoSyncStorage D) (NoSyncBlob B) := {|
  so_open_versioned := nosync_open_versioned;
  so_remove := nosync_remove;
  so_scan := nosync_scan;
  so_read_at := nosync_read_at;
  so_write_at := nosync_write_at;
  so_write_at_sync := nosync_write_at_sync;
  so_resize := nosync_resize;
  so_sync := nosync_sync;
|}.
End nosync.

(** ** Files *)

(** The address that a name of a scratch partition is linked to, and the file
    there: the wrapper seen as a map from names to contents. *)
Definition link_of {D} (d : NoSyncStorage D) (p : string) (n : bytes) : option Z :=
  ns_partitions d !! p ≫= (fun m => m !! n).
Definition file_of {D} (d : NoSyncStorage D) (p : string) (n : bytes) : option bytes :=
  content_of d <$> link_of d p n.

(** Names have addresses of their own, below the next one. *)
Definition scratch_ok {D} (d : NoSyncStorage D) : Prop :=
  (forall p n l, link_of d p n = Some l -> l < ns_next d)
  /\ (forall p n p' n' l, link_of d p n = Some l -> link_of d p' n' = Some l -> p = p' /\ n = n').

(** States of the wrapper that the node can be in. *)
Inductive scratch_reach {D B} `{SO : !StorageOps D B} : NoSyncStorage D -> Prop :=
| sr_new inner interval : scratch_reach (nosync_new inner interval)
| sr_open d p n vs : scratch_reach d -> scratch_reach (fst (nosync_open_versioned d p n vs))
| sr_remove d p on : scratch_reach d -> scratch_reach (fst (nosync_remove d p on))
| sr_write d (b : NoSyncBlob B) o buf : scratch_reach d -> scratch_reach (fst (nosync_write_at d b o buf))
| sr_write_sync d (b : NoSyncBlob B) o buf :
    scratch_reach d -> scratch_reach (fst (nosync_write_at_sync d b o buf))
| sr_resize d (b : NoSyncBlob B) n : scratch_reach d -> scratch_reach (fst (nosync_resize d b n))
| sr_sync d (b : NoSyncBlob B) : scratch_reach d -> scratch_reach (fst (nosync_sync d b)).

(** The bytes after a write, by position. *)
Definition written (content : bytes) (offset : nat) (buf : bytes) (i : nat) : option Z :=
  if decide (offset <= i < offset + length buf)%nat then buf !! (i - offset)%nat
  else if decide (i < length content)%nat then content !! i
  else if decide (i < offset)%nat then Some 0 else None.

Section files.
Context {D B : Type} `{SO : !StorageOps D B}.
Implicit Types d : NoSyncStorage D.

Lemma link_of_insert d p n l p' n' inner ci hp nx :
  link_of (mkNoSync inner (<[p := <[n := l]> (default ∅ (ns_partitions d !! p))]> (ns_partitions d)) ci hp nx : NoSyncStorage D) p' n'
  = if decide (p = p' /\ n = n') then Some l else link_of d p' n'.
Proof.
  unfold link_of. cbn. destruct (decide (p = p')) as [<-|Hp].
  - rewrite lookup_insert_eq. cbn. destruct (decide (n = n')) as [<-|Hn].
    + rewrite lookup_insert_eq. by rewrite decide_True.
    + rewrite lookup_insert_ne by done. rewrite decide_False by tauto.
      by destruct (ns_partitions d !! p).
  - rewrite lookup_insert_ne by done. by rewrite decide_False by tauto.
Qed.

Lemma content_of_set d l c l' :
  content_of (set_content d l c) l' = if decide (l = l') then c else content_of d l'.
Proof.
  unfold content_of. cbn. destruct (decide (l = l')) as [<-|];
    [by rewrite lookup_insert_eq|by rewrite lookup_insert_ne].
Qed.

(** A change of a linked content changes that file and no other. *)
Lemma file_of_set d p n l c p' n' :
  scratch_ok d -> link_of d p n = Some l ->
  file_of (set_content d l c) p' n' = if decide (p = p' /\ n = n') then Some c else file_of d p' n'.
Proof.
  intros [_ Hinj] Hl. unfold file_of. change (link_of (set_content d l c) p' n') with (link_of d p' n').
  destruct (decide (p = p' /\ n = n')) as [[<- <-]|Hne].
  - rewrite Hl. cbn. by rewrite content_of_set, decide_True.
  - destruct (link_of d p' n') as [l'|] eqn:Hl'; [|done]. cbn. rewrite content_of_set.
    rewrite decide_False; [done|]. intros <-. apply Hne. by eapply Hinj.
Qed.

(** Opening a scratch blob: its content if it has one, else an empty blob; no
    other file changes and the storage below is not touched. *)
Lemma nosync_open_spec d p n vs :
  scratch_ok d -> is_durable_partition p = false ->
  exists d' l, nosync_open_versioned d p n vs = (d', Ok (Memory l, len (default [] (file_of d p n)), snd vs))
    /\ link_of d' p n = Some l /\ scratch_ok d' /\ ns_inner d' = ns_inner d
    /\ forall p' n', file_of d' p' n'
         = if decide (p = p' /\ n = n') then Some (default [] (file_of d p n)) else file_of d p' n'.
Proof.
  intros [Hnext Hinj] Hp. unfold nosync_open_versioned. rewrite Hp.
  assert (Hlk : default ∅ (ns_partitions d !! p) !! n = link_of d p n)
    by (unfold link_of; by destruct (ns_partitions d !! p)).
  rewrite Hlk. destruct (link_of d p n) as [l|] eqn:Hl.
  - exists d, l. unfold file_of. rewrite Hl. do 4 (split; [done|]).
    intros p' n'. destruct (decide _) as [[<- <-]|]; [by rewrite Hl|done].
  - eexists _, _. split; [unfold file_of; rewrite Hl; reflexivity|]. split; [|split; [split|split; [done|]]].
    + rewrite link_of_insert. by rewrite decide_True.
    + intros p' n' l'. rewrite link_of_insert. cbn. destruct (decide _); [intros [= <-]; lia|].
      intros Hl'%Hnext. lia.
    + intros p1 n1 p2 n2 l'. rewrite !link_of_insert.
      destruct (decide _) as [[<- <-]|], (decide _) as [[<- <-]|]; [done|..]; intros.
      * simplify_eq. match goal with H : link_of _ _ _ = Some _ |- _ => apply Hnext in H end. lia.
      * simplify_eq. match goal with H : link_of _ _ _ = Some _ |- _ => apply Hnext in H end. lia.
      * by eapply Hinj.
    + intros p' n'. unfold file_of. rewrite link_of_insert. destruct (decide _) as [[<- <-]|].
      * rewrite Hl. cbn. unfold content_of. cbn. by rewrite lookup_insert_eq.
      * destruct (link_of d p' n') as [l'|] eqn:Hl'; [|done]. cbn. unfold content_of. cbn.
        apply Hnext in Hl'. by rewrite lookup_insert_ne by lia.
Qed.

Lemma written_spec content offset buf i :
  0 <= offset ->
  copy_from_slice (if len content <? offset + len buf then vec_resize content (offset + len buf) else content)
    offset buf !! i = written content (Z.to_nat offset) buf i.
Proof.
  intros H0. unfold copy_from_slice, written, len. set (o := Z.to_nat offset).
  match goal with |- context [take o ?x] => set (c := x) end.
  assert (Hlen : (o + length buf <= length c)%nat).
  { subst c. destruct (_ <? _) eqn:Hlt; unfold vec_resize; [rewrite length_resize|]; lia. }
  assert (Hc : forall j, c !! j = if decide (j < length content)%nat then content !! j
    else if decide (j < o + length buf)%nat then Some 0 else None).
  { intros j. subst c. destruct (_ <? _) eqn:Hlt; [apply Z.ltb_lt in Hlt|apply Z.ltb_ge in Hlt].
    - unfold vec_resize. destruct (decide (j < length content)%nat).
      + apply lookup_resize; lia.
      + destruct (decide _); [apply lookup_resize_new; lia|apply lookup_resize_old; lia].
    - destruct (decide (j < length content)%nat); [done|].
      rewrite decide_False by lia. apply lookup_ge_None_2. lia. }
  destruct (decide (i < o)%nat).
  - rewrite lookup_app_l by (rewrite length_take; lia). rewrite lookup_take_lt by lia. rewrite Hc.
    rewrite (decide_False (P := (o <= i < _)%nat)) by lia. destruct (decide _); [done|].
    by rewrite decide_True by lia.
  - rewrite lookup_app_r by (rewrite length_take; lia). rewrite length_take.
    replace (o `min` length c)%nat with o by lia. destruct (decide (i < o + length buf)%nat).
    + rewrite lookup_app_l by lia. by rewrite decide_True by lia.
    + rewrite lookup_app_r by lia. rewrite lookup_drop, Hc.
      replace (o + length buf + (i - o - length buf))%nat with i by lia.
      rewrite (decide_False (P := (o <= i < _)%nat)) by lia.
      destruct (decide _); [done|]. by rewrite decide_False by lia.
Qed.

Lemma scratch_ok_same d d' :
  ns_partitions d' = ns_partitions d -> ns_next d' = ns_next d -> scratch_ok d -> scratch_ok d'.
Proof. unfold scratch_ok, link_of. by intros -> ->. Qed.

Lemma scratch_ok_sub d ps :
  (forall p n l, ps !! p ≫= (fun m : gmap bytes Z => m !! n) = Some l -> link_of d p n = Some l) ->
  scratch_ok d -> scratch_ok (set_partitions d ps).
Proof.
  intros Hsub [Hn Hi]. split.
  - intros p n l Hl. apply (Hn p n l), Hsub, Hl.
  - intros p n p' n' l Hl Hl'. apply (Hi p n p' n' l); by apply Hsub.
Qed.

Lemma scratch_ok_remove d p on : scratch_ok d -> scratch_ok (fst (nosync_remove d p on)).
Proof.
  intros Hok. unfold nosync_remove. destruct (is_durable_partition p).
  { destruct (so_remove _ _ _). by apply (scratch_ok_same d). }
  destruct on as [n|]; apply scratch_ok_sub; try done; intros p' n' l; unfold link_of.
  - destruct (decide (p = p')) as [<-|Hp]; [|by rewrite lookup_alter_ne].
    rewrite lookup_alter_eq. destruct (ns_partitions d !! p) as [m|]; [|done]. cbn.
    by intros [_ ?]%lookup_delete_Some.
  - destruct (decide (p = p')) as [<-|Hp]; [by rewrite lookup_delete_eq|by rewrite lookup_delete_ne].
Qed.

Lemma scratch_ok_open d p n vs : scratch_ok d -> scratch_ok (fst (nosync_open_versioned d p n vs)).
Proof.
  intros Hok. destruct (is_durable_partition p) eqn:Hp.
  - unfold nosync_open_versioned. rewrite Hp. destruct (so_open_versioned _ _ _ _).
    by apply (scratch_ok_same d).
  - by destruct (nosync_open_spec d p n vs Hok Hp) as (d' & l & -> & _ & ? & _).
Qed.

Lemma scratch_ok_blob d (b : NoSyncBlob B) (f : NoSyncStorage D * result unit RtError) :
  (exists o buf, f = nosync_write_at d b o buf \/ f = nosync_write_at_sync d b o buf)
  \/ (exists n, f = nosync_resize d b n) \/ f = nosync_sync d b ->
  ns_partitions (fst f) = ns_partitions d /\ ns_next (fst f) = ns_next d.
Proof.
  intros [(o & buf & [-> | ->])|[[n ->]| ->]]; destruct b as [l|blob]; simpl; unfold memory_write;
    repeat case_match; done.
Qed.

Lemma scratch_reach_ok d : scratch_reach d -> scratch_ok d.
Proof.
  induction 1; try (eapply scratch_ok_same; [apply (scratch_ok_blob _ b)..|done]; eauto 6; fail).
  - unfold scratch_ok, link_of. cbn. split; intros *; by rewrite lookup_empty.
  - by apply scratch_ok_open.
  - by apply scratch_ok_remove.
Qed.

Lemma memory_write_spec d p n l offset buf :
  scratch_ok d -> link_of d p n = Some l -> 0 <= offset -> offset + len buf <= u64_max ->
  exists d' content', memory_write d l offset buf = (d', Ok tt)
    /\ ns_inner d' = ns_inner d /\ link_of d' p n = Some l /\ content_of d' l = content'
    /\ (forall i, content' !! i = written (content_of d l) (Z.to_nat offset) buf i)
    /\ forall p' n', file_of d' p' n' = if decide (p = p' /\ n = n') then Some content' else file_of d p' n'.
Proof.
  intros Hok Hl H0 Hmax. unfold memory_write. rewrite (proj2 (Z.ltb_ge _ _)) by done.
  eexists _, _. split; [reflexivity|]. do 2 (split; [done|]).
  split; [rewrite content_of_set, decide_True by done; reflexivity|].
  split; [intros i; by apply written_spec|]. intros p' n'. by apply file_of_set.
Qed.

Lemma written_length content o buf c :
  (forall i, c !! i = written content o buf i) -> length c = max (length content) (o + length buf).
Proof.
  intros Hc. apply Nat.le_antisymm.
  - apply Nat.nlt_ge. intros Hn.
    destruct (lookup_lt_is_Some_2 c (max (length content) (o + length buf))) as [x Hx]; [lia|].
    rewrite Hc in Hx. unfold written in Hx. by rewrite !decide_False in Hx by lia.
  - apply Nat.nlt_ge. intros Hlt. assert (Hx : c !! length c = None) by (apply lookup_ge_None_2; lia).
    rewrite Hc in Hx. unfold written in Hx.
    destruct (decide _); [apply lookup_ge_None_1 in Hx; lia|].
    destruct (decide _); [apply lookup_ge_None_1 in Hx; lia|]. destruct (decide _); [done|lia].
Qed.

Lemma memory_read_back d l offset (buf : bytes) :
  offset + len buf <= u64_max -> 0 <= offset -> offset + len buf <= len (content_of d l) ->
  (forall i, (i < length buf)%nat -> content_of d l !! (Z.to_nat offset + i)%nat = buf !! i) ->
  nosync_read_at d (Memory l) offset (len buf) = Ok buf.
Proof.
  intros Hmax H0 Hlen Hb. unfold nosync_read_at.
  rewrite (proj2 (Z.ltb_ge _ _)) by done. rewrite (proj2 (Z.ltb_ge _ _)) by done. f_equal.
  unfold len in *. rewrite Nat2Z.id. apply list_eq. intros i. destruct (decide (i < length buf)%nat).
  - rewrite lookup_take_lt, lookup_drop by done. by apply Hb.
  - rewrite lookup_take_ge by lia. symmetry. apply lookup_ge_None_2. lia.
Qed.

Lemma nosync_reopen d p n vs l :
  is_durable_partition p = false -> link_of d p n = Some l ->
  nosync_open_versioned d p n vs = (d, Ok (Memory l, len (content_of d l), snd vs)).
Proof.
  intros Hp Hl. unfold nosync_open_versioned. rewrite Hp. unfold link_of in Hl.
  destruct (ns_partitions d !! p) as [m|]; [|done]. cbn in Hl |- *. by rewrite Hl.
Qed.

(** Scratch blobs behave as files: in any state of the node's scratch storage,
    a blob opened and written reads back what was written and has the old
    bytes, or zeros past the old end, everywhere else; every holder that opens
    the name again gets the blob with its new length; other files and the
    storage below are as before. *)
Theorem scratch_blob_is_file d p n vs d1 b size version offset buf :
  scratch_reach d -> is_durable_partition p = false ->
  nosync_open_versioned d p n vs = (d1, Ok (b, size, version)) ->
  0 <= offset -> offset + len buf <= u64_max ->
  exists d2 content, nosync_write_at d1 b offset buf = (d2, Ok tt)
    /\ file_of d2 p n = Some content
    /\ (forall i, content !! i = written (default [] (file_of d p n)) (Z.to_nat offset) buf i)
    /\ nosync_read_at d2 b offset (len buf) = Ok buf
    /\ nosync_open_versioned d2 p n vs = (d2, Ok (b, Z.max size (offset + len buf), snd vs))
    /\ (forall p' n', ~ (p = p' /\ n = n') -> file_of d2 p' n' = file_of d p' n')
    /\ ns_inner d2 = ns_inner d.
Proof.
  intros Hr%scratch_reach_ok Hp Hopen H0 Hmax.
  destruct (nosync_open_spec d p n vs Hr Hp) as (d1' & l & Heq & Hl & Hok & Hin & Hf).
  rewrite Hopen in Heq. injection Heq as <- -> -> ->.
  destruct (memory_write_spec d1 p n l offset buf Hok Hl H0 Hmax)
    as (d2 & c & Hw & Hin2 & Hl2 & Hc2 & Hc & Hf2).
  assert (Hold : content_of d1 l = default [] (file_of d p n)).
  { specialize (Hf p n). unfold file_of at 1 in Hf. rewrite Hl, decide_True in Hf by done. by injection Hf. }
  rewrite Hold in Hc. pose proof (written_length _ _ _ _ Hc) as Hlen.
  exists d2, c. split; [done|]. split; [rewrite Hf2; by rewrite decide_True|]. split; [done|].
  split; [|split; [|split; [|by rewrite Hin2]]].
  - apply memory_read_back; [done|lia| |]; rewrite Hc2; [unfold len; lia|].
    intros i Hi. rewrite Hc. unfold written. rewrite decide_True by lia. f_equal. lia.
  - rewrite (nosync_reopen d2 p n vs l Hp Hl2), Hc2. unfold len. rewrite Hlen. do 4 f_equal. lia.
  - intros p' n' Hne. rewrite Hf2, decide_False by done. by rewrite Hf, decide_False.
Qed.
End files.

(** ** Names *)

Lemma bytes_cmp_opp a b : bytes_cmp b a = CompOpp (bytes_cmp a b).
Proof.
  revert b. induction a as [|x a IH]; intros [|y b]; [done..|]. simpl.
  rewrite (Z.compare_antisym x y). destruct (x ?= y); simpl; [apply IH|done..].
Qed.

Lemma bytes_cmp_eq a b : bytes_cmp a b = Eq -> a = b.
Proof.
  revert b. induction a as [|x a IH]; intros [|y b]; [done..|]. simpl.
  destruct (x ?= y) eqn:Hxy; [|done..]. simpl. intros Hab%IH. apply Z.compare_eq in Hxy. by subst.
Qed.

Lemma bytes_cmp_trans a b c :
  cmp_le bytes_cmp a b -> cmp_le bytes_cmp b c -> cmp_le bytes_cmp a c.
Proof.
  unfold cmp_le. revert b c. induction a as [|x a IH]; intros [|y b] [|z c]; simpl; [done..|].
  destruct (Z.compare_spec x y), (Z.compare_spec y z), (Z.compare_spec x z);
    simpl; try done; try lia; apply IH.
Qed.

#[export] Instance bytes_cmp_order : CmpOrder bytes_cmp.
Proof. split; [intros; apply bytes_cmp_opp|apply bytes_cmp_trans]. Qed.

Section names.
Context {D B : Type} `{SO : !StorageOps D B}.
Implicit Types d : NoSyncStorage D.

(** A scan lists the files of a scratch partition, each once, in order. *)
Lemma nosync_scan_spec d p :
  is_durable_partition p = false ->
  exists l, nosync_scan d p = Ok l /\ NoDup l /\ StronglySorted (cmp_le bytes_cmp) l
    /\ forall n, n ∈ l <-> is_Some (file_of d p n).
Proof.
  intros Hp. unfold nosync_scan. rewrite Hp. eexists. split; [done|].
  split; [rewrite sort_by_perm; destruct (_ !! _) as [m|]; [apply NoDup_fst_map_to_list|constructor]|].
  split; [apply sort_by_sorted, _|]. intros n. rewrite sort_by_perm. unfold file_of, link_of.
  rewrite fmap_is_Some. destruct (ns_partitions d !! p) as [m|]; cbn; [|by rewrite elem_of_nil, <- not_eq_None_Some].
  rewrite list_elem_of_fmap. split.
  - intros ([n' l] & -> & Hl%elem_of_map_to_list). by exists l.
  - intros [l Hl]. exists (n, l). split; [done|]. by apply elem_of_map_to_list.
Qed.

(** A removed blob stays readable for its holders, while the name starts
    afresh. *)
Lemma nosync_remove_spec d p n l vs :
  scratch_ok d -> is_durable_partition p = false -> link_of d p n = Some l ->
  exists d', nosync_remove d p (Some n) = (d', Ok tt) /\ file_of d' p n = None
    /\ (forall p' n', ~ (p = p' /\ n = n') -> file_of d' p' n' = file_of d p' n')
    /\ (forall o k, nosync_read_at d' (Memory l) o k = nosync_read_at d (Memory l) o k)
    /\ exists d'' l', nosync_open_versioned d' p n vs = (d'', Ok (Memory l', 0, snd vs)).
Proof.
  intros Hok Hp Hl. pose proof (scratch_ok_remove d p (Some n) Hok) as Hok'.
  unfold nosync_remove in *. rewrite Hp in *. eexists. split; [done|]. simpl in Hok'.
  assert (Hnone : file_of (set_partitions d (alter (delete n) p (ns_partitions d))) p n = None).
  { unfold file_of, link_of. cbn. rewrite lookup_alter_eq. destruct (ns_partitions d !! p); [|done].
    cbn. by rewrite lookup_delete_eq. }
  split; [done|]. split; [|split; [done|]].
  - intros p' n' Hne. unfold file_of, link_of. cbn. destruct (decide (p = p')) as [<-|];
      [|by rewrite lookup_alter_ne]. rewrite lookup_alter_eq.
    destruct (ns_partitions d !! p); [|done]. cbn. rewrite lookup_delete_ne; [done|naive_solver].
  - destruct (nosync_open_spec _ p n vs Hok' Hp) as (d'' & l' & Ho & _). rewrite Hnone in Ho. eauto.
Qed.

(** The metadata of the marshal goes to the storage below, through and through. *)
Lemma durable_passthrough d p n vs d1 b size version :
  is_durable_partition p = true ->
  nosync_open_versioned d p n vs = (d1, Ok (b, size, version)) ->
  exists blob, b = Passthrough blob
    /\ so_open_versioned (ns_inner d) p n vs = (ns_inner d1, Ok (blob, size, version))
    /\ (forall p' n', file_of d1 p' n' = file_of d p' n')
    /\ forall o buf, nosync_write_at_sync d1 b o buf
         = (let '(inner, r) := so_write_at_sync (ns_inner d1) blob o buf in (set_inner d1 inner, r)).
Proof.
  intros Hp. unfold nosync_open_versioned. rewrite Hp.
  destruct (so_open_versioned _ _ _ _) as [inner [[[blob s] v]|e]]; [|done].
  intros [= <- <- <- <-]. by exists blob.
Qed.
End names.

(** ** Examples *)

(** A storage that has no disk. *)
#[export] Instance no_disk : StorageOps unit unit := {|
  so_open_versioned d _ _ _ := (d, Err (OtherError 0));
  so_remove d _ _ := (d, Err (OtherError 0));
  so_scan _ _ := Err (OtherError 0);
  so_read_at _ _ _ _ := Err (OtherError 0);
  so_write_at d _ _ _ := (d, Err (OtherError 0));
  so_write_at_sync d _ _ _ := (d, Err (OtherError 0));
  so_resize d _ _ := (d, Err (OtherError 0));
  so_sync d _ := (d, Err (OtherError 0));
|}.

Lemma scratch_blob_is_file_witness :
  exists d1 (b : NoSyncBlob unit) size version d2 content,
    nosync_open_versioned (nosync_new tt 8) "journal" [1] (0, 3) = (d1, Ok (b, size, version))
    /\ nosync_write_at d1 b 2 [7; 8] = (d2, Ok tt)
    /\ file_of d2 "journal" [1] = Some content /\ content !! 0%nat = Some 0
    /\ nosync_read_at d2 b 2 2 = Ok [7; 8].
Proof.
  pose (d1 := fst (nosync_open_versioned (B := unit) (nosync_new tt 8) "journal" [1] (0, 3))).
  destruct (scratch_blob_is_file (nosync_new tt 8) "journal" [1] (0, 3) d1 (Memory 0) 0 3 2 [7; 8]
    ltac:(constructor) ltac:(vm_compute; reflexivity) ltac:(vm_compute; reflexivity)
    ltac:(lia) ltac:(vm_compute; discriminate)) as (d2 & c & Hw & Hf & Hc & Hrd & _).
  exists d1, (Memory 0), 0, 3, d2, c. split; [vm_compute; reflexivity|]. split; [exact Hw|].
  split; [exact Hf|]. split; [rewrite Hc; reflexivity|exact Hrd].
Defined.
