(* ===== verification/Archive.v ===== *)
(** The archives of finalized blocks and certificates
    (crates/network/marshal/src/archive.rs): the wrapper that passes the
    marshal's syncs on to the disk at checkpoints, and the removal of the
    partitions of the former archive format.  The wrapped archive is
    commonware-storage's and is the class [ArchiveOps]. *)
From S2P Require Import Prelude Scratch.

#[local] Set Default Proof Using "Type*".

(** ** The wrapped archive *)

Inductive Identifier (K : Type) := IdIndex (index : u64) | IdKey (key : K).
Arguments IdIndex {K} index.
Arguments IdKey {K} key.

(** The operations of commonware-storage's archives that the code uses.
    [ar_items] are the values that can be read, [ar_durable] those that a
    crash cannot take away. *)
Class ArchiveOps (A K V E : Type) := {
  ar_put : A -> u64 -> K -> V -> A * result unit E;
  ar_get : A -> Identifier K -> result (option V) E;
  ar_ranges : A -> list (u64 * u64);
  ar_last_index : A -> option u64;
  ar_sync : A -> A * result unit E;
  ar_prune : A -> u64 -> A * result unit E;
  ar_items : A -> gmap u64 V;
  ar_durable : A -> gmap u64 V;
}.

(** What the library documents: the ranges are the maximal runs of the indices
    present, in order; a put keeps the first value of an index and makes
    nothing durable; a sync makes everything durable; a prune removes indices
    below its bound and no others. *)
Class ArchiveLaws (A K V E : Type) {OPS : ArchiveOps A K V E} := {
  law_ranges a i :
    is_Some (ar_items a !! i) <-> exists s e, (s, e) ∈ ar_ranges a /\ s <= i <= e;
  law_sorted a : StronglySorted (fun r r' => r.2 + 1 < r'.1) (ar_ranges a);
  law_nonempty a s e : (s, e) ∈ ar_ranges a -> s <= e;
  law_get a i r : ar_get a (IdIndex i) = Ok r -> r = ar_items a !! i;
  law_put a i k v a' : ar_put a i k v = (a', Ok tt) ->
    ar_items a' = (if decide (is_Some (ar_items a !! i)) then ar_items a
                   else <[i := v]> (ar_items a))
    /\ ar_durable a' = ar_durable a;
  law_sync a a' : ar_sync a = (a', Ok tt) ->
    ar_items a' = ar_items a /\ ar_durable a' = ar_items a;
  law_prune a m a' : ar_prune a m = (a', Ok tt) ->
    exists P : gset u64, (forall i, i ∈ P -> i < m)
      /\ forall i, ar_items a' !! i = (if decide (i ∈ P) then None else ar_items a !! i)
                 /\ ar_durable a' !! i = (if decide (i ∈ P) then None else ar_durable a !! i);
}.

(** ** The wrapper *)

Record CheckpointedArchive (A : Type) := mkCheckpointed {
  ca_inner : A;
  ca_checkpoint_interval : u64;
  ca_highest_dirty : option u64;
}.
Arguments mkCheckpointed {A}.
Arguments ca_inner {A}.
Arguments ca_checkpoint_interval {A}.
Arguments ca_highest_dirty {A}.

Section wrapper.
Context {A K V E : Type} `{OPS : !ArchiveOps A K V E}.

Definition checkpointed_new (inner : A) (checkpoint_interval : u64) : CheckpointedArchive A :=
  mkCheckpointed inner (if checkpoint_interval =? 0 then 1 else checkpoint_interval) None.

Definition mark_dirty (c : CheckpointedArchive A) (height : u64) : CheckpointedArchive A :=
  mkCheckpointed (ca_inner c) (ca_checkpoint_interval c)
    (Some (match ca_highest_dirty c with
           | Some existing => Z.max existing height
           | None => height
           end)).

(** The walk over the ranges; [expected] is where the next range has to start,
    unless none was seen yet. *)
Fixpoint contiguous_walk (target : u64) (expected : option u64) (ranges : list (u64 * u64)) : bool :=
  match ranges with
  | [] => false
  | (start, end_) :: ranges =>
      let too_far := match expected with Some x => x <? start | None => target <? start end in
      if too_far then false
      else if target <=? end_ then true
      else contiguous_walk target (if end_ <? u64_max then Some (end_ + 1) else None) ranges
  end.

Definition is_contiguous_through (c : CheckpointedArchive A) (target : u64) : bool :=
  contiguous_walk target None (ar_ranges (ca_inner c)).

Definition should_sync (c : CheckpointedArchive A) : bool :=
  match ca_highest_dirty c with
  | Some height =>
      if ca_checkpoint_interval c <=? 1 then is_contiguous_through c height
      else
        let boundary := height / ca_checkpoint_interval c * ca_checkpoint_interval c in
        (0 <? boundary) && is_contiguous_through c boundary
  | None => false
  end.

Definition checkpointed_put (c : CheckpointedArchive A) (index : u64) (key : K) (value : V)
    : CheckpointedArchive A * result unit E :=
  let '(inner, r) := ar_put (ca_inner c) index key value in
  let c := mkCheckpointed inner (ca_checkpoint_interval c) (ca_highest_dirty c) in
  match r with
  | Err e => (c, Err e)
  | Ok _ => (mark_dirty c index, Ok tt)
  end.

Definition checkpointed_sync (c : CheckpointedArchive A) : CheckpointedArchive A * result unit E :=
  if should_sync c then
    let '(inner, r) := ar_sync (ca_inner c) in
    match r with
    | Err e => (mkCheckpointed inner (ca_checkpoint_interval c) (ca_highest_dirty c), Err e)
    | Ok _ => (mkCheckpointed inner (ca_checkpoint_interval c) None, Ok tt)
    end
  else (c, Ok tt).

Definition checkpointed_prune (c : CheckpointedArchive A) (min : u64)
    : CheckpointedArchive A * result unit E :=
  let '(inner, r) := ar_prune (ca_inner c) min in
  (mkCheckpointed inner (ca_checkpoint_interval c) (ca_highest_dirty c), r).

(** Reads go to the wrapped archive. *)
Definition checkpointed_get (c : CheckpointedArchive A) (id : Identifier K) : result (option V) E :=
  ar_get (ca_inner c) id.
Definition checkpointed_last_index (c : CheckpointedArchive A) : option u64 :=
  ar_last_index (ca_inner c).
End wrapper.

(** A step of the marshal on its archive: a put, a sync or a prune that does
    not fail. *)
Inductive archive_op (K V : Type) :=
| OpPut (index : u64) (key : K) (value : V)
| OpSync
| OpPrune (min : u64).
Arguments OpPut {K V}.
Arguments OpSync {K V}.
Arguments OpPrune {K V}.

Section runs.
Context {A K V E : Type} `{OPS : !ArchiveOps A K V E}.

Definition archive_step (c : CheckpointedArchive A) (op : archive_op K V)
    : CheckpointedArchive A * result unit E :=
  match op with
  | OpPut index key value => checkpointed_put c index key value
  | OpSync => checkpointed_sync c
  | OpPrune min => checkpointed_prune c min
  end.

Inductive archive_reach (a : A) (interval : u64) : CheckpointedArchive A -> Prop :=
| reach_open : archive_reach a interval (checkpointed_new a interval)
| reach_step c op c' :
    archive_reach a interval c ->
    match op with OpPut index _ _ => 0 <= index <= u64_max | _ => True end ->
    archive_step c op = (c', Ok tt) -> archive_reach a interval c'.

(** Every block is put and synced, in the order of the list. *)
Fixpoint store_blocks (c : CheckpointedArchive A) (blocks : list (u64 * K * V))
    : result (CheckpointedArchive A) E :=
  match blocks with
  | [] => Ok c
  | (i, k, v) :: blocks =>
      let '(c, r) := checkpointed_put c i k v in
      match r with
      | Err e => Err e
      | Ok _ =>
          let '(c, r) := checkpointed_sync c in
          match r with Err e => Err e | Ok _ => store_blocks c blocks end
      end
  end.
End runs.

(** What the walk over the ranges is meant to decide: there is no gap between
    the first index present and [t]. *)
Definition contiguous_from_first {V} (items : gmap u64 V) (t : u64) : Prop :=
  exists f, f <= t /\ (forall i, is_Some (items !! i) -> f <= i)
    /\ forall i, f <= i <= t -> is_Some (items !! i).

(** What the storage's documentation says of the operations the migration
    uses, with [names] the blobs of a partition. *)
Record storage_laws {D B} `{SO : !StorageOps D B} (names : D -> string -> list bytes) : Prop := {
  sl_scan d p l : so_scan d p = Ok l -> l = names d p;
  sl_remove d p d' : so_remove d p None = (d', Ok tt) -> names d' p = [];
  sl_other d p d' r p' : so_remove d p None = (d', r) -> p' <> p -> names d' p' = names d p';
}.

Definition block_item {K V} (b : u64 * K * V) : u64 * V := (b.1.1, b.2).

(** An archive without a disk, an instance of the interface. *)
Record MemArchive (V : Type) := mkMem { ma_items : gmap u64 V; ma_durable : gmap u64 V }.
Arguments mkMem {V}.
Arguments ma_items {V}.
Arguments ma_durable {V}.

Fixpoint runs (l : list u64) : list (u64 * u64) :=
  match l with
  | [] => []
  | i :: l =>
      match runs l with
      | (s, e) :: rs => if s =? i + 1 then (i, e) :: rs else (i, i) :: (s, e) :: rs
      | [] => [(i, i)]
      end
  end.

Definition index_list {V} (m : gmap u64 V) : list u64 := merge_sort Z.le (map_to_list m).*1.

#[export] Instance mem_archive_ops V : ArchiveOps (MemArchive V) unit V unit := {|
  ar_put a i _ v :=
    (if decide (is_Some (ma_items a !! i)) then a
     else mkMem (<[i := v]> (ma_items a)) (ma_durable a), Ok tt);
  ar_get a id := Ok (match id with IdIndex i => ma_items a !! i | IdKey _ => None end);
  ar_ranges a := runs (index_list (ma_items a));
  ar_last_index a := last (index_list (ma_items a));
  ar_sync a := (mkMem (ma_items a) (ma_items a), Ok tt);
  ar_prune a m :=
    (mkMem (filter (fun iv => ~ iv.1 < m) (ma_items a))
           (filter (fun iv => ~ iv.1 < m) (ma_durable a)), Ok tt);
  ar_items := ma_items;
  ar_durable := ma_durable;
|}.

(** ** Migration *)

Definition LEGACY_IMMUTABLE_SUFFIXES : list string :=
  ["-metadata"; "-freezer-table"; "-freezer-key"; "-freezer-value"; "-ordinal"]%string.

Section migration.
Context {D B : Type} `{SO : !StorageOps D B}.

Definition migrate_one (partition_prefix : string) (st : D * usize) (suffix : string) : D * usize :=
  let '(ctx, removed) := st in
  let partition_name := (partition_prefix +:+ suffix)%string in
  match so_scan ctx partition_name with
  | Ok (_ :: _) =>
      match so_remove ctx partition_name None with
      | (ctx, Err _) => (ctx, removed)
      | (ctx, Ok _) => (ctx, removed + 1)
      end
  | _ => (ctx, removed)
  end.

Definition migrate_from_immutable (ctx : D) (partition_prefix : string) : D * usize :=
  foldl (migrate_one partition_prefix) (ctx, 0) LEGACY_IMMUTABLE_SUFFIXES.
End migration.

(** ** The walk over the ranges *)

Section walk.
Context {A K V E : Type} {OPS : ArchiveOps A K V E} {LAWS : ArchiveLaws A K V E}.
Implicit Types c : CheckpointedArchive A.

(** Maximal runs are apart: the first one decides. *)
Lemma walk_head t rs :
  t <= u64_max -> StronglySorted (fun r r' : u64 * u64 => r.2 + 1 < r'.1) rs ->
  contiguous_walk t None rs
  = match rs with (s, e) :: _ => (s <=? t) && (t <=? e) | [] => false end.
Proof.
  intros Ht Hs. destruct rs as [|[s e] rs]; [done|]. cbn -[u64_max].
  rewrite (Z.leb_antisym t s). destruct (t <? s) eqn:Hst; [done|]. cbn -[u64_max].
  destruct (t <=? e) eqn:Hte; [done|]. apply Z.leb_gt in Hte.
  rewrite (proj2 (Z.ltb_lt e u64_max)) by lia.
  destruct rs as [|[s' e'] rs]; [done|]. cbn.
  apply StronglySorted_inv in Hs as [_ Hs]. apply Forall_cons in Hs as [Hs _]. simpl in Hs.
  by rewrite (proj2 (Z.ltb_lt (e + 1) s')) by lia.
Qed.

Lemma contiguous_spec c t :
  t <= u64_max ->
  is_contiguous_through c t = true <-> contiguous_from_first (ar_items (ca_inner c)) t.
Proof.
  intros Ht. unfold is_contiguous_through. pose proof (law_sorted (ca_inner c)) as Hs.
  rewrite walk_head by done. pose proof (law_ranges (ca_inner c)) as Hr.
  pose proof (law_nonempty (ca_inner c)) as Hne.
  destruct (ar_ranges (ca_inner c)) as [|[s e] rs].
  { split; [done|]. intros (f & Hf & _ & Hall).
    destruct (proj1 (Hr f) (Hall f ltac:(lia))) as (? & ? & []%elem_of_nil & _). }
  apply StronglySorted_inv in Hs as [_ Hs]. rewrite Forall_forall in Hs.
  assert (Hse : s <= e) by (apply Hne; set_solver).
  assert (Hmin : forall i, is_Some (ar_items (ca_inner c) !! i) -> s <= i /\ (e < i -> e + 1 < i)).
  { intros i Hi. apply Hr in Hi as (s' & e' & [[= -> ->]|Hin]%elem_of_cons & ?); [lia|].
    specialize (Hs _ Hin). simpl in Hs. lia. }
  rewrite andb_true_iff, !Z.leb_le. split.
  - intros [??]. exists s. split; [done|]. split; [intros i Hi; apply Hmin, Hi|].
    intros i Hi. apply Hr. exists s, e. split; [set_solver|lia].
  - intros (f & Hf & Hle & Hall).
    assert (f <= s) by (apply Hle, Hr; exists s, e; split; [set_solver|lia]).
    split; [pose proof (Hmin f (Hall f ltac:(lia))); lia|].
    destruct (decide (t <= e)); [done|].
    pose proof (Hmin (e + 1) (Hall (e + 1) ltac:(lia))). lia.
Qed.
End walk.

(** ** Durability *)

Section durable.
Context {A K V E : Type} {OPS : ArchiveOps A K V E} {LAWS : ArchiveLaws A K V E}.
Implicit Types c : CheckpointedArchive A.

(** Values that a crash can take away are at or below the highest dirty height. *)
Definition dirty_inv (interval : u64) c : Prop :=
  ca_checkpoint_interval c = Z.max 1 interval
  /\ match ca_highest_dirty c with
     | None => forall i v, ar_items (ca_inner c) !! i = Some v -> ar_durable (ca_inner c) !! i = Some v
     | Some h => 0 <= h <= u64_max
         /\ forall i v, ar_items (ca_inner c) !! i = Some v ->
              ar_durable (ca_inner c) !! i = Some v \/ i <= h
     end.

(** When a sync goes to the disk. *)
Lemma should_sync_spec c h :
  1 <= ca_checkpoint_interval c -> ca_highest_dirty c = Some h -> 0 <= h <= u64_max ->
  should_sync c = true <->
  (1 < ca_checkpoint_interval c -> ca_checkpoint_interval c <= h)
  /\ contiguous_from_first (ar_items (ca_inner c))
       (h / ca_checkpoint_interval c * ca_checkpoint_interval c).
Proof.
  intros Hi Hh Hb. unfold should_sync. rewrite Hh.
  set (n := ca_checkpoint_interval c) in *.
  pose proof (Z.mul_div_le h n ltac:(lia)) as Hle.
  destruct (n <=? 1) eqn:Hn.
  - apply Z.leb_le in Hn. assert (n = 1) as -> by lia. rewrite Z.div_1_r, Z.mul_1_r.
    rewrite contiguous_spec by lia. naive_solver lia.
  - apply Z.leb_gt in Hn. rewrite andb_true_iff, Z.ltb_lt, contiguous_spec by lia.
    enough (0 < h / n * n <-> n <= h) by naive_solver.
    split; intros Hx.
    + assert (0 < h / n) by nia. pose proof (Z.mul_div_le h n ltac:(lia)). nia.
    + assert (0 < h / n) by (apply Z.div_str_pos; lia). nia.
Qed.

Lemma dirty_inv_new a interval :
  0 <= interval -> ar_items a = ar_durable a -> dirty_inv interval (checkpointed_new a interval).
Proof.
  intros Hi Ha. unfold dirty_inv, checkpointed_new. cbn [ca_checkpoint_interval ca_highest_dirty ca_inner].
  split; [destruct (interval =? 0) eqn:H0; lia|]. by rewrite Ha.
Qed.

Lemma dirty_inv_put interval c i k v c' :
  dirty_inv interval c -> 0 <= i <= u64_max -> checkpointed_put c i k v = (c', Ok tt) ->
  dirty_inv interval c'.
Proof.
  intros [Hn Hd] Hi. unfold checkpointed_put. destruct (ar_put _ _ _ _) as [a' r] eqn:Hput.
  destruct r as [[]|e]; [|done]. intros [= <-]. apply law_put in Hput as [Hit Hdu].
  split; [done|]. cbn [ca_checkpoint_interval ca_highest_dirty ca_inner mark_dirty].
  rewrite Hit, Hdu. split; [destruct (ca_highest_dirty c); lia|].
  intros j w. destruct (decide _) as [Hs|Hs].
  - intros Hj. destruct (ca_highest_dirty c) as [h|]; [|auto].
    destruct (proj2 Hd _ _ Hj); [auto|right; lia].
  - intros [[<- <-]|[Hne Hj]]%lookup_insert_Some; [right; destruct (ca_highest_dirty c); lia|].
    destruct (ca_highest_dirty c) as [h|]; [|auto]. destruct (proj2 Hd _ _ Hj); [auto|right; lia].
Qed.

Lemma dirty_inv_sync interval c c' :
  dirty_inv interval c -> checkpointed_sync c = (c', Ok tt) -> dirty_inv interval c'.
Proof.
  intros [Hn Hd]. unfold checkpointed_sync. destruct (should_sync c); [|by intros [= <-]].
  destruct (ar_sync _) as [a' r] eqn:Hsy. destruct r as [[]|e]; [|done]. intros [= <-].
  apply law_sync in Hsy as [Hit Hdu]. split; [done|]. cbn [ca_highest_dirty ca_inner].
  by rewrite Hit, Hdu.
Qed.

Lemma dirty_inv_prune interval c m c' :
  dirty_inv interval c -> checkpointed_prune c m = (c', Ok tt) -> dirty_inv interval c'.
Proof.
  intros [Hn Hd]. unfold checkpointed_prune. destruct (ar_prune _ _) as [a' r] eqn:Hpr.
  intros [= <- ->]. apply law_prune in Hpr as (P & _ & HP). split; [done|].
  cbn [ca_highest_dirty ca_inner].
  assert (Hk : forall i v, ar_items a' !! i = Some v ->
    ar_items (ca_inner c) !! i = Some v /\ ar_durable a' !! i = ar_durable (ca_inner c) !! i).
  { intros i v. destruct (HP i) as [-> ->]. by destruct (decide _). }
  destruct (ca_highest_dirty c) as [h|].
  - destruct Hd as [Hb Hd]. split; [done|]. intros i v [Hi ->]%Hk. by apply Hd.
  - intros i v [Hi ->]%Hk. by apply Hd.
Qed.

Lemma dirty_inv_reach a interval c :
  0 <= interval -> ar_items a = ar_durable a -> archive_reach a interval c -> dirty_inv interval c.
Proof.
  intros Hi Ha. induction 1 as [|c op c' _ IH Hop Hst]; [by apply dirty_inv_new|].
  destruct op; simpl in Hst; eauto using dirty_inv_put, dirty_inv_sync, dirty_inv_prune.
Qed.

(** A successful sync of an archive that was opened and used in any way leaves
    every value on disk, unless no checkpoint was reached since the last one
    that went to the disk or a gap below the checkpoint is still open.  In that
    case nothing changes, and the values at risk are at or below the highest
    height written. *)
Theorem checkpoint_sync_durable a interval c c' :
  0 <= interval -> ar_items a = ar_durable a -> archive_reach a interval c ->
  checkpointed_sync c = (c', Ok tt) ->
  ar_items (ca_inner c') = ar_items (ca_inner c)
  /\ ((forall i v, ar_items (ca_inner c') !! i = Some v -> ar_durable (ca_inner c') !! i = Some v)
      \/ exists h, ca_highest_dirty c = Some h /\ c' = c
         /\ (forall i v, ar_items (ca_inner c') !! i = Some v ->
               ar_durable (ca_inner c') !! i = Some v \/ i <= h)
         /\ (1 < interval /\ h < interval
             \/ ~ contiguous_from_first (ar_items (ca_inner c)) (h / Z.max 1 interval * Z.max 1 interval))).
Proof.
  intros Hi Ha Hre Hsy. destruct (dirty_inv_reach _ _ _ Hi Ha Hre) as [Hn Hd].
  unfold checkpointed_sync in Hsy. destruct (should_sync c) eqn:Hss.
  - destruct (ar_sync _) as [a' r] eqn:Hs. destruct r as [[]|e]; [|done]. injection Hsy as <-.
    apply law_sync in Hs as [Hit Hdu]. cbn [ca_inner]. rewrite Hit, Hdu. auto.
  - injection Hsy as <-. split; [done|]. destruct (ca_highest_dirty c) as [h|] eqn:Hh; [|by left].
    destruct Hd as [Hb Hd]. right. exists h. do 3 (split; [done|]).
    pose proof (should_sync_spec c h ltac:(lia) Hh Hb) as Hspec. rewrite Hn in Hspec.
    destruct (decide (1 < interval /\ h < interval)) as [?|Hlt]; [by left|right].
    intros Hc. destruct Hspec as [_ Hspec]. rewrite Hspec in Hss; [done|]. split; [lia|done].
Qed.
End durable.

(** ** Blocks that arrive in order *)

Section in_order.
Context {A K V E : Type} {OPS : ArchiveOps A K V E} {LAWS : ArchiveLaws A K V E}.
Implicit Types c : CheckpointedArchive A.

(** The state after [n] blocks that were stored one by one. *)
Definition in_order_inv (a : A) (interval : u64) (items : gmap u64 V) (n : Z) c : Prop :=
  ca_checkpoint_interval c = Z.max 1 interval
  /\ ar_items (ca_inner c) = items
  /\ if decide (n < Z.max 1 interval)
     then ar_durable (ca_inner c) = ar_durable a
          /\ ca_highest_dirty c = (if decide (n = 0) then None else Some n)
     else ar_durable (ca_inner c) = items /\ ca_highest_dirty c = None.

Lemma store_blocks_snoc c blocks b c' :
  store_blocks c (blocks ++ [b]) = Ok c' ->
  exists c1 c2, store_blocks c blocks = Ok c1
    /\ checkpointed_put c1 b.1.1 b.1.2 b.2 = (c2, Ok tt) /\ checkpointed_sync c2 = (c', Ok tt).
Proof.
  revert c. induction blocks as [|[[i k] v] blocks IH]; intros c; simpl.
  - destruct b as [[i k] v]. destruct (checkpointed_put _ _ _ _) as [c2 [[]|]] eqn:Hp; [|done].
    destruct (checkpointed_sync c2) as [c3 [[]|]] eqn:Hs; [|done]. intros [= <-].
    exists c, c2. done.
  - destruct (checkpointed_put c i k v) as [c2 [[]|]]; [|done].
    destruct (checkpointed_sync c2) as [c3 [[]|]]; [|done]. apply IH.
Qed.

Lemma prefix_contiguous (items : gmap u64 V) m t :
  (forall i, is_Some (items !! i) <-> 1 <= i <= m) -> 1 <= t <= m -> contiguous_from_first items t.
Proof.
  intros Hdom Ht. exists 1. split; [lia|]. split; intros i Hi; [apply Hdom in Hi|apply Hdom]; lia.
Qed.

Lemma prefix_insert (items : gmap u64 V) n v :
  0 <= n -> (forall i, is_Some (items !! i) <-> 1 <= i <= n) ->
  forall i, is_Some (<[n + 1 := v]> items !! i) <-> 1 <= i <= n + 1.
Proof.
  intros H0 Hdom i. rewrite lookup_insert_is_Some, Hdom. lia.
Qed.

Lemma boundary_between h n : 1 <= n <= h -> 1 <= h / n * n <= h.
Proof.
  intros Hn. pose proof (Z.mul_div_le h n ltac:(lia)).
  assert (0 < h / n) by (apply Z.div_str_pos; lia). nia.
Qed.

(** One more block in order: it stays in memory below the first checkpoint and
    goes to the disk from there on. *)
Lemma in_order_step a interval items n k v c c1 c2 :
  0 <= n -> n + 1 <= u64_max -> (forall i, is_Some (items !! i) <-> 1 <= i <= n) ->
  in_order_inv a interval items n c ->
  checkpointed_put c (n + 1) k v = (c1, Ok tt) -> checkpointed_sync c1 = (c2, Ok tt) ->
  in_order_inv a interval (<[n + 1 := v]> items) (n + 1) c2.
Proof.
  intros H0 Hmax Hdom (Hn & Hit & Hst). unfold checkpointed_put.
  destruct (ar_put _ _ _ _) as [a1 r] eqn:Hput. destruct r as [[]|e]; [|done]. intros [= <-].
  apply law_put in Hput as [Hit1 Hdu1]. rewrite Hit in Hit1.
  rewrite decide_False in Hit1 by (rewrite Hdom; lia).
  set (c1 := mark_dirty _ _).
  assert (Hh : ca_highest_dirty c1 = Some (n + 1)).
  { subst c1. cbn. destruct (decide (n < _)) in Hst; destruct Hst as [_ ->]; [|done].
    destruct (decide _); [done|]. f_equal. lia. }
  pose proof (should_sync_spec c1 (n + 1) ltac:(cbn; lia) Hh ltac:(lia)) as Hspec.
  cbn [c1 mark_dirty ca_checkpoint_interval ca_inner] in Hspec. rewrite Hn, Hit1 in Hspec.
  unfold checkpointed_sync. destruct (should_sync c1) eqn:Hss.
  - destruct (ar_sync _) as [a2 r] eqn:Hsy. destruct r as [[]|e]; [|done]. intros [= <-].
    apply law_sync in Hsy as [Hit2 Hdu2]. cbn in Hit2, Hdu2. rewrite Hit1 in Hit2, Hdu2.
    destruct Hspec as [Hspec _]. destruct (Hspec eq_refl) as [Hle _].
    split; [done|]. split; [done|]. rewrite decide_False by lia. done.
  - intros [= <-]. assert (Hlt : n + 1 < Z.max 1 interval).
    { destruct (decide (n + 1 < Z.max 1 interval)) as [|Hge]; [done|].
      enough (false = true) by done. apply Hspec. split; [lia|].
      apply (prefix_contiguous _ (n + 1)); [by apply prefix_insert|].
      apply boundary_between; lia. }
    split; [done|]. split; [done|]. rewrite decide_True by done.
    rewrite decide_True in Hst by lia. cbn [ca_inner c1 mark_dirty]. rewrite Hdu1.
    split; [apply Hst|]. rewrite decide_False by lia. exact Hh.
Qed.

Lemma block_items_snoc (blocks : list (u64 * K * V)) i k v :
  (list_to_map (block_item <$> blocks) : gmap u64 V) !! i = None ->
  (list_to_map (block_item <$> blocks ++ [(i, k, v)]) : gmap u64 V)
  = <[i := v]> (list_to_map (block_item <$> blocks)).
Proof.
  intros Hi. rewrite fmap_app. apply list_to_map_snoc. by apply not_elem_of_list_to_map.
Qed.

Lemma in_order_run a interval blocks c :
  0 <= interval -> ar_items a = ∅ -> Z.of_nat (length blocks) <= u64_max ->
  blocks.*1.*1 = seqZ 1 (Z.of_nat (length blocks)) ->
  store_blocks (checkpointed_new a interval) blocks = Ok c ->
  let items := list_to_map (block_item <$> blocks) in
  (forall i, is_Some (items !! i) <-> 1 <= i <= Z.of_nat (length blocks))
  /\ in_order_inv a interval items (Z.of_nat (length blocks)) c.
Proof.
  intros Hi Ha. revert c. induction blocks as [|[[i k] v] blocks IH] using rev_ind; intros c Hlen Hseq Hrun.
  { injection Hrun as <-. simpl. split; [intros i; rewrite lookup_empty; split; [by intros []|lia]|].
    unfold in_order_inv, checkpointed_new. cbn [ca_checkpoint_interval ca_inner ca_highest_dirty].
    split; [destruct (interval =? 0) eqn:?; lia|]. split; [done|]. by rewrite decide_True by lia. }
  rewrite length_app in Hlen, Hseq |- *. simpl in Hlen, Hseq |- *.
  replace (Z.of_nat (length blocks + 1)) with (Z.of_nat (length blocks) + 1) in * by lia.
  rewrite !fmap_app, seqZ_app in Hseq by lia.
  apply app_inj_2 in Hseq as [Hseq [= ->]]; [|done].
  apply store_blocks_snoc in Hrun as (c1 & c2 & Hrun & Hput & Hsy).
  destruct (IH c1 ltac:(lia) Hseq Hrun) as [Hdom Hinv].
  replace (1 + Z.of_nat (length blocks)) with (Z.of_nat (length blocks) + 1) in * by lia.
  rewrite block_items_snoc by (apply eq_None_not_Some; rewrite Hdom; lia).
  split; [apply prefix_insert; [lia|done]|]. eapply in_order_step; [lia..|done|exact Hinv|exact Hput|exact Hsy].
Qed.

(** C28: blocks that arrive in order, each put and then synced, are all readable;
    below the first checkpoint none of them is on disk, and from the first
    checkpoint on every one of them is, after each block and not only after
    those at a multiple of the interval. *)
Theorem in_order_durability a interval blocks c :
  0 <= interval -> ar_items a = ∅ -> Z.of_nat (length blocks) <= u64_max ->
  blocks.*1.*1 = seqZ 1 (Z.of_nat (length blocks)) ->
  store_blocks (checkpointed_new a interval) blocks = Ok c ->
  ar_items (ca_inner c) = list_to_map (block_item <$> blocks)
  /\ (Z.of_nat (length blocks) < Z.max 1 interval -> ar_durable (ca_inner c) = ar_durable a)
  /\ (Z.max 1 interval <= Z.of_nat (length blocks) ->
      ar_durable (ca_inner c) = list_to_map (block_item <$> blocks)).
Proof.
  intros Hi Ha Hlen Hseq Hrun.
  destruct (in_order_run _ _ _ _ Hi Ha Hlen Hseq Hrun) as [_ (_ & Hit & Hst)].
  split; [done|]. destruct (decide _) in Hst; split; intros; try lia; apply Hst.
Qed.
End in_order.

(** ** The archive in memory keeps the laws *)

Lemma runs_head l : head (runs l).*1 = head l.
Proof. destruct l as [|i l]; [done|]. simpl. destruct (runs l) as [|[s e] rs]; [done|]. by destruct (s =? i + 1). Qed.

Lemma runs_spec l :
  StronglySorted Z.lt l ->
  StronglySorted (fun r r' : u64 * u64 => r.2 + 1 < r'.1) (runs l)
  /\ Forall (fun r => r.1 <= r.2) (runs l)
  /\ forall i, i ∈ l <-> exists s e, (s, e) ∈ runs l /\ s <= i <= e.
Proof.
  induction l as [|x l IH]; intros Hs.
  { split; [constructor|]. split; [constructor|]. intros i. set_solver. }
  apply StronglySorted_inv in Hs as [Hs Hx]. destruct (IH Hs) as (H1 & H2 & H3).
  pose proof (runs_head l) as Hh. simpl. destruct (runs l) as [|[s e] rs].
  { destruct l as [|? ?]; [|done]. split; [repeat constructor|]. split; [repeat constructor; simpl; lia|].
    intros i. rewrite list_elem_of_singleton. split; [intros ->; exists x, x; split; [set_solver|lia]|].
    intros (s & e & [= -> ->]%list_elem_of_singleton & ?). lia. }
  apply StronglySorted_inv in H1 as [H1 Hse]. apply Forall_cons in H2 as [H2 Hrs]. simpl in H2.
  assert (Hxs : x < s).
  { rewrite Forall_forall in Hx. apply Hx. destruct l; [done|]. injection Hh as <-. set_solver. }
  destruct (s =? x + 1) eqn:Heq.
  - apply Z.eqb_eq in Heq. split; [by constructor|]. split; [constructor; [simpl; lia|done]|].
    intros i. rewrite elem_of_cons, H3. split.
    + intros [->|(s' & e' & [[= -> ->]|Hin]%elem_of_cons & ?)].
      * exists x, e. split; [set_solver|lia].
      * exists x, e. split; [set_solver|lia].
      * exists s', e'. split; [set_solver|lia].
    + intros (s' & e' & [[= -> ->]|Hin]%elem_of_cons & ?).
      * destruct (decide (i = x)); [by left|right]. exists s, e. split; [set_solver|lia].
      * right. exists s', e'. split; [set_solver|lia].
  - apply Z.eqb_neq in Heq. split; [|split].
    + constructor; [by constructor|]. constructor; [simpl; lia|].
      eapply Forall_impl; [exact Hse|]. intros r. simpl. lia.
    + constructor; [simpl; lia|by constructor].
    + intros i. rewrite elem_of_cons, H3. split.
      * intros [->|(s' & e' & Hin & ?)]; [exists x, x|exists s', e']; (split; [set_solver|lia]).
      * intros (s' & e' & [[= -> ->]|Hin]%elem_of_cons & ?); [left; lia|right; eauto].
Qed.

Lemma index_list_sorted {V} (m : gmap u64 V) : StronglySorted Z.lt (index_list m).
Proof.
  assert (Hnd : NoDup (index_list m)).
  { unfold index_list. rewrite merge_sort_Permutation. apply NoDup_fst_map_to_list. }
  assert (Hle : StronglySorted Z.le (index_list m)) by apply (StronglySorted_merge_sort Z.le _).
  revert Hnd Hle. generalize (index_list m). clear m.
  induction l as [|x l IH]; intros Hnd Hle; [constructor|].
  apply NoDup_cons in Hnd as [Hx Hnd]. apply StronglySorted_inv in Hle as [Hle Hxl].
  constructor; [auto|]. rewrite Forall_forall in Hxl |- *. intros y Hy.
  specialize (Hxl y Hy). destruct (decide (x = y)) as [->|]; [done|lia].
Qed.

Lemma elem_of_index_list {V} (m : gmap u64 V) i : i ∈ index_list m <-> is_Some (m !! i).
Proof.
  unfold index_list. rewrite merge_sort_Permutation, list_elem_of_fmap. split.
  - intros ([j v] & -> & Hin%elem_of_map_to_list). by exists v.
  - intros [v Hv]. exists (i, v). split; [done|]. by apply elem_of_map_to_list.
Qed.

#[export] Instance mem_archive_laws V : ArchiveLaws (MemArchive V) unit V unit.
Proof.
  split; intros a; cbn -[runs];
    pose proof (runs_spec _ (index_list_sorted (ma_items a))) as (H1 & H2 & H3).
  - intros i. by rewrite <- elem_of_index_list, H3.
  - done.
  - rewrite Forall_forall in H2. intros s e Hin. apply (H2 _ Hin).
  - by intros i r [= <-].
  - intros i _ v a' [= <-]. by destruct (decide _).
  - by intros a' [= <-].
  - intros m a' [= <-]. cbn.
    exists (filter (fun i => i < m) (dom (ma_items a) ∪ dom (ma_durable a))).
    split; [intros i; by rewrite elem_of_filter; intros []|]. intros i.
    assert (Hf : forall mp : gmap u64 V, (forall j, j ∈ dom mp -> j ∈ dom (ma_items a) ∪ dom (ma_durable a)) ->
      filter (fun iv : u64 * V => ~ iv.1 < m) mp !! i
      = if decide (i ∈ filter (fun i => i < m) (dom (ma_items a) ∪ dom (ma_durable a))) then None
        else mp !! i).
    { intros mp Hsub. destruct (decide _) as [Hin|Hin].
      - apply elem_of_filter in Hin as [Hi _]. apply map_lookup_filter_None. right. intros ? _ Hn. by apply Hn.
      - destruct (mp !! i) as [v|] eqn:Hl.
        + apply map_lookup_filter_Some. split; [done|]. intros Hlt. apply Hin, elem_of_filter.
          split; [exact Hlt|]. apply Hsub. by apply elem_of_dom_2 in Hl.
        + apply map_lookup_filter_None. by left. }
    split; apply Hf; set_solver.
Qed.

(** Blocks 1 to 3 with an interval of 2: block 3 is on disk although no
    checkpoint is at its height. *)
Lemma in_order_durability_witness :
  exists c, store_blocks (checkpointed_new (mkMem ∅ ∅ : MemArchive Z) 2) [(1, tt, 10); (2, tt, 20); (3, tt, 30)] = Ok c
  /\ ar_durable (ca_inner c) !! 3 = Some 30 /\ 3 mod 2 <> 0.
Proof.
  eexists. split; [vm_compute; reflexivity|]. split; [|done].
  match goal with |- ar_durable (ca_inner ?c) !! _ = _ =>
    pose proof (in_order_durability (mkMem ∅ ∅ : MemArchive Z) 2 [(1, tt, 10); (2, tt, 20); (3, tt, 30)] c
      ltac:(lia) eq_refl ltac:(vm_compute; discriminate) eq_refl ltac:(vm_compute; reflexivity)) as (_ & _ & H) end.
  rewrite H by (simpl; lia). reflexivity.
Defined.

(** An archive with a gap: block 2 is missing, so the sync at block 4 leaves
    block 4 in memory. *)
Definition gap_base : CheckpointedArchive (MemArchive Z) :=
  fst (archive_step (E := unit) (checkpointed_new (mkMem ∅ ∅) 2) (OpPut 1 tt 10)).
Definition gap_archive : CheckpointedArchive (MemArchive Z) :=
  fst (archive_step (E := unit) gap_base (OpPut 4 tt 40)).

Lemma checkpoint_sync_durable_witness :
  should_sync gap_archive = false
  /\ exists h, ca_highest_dirty gap_archive = Some h
     /\ (h < 2 \/ ~ contiguous_from_first (ar_items (ca_inner gap_archive)) (h / 2 * 2)).
Proof.
  split; [vm_compute; reflexivity|].
  assert (Hr : archive_reach (mkMem ∅ ∅ : MemArchive Z) 2 gap_archive).
  { apply (reach_step _ _ gap_base (OpPut 4 tt 40)); [|vm_compute; split; discriminate|vm_compute; reflexivity].
    apply (reach_step _ _ (checkpointed_new (mkMem ∅ ∅) 2) (OpPut 1 tt 10)); [constructor|vm_compute; split; discriminate|vm_compute; reflexivity]. }
  destruct (checkpoint_sync_durable (OPS := mem_archive_ops Z) (mkMem ∅ ∅ : MemArchive Z) 2 gap_archive gap_archive
    ltac:(lia) ltac:(reflexivity) Hr ltac:(vm_compute; reflexivity)) as [_ [H|(h & Hh & _ & _ & H)]].
  - specialize (H 4 40 ltac:(vm_compute; reflexivity)). vm_compute in H. discriminate.
  - exists h. split; [exact Hh|]. destruct H as [[_ H]|H]; [by left|by right].
Defined.

(** ** The migration *)

Lemma filter_ext_elem {X} (P Q : X -> Prop) `{!forall x, Decision (P x), !forall x, Decision (Q x)} (l : list X) :
  (forall x, x ∈ l -> P x <-> Q x) -> filter P l = filter Q l.
Proof.
  induction l as [|x l IH]; intros Hpq; [done|]. rewrite !filter_cons.
  rewrite IH by (intros; apply Hpq; set_solver).
  pose proof (Hpq x ltac:(set_solver)). by destruct (decide (P x)), (decide (Q x)); try tauto.
Qed.

Section migrate.
Context {D B : Type} `{SO : !StorageOps D B} (names : D -> string -> list bytes) (LAW : storage_laws names).

Lemma migrate_one_other pre st s p :
  p <> (pre +:+ s)%string -> names (fst (migrate_one pre st s)) p = names (fst st) p.
Proof.
  intros Hp. destruct st as [d k]. unfold migrate_one. destruct (so_scan _ _) as [[|? ?]|]; [done| |done].
  destruct (so_remove _ _ _) as [d' [[]|]] eqn:Hr; by apply (sl_other _ LAW _ _ _ _ _ Hr).
Qed.

Lemma migrate_fold_other pre l st p :
  (forall s, s ∈ l -> p <> (pre +:+ s)%string) ->
  names (fst (foldl (migrate_one pre) st l)) p = names (fst st) p.
Proof.
  revert st. induction l as [|s l IH]; intros st Hp; [done|]. simpl.
  rewrite IH by (intros; apply Hp; set_solver). apply migrate_one_other, Hp. set_solver.
Qed.

Lemma prefix_inj pre s s' : (pre +:+ s)%string = (pre +:+ s')%string -> s = s'.
Proof. induction pre as [|c pre IH]; simpl; [done|]. by intros [= ?%IH]. Qed.

Lemma migrate_fold pre l st :
  NoDup l ->
  (forall d p, is_ok (so_scan d p) = true) -> (forall d p, is_ok (snd (so_remove d p None)) = true) ->
  (forall s, s ∈ l -> names (fst (foldl (migrate_one pre) st l)) (pre +:+ s)%string = [])
  /\ snd (foldl (migrate_one pre) st l)
     = snd st + len (filter (fun s => names (fst st) (pre +:+ s)%string <> []) l).
Proof.
  intros Hnd Hsc Hrm. revert st. induction Hnd as [|s l Hs Hnd IH]; intros st.
  { simpl. split; [set_solver|]. unfold len. simpl. lia. }
  simpl. destruct (IH (migrate_one pre st s)) as [IH1 IH2].
  assert (Hone : names (fst (migrate_one pre st s)) (pre +:+ s)%string = []
    /\ snd (migrate_one pre st s)
       = snd st + (if decide (names (fst st) (pre +:+ s)%string <> []) then 1 else 0)).
  { destruct st as [d k]. unfold migrate_one. simpl. specialize (Hsc d (pre +:+ s)%string).
    destruct (so_scan _ _) as [bl|] eqn:Hb; [|done]. apply (sl_scan _ LAW) in Hb. rewrite <- Hb.
    destruct bl; simpl; [split; [done|lia]|].
    specialize (Hrm d (pre +:+ s)%string). destruct (so_remove _ _ _) as [d' [[]|]] eqn:Hr; [|done].
    apply (sl_remove _ LAW) in Hr. done. }
  destruct Hone as [Hn Hk]. split.
  - intros s' [->|Hin]%elem_of_cons; [|by apply IH1]. rewrite migrate_fold_other; [done|].
    intros s' Hin He%prefix_inj. by subst.
  - rewrite IH2, Hk, filter_cons.
    assert (Hext : filter (fun s0 => names (fst (migrate_one pre st s)) (pre +:+ s0)%string <> []) l
      = filter (fun s0 => names (fst st) (pre +:+ s0)%string <> []) l).
    { apply filter_ext_elem. intros s' Hin.
      rewrite migrate_one_other; [done|]. intros He%prefix_inj. by subst. }
    rewrite Hext. destruct (decide _); unfold len; simpl; lia.
Qed.

(** The migration leaves no blob in the five partitions of the former format,
    reports how many of them had blobs, and touches no other partition, when
    the storage does not fail. *)
Theorem migration_correct d pre :
  (forall d p, is_ok (so_scan d p) = true) -> (forall d p, is_ok (snd (so_remove d p None)) = true) ->
  (forall s, s ∈ LEGACY_IMMUTABLE_SUFFIXES ->
     names (fst (migrate_from_immutable d pre)) (pre +:+ s)%string = [])
  /\ snd (migrate_from_immutable d pre)
     = len (filter (fun s => names d (pre +:+ s)%string <> []) LEGACY_IMMUTABLE_SUFFIXES)
  /\ forall p, (forall s, s ∈ LEGACY_IMMUTABLE_SUFFIXES -> p <> (pre +:+ s)%string) ->
       names (fst (migrate_from_immutable d pre)) p = names d p.
Proof.
  intros Hsc Hrm. destruct (migrate_fold pre LEGACY_IMMUTABLE_SUFFIXES (d, 0)) as [H1 H2]; [|done..|].
  { apply (bool_decide_unpack _). vm_compute. exact I. }
  split; [exact H1|]. split; [exact H2|]. intros p Hp. apply (migrate_fold_other pre _ (d, 0) p Hp).
Qed.
End migrate.
